(** * DART tasking runtime: a shallow embedding of the scheduler core

    The development follows the C sources of the runtime:
    - the task queue ([dart_tasking_taskqueue_*], in the sources at hand
      the second half of [dart_tasking_copyin.c]): the two-priority task
      queue built from doubly linked deques threaded through the task
      descriptors;
    - the scheduler ([dart__tasking__yield], [requeue_task],
      [dart__tasking__create_task], in the sources at hand the second half
      of [dart_tasking_instrumentation.c]);
    - [dart_tasking_context.c]: stack size selection and the per-thread
      context free lists;
    - [dart_tasking_copyin.c]: the size-keyed memory pool of the copy-in
      engine;
    - the send/receive active message queue ([dart_amsg_sendrecv_trysend],
      [amsg_sendrecv_process_internal], in the sources at hand in
      [GlobIter.h]).

    Pointers are [option addr] with [None] for [NULL]; the task
    descriptors live in a finite map from addresses to records. A C
    function that dereferences a pointer becomes a computation in a small
    state-and-failure monad over that map: it fails where the C code would
    dereference [NULL] or a dangling pointer, or where an assertion of the
    source does not hold. *)

From Stdlib Require Import ZArith Lia.
From stdpp Require Import gmap list.

Local Open Scope Z_scope.
Set Warnings "-clear-no-such-hyp".

(** ** Task descriptors *)

Definition addr := positive.
Abbreviation ptr := (option addr).
Abbreviation NULL := (@None addr).

(** Modelled from the spec: the task states of [dart_tasking_priv.h],
    which is not part of the sources at hand. *)
Inductive dart_task_state_t :=
| DART_TASK_ROOT
| DART_TASK_NASCENT
| DART_TASK_CREATED
| DART_TASK_QUEUED
| DART_TASK_DEFERRED
| DART_TASK_RUNNING
| DART_TASK_SUSPENDED
| DART_TASK_BLOCKED
| DART_TASK_DETACHED
| DART_TASK_FINISHED
| DART_TASK_CANCELLED
| DART_TASK_DESTROYED
| DART_TASK_DUMMY.

Global Instance dart_task_state_eq_dec : EqDecision dart_task_state_t.
Proof. solve_decision. Defined.

(** Modelled from the spec: the flag bits of a task; the macros
    [DART_TASK_HAS_FLAG] and [DART_TASK_SET_FLAG] test and set one of
    them. *)
Inductive dart_task_flag_t :=
| DART_TASK_HAS_REF
| DART_TASK_INLINE
| DART_TASK_IMMEDIATE
| DART_TASK_IS_COMMTASK
| DART_TASK_DATA_ALLOCATED.

Global Instance dart_task_flag_eq_dec : EqDecision dart_task_flag_t.
Proof. solve_decision. Defined.

(** The fields of [dart_task_t] that the modelled functions read or write;
    [wait_handle] records whether the pointer of that name is set. *)
Record dart_task_t := mkTask {
  next : ptr;
  prev : ptr;
  prio : Z;
  flags : list dart_task_flag_t;
  state : dart_task_state_t;
  parent : ptr;
  wait_handle : bool;
  taskctx : ptr;
  num_children : Z;
  phase : Z;
  unresolved_deps : Z;
  unresolved_remote_deps : Z;
  instance : Z;
  owner : Z;
  numaptr : option Z
}.

Definition set_next (v : ptr) (t : dart_task_t) : dart_task_t :=
  mkTask v (prev t) (prio t) (flags t) (state t) (parent t) (wait_handle t)
    (taskctx t) (num_children t) (phase t) (unresolved_deps t)
    (unresolved_remote_deps t) (instance t) (owner t) (numaptr t).

Definition set_prev (v : ptr) (t : dart_task_t) : dart_task_t :=
  mkTask (next t) v (prio t) (flags t) (state t) (parent t) (wait_handle t)
    (taskctx t) (num_children t) (phase t) (unresolved_deps t)
    (unresolved_remote_deps t) (instance t) (owner t) (numaptr t).

Definition set_prio (v : Z) (t : dart_task_t) : dart_task_t :=
  mkTask (next t) (prev t) v (flags t) (state t) (parent t) (wait_handle t)
    (taskctx t) (num_children t) (phase t) (unresolved_deps t)
    (unresolved_remote_deps t) (instance t) (owner t) (numaptr t).

Definition set_flags (v : list dart_task_flag_t) (t : dart_task_t) : dart_task_t :=
  mkTask (next t) (prev t) (prio t) v (state t) (parent t) (wait_handle t)
    (taskctx t) (num_children t) (phase t) (unresolved_deps t)
    (unresolved_remote_deps t) (instance t) (owner t) (numaptr t).

Definition set_state (v : dart_task_state_t) (t : dart_task_t) : dart_task_t :=
  mkTask (next t) (prev t) (prio t) (flags t) v (parent t) (wait_handle t)
    (taskctx t) (num_children t) (phase t) (unresolved_deps t)
    (unresolved_remote_deps t) (instance t) (owner t) (numaptr t).

Definition set_parent (v : ptr) (t : dart_task_t) : dart_task_t :=
  mkTask (next t) (prev t) (prio t) (flags t) (state t) v (wait_handle t)
    (taskctx t) (num_children t) (phase t) (unresolved_deps t)
    (unresolved_remote_deps t) (instance t) (owner t) (numaptr t).

Definition set_wait_handle (v : bool) (t : dart_task_t) : dart_task_t :=
  mkTask (next t) (prev t) (prio t) (flags t) (state t) (parent t) v
    (taskctx t) (num_children t) (phase t) (unresolved_deps t)
    (unresolved_remote_deps t) (instance t) (owner t) (numaptr t).

Definition set_taskctx (v : ptr) (t : dart_task_t) : dart_task_t :=
  mkTask (next t) (prev t) (prio t) (flags t) (state t) (parent t)
    (wait_handle t) v (num_children t) (phase t) (unresolved_deps t)
    (unresolved_remote_deps t) (instance t) (owner t) (numaptr t).

Definition set_num_children (v : Z) (t : dart_task_t) : dart_task_t :=
  mkTask (next t) (prev t) (prio t) (flags t) (state t) (parent t)
    (wait_handle t) (taskctx t) v (phase t) (unresolved_deps t)
    (unresolved_remote_deps t) (instance t) (owner t) (numaptr t).

Definition set_phase (v : Z) (t : dart_task_t) : dart_task_t :=
  mkTask (next t) (prev t) (prio t) (flags t) (state t) (parent t)
    (wait_handle t) (taskctx t) (num_children t) v (unresolved_deps t)
    (unresolved_remote_deps t) (instance t) (owner t) (numaptr t).

Definition set_unresolved_deps (v : Z) (t : dart_task_t) : dart_task_t :=
  mkTask (next t) (prev t) (prio t) (flags t) (state t) (parent t)
    (wait_handle t) (taskctx t) (num_children t) (phase t) v
    (unresolved_remote_deps t) (instance t) (owner t) (numaptr t).

Definition set_unresolved_remote_deps (v : Z) (t : dart_task_t) : dart_task_t :=
  mkTask (next t) (prev t) (prio t) (flags t) (state t) (parent t)
    (wait_handle t) (taskctx t) (num_children t) (phase t)
    (unresolved_deps t) v (instance t) (owner t) (numaptr t).

Definition set_instance (v : Z) (t : dart_task_t) : dart_task_t :=
  mkTask (next t) (prev t) (prio t) (flags t) (state t) (parent t)
    (wait_handle t) (taskctx t) (num_children t) (phase t)
    (unresolved_deps t) (unresolved_remote_deps t) v (owner t) (numaptr t).

Definition set_owner (v : Z) (t : dart_task_t) : dart_task_t :=
  mkTask (next t) (prev t) (prio t) (flags t) (state t) (parent t)
    (wait_handle t) (taskctx t) (num_children t) (phase t)
    (unresolved_deps t) (unresolved_remote_deps t) (instance t) v
    (numaptr t).

Definition set_numaptr (v : option Z) (t : dart_task_t) : dart_task_t :=
  mkTask (next t) (prev t) (prio t) (flags t) (state t) (parent t)
    (wait_handle t) (taskctx t) (num_children t) (phase t)
    (unresolved_deps t) (unresolved_remote_deps t) (instance t) (owner t) v.

Definition DART_TASK_HAS_FLAG (t : dart_task_t) (f : dart_task_flag_t) : bool :=
  bool_decide (f ∈ flags t).

Definition DART_TASK_SET_FLAG (f : dart_task_flag_t) (t : dart_task_t) : dart_task_t :=
  set_flags (f :: flags t) t.

(** ** The memory of task descriptors and the monad of the C functions *)

Abbreviation heap := (gmap addr dart_task_t).

Definition M (A : Type) : Type := heap → option (A * heap).

Global Instance M_ret : MRet M := λ A a h, Some (a, h).
Global Instance M_bind : MBind M := λ A B f m h,
  match m h with
  | Some (a, h') => f a h'
  | None => None
  end.

(** [p->field] *)
Definition deref (p : ptr) : M dart_task_t := λ h,
  match p with
  | Some a => match h !! a with Some t => Some (t, h) | None => None end
  | None => None
  end.

(** [p->field = v] *)
Definition assign (p : ptr) (f : dart_task_t → dart_task_t) : M unit := λ h,
  match p with
  | Some a =>
      match h !! a with
      | Some t => Some (tt, <[a := f t]> h)
      | None => None
      end
  | None => None
  end.

(** [DART_ASSERT(cond)]: the program aborts when the condition fails. *)
Definition DART_ASSERT (cond : bool) : M unit := λ h,
  if cond then Some (tt, h) else None.

Definition is_null (p : ptr) : bool :=
  match p with None => true | Some _ => false end.

Definition ptr_eqb (p q : ptr) : bool := bool_decide (p = q).

(** ** Task deques (the task queue part of [dart_tasking_copyin.c]) *)

Record task_deque := mkDeque {
  head : ptr;
  tail : ptr
}.

Record dart_taskqueue_t := mkQueue {
  lowprio : task_deque;
  highprio : task_deque
}.

Definition deque_ok (deque : task_deque) : bool :=
  (negb (is_null (head deque)) && negb (is_null (tail deque)))
  || (is_null (head deque) && is_null (tail deque)).

Definition task_deque_pop (deque : task_deque) : M (ptr * task_deque) :=
  let task := head deque in
  deque' ←
    (if negb (is_null (head deque)) then
       DART_ASSERT (negb (is_null (head deque)) && negb (is_null (tail deque)));;
       deque1 ←
         (if ptr_eqb (head deque) (tail deque) then
            mret (mkDeque NULL NULL)
          else
            t ← deref task;
            (* simply advance the head pointer *)
            let deque1 := mkDeque (next t) (tail deque) in
            (* the head has no previous element *)
            assign (head deque1) (set_prev NULL);;
            mret deque1);
       assign task (set_prev NULL);;
       assign task (set_next NULL);;
       mret deque1
     else mret deque);
  (* post condition *)
  DART_ASSERT (deque_ok deque');;
  mret (task, deque').

Definition task_deque_push (deque : task_deque) (task : ptr) : M task_deque :=
  deque' ←
    (if is_null (head deque) then
       (* task queue previously empty *)
       mret (mkDeque task task)
     else
       assign task (set_next (head deque));;
       assign (head deque) (set_prev task);;
       mret (mkDeque task (tail deque)));
  DART_ASSERT (negb (is_null (head deque')) && negb (is_null (tail deque')));;
  mret deque'.

Definition task_deque_pushback (deque : task_deque) (task : ptr) : M task_deque :=
  deque' ←
    (if is_null (head deque) then
       (* task queue previously empty *)
       mret (mkDeque task task)
     else
       assign task (set_prev (tail deque));;
       assign (tail deque) (set_next task);;
       mret (mkDeque (head deque) task));
  DART_ASSERT (negb (is_null (head deque')) && negb (is_null (tail deque')));;
  mret deque'.

(** The loop [while (tmp != NULL && count++ < pos) tmp = tmp->next;] of
    [task_deque_insert]: it runs at most [pos] times, so [pos] is its
    fuel. *)
Fixpoint insert_seek (pos : nat) (tmp : ptr) : M ptr :=
  match pos with
  | O => mret tmp
  | S pos' =>
      if is_null tmp then mret tmp
      else t ← deref tmp; insert_seek pos' (next t)
  end.

Definition task_deque_insert (deque : task_deque) (task : ptr) (pos : nat)
  : M task_deque :=
  (* insert at front? *)
  if (pos =? 0)%nat || is_null (head deque) then
    task_deque_push deque task
  else
    (* find the position to insert *)
    tmp ← insert_seek pos (head deque);
    tmp_next ← (if is_null tmp then mret NULL else t ← deref tmp; mret (next t));
    (* insert at back? *)
    if is_null tmp || is_null tmp_next then
      task_deque_pushback deque task
    else
      assign task (set_next NULL);;
      assign task (set_prev NULL);;
      (* insert somewhere in between! *)
      t ← deref tmp;
      assign task (set_next (next t));;
      t' ← deref task;
      assign (next t') (set_prev task);;
      assign task (set_prev tmp);;
      assign tmp (set_next task);;
      DART_ASSERT (negb (is_null (head deque)) && negb (is_null (tail deque)));;
      mret deque.

Definition task_deque_popback (deque : task_deque) : M (ptr * task_deque) :=
  if negb (is_null (tail deque)) then
    DART_ASSERT (negb (is_null (head deque)) && negb (is_null (tail deque)));;
    let task := tail deque in
    t ← deref task;
    let deque1 := mkDeque (head deque) (prev t) in
    deque2 ←
      (if is_null (tail deque1) then
         (* stealing the last element in the queue *)
         mret (mkDeque NULL (tail deque1))
       else
         assign (tail deque1) (set_next NULL);;
         mret deque1);
    assign task (set_prev NULL);;
    assign task (set_next NULL);;
    mret (task, deque2)
  else mret (NULL, deque).

(** Returns the pair (dst, src) after the move. *)
Definition task_deque_move (dst src : task_deque) : M (task_deque * task_deque) :=
  if negb (is_null (head src)) && negb (is_null (tail src)) then
    dst1 ←
      (if negb (is_null (head dst)) then
         assign (tail src) (set_next (head dst));;
         assign (head dst) (set_prev (tail src));;
         mret dst
       else
         mret (mkDeque (head dst) (tail src)));
    mret (mkDeque (head src) (tail dst1), mkDeque NULL NULL)
  else mret (dst, src).

(** ** Task queues: a high- and a low-priority deque *)

(** The constants of [dart_tasking.h] and [dart_tasking_priv.h] that the
    sources at hand use but do not define. *)
Class dart_constants := {
  DART_PRIO_HIGH : Z;
  DART_PRIO_PARENT : Z;
  DART_PRIO_INLINE : Z;
  DART_PHASE_ANY : Z;
  (* the address of the static [root_task] *)
  root_task : addr;
  (* DART_TASK_STRUCT_SIZE - offsetof(dart_task_t, inline_data) *)
  DART_TASK_VAR_SPACE : Z
}.

Section TaskQueue.
Context `{dart_constants}.

Definition dart_tasking_taskqueue_init : dart_taskqueue_t :=
  mkQueue (mkDeque NULL NULL) (mkDeque NULL NULL).

Definition dart_tasking_taskqueue_push_unsafe
    (tq : dart_taskqueue_t) (task : ptr) : M dart_taskqueue_t :=
  DART_ASSERT (negb (is_null task));;
  DART_ASSERT (negb (ptr_eqb task (head (highprio tq)))
               && negb (ptr_eqb task (head (lowprio tq))));;
  assign task (set_next NULL);;
  assign task (set_prev NULL);;
  t ← deref task;
  if prio t =? DART_PRIO_HIGH then
    d ← task_deque_push (highprio tq) task; mret (mkQueue (lowprio tq) d)
  else
    d ← task_deque_push (lowprio tq) task; mret (mkQueue d (highprio tq)).

Definition dart_tasking_taskqueue_pop_unsafe
    (tq : dart_taskqueue_t) : M (ptr * dart_taskqueue_t) :=
  '(task, d) ← task_deque_pop (highprio tq);
  let tq := mkQueue (lowprio tq) d in
  if is_null task then
    '(task, d) ← task_deque_pop (lowprio tq);
    mret (task, mkQueue d (highprio tq))
  else mret (task, tq).

Definition dart_tasking_taskqueue_pushback_unsafe
    (tq : dart_taskqueue_t) (task : ptr) : M dart_taskqueue_t :=
  DART_ASSERT (negb (is_null task));;
  assign task (set_next NULL);;
  assign task (set_prev NULL);;
  t ← deref task;
  if prio t =? DART_PRIO_HIGH then
    d ← task_deque_pushback (highprio tq) task; mret (mkQueue (lowprio tq) d)
  else
    d ← task_deque_pushback (lowprio tq) task; mret (mkQueue d (highprio tq)).

Definition dart_tasking_taskqueue_insert_unsafe
    (tq : dart_taskqueue_t) (task : ptr) (pos : nat) : M dart_taskqueue_t :=
  DART_ASSERT (negb (is_null task));;
  assign task (set_next NULL);;
  assign task (set_prev NULL);;
  t ← deref task;
  if prio t =? DART_PRIO_HIGH then
    d ← task_deque_insert (highprio tq) task pos; mret (mkQueue (lowprio tq) d)
  else
    d ← task_deque_insert (lowprio tq) task pos; mret (mkQueue d (highprio tq)).

Definition dart_tasking_taskqueue_popback_unsafe
    (tq : dart_taskqueue_t) : M (ptr * dart_taskqueue_t) :=
  '(task, d) ← task_deque_popback (highprio tq);
  let tq := mkQueue (lowprio tq) d in
  if is_null task then
    '(task, d) ← task_deque_popback (lowprio tq);
    mret (task, mkQueue d (highprio tq))
  else mret (task, tq).

Definition dart_tasking_taskqueue_remove_unsafe
    (tq : dart_taskqueue_t) (task : ptr) : M dart_taskqueue_t :=
  if negb (is_null task) then
    t ← deref task;
    let prev_ := prev t in
    let next_ := next t in
    (if negb (is_null prev_) then assign prev_ (set_next next_) else mret tt);;
    (if negb (is_null next_) then assign next_ (set_prev prev_) else mret tt);;
    assign task (set_prev NULL);;
    assign task (set_next NULL);;
    let tq1 :=
      if ptr_eqb task (head (highprio tq)) then
        mkQueue (lowprio tq) (mkDeque next_ (tail (highprio tq)))
      else if ptr_eqb task (head (lowprio tq)) then
        mkQueue (mkDeque next_ (tail (lowprio tq))) (highprio tq)
      else tq in
    let tq2 :=
      if ptr_eqb task (tail (highprio tq1)) then
        mkQueue (lowprio tq1) (mkDeque (head (highprio tq1)) prev_)
      else if ptr_eqb task (tail (lowprio tq1)) then
        mkQueue (mkDeque (head (lowprio tq1)) prev_) (highprio tq1)
      else tq1 in
    mret tq2
  else mret tq.

(** Returns the pair (dst, src) after the move. *)
Definition dart_tasking_taskqueue_move_unsafe
    (dst src : dart_taskqueue_t) : M (dart_taskqueue_t * dart_taskqueue_t) :=
  '(dh, sh) ← task_deque_move (highprio dst) (highprio src);
  '(dl, sl) ← task_deque_move (lowprio dst) (lowprio src);
  mret (mkQueue dl dh, mkQueue sl sh).

(** The locking wrappers take the queue's mutex around the unsafe variant;
    in the sequential model they are the unsafe variant. *)
Definition dart_tasking_taskqueue_push := dart_tasking_taskqueue_push_unsafe.
Definition dart_tasking_taskqueue_pop := dart_tasking_taskqueue_pop_unsafe.
Definition dart_tasking_taskqueue_pushback := dart_tasking_taskqueue_pushback_unsafe.
Definition dart_tasking_taskqueue_insert := dart_tasking_taskqueue_insert_unsafe.
Definition dart_tasking_taskqueue_popback := dart_tasking_taskqueue_popback_unsafe.
Definition dart_tasking_taskqueue_move := dart_tasking_taskqueue_move_unsafe.
Definition dart_tasking_taskqueue_remove
    (tq : dart_taskqueue_t) (task : ptr) : M dart_taskqueue_t :=
  if negb (is_null task) then dart_tasking_taskqueue_remove_unsafe tq task
  else mret tq.

End TaskQueue.


(** ** The list of tasks a deque represents

    [dseg h pv l nx] says that the descriptors at the addresses [l] are
    chained in this order through their [next] and [prev] fields, the first
    one pointing back to [pv] and the last one pointing on to [nx]. *)

Definition link_next (l : list addr) (nx : ptr) : ptr :=
  match l with [] => nx | b :: _ => Some b end.

Definition link_prev (pv : ptr) (l : list addr) : ptr :=
  match last l with Some z => Some z | None => pv end.

Fixpoint dseg (h : heap) (pv : ptr) (l : list addr) (nx : ptr) : Prop :=
  match l with
  | [] => True
  | a :: l' =>
      (∃ t, h !! a = Some t ∧ prev t = pv ∧ next t = link_next l' nx)
      ∧ dseg h (Some a) l' nx
  end.

Definition deque_rep (h : heap) (d : task_deque) (l : list addr) : Prop :=
  NoDup l ∧ head d = hd_error l ∧ tail d = last l ∧ dseg h NULL l NULL.

(** The invariant of the source: [head == NULL] iff [tail == NULL]. *)
Definition deque_inv (d : task_deque) : Prop :=
  head d = NULL ↔ tail d = NULL.

Definition taskqueue_inv (tq : dart_taskqueue_t) : Prop :=
  deque_inv (highprio tq) ∧ deque_inv (lowprio tq).

Definition erase_links (t : dart_task_t) : dart_task_t :=
  set_next NULL (set_prev NULL t).

(** [relink A h h']: the two memories differ only in the [next] and [prev]
    fields of the tasks in [A]. *)
Definition relink (A : list addr) (h h' : heap) : Prop :=
  (∀ b, b ∉ A → h' !! b = h !! b)
  ∧ (∀ b, erase_links <$> (h' !! b) = erase_links <$> (h !! b)).

(** The list [task_deque_insert] produces from the list [l] of a deque:
    position 0 is the front; for [pos > 0] the new task goes behind the
    node the seek loop stops at, the one at index [pos], and to the back
    when the deque has no such node or it is the last one. *)
Definition inserted (pos : nat) (x : addr) (l : list addr) : list addr :=
  match pos with
  | O => x :: l
  | S _ => take (S pos) l ++ x :: drop (S pos) l
  end.

(** The first half of [dart_tasking_taskqueue_remove_unsafe]: take the task
    out of the chain and reset its links; the result is the pair of its
    former [prev] and [next]. *)
Definition unlink (task : ptr) : M (ptr * ptr) :=
  t ← deref task;
  let prev_ := prev t in
  let next_ := next t in
  (if negb (is_null prev_) then assign prev_ (set_next next_) else mret tt);;
  (if negb (is_null next_) then assign next_ (set_prev prev_) else mret tt);;
  assign task (set_prev NULL);;
  assign task (set_next NULL);;
  mret (prev_, next_).

(** The second half: the head and tail pointers of the two deques. *)
Definition remove_fix_ends (tq : dart_taskqueue_t) (task prev_ next_ : ptr)
  : dart_taskqueue_t :=
  let tq1 :=
    if ptr_eqb task (head (highprio tq)) then
      mkQueue (lowprio tq) (mkDeque next_ (tail (highprio tq)))
    else if ptr_eqb task (head (lowprio tq)) then
      mkQueue (mkDeque next_ (tail (lowprio tq))) (highprio tq)
    else tq in
  if ptr_eqb task (tail (highprio tq1)) then
    mkQueue (lowprio tq1) (mkDeque (head (highprio tq1)) prev_)
  else if ptr_eqb task (tail (lowprio tq1)) then
    mkQueue (mkDeque (head (lowprio tq1)) prev_) (highprio tq1)
  else tq1.

Section TaskQueueRep.
Context `{dart_constants}.

Definition is_high (h : heap) (a : addr) : Prop :=
  prio <$> (h !! a) = Some DART_PRIO_HIGH.

(** A task queue holds the list [lh] in its high-priority deque and [ll]
    in its low-priority deque; a task is in at most one of them, and it is
    in the high-priority deque exactly when its priority is
    [DART_PRIO_HIGH]. *)
Definition tq_rep (h : heap) (tq : dart_taskqueue_t) (lh ll : list addr) : Prop :=
  deque_rep h (highprio tq) lh ∧ deque_rep h (lowprio tq) ll
  ∧ NoDup (lh ++ ll)
  ∧ Forall (is_high h) lh ∧ Forall (λ a, ¬ is_high h a) ll.

(** The common part of push, pushback and insert: reset the links of the
    task, then hand it to the deque that matches its priority. *)
Definition enqueue_with (f : task_deque → ptr → M task_deque)
    (tq : dart_taskqueue_t) (task : ptr) : M dart_taskqueue_t :=
  assign task (set_next NULL);;
  assign task (set_prev NULL);;
  t ← deref task;
  if prio t =? DART_PRIO_HIGH then
    d ← f (highprio tq) task; mret (mkQueue (lowprio tq) d)
  else
    d ← f (lowprio tq) task; mret (mkQueue d (highprio tq)).

Definition enqueued_high (g : addr → list addr → list addr) (p : Z)
    (x : addr) (lh : list addr) : list addr :=
  if p =? DART_PRIO_HIGH then g x lh else lh.

Definition enqueued_low (g : addr → list addr → list addr) (p : Z)
    (x : addr) (ll : list addr) : list addr :=
  if p =? DART_PRIO_HIGH then ll else g x ll.

End TaskQueueRep.

(** Proof automation: unfold the monad, and rewrite lookups in updated
    memories. *)
Ltac mrun := unfold mbind, M_bind, mret, M_ret, deref, assign, DART_ASSERT; simpl.

Ltac lk :=
  repeat first [ rewrite lookup_insert_eq
               | rewrite lookup_insert_ne by (done || set_solver) ].

Ltac bd :=
  repeat (case_bool_decide; simpl in *; try congruence).


(** ** Sequences of queue operations

    Two task queues over one memory of task descriptors, so that [move]
    has a source and a destination, and the operations of
    [dart_tasking_taskqueue.h] as a data type. *)

Inductive qid := QA | QB.

Definition other (q : qid) : qid :=
  match q with QA => QB | QB => QA end.

Inductive tq_op :=
| OpPush (q : qid) (task : ptr)
| OpPushback (q : qid) (task : ptr)
| OpInsert (q : qid) (task : ptr) (pos : nat)
| OpPop (q : qid)
| OpPopback (q : qid)
| OpRemove (q : qid) (task : ptr)
| OpMove (dst : qid).           (* the source is the other queue *)

Record world := mkWorld {
  mem : heap;
  qa : dart_taskqueue_t;
  qb : dart_taskqueue_t
}.

Definition getq (q : qid) (w : world) : dart_taskqueue_t :=
  match q with QA => qa w | QB => qb w end.

Definition set_world (q : qid) (h : heap) (tq : dart_taskqueue_t) (w : world)
  : world :=
  match q with
  | QA => mkWorld h tq (qb w)
  | QB => mkWorld h (qa w) tq
  end.

(** The abstract content of a queue: the tasks of its high- and of its
    low-priority deque, front first. *)
Record absq := mkAbs {
  ahigh : list addr;
  alow : list addr
}.

Definition aget (q : qid) (a : absq * absq) : absq :=
  match q with QA => a.1 | QB => a.2 end.

Definition aset (q : qid) (x : absq) (a : absq * absq) : absq * absq :=
  match q with QA => (x, a.2) | QB => (a.1, x) end.

Definition tasks_of (x : absq) : list addr := ahigh x ++ alow x.

Section World.
Context `{dart_constants}.

Definition run_op (op : tq_op) (w : world) : option world :=
  match op with
  | OpPush q task =>
      '(tq, h) ← dart_tasking_taskqueue_push (getq q w) task (mem w);
      Some (set_world q h tq w)
  | OpPushback q task =>
      '(tq, h) ← dart_tasking_taskqueue_pushback (getq q w) task (mem w);
      Some (set_world q h tq w)
  | OpInsert q task pos =>
      '(tq, h) ← dart_tasking_taskqueue_insert (getq q w) task pos (mem w);
      Some (set_world q h tq w)
  | OpPop q =>
      '(_, tq, h) ← dart_tasking_taskqueue_pop (getq q w) (mem w);
      Some (set_world q h tq w)
  | OpPopback q =>
      '(_, tq, h) ← dart_tasking_taskqueue_popback (getq q w) (mem w);
      Some (set_world q h tq w)
  | OpRemove q task =>
      '(tq, h) ← dart_tasking_taskqueue_remove (getq q w) task (mem w);
      Some (set_world q h tq w)
  | OpMove dst =>
      '(d, s, h) ← dart_tasking_taskqueue_move (getq dst w) (getq (other dst) w) (mem w);
      Some (set_world (other dst) h s (set_world dst h d w))
  end.

Fixpoint run_ops (ops : list tq_op) (w : world) : option world :=
  match ops with
  | [] => Some w
  | op :: ops' => w' ← run_op op w; run_ops ops' w'
  end.

Definition world_init (h : heap) : world :=
  mkWorld h dart_tasking_taskqueue_init dart_tasking_taskqueue_init.

Definition world_inv (w : world) : Prop :=
  taskqueue_inv (qa w) ∧ taskqueue_inv (qb w).

(** The abstract effect of an operation, and the conditions under which
    the operation is used as intended: a task that is enqueued is an
    allocated descriptor that is in no queue at that moment, and a task
    that is removed is in the queue it is removed from. [h0] is the
    memory at the start; the operations never change a priority. *)
Definition abs_enqueue (g : addr → list addr → list addr) (p : Z) (x : addr)
    (q : absq) : absq :=
  mkAbs (enqueued_high g p x (ahigh q)) (enqueued_low g p x (alow q)).

Definition abs_pop (q : absq) : absq :=
  match ahigh q with
  | _ :: l => mkAbs l (alow q)
  | [] => mkAbs [] (tl (alow q))
  end.

Definition abs_popback (q : absq) : absq :=
  match ahigh q with
  | _ :: _ => mkAbs (removelast (ahigh q)) (alow q)
  | [] => mkAbs [] (removelast (alow q))
  end.

Definition abs_remove (x : addr) (q : absq) : absq :=
  mkAbs (filter (λ y, y ≠ x) (ahigh q)) (filter (λ y, y ≠ x) (alow q)).

Definition abs_enqueue_op (h0 : heap) (g : addr → list addr → list addr)
    (q : qid) (task : ptr) (a : absq * absq) : option (absq * absq) :=
  x ← task;
  t ← h0 !! x;
  if bool_decide (x ∈ tasks_of a.1 ++ tasks_of a.2) then None
  else Some (aset q (abs_enqueue g (prio t) x (aget q a)) a).

Definition abs_step (h0 : heap) (op : tq_op) (a : absq * absq)
  : option (absq * absq) :=
  match op with
  | OpPush q task => abs_enqueue_op h0 (λ x l, x :: l) q task a
  | OpPushback q task => abs_enqueue_op h0 (λ x l, l ++ [x]) q task a
  | OpInsert q task pos => abs_enqueue_op h0 (inserted pos) q task a
  | OpPop q => Some (aset q (abs_pop (aget q a)) a)
  | OpPopback q => Some (aset q (abs_popback (aget q a)) a)
  | OpRemove q task =>
      match task with
      | None => Some a
      | Some x =>
          if bool_decide (x ∈ tasks_of (aget q a))
          then Some (aset q (abs_remove x (aget q a)) a)
          else None
      end
  | OpMove dst =>
      let d := aget dst a in
      let s := aget (other dst) a in
      Some (aset (other dst) (mkAbs [] [])
              (aset dst (mkAbs (ahigh s ++ ahigh d) (alow s ++ alow d)) a))
  end.

Fixpoint abs_run (h0 : heap) (ops : list tq_op) (a : absq * absq)
  : option (absq * absq) :=
  match ops with
  | [] => Some a
  | op :: ops' => a' ← abs_step h0 op a; abs_run h0 ops' a'
  end.

Definition abs_init : absq * absq := (mkAbs [] [], mkAbs [] []).

(** A sequence of operations is well-formed when every operation in it
    meets the condition above. *)
Definition ops_wf (h0 : heap) (ops : list tq_op) : Prop :=
  is_Some (abs_run h0 ops abs_init).

Definition same_tasks (h0 h : heap) : Prop :=
  ∀ b, erase_links <$> (h !! b) = erase_links <$> (h0 !! b).

Definition world_rep (h0 : heap) (w : world) (a : absq * absq) : Prop :=
  tq_rep (mem w) (qa w) (ahigh a.1) (alow a.1)
  ∧ tq_rep (mem w) (qb w) (ahigh a.2) (alow a.2)
  ∧ (∀ y, y ∈ tasks_of a.1 → y ∉ tasks_of a.2)
  ∧ same_tasks h0 (mem w).

End World.

(** ** The scheduler (in [dart_tasking_instrumentation.c]) *)

(** Modelled from the spec: the return codes of [dart_types.h] that the
    runtime surfaces. *)
Inductive dart_ret_t :=
| DART_OK
| DART_PENDING
| DART_ERR_AGAIN
| DART_ERR_INVAL
| DART_ERR_OTHER.

Global Instance dart_ret_eq_dec : EqDecision dart_ret_t.
Proof. solve_decision. Defined.

(** Calls that leave the modelled code. *)
Inductive sched_event :=
| EvRemoteProgress                 (* dart_tasking_remote_progress() *)
| EvStartThreads                   (* pthread_create of the workers *)
| EvWakeupThread                   (* wakeup_thread_single() *)
| EvPhaseAddTask                   (* dart__tasking__phase_add_task() *)
| EvDatadepsHandleTask (task : addr)
| EvCancelTask (task : addr)
| EvCommTask (task : addr)
| EvInlineTask (task : addr).

(** A worker thread ([dart_thread_t]); [thread_next_task] is the field
    [next_task] of the source, [queue] the array of hot slots. *)
Record dart_thread_t := mkThread {
  thread_id : Z;
  numa_id : nat;
  current_task : ptr;
  thread_next_task : ptr;
  delay : Z;
  queue : list ptr;
  last_steal_thread_id : nat;
  is_utility_thread : bool;
  last_progress_ts : Z;
  taskcntr : Z
}.

Definition th_set_current_task (v : ptr) (th : dart_thread_t) : dart_thread_t :=
  mkThread (thread_id th) (numa_id th) v (thread_next_task th) (delay th)
    (queue th) (last_steal_thread_id th) (is_utility_thread th)
    (last_progress_ts th) (taskcntr th).

Definition th_set_thread_next_task (v : ptr) (th : dart_thread_t) : dart_thread_t :=
  mkThread (thread_id th) (numa_id th) (current_task th) v (delay th)
    (queue th) (last_steal_thread_id th) (is_utility_thread th)
    (last_progress_ts th) (taskcntr th).

Definition th_set_delay (v : Z) (th : dart_thread_t) : dart_thread_t :=
  mkThread (thread_id th) (numa_id th) (current_task th)
    (thread_next_task th) v (queue th) (last_steal_thread_id th)
    (is_utility_thread th) (last_progress_ts th) (taskcntr th).

Definition th_set_queue (v : list ptr) (th : dart_thread_t) : dart_thread_t :=
  mkThread (thread_id th) (numa_id th) (current_task th)
    (thread_next_task th) (delay th) v (last_steal_thread_id th)
    (is_utility_thread th) (last_progress_ts th) (taskcntr th).

Definition th_set_last_steal_thread_id (v : nat) (th : dart_thread_t) : dart_thread_t :=
  mkThread (thread_id th) (numa_id th) (current_task th)
    (thread_next_task th) (delay th) (queue th) v (is_utility_thread th)
    (last_progress_ts th) (taskcntr th).

Definition th_set_last_progress_ts (v : Z) (th : dart_thread_t) : dart_thread_t :=
  mkThread (thread_id th) (numa_id th) (current_task th)
    (thread_next_task th) (delay th) (queue th) (last_steal_thread_id th)
    (is_utility_thread th) v (taskcntr th).

(** The state of the scheduler: the static variables of [dart_tasking.c]
    and the memory of task descriptors. [trace] lists the calls that left
    the modelled code, latest first. *)
Record sched := mkSched {
  tasks : gmap addr dart_task_t;
  threads_running : bool;
  cancel_requested : bool;
  thread_pool : list (option dart_thread_t);
  task_queue : list dart_taskqueue_t;
  local_deferred_tasks : dart_taskqueue_t;
  num_units : Z;
  respect_numa : bool;
  task_free_lists : list (list addr);
  taskpool_next : addr;
  trace : list sched_event
}.

Definition s_set_tasks (v : gmap addr dart_task_t) (s : sched) : sched :=
  mkSched v (threads_running s) (cancel_requested s) (thread_pool s)
    (task_queue s) (local_deferred_tasks s) (num_units s) (respect_numa s)
    (task_free_lists s) (taskpool_next s) (trace s).

Definition s_set_threads_running (v : bool) (s : sched) : sched :=
  mkSched (tasks s) v (cancel_requested s) (thread_pool s) (task_queue s)
    (local_deferred_tasks s) (num_units s) (respect_numa s)
    (task_free_lists s) (taskpool_next s) (trace s).

Definition s_set_thread_pool (v : list (option dart_thread_t)) (s : sched) : sched :=
  mkSched (tasks s) (threads_running s) (cancel_requested s) v
    (task_queue s) (local_deferred_tasks s) (num_units s) (respect_numa s)
    (task_free_lists s) (taskpool_next s) (trace s).

Definition s_set_task_queue (v : list dart_taskqueue_t) (s : sched) : sched :=
  mkSched (tasks s) (threads_running s) (cancel_requested s)
    (thread_pool s) v (local_deferred_tasks s) (num_units s)
    (respect_numa s) (task_free_lists s) (taskpool_next s) (trace s).

Definition s_set_local_deferred_tasks (v : dart_taskqueue_t) (s : sched) : sched :=
  mkSched (tasks s) (threads_running s) (cancel_requested s) (thread_pool s)
    (task_queue s) v (num_units s) (respect_numa s) (task_free_lists s)
    (taskpool_next s) (trace s).

Definition s_set_task_free_lists (v : list (list addr)) (s : sched) : sched :=
  mkSched (tasks s) (threads_running s) (cancel_requested s) (thread_pool s)
    (task_queue s) (local_deferred_tasks s) (num_units s) (respect_numa s) v
    (taskpool_next s) (trace s).

Definition s_set_taskpool_next (v : addr) (s : sched) : sched :=
  mkSched (tasks s) (threads_running s) (cancel_requested s) (thread_pool s)
    (task_queue s) (local_deferred_tasks s) (num_units s) (respect_numa s)
    (task_free_lists s) v (trace s).

Definition s_set_trace (v : list sched_event) (s : sched) : sched :=
  mkSched (tasks s) (threads_running s) (cancel_requested s) (thread_pool s)
    (task_queue s) (local_deferred_tasks s) (num_units s) (respect_numa s)
    (task_free_lists s) (taskpool_next s) v.

(** The functions of other modules that the scheduler calls and whose
    sources are not at hand, as far as they act on the state above. *)
Class dart_externals := {
  (* what dart_tasking_remote_progress() does to the scheduler state *)
  remote_progress_effect : sched → sched;
  current_time_us : sched → Z;
  (* the counters of unresolved local and remote dependencies that
     dart_tasking_datadeps_handle_task() leaves in the new task *)
  datadeps_unresolved : addr → sched → Z * Z;
  dart__tasking__phase_current : sched → Z;
  dart__tasking__phase_is_runnable : Z → sched → bool;
  cancel_task_effect : addr → sched → sched;
  (* dart_tasking_remote_handle_comm_task(): the flag [enqueued] it sets *)
  handle_comm_task_effect : addr → sched → bool * sched;
  (* handle_inline_task(): runs the function of the task on the caller *)
  inline_task_effect : addr → nat → sched → sched;
  dart__tasking__affinity_ptr_numa_node : Z → nat;
  (* the content of memory that malloc returns *)
  uninitialised_task : dart_task_t
}.

(** The monad of the scheduler functions: state and failure. *)
Definition SchedM (A : Type) : Type := sched → option (A * sched).

Global Instance SchedM_ret : MRet SchedM := λ A a s, Some (a, s).
Global Instance SchedM_bind : MBind SchedM := λ A B f m s,
  match m s with
  | Some (a, s') => f a s'
  | None => None
  end.

(** Run a computation on the task memory. *)
Definition on_tasks {A} (m : M A) : SchedM A := λ s,
  match m (tasks s) with
  | Some (a, h) => Some (a, s_set_tasks h s)
  | None => None
  end.

Definition log (e : sched_event) : SchedM unit := λ s,
  Some (tt, s_set_trace (e :: trace s) s).

Definition get_state : SchedM sched := λ s, Some (s, s).

Definition update_state (f : sched → sched) : SchedM unit := λ s, Some (tt, f s).

Definition fault {A} : SchedM A := λ _, None.

Definition S_ASSERT (cond : bool) : SchedM unit := λ s,
  if cond then Some (tt, s) else None.

(** [thread_pool[tid]], the thread behind [get_current_thread()] when
    [tid] is the calling thread. *)
Definition get_thread (tid : nat) : SchedM dart_thread_t := λ s,
  match thread_pool s !! tid with
  | Some (Some th) => Some (th, s)
  | _ => None
  end.

Definition modify_thread (tid : nat) (f : dart_thread_t → dart_thread_t)
  : SchedM unit := λ s,
  match thread_pool s !! tid with
  | Some (Some th) =>
      Some (tt, s_set_thread_pool (<[tid := Some (f th)]> (thread_pool s)) s)
  | _ => None
  end.

(** Run a queue operation on [task_queue[idx]]. *)
Definition on_queue {A} (idx : nat) (f : dart_taskqueue_t → M (A * dart_taskqueue_t))
  : SchedM A := λ s,
  match task_queue s !! idx with
  | Some q =>
      match f q (tasks s) with
      | Some ((a, q'), h) =>
          Some (a, s_set_task_queue (<[idx := q']> (task_queue s)) (s_set_tasks h s))
      | None => None
      end
  | None => None
  end.

(** Run a queue operation on [local_deferred_tasks]. *)
Definition on_deferred (f : dart_taskqueue_t → M dart_taskqueue_t)
  : SchedM unit := λ s,
  match f (local_deferred_tasks s) (tasks s) with
  | Some (q, h) => Some (tt, s_set_local_deferred_tasks q (s_set_tasks h s))
  | None => None
  end.

(** [#define REMOTE_PROGRESS_INTERVAL_USEC 1E4]: a constant of type
    [double]. *)
Definition REMOTE_PROGRESS_INTERVAL_USEC : Z := 10000.

(** The conversion of an integer [0 <= z < 2^1023] to [double], to
    nearest with ties to even: up to [2^53] every integer is a double, from
    there on only the 53 leading bits are kept. The doubles that occur
    here are integers, so a double is the integer it equals, and the sum
    of two doubles is the conversion of the sum of these integers. *)
Definition round_double (z : Z) : Z :=
  if z <? 2 ^ 53 then z else
  let e := Z.log2 z - 52 in
  let q := z / 2 ^ e in
  let r := z mod 2 ^ e in
  let half := 2 ^ (e - 1) in
  let q' := if r <? half then q
            else if half <? r then q + 1
            else if Z.even q then q else q + 1 in
  q' * 2 ^ e.

Section Scheduler.
Context `{dart_constants} `{dart_externals}.

Definition set_current_task (tid : nat) (t : ptr) : SchedM unit :=
  modify_thread tid (th_set_current_task t).

Definition requeue_task (tid : nat) (task : ptr) : SchedM unit :=
  thread ← get_thread tid;
  let q := numa_id thread in            (* dart__tasking__get_taskqueue() *)
  let delay := delay thread in
  if delay =? 0 then
    on_queue q (λ q, tq ← dart_tasking_taskqueue_push q task; mret (tt, tq))
  else if 0 <? delay then
    on_queue q (λ q, tq ← dart_tasking_taskqueue_insert q task (Z.to_nat delay);
                     mret (tt, tq))
  else
    on_queue q (λ q, tq ← dart_tasking_taskqueue_pushback q task; mret (tt, tq)).

(** The scan of the hot slots: the first (or last) slot that holds a task
    is emptied by the compare-and-swap and its task returned. *)
Fixpoint take_first_slot (slots : list ptr) : ptr * list ptr :=
  match slots with
  | [] => (NULL, [])
  | Some a :: rest => (Some a, NULL :: rest)
  | None :: rest => let '(t, rest') := take_first_slot rest in (t, NULL :: rest')
  end.

Definition take_last_slot (slots : list ptr) : ptr * list ptr :=
  let '(t, r) := take_first_slot (rev slots) in (t, rev r).

Definition next_task_thread (target : nat) : SchedM ptr :=
  th ← get_thread target;
  let '(task, slots) := take_first_slot (queue th) in
  modify_thread target (th_set_queue slots);;
  mret task.

Definition next_task_thread_back (target : nat) : SchedM ptr :=
  th ← get_thread target;
  let '(task, slots) := take_last_slot (queue th) in
  modify_thread target (th_set_queue slots);;
  mret task.

(** The victims of the stealing loops, in the order of
    [for (target = (id+1) % n; target != id; target = (++target == n) ? 0 : target)]. *)
Definition steal_targets (id n : nat) : list nat :=
  (λ k, (id + 1 + k) `mod` n)%nat <$> seq 0 (n - 1).

(** One stealing loop: [same] selects the victims on the NUMA node of the
    thief, or those on the other nodes. *)
Fixpoint steal_loop (tid : nat) (same : bool) (targets : list nat) : SchedM ptr :=
  match targets with
  | [] => mret NULL
  | target :: rest =>
      thread ← get_thread tid;
      s ← get_state;
      match thread_pool s !! target with
      | Some (Some target_thread) =>
          if bool_decide (bool_decide (numa_id target_thread = numa_id thread) = same)
          then
            task ← next_task_thread_back target;
            if negb (is_null task) then
              modify_thread tid (th_set_last_steal_thread_id target);;
              mret task
            else steal_loop tid same rest
          else steal_loop tid same rest
      | _ => steal_loop tid same rest
      end
  end.

(** The do-while loop over the task queues of the NUMA nodes. *)
Fixpoint pop_loop (nodes : list nat) : SchedM ptr :=
  match nodes with
  | [] => mret NULL
  | node :: rest =>
      task ← on_queue node dart_tasking_taskqueue_pop;
      match rest with
      | [] => mret task
      | _ => if is_null task then pop_loop rest else mret task
      end
  end.

Definition next_task (tid : nat) : SchedM ptr :=
  thread ← get_thread tid;
  task ← (if negb (is_null (thread_next_task thread)) then
            modify_thread tid (th_set_thread_next_task NULL);;
            mret (thread_next_task thread)
          else next_task_thread tid);
  if negb (is_null task) then mret task else
  (* try to steal from the last successful thread *)
  task ← next_task_thread_back (last_steal_thread_id thread);
  if negb (is_null task) then mret task else
  s ← get_state;
  let num_threads := length (thread_pool s) in
  let num_numa_nodes := length (task_queue s) in
  (* another thread on the same NUMA node *)
  task ← steal_loop tid true (steal_targets tid num_threads);
  if negb (is_null task) then mret task else
  (* the task queues, the own NUMA node first *)
  task ← pop_loop ((λ i, (numa_id thread + i) `mod` num_numa_nodes)%nat
                     <$> seq 0 (Nat.max 1 num_numa_nodes));
  if negb (is_null task) then mret task else
  (* threads on other NUMA nodes *)
  if (1 <? num_numa_nodes)%nat then
    steal_loop tid false (steal_targets tid num_threads)
  else mret NULL.

Definition remote_progress (tid : nat) (force : bool) : SchedM unit :=
  s ← get_state;
  (* short-cut if we only run on one unit *)
  if num_units s =? 1 then mret tt else
  thread ← get_thread tid;
  (* only progress periodically or if the caller mandates it; the time
     stamps are unsigned 64-bit integers and the interval is a double, so
     the sum and the comparison are those of doubles *)
  if force
     || (round_double (current_time_us s)
         <=? round_double (round_double (last_progress_ts thread)
                           + REMOTE_PROGRESS_INTERVAL_USEC))
  then
    log EvRemoteProgress;;
    update_state remote_progress_effect;;
    s' ← get_state;
    modify_thread tid (th_set_last_progress_ts (current_time_us s'))
  else mret tt.

End Scheduler.

(** ** Yield, requeue and task creation *)

(** Where a call of [dart__tasking__yield] leaves the calling task. *)
Inductive yield_result :=
| YieldReturn (ret : dart_ret_t) (s : sched)
    (* the call returns [ret] *)
| YieldAbort (s : sched)
    (* dart__tasking__abort_current_task(): control does not come back *)
| YieldSwap (s : sched)
    (* dart__tasking__context_swap(current_task->taskctx, &thread->retctx):
       the worker continues behind invoke_task() in handle_task() *)
| YieldRunDirect (next : ptr) (s : sched)
    (* the root task runs dart__tasking__handle_task_internal(next, thread)
       itself and then returns DART_OK *)
| YieldFault.
    (* a NULL or dangling pointer is dereferenced, or an assertion fails *)

(** The branch [handle_task] takes once [invoke_task] has returned. *)
Inductive handle_task_branch :=
| BranchDetached
| BranchBlocked
| BranchRequeued
| BranchCompleted.

Section Yield.
Context `{dart_constants} `{dart_externals}.

(** Modelled from the spec: [dart__tasking__cancellation_requested()]
    reads the process-wide cancellation flag. *)
Definition dart__tasking__cancellation_requested (s : sched) : bool :=
  cancel_requested s.

(** Modelled from the spec: [dart__tasking__abort_current_task(thread)]
    marks the running task as cancelled and leaves it by [longjmp] into the
    cancel frame of its context. *)
Definition dart__tasking__abort_current_task (tid : nat) (s : sched)
  : yield_result :=
  match (thread ← get_thread tid;
         on_tasks (assign (current_task thread) (set_state DART_TASK_CANCELLED))) s
  with
  | Some (_, s') => YieldAbort s'
  | None => YieldFault
  end.

(** [dart__tasking__yield], built with [USE_UCONTEXT]. *)
Definition dart__tasking__yield (tid : nat) (delay : Z) (s : sched)
  : yield_result :=
  if negb (threads_running s) then
    (* threads are not running --> no tasks to yield to *)
    YieldReturn DART_OK s
  else
  match get_thread tid s with
  | None => YieldFault
  | Some (thread, _) =>
  (* save the current task *)
  let current_task := current_task thread in
  if dart__tasking__cancellation_requested s then
    dart__tasking__abort_current_task tid s
  else
  match deref current_task (tasks s) with
  | None => YieldFault
  | Some (ct, _) =>
  (* we cannot yield from inlined tasks *)
  if DART_TASK_HAS_FLAG ct DART_TASK_INLINE then YieldReturn DART_ERR_INVAL s
  else
  (* exit task if the task is blocked *)
  if bool_decide (state ct = DART_TASK_BLOCKED) then YieldSwap s
  else
  match (next ← next_task tid;
         if is_null next then
           (* progress, then try again *)
           remote_progress tid (is_null next);;
           next_task tid
         else mret next) s
  with
  | None => YieldFault
  | Some (next, s1) =>
  if negb (is_null next) then
    match (modify_thread tid (th_set_delay delay);;
           if ptr_eqb current_task (Some root_task) then
             (* the root task is not suspended and requeued *)
             thread ← get_thread tid;
             S_ASSERT (thread_id thread =? 0);;
             mret true
           else
             (* mark task as suspended *)
             on_tasks (assign current_task
                         (set_state (if wait_handle ct then DART_TASK_BLOCKED
                                     else DART_TASK_SUSPENDED)));;
             (* we got a task, store it in the thread and leave this task *)
             thread ← get_thread tid;
             S_ASSERT (is_null (thread_next_task thread));;
             modify_thread tid (th_set_thread_next_task next);;
             mret false) s1
    with
    | None => YieldFault
    | Some (true, s2) => YieldRunDirect next s2
    | Some (false, s2) => YieldSwap s2
    end
  else YieldReturn DART_OK s1
  end
  end
  end.

(** [dart__tasking__yield], built without [USE_UCONTEXT]. *)
Definition dart__tasking__yield_no_ucontext (tid : nat) (delay : Z) (s : sched)
  : yield_result :=
  if negb (threads_running s) then
    (* threads are not running --> no tasks to yield to *)
    YieldReturn DART_OK s
  else
  match remote_progress tid false s with
  | None => YieldFault
  | Some (_, s1) =>
      if dart__tasking__cancellation_requested s1 then
        dart__tasking__abort_current_task tid s1
      else YieldReturn DART_OK s1
  end.

(** [handle_task] behind [invoke_task]: the task the worker comes back
    from is the thread's current task, and its state selects the branch.
    A yielded task is requeued and the worker's previous task
    ([saved_task], the local [current_task] of the source) restored. The
    other branches call into the wait and dependency modules; the model
    stops in front of these calls and only names the branch. *)
Definition handle_task_returned (tid : nat) (saved_task : ptr)
  : SchedM handle_task_branch :=
  thread ← get_thread tid;
  let prev_task := current_task thread in
  pt ← on_tasks (deref prev_task);
  if bool_decide (state pt = DART_TASK_DETACHED) then mret BranchDetached
  else if bool_decide (state pt = DART_TASK_BLOCKED) then mret BranchBlocked
  else if bool_decide (state pt = DART_TASK_SUSPENDED) then
    (* the task was yielded, requeue it *)
    requeue_task tid prev_task;;
    (* return to previous task *)
    set_current_task tid saved_task;;
    mret BranchRequeued
  else mret BranchCompleted.

(** Modelled from the spec: [dart_tasking_datadeps_is_runnable(task)], a
    task is runnable once both counters of unresolved dependencies are 0. *)
Definition dart_tasking_datadeps_is_runnable (t : dart_task_t) : bool :=
  (unresolved_deps t =? 0) && (unresolved_remote_deps t =? 0).

Definition allocate_task (tid : nat) : SchedM ptr := λ s,
  match task_free_lists s !! tid with
  | Some (a :: rest) =>
      Some (Some a, s_set_task_free_lists (<[tid := rest]> (task_free_lists s)) s)
  | Some [] =>
      (* take the next task from the memory pool *)
      let a := taskpool_next s in
      Some (Some a,
            s_set_taskpool_next (Pos.succ a)
              (s_set_tasks (<[a := set_owner (Z.of_nat tid) uninitialised_task]>
                              (tasks s)) s))
  | None => None
  end.

(** The assignments at the head of [create_task]. *)
Definition reset_task (parent_ : ptr) (t : dart_task_t) : dart_task_t :=
  set_numaptr None
    (set_wait_handle false
       (set_unresolved_remote_deps 0
          (set_unresolved_deps 0
             (set_taskctx NULL
                (set_state DART_TASK_NASCENT
                   (set_parent parent_
                      (set_num_children 0
                         (set_prev NULL (set_flags [] t))))))))).

Definition create_task (tid : nat) (data_size : Z) (prio_arg : Z) : SchedM ptr :=
  task ← allocate_task tid;
  thread ← get_thread tid;
  on_tasks (assign task (reset_task (current_task thread)));;
  (* NOTE: never reset the instance counter of the task! *)
  on_tasks (assign task (λ t, set_instance (instance t + 1) t));;
  (if (0 <? data_size) && (DART_TASK_VAR_SPACE <? data_size) then
     on_tasks (assign task (DART_TASK_SET_FLAG DART_TASK_DATA_ALLOCATED))
   else mret tt);;
  pt ← on_tasks (deref (current_task thread));
  (if bool_decide (state pt = DART_TASK_ROOT) then
     s ← get_state;
     on_tasks (assign task (set_phase (dart__tasking__phase_current s)));;
     log EvPhaseAddTask
   else
     on_tasks (assign task (set_phase DART_PHASE_ANY)));;
  (if prio_arg =? DART_PRIO_PARENT then
     on_tasks (assign task (set_prio (prio pt)))
   else if prio_arg =? DART_PRIO_INLINE then
     on_tasks (assign task (set_prio DART_PRIO_HIGH));;
     on_tasks (assign task (DART_TASK_SET_FLAG DART_TASK_INLINE));;
     on_tasks (assign task (DART_TASK_SET_FLAG DART_TASK_IMMEDIATE))
   else
     on_tasks (assign task (set_prio prio_arg)));;
  mret task.

Definition start_threads : SchedM unit :=
  s ← get_state;
  S_ASSERT (negb (threads_running s));;
  log EvStartThreads;;
  update_state (s_set_threads_running true).

(** The search for an empty hot slot in [dart__tasking__enqueue_runnable]. *)
Fixpoint put_first_slot (task : ptr) (slots : list ptr) : option (list ptr) :=
  match slots with
  | [] => None
  | None :: rest => Some (task :: rest)
  | Some a :: rest =>
      match put_first_slot task rest with
      | Some rest' => Some (Some a :: rest')
      | None => None
      end
  end.

Definition comm_task (a : addr) : SchedM bool := λ s,
  Some (handle_comm_task_effect a s).

Definition dart__tasking__enqueue_runnable (tid : nat) (task : ptr) : SchedM unit :=
  s ← get_state;
  if dart__tasking__cancellation_requested s then
    match task with
    | Some a => log (EvCancelTask a);; update_state (cancel_task_effect a)
    | None => fault
    end
  else
  t ← on_tasks (deref task);
  if bool_decide (state t = DART_TASK_DEFERRED) then mret tt else
  queuable ←
    ((if bool_decide (state t = DART_TASK_CREATED) then
       if dart_tasking_datadeps_is_runnable t then
         on_tasks (assign task (set_state DART_TASK_QUEUED));; mret true
       else mret false
     else if bool_decide (state t = DART_TASK_SUSPENDED) then mret true
     else mret false) : SchedM bool);
  (* make sure we don't queue the task if we are not allowed to *)
  if negb queuable then mret tt else
  t ← on_tasks (deref task);
  s ← get_state;
  (* check whether the task has to be deferred *)
  enqueued ←
    ((if ptr_eqb (parent t) (Some root_task)
        && negb (dart__tasking__phase_is_runnable (phase t) s) then
       if negb (dart__tasking__phase_is_runnable (phase t) s) then
         if bool_decide (state t = DART_TASK_CREATED)
            || bool_decide (state t = DART_TASK_QUEUED) then
           on_tasks (assign task (set_state DART_TASK_DEFERRED));;
           on_deferred (λ q, dart_tasking_taskqueue_pushback_unsafe q task);;
           mret true
         else mret false
       else mret false
     else mret false) : SchedM bool);
  enqueued ←
    ((if negb enqueued && DART_TASK_HAS_FLAG t DART_TASK_IS_COMMTASK then
       match task with
       | Some a =>
           log (EvCommTask a);;
           (comm_task a : SchedM bool)
       | None => fault
       end
     else mret enqueued) : SchedM bool);
  if (enqueued : bool) then mret tt else
  (* execute immediate tasks directly as inline tasks *)
  if DART_TASK_HAS_FLAG t DART_TASK_IMMEDIATE then
    match task with
    | Some a => log (EvInlineTask a);; update_state (inline_task_effect a tid)
    | None => fault
    end
  else
  thread ← get_thread tid;
  s ← get_state;
  let numa_node :=
    match numaptr t with
    | Some p => if respect_numa s then dart__tasking__affinity_ptr_numa_node p
                else 0%nat
    | None => 0%nat
    end in
  match (if negb (is_utility_thread thread)
            && bool_decide (numa_node = numa_id thread)
         then put_first_slot task (queue thread) else None) with
  | Some slots => modify_thread tid (th_set_queue slots)
  | None =>
      (* we have not stored the task in the thread, put it in the global queue *)
      on_queue numa_node (λ q, tq ← dart_tasking_taskqueue_push q task; mret (tt, tq));;
      (* wakeup a thread to execute this task *)
      log EvWakeupThread
  end.

Definition dart__tasking__create_task (tid : nat) (data_size : Z)
    (prio_arg : Z) (noyield : bool) (want_ref : bool) : SchedM dart_ret_t :=
  s ← get_state;
  if dart__tasking__cancellation_requested s then
    (* Ignoring task creation while canceling tasks! *)
    mret DART_OK
  else
  (* start threads upon first task creation *)
  (if negb (threads_running s) then start_threads else mret tt);;
  task ← create_task tid data_size prio_arg;
  (if want_ref then on_tasks (assign task (DART_TASK_SET_FLAG DART_TASK_HAS_REF))
   else mret tt);;
  (if noyield then on_tasks (assign task (DART_TASK_SET_FLAG DART_TASK_INLINE))
   else mret tt);;
  t ← on_tasks (deref task);
  on_tasks (assign (parent t) (λ p, set_num_children (num_children p + 1) p));;
  (match task with
   | Some a =>
       log (EvDatadepsHandleTask a);;
       s ← get_state;
       let '(local, remote) := datadeps_unresolved a s in
       on_tasks (assign task (λ t, set_unresolved_remote_deps remote
                                      (set_unresolved_deps local t)))
   | None => fault
   end);;
  on_tasks (assign task (set_state DART_TASK_CREATED));;
  t ← on_tasks (deref task);
  (if dart_tasking_datadeps_is_runnable t then
     dart__tasking__enqueue_runnable tid task
   else mret tt);;
  mret DART_OK.

End Yield.

(** ** The context manager ([dart_tasking_context.c]) *)

Module Context.

(** [size_t] arithmetic: 64 bits, unsigned. *)
Definition size_max : Z := 2 ^ 64.
Definition to_size_t (z : Z) : Z := z mod size_max.

(** Use 2M stack size per task *)
Definition DEFAULT_TASK_STACK_SIZE : Z := Z.shiftl 1 21.

(** The statics [task_stack_size] and [page_size]. *)
Record globals := mkGlobals {
  task_stack_size : Z;
  page_size : Z
}.

Definition initial_globals : globals := mkGlobals DEFAULT_TASK_STACK_SIZE 0.

(** Modelled from the spec: [dart__base__env__size(name, fallback)] gives
    the byte count the environment variable holds, and the fallback when
    the variable is not set. [env] is the content of the variable. *)
Definition dart__base__env__size (env : option Z) (fallback : Z) : Z :=
  default fallback env.

Definition dart__tasking__context_adjust_size (g : globals) (size : Z) : Z :=
  let mask := to_size_t (page_size g - 1) in
  Z.land (to_size_t (size + mask)) (to_size_t (Z.lnot mask)).

Definition dart__tasking__context_stack_size (g : globals) : Z :=
  task_stack_size g.

(** [sysconf_pagesize] is what [sysconf(_SC_PAGESIZE)] returns,
    [TASKSTACKSIZE] the content of the environment variable. *)
Definition dart__tasking__context_init (sysconf_pagesize : Z)
    (TASKSTACKSIZE : option Z) (g : globals) : globals :=
  let page_size := to_size_t sysconf_pagesize in
  let env_stack_size := dart__base__env__size TASKSTACKSIZE (-1) in
  let task_stack_size :=
    if -1 <? env_stack_size then to_size_t env_stack_size
    else task_stack_size g in
  let task_stack_size :=
    if task_stack_size <? page_size then page_size else task_stack_size in
  mkGlobals task_stack_size page_size.

(** The number of bytes [dart__tasking__context_allocate] reserves behind
    the meta data for the stack itself (without guard pages). *)
Definition allocated_stack_bytes (g : globals) : Z :=
  dart__tasking__context_adjust_size g (dart__tasking__context_stack_size g).

(** *** Context free lists *)

Record context_list_t := mkCtx {
  ctx_owner : nat;            (* the thread that allocated the entry *)
  ctx_has_fn : bool           (* ctx.fn != NULL: not entered yet *)
}.

(** The context entries in memory, the free list [thread->ctxlist] of
    every thread (top of the stack first), and the next address the
    allocator hands out. *)
Record state := mkState {
  ctxs : gmap addr context_list_t;
  ctxlist : list (list addr);
  next_ctx : addr
}.

(** Modelled from the spec: [dart__base__stack_pop] and
    [dart__base__stack_push] are the operations of a Treiber stack; pop
    takes the element pushed last. *)
Definition dart__base__stack_pop (l : list addr) : ptr * list addr :=
  match l with
  | [] => (NULL, [])
  | c :: rest => (Some c, rest)
  end.

Definition dart__base__stack_push (c : addr) (l : list addr) : list addr :=
  c :: l.

Definition dart__tasking__context_allocate (tid : nat) (st : state)
  : addr * state :=
  let c := next_ctx st in
  (c, mkState (<[c := mkCtx tid false]> (ctxs st)) (ctxlist st) (Pos.succ c)).

(** [dart__tasking__context_create(fn, arg)] called by thread [tid], built
    with [USE_UCONTEXT]. *)
Definition dart__tasking__context_create (tid : nat) (st : state)
  : option (addr * state) :=
  fl ← ctxlist st !! tid;
  let '(popped, rest) := dart__base__stack_pop fl in
  let st := mkState (ctxs st) (<[tid := rest]> (ctxlist st)) (next_ctx st) in
  let '(res, st) :=
    match popped with
    | Some c => (c, st)                       (* reuse *)
    | None => dart__tasking__context_allocate tid st
    end in
  cl ← ctxs st !! res;
  (* res->fn = fn; res->arg = arg *)
  Some (res, mkState (<[res := mkCtx (ctx_owner cl) true]> (ctxs st))
                     (ctxlist st) (next_ctx st)).

(** [dart__tasking__context_release(ctx)]; the calling thread plays no
    role in it. *)
Definition dart__tasking__context_release (caller : nat) (ctx : addr) (st : state)
  : option state :=
  cl ← ctxs st !! ctx;
  (* push back to the thread that allocated the context *)
  let thread := ctx_owner cl in
  fl ← ctxlist st !! thread;
  Some (mkState (ctxs st)
                (<[thread := dart__base__stack_push ctx fl]> (ctxlist st))
                (next_ctx st)).

(** Every entry on the free list of a thread is owned by that thread and
    is on the list once; the allocator has not handed out [next_ctx] or
    anything above it. *)
Definition inv (st : state) : Prop :=
  (∀ t fl, ctxlist st !! t = Some fl →
     NoDup fl ∧ ∀ c, c ∈ fl → ∃ cl, ctxs st !! c = Some cl ∧ ctx_owner cl = t)
  ∧ (∀ c, is_Some (ctxs st !! c) → (c < next_ctx st)%positive).

(** A context is in use when it is on no free list. *)
Definition in_use (st : state) (c : addr) : Prop :=
  ∀ t fl, ctxlist st !! t = Some fl → c ∉ fl.

Definition owner_of (st : state) (c : addr) : option nat :=
  ctx_owner <$> (ctxs st !! c).

Definition example_state : state :=
  mkState (<[1%positive := mkCtx 0 false]> (<[2%positive := mkCtx 1 true]> ∅))
          [[1%positive]; []] 3%positive.

End Context.

(** ** The memory pool of the copy-in engine ([dart_tasking_copyin.c]) *)

Module Copyin.

Definition MEMPOOL_MAGIC_NUM : Z := 0xDEADBEEF.

(** Addresses are integers here, as the pool computes the address of a
    buffer from the address of its header and back. *)
Record mem_pool_elem_t := mkElem {
  mem : Z;                    (* the buffer handed to the caller *)
  magic : Z;
  mpool : Z                   (* back reference to the memory pool *)
}.

Record mem_pool_t := mkPool {
  size : Z;
  elems : list Z              (* the stack of free elements, top first *)
}.

(** The static [mem_pool] (the list of pools, the newest first), the pools
    and the element headers in memory, and the break of the allocator (see
    [malloc] below). *)
Record state := mkState {
  mem_pool : list Z;
  pools : gmap Z mem_pool_t;
  headers : gmap Z mem_pool_elem_t;
  brk : Z
}.

(** [sizeof(mem_pool_t)] and [sizeof(mem_pool_elem_t)]. *)
Class sizes := {
  sizeof_mem_pool : Z;
  sizeof_mem_pool_elem : Z
}.

(** Modelled from the spec: the dependency types of
    [dart_tasking.h]. *)
Inductive dart_task_deptype_t :=
| DART_DEP_IN
| DART_DEP_OUT
| DART_DEP_INOUT
| DART_DEP_COPYIN
| DART_DEP_COPYIN_R
| DART_DEP_COPYIN_OUT
| DART_DEP_DELAYED_IN
| DART_DEP_DIRECT.

Global Instance deptype_eq_dec : EqDecision dart_task_deptype_t.
Proof. solve_decision. Defined.

(** A dependency with its copy-in part: destination ([None] for NULL) and
    size. *)
Record dart_task_dep_t := mkDep {
  dep_type : dart_task_deptype_t;
  copyin_dest : option Z;
  copyin_size : Z
}.

(** The destructors a dependency record can carry. *)
Inductive dtor_t :=
| dart_tasking_copyin_release_mem_fn.

Record dart_dephash_elem_t := mkDephash {
  dep : dart_task_dep_t;
  dtor : option dtor_t
}.

Section Pool.
Context `{sizes}.

(** The loop of [find_mem_pool] over the list of pools. *)
Fixpoint find_mem_pool_from (l : list Z) (sz : Z) (st : state) : option (option Z) :=
  match l with
  | [] => Some None
  | p :: rest =>
      pool ← pools st !! p;
      if sz =? size pool then Some (Some p)
      else find_mem_pool_from rest sz st
  end.

Definition find_mem_pool (sz : Z) (st : state) : option (option Z) :=
  find_mem_pool_from (mem_pool st) sz st.

(** The C library: [malloc(n)], with [n] a [size_t], hands out the [n]
    bytes at [brk]; every call returns an address of its own, also a
    request of 0 bytes. *)
Definition malloc (n : Z) (st : state) : Z * state :=
  (brk st, mkState (mem_pool st) (pools st) (headers st) (brk st + Z.max 1 n)).

(** Returns the buffer. *)
Definition allocate_from_mempool (sz : Z) (st : state) : option (Z * state) :=
  (* search for an existing memory pool first *)
  found ← find_mem_pool sz st;
  '(mpool_, st) ←
    match found with
    | Some p => Some (p, st)
    | None =>
        (* create a new mempool and add it to the list; under the lock the
           search is repeated *)
        found ← find_mem_pool sz st;
        match found with
        | Some p => Some (p, st)
        | None =>
            let '(p, st) := malloc sizeof_mem_pool st in
            Some (p, mkState (p :: mem_pool st)
                             (<[p := mkPool sz []]> (pools st))
                             (headers st) (brk st))
        end
    end;
  pool ← pools st !! mpool_;
  match elems pool with
  | e :: rest =>
      (* DART_MEMPOOL_ELEM_POP *)
      hd ← headers st !! e;
      Some (mem hd,
            mkState (mem_pool st) (<[mpool_ := mkPool (size pool) rest]> (pools st))
                    (headers st) (brk st))
  | [] =>
      (* allocate a new element; the sum is one of size_t and wraps *)
      let '(e, st) := malloc (Context.to_size_t (sizeof_mem_pool_elem + sz)) st in
      let hd := mkElem (e + sizeof_mem_pool_elem) MEMPOOL_MAGIC_NUM mpool_ in
      Some (mem hd,
            mkState (mem_pool st) (pools st) (<[e := hd]> (headers st)) (brk st))
  end.

(** The two halves of [allocate_from_mempool], named for the proofs: the
    pool to use once the first search has returned [found], and the element
    taken from the pool [mpool_]. *)
Definition pool_for (found : option Z) (sz : Z) (st : state) : option (Z * state) :=
  match found with
  | Some p => Some (p, st)
  | None =>
      found ← find_mem_pool sz st;
      match found with
      | Some p => Some (p, st)
      | None =>
          let '(p, st) := malloc sizeof_mem_pool st in
          Some (p, mkState (p :: mem_pool st)
                           (<[p := mkPool sz []]> (pools st))
                           (headers st) (brk st))
      end
  end.

Definition take_elem (mpool_ sz : Z) (st : state) : option (Z * state) :=
  pool ← pools st !! mpool_;
  match elems pool with
  | e :: rest =>
      hd ← headers st !! e;
      Some (mem hd,
            mkState (mem_pool st) (<[mpool_ := mkPool (size pool) rest]> (pools st))
                    (headers st) (brk st))
  | [] =>
      let '(e, st) := malloc (Context.to_size_t (sizeof_mem_pool_elem + sz)) st in
      let hd := mkElem (e + sizeof_mem_pool_elem) MEMPOOL_MAGIC_NUM mpool_ in
      Some (mem hd,
            mkState (mem_pool st) (pools st) (<[e := hd]> (headers st)) (brk st))
  end.

Definition return_to_mempool (buf : Z) (st : state) : option state :=
  let e := buf - sizeof_mem_pool_elem in
  hd ← headers st !! e;
  (* DART_ASSERT_MSG(elem->magic == MEMPOOL_MAGIC_NUM, ...) *)
  if negb (magic hd =? MEMPOOL_MAGIC_NUM) then None else
  pool ← pools st !! mpool hd;
  Some (mkState (mem_pool st)
                (<[mpool hd := mkPool (size pool) (e :: elems pool)]> (pools st))
                (headers st) (brk st)).

(** The destructor of a copy-in dependency. *)
Definition dart_tasking_copyin_release_mem (dephash : dart_dephash_elem_t)
    (st : state) : option (dart_dephash_elem_t * state) :=
  (* DART_ASSERT_MSG(dephash != NULL && dephash->dep.copyin.dest != NULL, ...) *)
  dest ← copyin_dest (dep dephash);
  st' ← return_to_mempool dest st;
  Some (mkDephash (mkDep (dep_type (dep dephash)) None (copyin_size (dep dephash)))
                  (dtor dephash), st').

(** The search for the COPYIN_OUT dependency in [task->deps_owned]: the
    position of the first one. *)
Fixpoint find_copyin_out (deps_owned : list dart_dephash_elem_t) : option nat :=
  match deps_owned with
  | [] => None
  | elem :: rest =>
      if bool_decide (dep_type (dep elem) = DART_DEP_COPYIN_OUT) then Some 0%nat
      else S <$> find_copyin_out rest
  end.

(** [dart_tasking_copyin_prepare_dep()] on the dependencies the current
    task owns: the position of the dependency it returns, and the list
    with that dependency updated. *)
Definition dart_tasking_copyin_prepare_dep (deps_owned : list dart_dephash_elem_t)
    (st : state) : option (nat * list dart_dephash_elem_t * state) :=
  (* DART_ASSERT_MSG(dep != NULL, ...) *)
  i ← find_copyin_out deps_owned;
  elem ← deps_owned !! i;
  match copyin_dest (dep elem) with
  | None =>
      '(buf, st') ← allocate_from_mempool (copyin_size (dep elem)) st;
      let elem' :=
        mkDephash (mkDep (dep_type (dep elem)) (Some buf) (copyin_size (dep elem)))
                  (Some dart_tasking_copyin_release_mem_fn) in
      Some (i, <[i := elem']> deps_owned, st')
  | Some _ => Some (i, deps_owned, st)
  end.

(** Modelled from the spec: the retirement of a dependency record calls the
    destructor attached to it, if there is one. *)
Definition run_dtor (elem : dart_dephash_elem_t) (st : state)
  : option (dart_dephash_elem_t * state) :=
  match dtor elem with
  | Some dart_tasking_copyin_release_mem_fn =>
      dart_tasking_copyin_release_mem elem st
  | None => Some (elem, st)
  end.

(** Every listed pool is in memory, pools are listed once per size, every
    free element of a pool has a header that points back to the pool and
    carries the magic word, and everything lies below the break. *)
Definition wf (st : state) : Prop :=
  (∀ p, p ∈ mem_pool st → is_Some (pools st !! p))
  ∧ (∀ p pool e, pools st !! p = Some pool → e ∈ elems pool →
       ∃ hd, headers st !! e = Some hd ∧ mpool hd = p
             ∧ magic hd = MEMPOOL_MAGIC_NUM
             ∧ mem hd = e + sizeof_mem_pool_elem)
  ∧ (∀ p, is_Some (pools st !! p) → p < brk st)
  ∧ (∀ e, is_Some (headers st !! e) → e < brk st).

End Pool.

Definition example_sizes : sizes :=
  {| sizeof_mem_pool := 32; sizeof_mem_pool_elem := 32 |}.

Definition example_state : state := mkState [] ∅ ∅ 4096.

Definition example_deps : list dart_dephash_elem_t :=
  [mkDephash (mkDep DART_DEP_IN None 0) None;
   mkDephash (mkDep DART_DEP_COPYIN_OUT None 1024) None].

End Copyin.

(** ** The send/receive active message queue (in [GlobIter.h]) *)

Module Amsgq.

Definition MPI_SUCCESS : Z := 0.

Inductive MPI_Request :=
| MPI_REQUEST_NULL
| MPI_REQUEST_ACTIVE (target : Z).

Global Instance MPI_Request_eq_dec : EqDecision MPI_Request.
Proof. solve_decision. Defined.

(** [struct dart_amsgq_impl_data]: buffers are their contents, a mutex is
    [true] while another thread holds it.  [processed] is not a field of
    the struct: it records the calls of [dart__amsgq__process_buffer]. *)
Record dart_amsgq_impl_data := mkAmsgq {
  recv_bufs : list (list Z);
  send_reqs : list MPI_Request;
  send_bufs : list (list Z);
  send_count : list Z;
  recv_count : list Z;
  send_tailpos : Z;
  msg_count : Z;
  send_mutex : bool;
  processing_mutex : bool;
  direct_send : bool;
  sync_send : bool;
  processed : list (list Z * Z)
}.

Definition set_send_reqs v q :=
  mkAmsgq (recv_bufs q) v (send_bufs q) (send_count q) (recv_count q)
    (send_tailpos q) (msg_count q) (send_mutex q) (processing_mutex q)
    (direct_send q) (sync_send q) (processed q).
Definition set_send_bufs v q :=
  mkAmsgq (recv_bufs q) (send_reqs q) v (send_count q) (recv_count q)
    (send_tailpos q) (msg_count q) (send_mutex q) (processing_mutex q)
    (direct_send q) (sync_send q) (processed q).
Definition set_send_count v q :=
  mkAmsgq (recv_bufs q) (send_reqs q) (send_bufs q) v (recv_count q)
    (send_tailpos q) (msg_count q) (send_mutex q) (processing_mutex q)
    (direct_send q) (sync_send q) (processed q).
Definition set_recv_count v q :=
  mkAmsgq (recv_bufs q) (send_reqs q) (send_bufs q) (send_count q) v
    (send_tailpos q) (msg_count q) (send_mutex q) (processing_mutex q)
    (direct_send q) (sync_send q) (processed q).
Definition set_send_tailpos v q :=
  mkAmsgq (recv_bufs q) (send_reqs q) (send_bufs q) (send_count q) (recv_count q)
    v (msg_count q) (send_mutex q) (processing_mutex q)
    (direct_send q) (sync_send q) (processed q).
Definition set_send_mutex v q :=
  mkAmsgq (recv_bufs q) (send_reqs q) (send_bufs q) (send_count q) (recv_count q)
    (send_tailpos q) (msg_count q) v (processing_mutex q)
    (direct_send q) (sync_send q) (processed q).
Definition set_processing_mutex v q :=
  mkAmsgq (recv_bufs q) (send_reqs q) (send_bufs q) (send_count q) (recv_count q)
    (send_tailpos q) (msg_count q) (send_mutex q) v
    (direct_send q) (sync_send q) (processed q).
Definition set_processed v q :=
  mkAmsgq (recv_bufs q) (send_reqs q) (send_bufs q) (send_count q) (recv_count q)
    (send_tailpos q) (msg_count q) (send_mutex q) (processing_mutex q)
    (direct_send q) (sync_send q) v.

(** How a call ends: it returns, it waits for a mutex another thread
    holds, or an assertion fails (or an array is left). *)
Inductive outcome :=
| Returns (ret : dart_ret_t) (q : dart_amsgq_impl_data)
| Blocks
| Fails.

(** Arrays indexed by an [int]. *)
Definition zlookup {A} (l : list A) (i : Z) : option A :=
  if i <? 0 then None else l !! Z.to_nat i.

Definition zinsert {A} (i : Z) (x : A) (l : list A) : list A :=
  <[Z.to_nat i := x]> l.

(** Modelled from the spec: [dart__base__mutex_trylock] takes a free mutex
    and returns [DART_OK]; on a busy one it returns [DART_PENDING]. *)
Definition dart__base__mutex_trylock (m : bool) : dart_ret_t * bool :=
  if m then (DART_PENDING, m) else (DART_OK, true).

(** [array[i]++] *)
Definition incr_at (l : list Z) (i : Z) : option (list Z) :=
  c ← zlookup l i; Some (zinsert i (c + 1) l).

Section Send.
(** What the MPI library answers: the indices [MPI_Testsome] stores in
    [send_outidx] (their number is [outcount]), and the return code of the
    send operation. *)
Variable completed : list Z.
Variable send_ret : Z.

(** [MPI_Testsome] sets the requests it reports to [MPI_REQUEST_NULL]. *)
Definition MPI_Testsome_send (q : dart_amsgq_impl_data) : dart_amsgq_impl_data :=
  set_send_reqs
    (foldr (λ i reqs, zinsert i MPI_REQUEST_NULL reqs) (send_reqs q) completed) q.

(** [while (back_pos > done_idx && send_reqs[back_pos] == MPI_REQUEST_NULL)
    back_pos--], with [back_pos = done_idx + n]. *)
Fixpoint skip_null (reqs : list MPI_Request) (done_idx : Z) (n : nat) : option Z :=
  match n with
  | O => Some done_idx
  | S n' =>
      let back_pos := done_idx + Z.of_nat n in
      r ← zlookup reqs back_pos;
      if bool_decide (r = MPI_REQUEST_NULL) then skip_null reqs done_idx n'
      else Some back_pos
  end.

(** The loop that moves requests from the back to the free spots. *)
Fixpoint move_back (outidx : list Z) (back_pos : Z) (q : dart_amsgq_impl_data)
  : option dart_amsgq_impl_data :=
  match outidx with
  | [] => Some q
  | done_idx :: rest =>
      back_pos ←
        (if back_pos >? done_idx
         then skip_null (send_reqs q) done_idx (Z.to_nat (back_pos - done_idx))
         else Some back_pos);
      if done_idx >=? back_pos then
        (* we met in the middle *)
        Some q
      else
        (* copy the request and buffer to the front *)
        req_back ← zlookup (send_reqs q) back_pos;
        _ ← zlookup (send_reqs q) done_idx;
        tmp ← zlookup (send_bufs q) done_idx;
        buf_back ← zlookup (send_bufs q) back_pos;
        let q :=
          set_send_reqs (zinsert back_pos MPI_REQUEST_NULL
                           (zinsert done_idx req_back (send_reqs q))) q in
        let q :=
          set_send_bufs (zinsert back_pos tmp
                           (zinsert done_idx buf_back (send_bufs q))) q in
        move_back rest (back_pos - 1) q
  end.

Definition amsgq_test_sendreqs_unsafe (amsgq : dart_amsgq_impl_data)
  : option (dart_ret_t * dart_amsgq_impl_data) :=
  let amsgq := MPI_Testsome_send amsgq in
  let outcount := Z.of_nat (length completed) in
  if outcount >? 0 then
    if outcount =? send_tailpos amsgq then
      (* all messages have finished --> nothing to be done *)
      Some (DART_OK, set_send_tailpos 0 amsgq)
    else
      amsgq ← move_back completed (msg_count amsgq - 1) amsgq;
      Some (DART_OK, set_send_tailpos (send_tailpos amsgq - outcount) amsgq)
  else
    (* come back later *)
    Some (DART_ERR_AGAIN, amsgq).

(** The end of [dart_amsg_sendrecv_trysend]. *)
Definition check_send_ret (amsgq : dart_amsgq_impl_data) : outcome :=
  if negb (send_ret =? MPI_SUCCESS) then Returns DART_ERR_AGAIN amsgq
  else Returns DART_OK amsgq.

Definition dart_amsg_sendrecv_trysend (target : Z)
    (amsgq : dart_amsgq_impl_data) (data : list Z) : outcome :=
  (* DART_ASSERT(amsgq->send_tailpos <= amsgq->msg_count) *)
  if negb (send_tailpos amsgq <=? msg_count amsgq) then Fails else
  if negb (direct_send amsgq) then
    (* dart__base__mutex_lock(&amsgq->send_mutex) *)
    if send_mutex amsgq then Blocks else
    let amsgq := set_send_mutex true amsgq in
    (* search for a free handle if necessary *)
    match (if send_tailpos amsgq =? msg_count amsgq
           then amsgq_test_sendreqs_unsafe amsgq
           else Some (DART_OK, amsgq)) with
    | None => Fails
    | Some (ret, amsgq) =>
        if negb (bool_decide (ret = DART_OK)) then
          Returns ret (set_send_mutex false amsgq)
        else
          let idx := send_tailpos amsgq in
          let amsgq := set_send_tailpos (idx + 1) amsgq in
          match zlookup (send_bufs amsgq) idx, zlookup (send_reqs amsgq) idx with
          | Some sendbuf, Some _ =>
              (* memcpy(sendbuf, data, data_size) *)
              let sendbuf := data ++ drop (length data) sendbuf in
              let amsgq := set_send_bufs (zinsert idx sendbuf (send_bufs amsgq)) amsgq in
              (* MPI_Issend or MPI_Isend *)
              let amsgq :=
                set_send_reqs (zinsert idx (MPI_REQUEST_ACTIVE target)
                                 (send_reqs amsgq)) amsgq in
              match (if sync_send amsgq then Some amsgq
                     else cnt ← incr_at (send_count amsgq) target;
                          Some (set_send_count cnt amsgq)) with
              | None => Fails
              | Some amsgq => check_send_ret (set_send_mutex false amsgq)
              end
          | _, _ => Fails
          end
    end
  else
    (* MPI_Ssend or MPI_Send *)
    match (if sync_send amsgq then Some amsgq
           else cnt ← incr_at (send_count amsgq) target;
                Some (set_send_count cnt amsgq)) with
    | None => Fails
    | Some amsgq => check_send_ret amsgq
    end.

End Send.

(** A message [MPI_Testsome] reports on the receive side: its index in
    [recv_outidx], the number of bytes [MPI_Get_elements] gives, and the
    source of its status. *)
Record recv_msg := mkRecv {
  recv_idx : Z;
  recv_tailpos : Z;
  recv_source : Z
}.

(** The [for] loop over the [outcount] messages of one [MPI_Testsome]. *)
Fixpoint process_messages (batch : list recv_msg) (amsgq : dart_amsgq_impl_data)
  : option dart_amsgq_impl_data :=
  match batch with
  | [] => Some amsgq
  | m :: rest =>
      (* pick the message *)
      dbuf ← zlookup (recv_bufs amsgq) (recv_idx m);
      (* DART_ASSERT(tailpos > 0) *)
      if negb (recv_tailpos m >? 0) then None else
      amsgq ←
        (if negb (sync_send amsgq)
         then cnt ← incr_at (recv_count amsgq) (recv_source m);
              Some (set_recv_count cnt amsgq)
         else Some amsgq);
      (* dart__amsgq__process_buffer(dbuf, tailpos) *)
      let amsgq := set_processed (processed amsgq ++ [(dbuf, recv_tailpos m)]) amsgq in
      process_messages rest amsgq
  end.

(** The [do ... while (blocking && num_msg > 0)] loop; [incoming] is what
    the successive calls of [MPI_Testsome] report, nothing once it is
    used up. *)
Fixpoint process_loop (blocking : bool) (incoming : list (list recv_msg))
    (amsgq : dart_amsgq_impl_data) : option dart_amsgq_impl_data :=
  match incoming with
  | [] => Some amsgq
  | batch :: later =>
      amsgq ← process_messages batch amsgq;
      let num_msg := Z.of_nat (length batch) in
      if blocking && (num_msg >? 0) then process_loop blocking later amsgq
      else Some amsgq
  end.

Definition amsg_sendrecv_process_internal (incoming : list (list recv_msg))
    (amsgq : dart_amsgq_impl_data) (blocking has_lock : bool) : outcome :=
  let locked :=
    if negb has_lock then
      if negb blocking then
        let '(ret, m) := dart__base__mutex_trylock (processing_mutex amsgq) in
        if negb (bool_decide (ret = DART_OK)) then inl (Returns DART_ERR_AGAIN amsgq)
        else inr (set_processing_mutex m amsgq)
      else
        (* dart__base__mutex_lock(&amsgq->processing_mutex) *)
        if processing_mutex amsgq then inl Blocks
        else inr (set_processing_mutex true amsgq)
    else inr amsgq in
  match locked with
  | inl out => out
  | inr amsgq =>
      match process_loop blocking incoming amsgq with
      | None => Fails
      | Some amsgq =>
          let amsgq :=
            if negb has_lock then set_processing_mutex false amsgq else amsgq in
          Returns DART_OK amsgq
      end
  end.

Definition dart_amsg_sendrecv_process (incoming : list (list recv_msg))
    (amsgq : dart_amsgq_impl_data) : outcome :=
  amsg_sendrecv_process_internal incoming amsgq false false.

(** A queue of four send slots, all of them in use. *)
Definition example_queue (direct busy : bool) : dart_amsgq_impl_data :=
  mkAmsgq [[0]; [0]; [0]; [0]]
          [MPI_REQUEST_ACTIVE 1; MPI_REQUEST_ACTIVE 1;
           MPI_REQUEST_ACTIVE 2; MPI_REQUEST_ACTIVE 3]
          [[0]; [0]; [0]; [0]]
          [0; 0; 0; 0] [0; 0; 0; 0]
          4 4 false busy direct true [].

End Amsgq.

(** ** The context manager: allocation layout, cleanup, sequences of calls *)

Module ContextMore.
Import Context.

(** The addresses [dart__tasking__context_allocate] computes for the block
    at [ctxlist]: [sizeof_ctxlist] is [sizeof(context_list_t)],
    [use_mprotect] tells whether the build defines [USE_MPROTECT]. *)
Record layout := mkLayout {
  meta_size : Z;
  size : Z;                   (* the bytes asked from mmap or posix_memalign *)
  stack : Z;                  (* ctxlist->stack *)
  ub_guard : Z;               (* the upper guard page (USE_MPROTECT only) *)
  lb_guard : Z                (* the lower guard page (USE_MPROTECT only) *)
}.

Definition context_allocate_layout (g : globals) (sizeof_ctxlist : Z)
    (use_mprotect : bool) (ctxlist : Z) : layout :=
  let task_stack_size := dart__tasking__context_stack_size g in
  (* align to page boundary: first page contains struct data and pointer to
     second page, the start of the stack *)
  let meta_size := dart__tasking__context_adjust_size g sizeof_ctxlist in
  let size :=
    if use_mprotect then
      to_size_t (to_size_t (meta_size
                            + dart__tasking__context_adjust_size g task_stack_size)
                 + to_size_t (2 * page_size g))  (* upper and lower guard pages *)
    else
      to_size_t (meta_size + dart__tasking__context_adjust_size g task_stack_size) in
  let stack :=
    if use_mprotect then ctxlist + meta_size + page_size g
    else ctxlist + meta_size in
  mkLayout meta_size size stack (stack + task_stack_size) (stack - page_size g).

(** [dart__tasking__context_free]: the block goes back to the system. *)
Definition dart__tasking__context_free (c : addr) (st : state) : state :=
  mkState (delete c (ctxs st)) (ctxlist st) (next_ctx st).

(** The loop of [dart__tasking__context_cleanup]: pop an entry from the
    free list of the thread and free it, until the pop returns NULL. The
    loop runs once per entry of the list; [n] bounds the number of
    entries. *)
Fixpoint cleanup_loop (n : nat) (tid : nat) (st : state) : option state :=
  fl ← ctxlist st !! tid;
  let '(popped, rest) := dart__base__stack_pop fl in
  let st := mkState (ctxs st) (<[tid := rest]> (ctxlist st)) (next_ctx st) in
  match popped with
  | None => Some st
  | Some c =>
      match n with
      | O => None
      | S n' => cleanup_loop n' tid (dart__tasking__context_free c st)
      end
  end.

(** [dart__tasking__context_cleanup()] called by thread [tid]. *)
Definition dart__tasking__context_cleanup (tid : nat) (st : state)
  : option state :=
  fl ← ctxlist st !! tid;
  cleanup_loop (length fl) tid st.

(** Calls of the context manager by the threads of the pool. *)
Inductive ctx_op :=
| CtxCreate (tid : nat)
| CtxRelease (caller : nat) (ctx : addr).

(** How a sequence of calls ends: with a state and the contexts that are
    handed out and not released yet (the newest first), with a release of
    a context that is not handed out, or with a fault of the code. *)
Inductive ctx_outcome :=
| CtxOk (st : state) (live : list addr)
| CtxMisuse
| CtxFault.

Fixpoint ctx_run (ops : list ctx_op) (st : state) (live : list addr)
  : ctx_outcome :=
  match ops with
  | [] => CtxOk st live
  | CtxCreate tid :: rest =>
      match dart__tasking__context_create tid st with
      | Some (c, st') => ctx_run rest st' (c :: live)
      | None => CtxFault
      end
  | CtxRelease caller c :: rest =>
      if bool_decide (c ∈ live) then
        match dart__tasking__context_release caller c st with
        | Some st' => ctx_run rest st' (filter (λ x, x ≠ c) live)
        | None => CtxFault
        end
      else CtxMisuse
  end.

(** The thread of a call that creates a context. *)
Definition creating_threads (ops : list ctx_op) : list nat :=
  omap (λ op, match op with CtxCreate tid => Some tid | _ => None end) ops.

(** The state behind [dart_thread_init] for [n] threads: no context
    allocated, every free list empty. *)
Definition ctx_init (n : nat) : state :=
  mkState ∅ (replicate n []) 1%positive.

(** The invariant of a sequence of calls: the invariant of the free lists,
    the contexts handed out are in use, allocated and listed once, and
    every owner is a thread of the pool. *)
Definition seq_inv (n : nat) (st : state) (live : list addr) : Prop :=
  inv st ∧ NoDup live
  ∧ (∀ c, c ∈ live → in_use st c ∧ is_Some (ctxs st !! c))
  ∧ length (ctxlist st) = n
  ∧ (∀ c cl, ctxs st !! c = Some cl → (ctx_owner cl < n)%nat).

End ContextMore.

(** ** The copy-in engine: sequences of pool calls, copy-in information *)

Module CopyinMore.
Import Copyin.



Section Run.
Context `{sizes}.




End Run.

(** The dependency records [dart__tasking__copyin_info] walks: the records
    a task owns ([task->deps_owned], linked by [next_in_task]) with the
    fields it reads, and the output dependency a record is attached to
    ([elem->dep_list], [None] for NULL) with its copy-in destination and the
    address of its global pointer. *)
Record out_elem_t := mkOutElem {
  out_type : dart_task_deptype_t;
  out_copyin_dest : option Z;
  out_gptr_addr : option Z
}.

Record owned_elem_t := mkOwned {
  own_type : dart_task_deptype_t;
  dep_list : option out_elem_t
}.

Definition is_copyin (elem : owned_elem_t) : bool :=
  bool_decide (own_type elem = DART_DEP_COPYIN)
  || bool_decide (own_type elem = DART_DEP_COPYIN_R).

(** The [for] loop: the record it stops at, [None] when it runs off the
    list. *)
Fixpoint copyin_info_loop (deps_owned : list owned_elem_t) (i depnum : Z)
  : option owned_elem_t :=
  match deps_owned with
  | [] => None
  | elem :: rest =>
      if is_copyin elem then
        if i =? depnum then Some elem
        else copyin_info_loop rest (i + 1) depnum
      else copyin_info_loop rest i depnum
  end.

(** [dart__tasking__copyin_info(task, depnum)] on the records the task
    owns; [None] when the assertion fails or NULL is dereferenced. The
    result is the pointer returned. *)
Definition dart__tasking__copyin_info (deps_owned : list owned_elem_t)
    (depnum : Z) : option (option Z) :=
  (* DART_ASSERT_MSG(elem != NULL, ...) *)
  elem ← copyin_info_loop deps_owned 0 depnum;
  (* look at the output dependency this copyin is attached to *)
  out_elem ← dep_list elem;
  if bool_decide (out_type out_elem = DART_DEP_COPYIN_OUT) then
    (* the destination address of the dependency that copied it locally *)
    Some (out_copyin_dest out_elem)
  else
    (* the address referenced in the last out dependency *)
    Some (out_gptr_addr out_elem).

End CopyinMore.

(** ** Observations of the active message queue *)

Module AmsgqMore.
Import Amsgq.

(** The batches up to the first empty one, joined. *)
Fixpoint until_empty (incoming : list (list recv_msg)) : list recv_msg :=
  match incoming with
  | [] => []
  | [] :: _ => []
  | batch :: later => batch ++ until_empty later
  end.

(** The messages one call of [amsg_sendrecv_process_internal] takes from
    what [MPI_Testsome] reports: the first batch, and with [blocking] every
    batch up to the first empty one. *)
Definition taken (blocking : bool) (incoming : list (list recv_msg))
  : list recv_msg :=
  if blocking then until_empty incoming else hd [] incoming.

(** The number of messages of [msgs] that come from [source]. *)
Definition count_from (source : Z) (msgs : list recv_msg) : Z :=
  Z.of_nat (length (filter (λ m, recv_source m = source) msgs)).

(** A reported message names a receive buffer of the queue, carries at
    least one byte and, where messages are counted, comes from a unit of
    the team. *)
Definition msg_valid (q : dart_amsgq_impl_data) (m : recv_msg) : Prop :=
  0 ≤ recv_idx m < Z.of_nat (length (recv_bufs q))
  ∧ 0 < recv_tailpos m
  ∧ (sync_send q = false →
     0 ≤ recv_source m < Z.of_nat (length (recv_count q))).

(** What [dart__amsgq__process_buffer] is called with for a message. *)
Definition delivery (q : dart_amsgq_impl_data) (m : recv_msg) : list Z * Z :=
  (default [] (zlookup (recv_bufs q) (recv_idx m)), recv_tailpos m).

(** The ring of send requests: the slots below [send_tailpos] hold the
    active requests, the others are free. *)
Definition ring_wf (q : dart_amsgq_impl_data) : Prop :=
  Z.of_nat (length (send_reqs q)) = msg_count q
  ∧ Z.of_nat (length (send_bufs q)) = msg_count q
  ∧ 0 ≤ send_tailpos q ≤ msg_count q
  ∧ ∀ i r, zlookup (send_reqs q) i = Some r →
      (r ≠ MPI_REQUEST_NULL ↔ i < send_tailpos q).

(** The requests in flight with their buffers. *)
Definition in_flight (q : dart_amsgq_impl_data) : list (MPI_Request * list Z) :=
  filter (λ rb, rb.1 ≠ MPI_REQUEST_NULL) (zip (send_reqs q) (send_bufs q)).

(** Strictly ascending indices, as [MPI_Testsome] reports them. *)
Fixpoint ascending (lo : Z) (l : list Z) : Prop :=
  match l with
  | [] => True
  | i :: rest => lo ≤ i ∧ ascending (i + 1) rest
  end.

(** The state of the ring while [amsgq_test_sendreqs_unsafe] moves requests
    to the front: [rest] are the free spots still to fill, [back] is
    [back_pos], [n] the number of slots and [t] the value of
    [send_tailpos]. Behind [back] every slot is free; up to [back] the free
    slots are those of [rest] and those from [t] on. *)
Definition compacting (n t : Z) (rest : list Z) (back : Z)
    (q : dart_amsgq_impl_data) : Prop :=
  msg_count q = n
  ∧ Z.of_nat (length (send_reqs q)) = n
  ∧ Z.of_nat (length (send_bufs q)) = n
  ∧ -1 ≤ back < n ∧ 0 ≤ t ≤ n
  ∧ (∃ lo, 0 ≤ lo ∧ ascending lo rest)
  ∧ Forall (λ i, i < t) rest
  ∧ (∀ i r, back < i → zlookup (send_reqs q) i = Some r → r = MPI_REQUEST_NULL)
  ∧ (∀ i r, i ≤ back → zlookup (send_reqs q) i = Some r →
       (r = MPI_REQUEST_NULL ↔ i ∈ rest ∨ t ≤ i)).

(** [dart_amsg_sendrecv_openq]: [team_data] is the size of the team's
    communicator, [None] for an unknown team; [env_sync] and [env_direct]
    are the two environment variables, [None] when unset; [fresh] is what
    a buffer holds when [malloc] returns it. With synchronous sends the
    four counter arrays are not allocated, with direct sends the send
    buffers and requests are not. The MPI calls (the copy of the
    communicator, the receives that are posted, the barrier) leave nothing
    in the fields of the model. *)
Definition dart_amsg_sendrecv_openq (team_data : option Z)
    (msg_size msg_count : Z) (env_sync env_direct : option bool)
    (fresh : list Z) : dart_ret_t * option dart_amsgq_impl_data :=
  let sync_send := default true env_sync in
  let direct_send := default (if sync_send then false else true) env_direct in
  match team_data with
  | None => (DART_ERR_INVAL, None)
  | Some comm_size =>
      let n := Z.to_nat msg_count in
      (DART_OK,
       Some (mkAmsgq
               (replicate n fresh)
               (if negb direct_send then replicate n MPI_REQUEST_NULL else [])
               (if negb direct_send then replicate n fresh else [])
               (if negb sync_send then replicate (Z.to_nat comm_size) 0 else [])
               (if negb sync_send then replicate (Z.to_nat comm_size) 0 else [])
               0 msg_count false false direct_send sync_send []))
  end.

(** The part of [dart_amsg_sendrecv_trysend] behind the search for a free
    handle: the message goes into the slot at [send_tailpos]. *)
Definition store_message (send_ret target : Z) (amsgq : dart_amsgq_impl_data)
    (data : list Z) : outcome :=
  let idx := send_tailpos amsgq in
  let amsgq := set_send_tailpos (idx + 1) amsgq in
  match zlookup (send_bufs amsgq) idx, zlookup (send_reqs amsgq) idx with
  | Some sendbuf, Some _ =>
      let sendbuf := data ++ drop (length data) sendbuf in
      let amsgq := set_send_bufs (zinsert idx sendbuf (send_bufs amsgq)) amsgq in
      let amsgq :=
        set_send_reqs (zinsert idx (MPI_REQUEST_ACTIVE target)
                         (send_reqs amsgq)) amsgq in
      match (if sync_send amsgq then Some amsgq
             else cnt ← incr_at (send_count amsgq) target;
                  Some (set_send_count cnt amsgq)) with
      | None => Fails
      | Some amsgq => check_send_ret send_ret (set_send_mutex false amsgq)
      end
  | _, _ => Fails
  end.

(** One call of [dart_amsg_sendrecv_trysend] together with what MPI answers
    during the call. *)
Record send_call := mkSend {
  sc_completed : list Z;
  sc_send_ret : Z;
  sc_target : Z;
  sc_data : list Z
}.

(** A sequence of sends by one thread; a call that returns [DART_ERR_AGAIN]
    is followed by the next one. *)
Fixpoint send_run (calls : list send_call) (q : dart_amsgq_impl_data)
  : option dart_amsgq_impl_data :=
  match calls with
  | [] => Some q
  | c :: rest =>
      match dart_amsg_sendrecv_trysend (sc_completed c) (sc_send_ret c)
              (sc_target c) q (sc_data c) with
      | Returns _ q' => send_run rest q'
      | Blocks | Fails => None
      end
  end.

(** Every send buffer of the ring has the [msg_size] bytes that
    [dart_amsg_sendrecv_openq] allocates for it. *)
Definition bufs_sized (msg_size : Z) (q : dart_amsgq_impl_data) : Prop :=
  Forall (λ b, Z.of_nat (length b) = msg_size) (send_bufs q).

(** What a call may rely on: [MPI_Testsome] reports requests of the ring,
    by ascending index; MPI accepts the send, which leaves an active
    request in the slot; the message is at most [msg_size] bytes long; and
    the target is a unit of the team. *)
Definition call_ok (msg_size : Z) (q : dart_amsgq_impl_data) (c : send_call)
  : Prop :=
  ascending 0 (sc_completed c)
  ∧ Forall (λ i, i < msg_count q) (sc_completed c)
  ∧ sc_send_ret c = MPI_SUCCESS
  ∧ Z.of_nat (length (sc_data c)) ≤ msg_size
  ∧ (sync_send q = false →
     0 ≤ sc_target c < Z.of_nat (length (send_count q))).

End AmsgqMore.

(** ** Observations of the scheduler *)

(** Nothing is waiting in the hot slots of a thread. *)
Definition slots_empty (th : dart_thread_t) : Prop :=
  Forall (λ p, p = NULL) (queue th).

(** The thread [tid] has no task to run: none was handed to it by a yield,
    no thread has a task in a hot slot, and the task queues of all NUMA
    nodes are empty. *)
Definition no_task_for (tid : nat) (s : sched) : Prop :=
  (∀ th, thread_pool s !! tid = Some (Some th) → thread_next_task th = NULL)
  ∧ (∀ i th, thread_pool s !! i = Some (Some th) → slots_empty th)
  ∧ Forall (λ q, q = mkQueue (mkDeque NULL NULL) (mkDeque NULL NULL))
      (task_queue s).

(** The NUMA node [dart__tasking__enqueue_runnable] computes for a task. *)
Definition task_numa_node `{dart_externals} (t : dart_task_t) (s : sched) : nat :=
  match numaptr t with
  | Some p => if respect_numa s then dart__tasking__affinity_ptr_numa_node p
              else 0%nat
  | None => 0%nat
  end.

(** ** The end of a task: destruction and task references *)

(** [DART_TASK_UNSET_FLAG] *)
Definition DART_TASK_UNSET_FLAG (f : dart_task_flag_t) (t : dart_task_t)
  : dart_task_t :=
  set_flags (filter (λ g, g ≠ f) (flags t)) t.

(** The dependency module as [dart__tasking__destroy_task] uses it:
    [dart_tasking_datadeps_reset(task)] works on the descriptor it is given.
    [dart__tasking__phase_take_task()] works on the counters of the phase
    module, which are not part of the scheduler state; the functions below
    return the phases it is called with. *)
Class dart_datadeps := {
  dart_tasking_datadeps_reset : dart_task_t → dart_task_t
}.

Section Destroy.
Context `{dart_constants} `{dart_externals} `{dart_datadeps}.

(** Modelled from the spec: [dart__tasking__is_root_task(task)] compares
    the pointer with the address of the root task. *)
Definition dart__tasking__is_root_task (task : ptr) : bool :=
  ptr_eqb task (Some root_task).

(** [DART_TASKLIST_ELEM_PUSH(task_free_lists[task->owner], task)] *)
Definition tasklist_push (owner : Z) (a : addr) : SchedM unit := λ s,
  if owner <? 0 then None else
  match task_free_lists s !! Z.to_nat owner with
  | Some l =>
      Some (tt, s_set_task_free_lists
                  (<[Z.to_nat owner := a :: l]> (task_free_lists s)) s)
  | None => None
  end.

(** [dart__tasking__destroy_task], built with the memory pool and without
    [TRACK_CHILDREN]; the result lists the phase the task was taken out
    of, if any. The payload [task->data], which is freed when the task
    carries DART_TASK_DATA_ALLOCATED, is not part of the model. *)
Definition dart__tasking__destroy_task (task : ptr) : SchedM (list Z) :=
  t ← on_tasks (deref task);
  (* take the task out of the phase *)
  let taken :=
    if dart__tasking__is_root_task (parent t) then [phase t] else [] in
  on_tasks (assign task dart_tasking_datadeps_reset);;
  on_tasks (assign task (set_state DART_TASK_DESTROYED));;
  t ← on_tasks (deref task);
  match task with
  | Some a => tasklist_push (owner t) a;; mret taken
  | None => fault
  end.

(** [dart__tasking__taskref_free(tr)]: [tr] is [None] for a NULL pointer
    and holds the reference otherwise; the result is the return code, the
    reference [*tr] after the call, and the phases of destroyed tasks. *)
Definition dart__tasking__taskref_free (tr : option ptr)
  : SchedM (dart_ret_t * option ptr * list Z) :=
  match tr with
  | None | Some None => mret (DART_ERR_INVAL, tr, [])
  | Some (Some a) =>
      (* free the task if already destroyed *)
      on_tasks (assign (Some a) (DART_TASK_UNSET_FLAG DART_TASK_HAS_REF));;
      t ← on_tasks (deref (Some a));
      if bool_decide (state t = DART_TASK_FINISHED) then
        taken ← dart__tasking__destroy_task (Some a);
        mret (DART_OK, Some NULL, taken)
      else mret (DART_OK, tr, [])
  end.

(** The [memset] of the whole descriptor to 0, on the fields of the model;
    the state is written by the caller right after. *)
Definition zeroed_task (st : dart_task_state_t) : dart_task_t :=
  mkTask NULL NULL 0 [] st NULL false NULL 0 0 0 0 0 0 None.

Definition dart__tasking__allocate_dummytask (tid : nat) : SchedM ptr :=
  task ← allocate_task tid;
  thread ← get_thread tid;
  on_tasks (assign task (λ _, zeroed_task DART_TASK_DUMMY));;
  on_tasks (assign task (set_parent (current_task thread)));;
  pt ← on_tasks (deref (current_task thread));
  (if bool_decide (state pt = DART_TASK_ROOT) then
     s ← get_state;
     on_tasks (assign task (set_phase (dart__tasking__phase_current s)));;
     log EvPhaseAddTask
   else
     on_tasks (assign task (set_phase DART_PHASE_ANY)));;
  mret task.

End Destroy.

(** ** The tool interface (the first part of [dart_tasking_instrumentation.c]) *)

From Stdlib Require String.

Module Instrument.

(** The callbacks a tool can register: one variable
    [dart_tool_..._cb_data] each. *)
Inductive hook :=
| task_create
| task_begin
| task_end
| task_finalize
| task_add_to_queue
| local_dep_raw
| local_dep_waw
| local_dep_war
| dummy_dep_create
| dummy_dep_capture
| remote_in_dep.

Global Instance hook_eq_dec : EqDecision hook.
Proof. solve_decision. Defined.

(** [struct dart_tool_..._cb]: a function pointer ([None] for NULL; a
    function is known by its address) and the user data pointer. *)
Record cb_data := mkCb {
  cb : option Z;
  userdata : option Z
}.

(** An argument handed to a callback. *)
Inductive arg :=
| AInt (z : Z)
| AStr (s : String.string).

(** What leaves the module: the text of a [printf] (the function pointer
    and the [int] read through the user data pointer) and the calls of
    registered callbacks. *)
Inductive event :=
| Printf (h : hook) (cb : option Z) (v : Z)
| Call (f : Z) (args : list arg) (userdata : option Z).

(** The variables [dart_tool_..._cb_data], the memory the user data
    pointers point into, and the events so far, latest first. *)
Record state := mkState {
  cb_data_of : hook → cb_data;
  ints : gmap Z Z;
  events : list event
}.

(** Static storage is zero-initialised. *)
Definition init (m : gmap Z Z) : state :=
  mkState (λ _, mkCb None None) m [].

(** An assignment to the variable of [h]. *)
Definition set_cb_data (h : hook) (v : cb_data) (f : hook → cb_data)
  : hook → cb_data :=
  λ h', if decide (h' = h) then v else f h'.

(** The body the eleven register functions share, each on its own
    variable. The [printf] reads an [int] through [userdata]. *)
Definition register (h : hook) (cb_ : option Z) (userdata_ : option Z)
    (st : state) : option (Z * state) :=
  let data := set_cb_data h (mkCb cb_ userdata_) (cb_data_of st) in
  p ← userdata_;
  v ← ints st !! p;
  Some (0, mkState data (ints st) (Printf h cb_ v :: events st)).

Definition dart_tool_register_task_create := register task_create.
Definition dart_tool_register_task_begin := register task_begin.
Definition dart_tool_register_task_end := register task_end.
Definition dart_tool_register_task_finalize := register task_finalize.
Definition dart_tool_register_task_add_to_queue := register task_add_to_queue.
Definition dart_tool_register_local_dep_raw := register local_dep_raw.
Definition dart_tool_register_local_dep_waw := register local_dep_waw.
Definition dart_tool_register_local_dep_war := register local_dep_war.
Definition dart_tool_register_dummy_dep_create := register dummy_dep_create.
Definition dart_tool_register_dummy_dep_capture := register dummy_dep_capture.
Definition dart_tool_register_remote_in_dep := register remote_in_dep.

(** [if (data.cb) data.cb(args..., userdata)] *)
Definition call_cb (data : cb_data) (args : list arg) (userdata_ : option Z)
    (st : state) : state :=
  match cb data with
  | Some f =>
      mkState (cb_data_of st) (ints st) (Call f args userdata_ :: events st)
  | None => st
  end.

Definition dart__tasking__instrument_task_create (task prio : Z)
    (name : option String.string) (task_unitid : Z) (st : state) : state :=
  let name := match name with Some n => n | None => String.EmptyString end in
  call_cb (cb_data_of st task_create)
    [AInt task; AInt prio; AStr name; AInt task_unitid]
    (userdata (cb_data_of st task_create)) st.

Definition dart__tasking__instrument_task_begin (task thread task_unitid : Z)
    (st : state) : state :=
  call_cb (cb_data_of st task_begin) [AInt task; AInt thread; AInt task_unitid]
    (userdata (cb_data_of st task_begin)) st.

Definition dart__tasking__instrument_task_end (task thread task_unitid : Z)
    (st : state) : state :=
  call_cb (cb_data_of st task_end) [AInt task; AInt thread; AInt task_unitid]
    (userdata (cb_data_of st task_end)) st.

Definition dart__tasking__instrument_task_cancel (task thread : Z)
    (st : state) : state := st.

Definition dart__tasking__instrument_task_yield_leave (task thread : Z)
    (st : state) : state := st.

Definition dart__tasking__instrument_task_yield_resume (task thread : Z)
    (st : state) : state := st.

Definition dart__tasking__instrument_task_finalize (st : state) : state :=
  call_cb (cb_data_of st task_finalize) []
    (userdata (cb_data_of st task_finalize)) st.

Definition dart__tasking__instrument_local_dep_raw
    (task1 task2 memaddr_raw orig_memaddr_raw task1_unitid task2_unitid : Z)
    (st : state) : state :=
  call_cb (cb_data_of st local_dep_raw)
    [AInt task1; AInt task2; AInt memaddr_raw; AInt orig_memaddr_raw;
     AInt task1_unitid; AInt task2_unitid]
    (userdata (cb_data_of st local_dep_raw)) st.

Definition dart__tasking__instrument_local_dep_waw
    (task1 task2 memaddr_waw orig_memaddr_waw task1_unitid task2_unitid : Z)
    (st : state) : state :=
  call_cb (cb_data_of st local_dep_waw)
    [AInt task1; AInt task2; AInt memaddr_waw; AInt orig_memaddr_waw;
     AInt task1_unitid; AInt task2_unitid]
    (userdata (cb_data_of st local_dep_waw)) st.

Definition dart__tasking__instrument_local_dep_war
    (task1 task2 memaddr_war orig_memaddr_war task1_unitid task2_unitid : Z)
    (st : state) : state :=
  call_cb (cb_data_of st local_dep_war)
    [AInt task1; AInt task2; AInt memaddr_war; AInt orig_memaddr_war;
     AInt task1_unitid; AInt task2_unitid]
    (userdata (cb_data_of st local_dep_war)) st.

Definition dart__tasking__instrument_task_add_to_queue
    (task thread task_unitid : Z) (st : state) : state :=
  call_cb (cb_data_of st task_add_to_queue)
    [AInt task; AInt thread; AInt task_unitid]
    (userdata (cb_data_of st task_add_to_queue)) st.

(** [out_dep_phase] is the field [phase] of the argument [out_dep]. *)
Definition dart__tasking__instrument_dummy_dep_create
    (task dummy_dep in_dep out_dep_phase task_unitid : Z) (st : state) : state :=
  call_cb (cb_data_of st dummy_dep_create)
    [AInt task; AInt dummy_dep; AInt in_dep; AInt out_dep_phase; AInt task_unitid]
    (userdata (cb_data_of st dummy_dep_create)) st.

Definition dart__tasking__instrument_dummy_dep_capture
    (task dummy_dep remote_dep task_unitid : Z) (st : state) : state :=
  call_cb (cb_data_of st dummy_dep_capture)
    [AInt task; AInt dummy_dep; AInt remote_dep; AInt task_unitid]
    (userdata (cb_data_of st dummy_dep_create)) st.

Definition dart__tasking__instrument_remote_in_dep
    (local_task remote_task local_dep_type remote_dep_type
     local_unitid remote_unitid : Z) (st : state) : state :=
  call_cb (cb_data_of st remote_in_dep)
    [AInt local_task; AInt remote_task; AInt local_dep_type;
     AInt remote_dep_type; AInt local_unitid; AInt remote_unitid]
    (userdata (cb_data_of st remote_in_dep)) st.

(** A call of one of the instrumentation functions. *)
Inductive instrument_call :=
| I_task_create (task prio : Z) (name : option String.string) (task_unitid : Z)
| I_task_begin (task thread task_unitid : Z)
| I_task_end (task thread task_unitid : Z)
| I_task_cancel (task thread : Z)
| I_task_yield_leave (task thread : Z)
| I_task_yield_resume (task thread : Z)
| I_task_finalize
| I_local_dep_raw (task1 task2 memaddr orig_memaddr task1_unitid task2_unitid : Z)
| I_local_dep_waw (task1 task2 memaddr orig_memaddr task1_unitid task2_unitid : Z)
| I_local_dep_war (task1 task2 memaddr orig_memaddr task1_unitid task2_unitid : Z)
| I_task_add_to_queue (task thread task_unitid : Z)
| I_dummy_dep_create (task dummy_dep in_dep out_dep_phase task_unitid : Z)
| I_dummy_dep_capture (task dummy_dep remote_dep task_unitid : Z)
| I_remote_in_dep (local_task remote_task local_dep_type remote_dep_type
                   local_unitid remote_unitid : Z).

Definition instrument (c : instrument_call) : state → state :=
  match c with
  | I_task_create t p n u => dart__tasking__instrument_task_create t p n u
  | I_task_begin t th u => dart__tasking__instrument_task_begin t th u
  | I_task_end t th u => dart__tasking__instrument_task_end t th u
  | I_task_cancel t th => dart__tasking__instrument_task_cancel t th
  | I_task_yield_leave t th => dart__tasking__instrument_task_yield_leave t th
  | I_task_yield_resume t th => dart__tasking__instrument_task_yield_resume t th
  | I_task_finalize => dart__tasking__instrument_task_finalize
  | I_local_dep_raw a b c d e f => dart__tasking__instrument_local_dep_raw a b c d e f
  | I_local_dep_waw a b c d e f => dart__tasking__instrument_local_dep_waw a b c d e f
  | I_local_dep_war a b c d e f => dart__tasking__instrument_local_dep_war a b c d e f
  | I_task_add_to_queue t th u => dart__tasking__instrument_task_add_to_queue t th u
  | I_dummy_dep_create a b c d e => dart__tasking__instrument_dummy_dep_create a b c d e
  | I_dummy_dep_capture a b c d => dart__tasking__instrument_dummy_dep_capture a b c d
  | I_remote_in_dep a b c d e f => dart__tasking__instrument_remote_in_dep a b c d e f
  end.

(** The callback variable an instrumentation function tests, if any. *)
Definition hook_of (c : instrument_call) : option hook :=
  match c with
  | I_task_create _ _ _ _ => Some task_create
  | I_task_begin _ _ _ => Some task_begin
  | I_task_end _ _ _ => Some task_end
  | I_task_cancel _ _ | I_task_yield_leave _ _ | I_task_yield_resume _ _ => None
  | I_task_finalize => Some task_finalize
  | I_local_dep_raw _ _ _ _ _ _ => Some local_dep_raw
  | I_local_dep_waw _ _ _ _ _ _ => Some local_dep_waw
  | I_local_dep_war _ _ _ _ _ _ => Some local_dep_war
  | I_task_add_to_queue _ _ _ => Some task_add_to_queue
  | I_dummy_dep_create _ _ _ _ _ => Some dummy_dep_create
  | I_dummy_dep_capture _ _ _ _ => Some dummy_dep_capture
  | I_remote_in_dep _ _ _ _ _ _ => Some remote_in_dep
  end.

(** The arguments of a call, in the order given. *)
Definition args_of (c : instrument_call) : list arg :=
  match c with
  | I_task_create t p n u =>
      [AInt t; AInt p;
       AStr (match n with Some n => n | None => String.EmptyString end); AInt u]
  | I_task_begin t th u | I_task_end t th u | I_task_add_to_queue t th u =>
      [AInt t; AInt th; AInt u]
  | I_task_cancel _ _ | I_task_yield_leave _ _ | I_task_yield_resume _ _ => []
  | I_task_finalize => []
  | I_local_dep_raw a b c d e f | I_local_dep_waw a b c d e f
  | I_local_dep_war a b c d e f | I_remote_in_dep a b c d e f =>
      [AInt a; AInt b; AInt c; AInt d; AInt e; AInt f]
  | I_dummy_dep_create a b c d e => [AInt a; AInt b; AInt c; AInt d; AInt e]
  | I_dummy_dep_capture a b c d => [AInt a; AInt b; AInt c; AInt d]
  end.

(** The calls of callbacks among the events: the function called, its
    arguments and the user data pointer it is given. *)
Definition calls (st : state) : list (Z * list arg * option Z) :=
  omap (λ e, match e with
             | Call f args u => Some (f, args, u)
             | Printf _ _ _ => None
             end) (events st).

End Instrument.

(** ** Concrete constants and states for the examples *)

Definition example_constants : dart_constants :=
  {| DART_PRIO_HIGH := 2;
     DART_PRIO_PARENT := -1;
     DART_PRIO_INLINE := 3;
     DART_PHASE_ANY := -1;
     root_task := 100%positive;
     DART_TASK_VAR_SPACE := 64 |}.

(** A fresh task of the given priority, linked nowhere. *)
Definition example_task (p : Z) : dart_task_t :=
  mkTask NULL NULL p [] DART_TASK_CREATED NULL false NULL 0 0 0 0 0 0 None.

(** A running task with the given priority and flags. *)
Definition example_running (p : Z) (fl : list dart_task_flag_t) : dart_task_t :=
  mkTask NULL NULL p fl DART_TASK_RUNNING (Some 100%positive) false NULL
         0 0 0 0 0 0 None.

Definition example_root : dart_task_t :=
  mkTask NULL NULL 1 [] DART_TASK_ROOT NULL false NULL 0 0 0 0 0 0 None.

(** Low-priority tasks at the addresses 1 to 4 (task 4 is running), a
    high-priority task at address 5, a running inline task at address 6
    and the root task at address 100. *)
Definition example_heap : heap :=
  <[1%positive := example_task 0]>
  (<[2%positive := example_task 0]>
  (<[3%positive := example_task 0]>
  (<[4%positive := example_running 0 []]>
  (<[5%positive := example_task 2]>
  (<[6%positive := example_running 0 [DART_TASK_INLINE]]>
  (<[100%positive := example_root]> ∅)))))).

Definition example_ops : list tq_op :=
  [OpPush QA (Some 1%positive); OpPushback QA (Some 2%positive);
   OpInsert QA (Some 3%positive) 1; OpPush QB (Some 5%positive);
   OpMove QB; OpRemove QB (Some 2%positive); OpPop QB; OpPopback QB].

(** The same task pushed a second time while it is still queued, then
    removed. *)
Definition double_push_ops : list tq_op :=
  [OpPush QA (Some 1%positive); OpPush QA (Some 2%positive);
   OpPush QA (Some 1%positive); OpRemove QA (Some 1%positive)].

(** Outside functions that do nothing: no dependency is unresolved, no
    phase is runnable yet, the clock stands still. *)
Definition example_externals : dart_externals :=
  {| remote_progress_effect := λ s, s;
     current_time_us := λ _, 0;
     datadeps_unresolved := λ _ _, (0, 0);
     dart__tasking__phase_current := λ _, 7;
     dart__tasking__phase_is_runnable := λ _ _, false;
     cancel_task_effect := λ _ s, s;
     handle_comm_task_effect := λ _ s, (false, s);
     inline_task_effect := λ _ _ s, s;
     dart__tasking__affinity_ptr_numa_node := λ _, 0%nat;
     uninitialised_task := example_task 0 |}.

Definition example_thread (id : Z) (cur : ptr) (slots : list ptr) : dart_thread_t :=
  mkThread id 0 cur NULL 0 slots 0 false 0 0.

(** One NUMA node; the master thread runs the root task, the worker
    (thread 1) runs [cur] and has [slots] as its hot slots. *)
Definition example_sched (running cancel : bool) (h : heap)
    (q : dart_taskqueue_t) (cur : ptr) (slots : list ptr) : sched :=
  mkSched h running cancel
    [Some (example_thread 0 (Some 100%positive) [NULL; NULL]);
     Some (example_thread 1 cur slots)]
    [q] dart_tasking_taskqueue_init 2 false [[]; []] 200%positive [].

(** Threads not started yet. *)
Definition example_sched_stopped : sched :=
  example_sched false false example_heap dart_tasking_taskqueue_init
    (Some 100%positive) [NULL; NULL].

(** The worker runs the inline task 6. *)
Definition example_sched_inline (cancel : bool) : sched :=
  example_sched true cancel example_heap dart_tasking_taskqueue_init
    (Some 6%positive) [NULL; NULL].

(** The task queue after tasks 1, 2 and 3 have been pushed: 3, 2, 1. *)
Definition example_world321 : world :=
  default (world_init example_heap)
    (run_ops (H := example_constants)
       [OpPush QA (Some 1%positive); OpPush QA (Some 2%positive);
        OpPush QA (Some 3%positive)] (world_init example_heap)).

(** A queue with the high-priority task 5 and the low-priority tasks 1, 2. *)
Definition example_mixed_ops : list tq_op :=
  [OpPush QA (Some 1%positive); OpPush QA (Some 5%positive);
   OpPushback QA (Some 2%positive)].

Definition example_world_mixed : world :=
  default (world_init example_heap)
    (run_ops (H := example_constants) example_mixed_ops (world_init example_heap)).

(** The worker runs task 4, task 5 waits in its first hot slot, and the
    queue of the NUMA node holds 3, 2, 1. *)
Definition example_sched_yield : sched :=
  example_sched true false (mem example_world321) (qa example_world321)
    (Some 4%positive) [Some 5%positive; NULL].

(** The state in which the worker of [example_sched_yield] comes back from
    the context swap after its task 4 has called yield(d). *)
Definition example_yielded (d : Z) : sched :=
  match dart__tasking__yield (H := example_constants) (H0 := example_externals)
          1 d example_sched_yield with
  | YieldSwap s1 => s1
  | _ => example_sched_yield
  end.

(** The same with an empty queue. *)
Definition example_sched_yield_empty : sched :=
  example_sched true false example_heap dart_tasking_taskqueue_init
    (Some 4%positive) [Some 5%positive; NULL].

(** The tasks of a deque, read off the [next] pointers from [head]. *)
Fixpoint walk (fuel : nat) (h : heap) (p : ptr) : list addr :=
  match fuel, p with
  | S fuel', Some a =>
      a :: match h !! a with Some t => walk fuel' h (next t) | None => [] end
  | _, _ => []
  end.

Definition lowprio_tasks (s : sched) : list addr :=
  match task_queue s !! 0%nat with
  | Some q => walk 10 (tasks s) (head (lowprio q))
  | None => []
  end.

(** ** What a queue holds, observed from outside *)

(** The task the list model predicts for pop and for popback: the first
    (last) task of the high-priority list, and of the low-priority list
    when the former is empty. *)
Definition abs_first (q : absq) : ptr := hd_error (ahigh q ++ alow q).

Definition abs_last (q : absq) : ptr :=
  match ahigh q with
  | [] => last (alow q)
  | _ :: _ => last (ahigh q)
  end.

(** The tasks of a deque, read off the [prev] pointers from [tail]. *)
Fixpoint walk_back (fuel : nat) (h : heap) (p : ptr) : list addr :=
  match fuel, p with
  | S fuel', Some a =>
      a :: match h !! a with Some t => walk_back fuel' h (prev t) | None => [] end
  | _, _ => []
  end.

(** ** More concrete states *)

(** A memory pool with one pool of size 1024 whose one block, at address
    1024, is handed out. *)
Definition example_pool_state : Copyin.state :=
  Copyin.mkState [0] (<[0 := Copyin.mkPool 1024 []]> ∅)
    (<[1024 := Copyin.mkElem 1056 Copyin.MEMPOOL_MAGIC_NUM 0]> ∅) 4096.

Definition example_datadeps : dart_datadeps :=
  {| dart_tasking_datadeps_reset :=
       λ t, set_unresolved_remote_deps 0 (set_unresolved_deps 0 t) |}.

(** Task 3 has finished and is referenced from outside; thread 1 owns it. *)
Definition example_sched_finished : sched :=
  example_sched true false
    (<[3%positive := mkTask NULL NULL 0 [DART_TASK_HAS_REF] DART_TASK_FINISHED
                            (Some 100%positive) false NULL 0 7 0 0 5 1 None]>
       example_heap)
    dart_tasking_taskqueue_init (Some 4%positive) [NULL; NULL].

(** The memory a tool's user data pointer 8 points into. *)
Definition example_tool_memory : gmap Z Z := <[8 := 42]> ∅.

(** The outside functions of [example_externals] with the clock at
    20000 microseconds. *)
Definition example_externals_late : dart_externals :=
  {| remote_progress_effect := λ s, s;
     current_time_us := λ _, 20000;
     datadeps_unresolved := λ _ _, (0, 0);
     dart__tasking__phase_current := λ _, 7;
     dart__tasking__phase_is_runnable := λ _ _, false;
     cancel_task_effect := λ _ s, s;
     handle_comm_task_effect := λ _ s, (false, s);
     inline_task_effect := λ _ _ s, s;
     dart__tasking__affinity_ptr_numa_node := λ _, 0%nat;
     uninitialised_task := example_task 0 |}.

(** The worker made its last remote progress at 5000 microseconds: with
    the clock at 20000 that is more than 10 ms ago. *)
Definition example_sched_stale : sched :=
  s_set_thread_pool
    [Some (example_thread 0 (Some 100%positive) [NULL; NULL]);
     Some (mkThread 1 0 (Some 4%positive) NULL 0 [NULL; NULL] 0 false 5000 0)]
    example_sched_yield_empty.

(** * Proofs: task deques *)

Lemma bind_Some {A B} (m : M A) (f : A → M B) h a h' :
  m h = Some (a, h') → (m ≫= f) h = f a h'.
Proof. intros E. unfold mbind, M_bind. by rewrite E. Qed.

Lemma deref_Some a h t : h !! a = Some t → deref (Some a) h = Some (t, h).
Proof. intros E. unfold deref. by rewrite E. Qed.

Lemma assign_Some a f h t :
  h !! a = Some t → assign (Some a) f h = Some (tt, <[a := f t]> h).
Proof. intros E. unfold assign. by rewrite E. Qed.

Lemma link_next_app l1 l2 nx :
  link_next (l1 ++ l2) nx = link_next l1 (link_next l2 nx).
Proof. by destruct l1. Qed.

Lemma link_prev_cons pv a l : link_prev pv (a :: l) = link_prev (Some a) l.
Proof.
  unfold link_prev. destruct l as [|b l]; [done|].
  rewrite last_cons_cons. destruct (last (b :: l)) eqn:E; [done|].
  by apply last_None in E.
Qed.

Lemma link_prev_snoc pv l z : link_prev pv (l ++ [z]) = Some z.
Proof. unfold link_prev. by rewrite last_snoc. Qed.

Lemma dseg_app h pv l1 l2 nx :
  dseg h pv (l1 ++ l2) nx
  ↔ dseg h pv l1 (link_next l2 nx) ∧ dseg h (link_prev pv l1) l2 nx.
Proof.
  revert pv. induction l1 as [|a l1 IH]; intros pv; simpl.
  - unfold link_prev. simpl. tauto.
  - rewrite link_next_app, link_prev_cons, IH. tauto.
Qed.

Lemma dseg_frame h h' pv l nx :
  (∀ a, a ∈ l → h' !! a = h !! a) → dseg h pv l nx → dseg h' pv l nx.
Proof.
  revert pv. induction l as [|a l IH]; intros pv Hf; simpl; [done|].
  intros [(t & Ht & Hp & Hn) Hd]. split.
  - exists t. rewrite Hf by set_solver. done.
  - apply IH; [|done]. intros b Hb. apply Hf. set_solver.
Qed.

Lemma dseg_insert_notin h pv l nx a t :
  a ∉ l → dseg h pv l nx → dseg (<[a := t]> h) pv l nx.
Proof.
  intros Ha. apply dseg_frame. intros b Hb.
  apply lookup_insert_ne. intros ->. done.
Qed.

Lemma dseg_lookup h pv l nx a :
  dseg h pv l nx → a ∈ l → is_Some (h !! a).
Proof.
  revert pv. induction l as [|b l IH]; intros pv; simpl; [set_solver|].
  intros [(t & Ht & _) Hd] [->|Hin]%elem_of_cons; eauto.
Qed.

(** Changing the back pointer of the first node, or the forward pointer of
    the last one, re-targets the segment. *)
Lemma dseg_set_prev h pv pv' a l nx t :
  a ∉ l → h !! a = Some t → dseg h pv (a :: l) nx →
  dseg (<[a := set_prev pv' t]> h) pv' (a :: l) nx.
Proof.
  intros Ha Ht [(t' & Ht' & Hp & Hn) Hd]. simplify_eq. simpl. split.
  - exists (set_prev pv' t). rewrite lookup_insert_eq. done.
  - by apply dseg_insert_notin.
Qed.

Lemma dseg_set_next h pv l z nx nx' t :
  z ∉ l → h !! z = Some t → dseg h pv (l ++ [z]) nx →
  dseg (<[z := set_next nx' t]> h) pv (l ++ [z]) nx'.
Proof.
  intros Hz Ht. rewrite !dseg_app. simpl.
  intros [H1 [(t' & Ht' & Hp & Hn) _]]. simplify_eq. split.
  - by apply dseg_insert_notin.
  - split; [|done]. exists (set_next nx' t). rewrite lookup_insert_eq. done.
Qed.

Lemma relink_refl A h : relink A h h.
Proof. by split. Qed.

Lemma relink_trans A h1 h2 h3 :
  relink A h1 h2 → relink A h2 h3 → relink A h1 h3.
Proof.
  intros [F1 E1] [F2 E2]. split.
  - intros b Hb. rewrite F2, F1; done.
  - intros b. rewrite E2, E1; done.
Qed.

Lemma relink_mono A B h h' : A ⊆ B → relink A h h' → relink B h h'.
Proof. intros HAB [F E]. split; [|done]. intros b Hb. apply F. set_solver. Qed.

Lemma relink_set_next A h a t v :
  a ∈ A → h !! a = Some t → relink A h (<[a := set_next v t]> h).
Proof.
  intros Ha Ht. split.
  - intros b Hb. apply lookup_insert_ne. intros ->. done.
  - intros b. destruct (decide (a = b)) as [->|Hne].
    + rewrite lookup_insert_eq, Ht. done.
    + by rewrite lookup_insert_ne.
Qed.

Lemma relink_set_prev A h a t v :
  a ∈ A → h !! a = Some t → relink A h (<[a := set_prev v t]> h).
Proof.
  intros Ha Ht. split.
  - intros b Hb. apply lookup_insert_ne. intros ->. done.
  - intros b. destruct (decide (a = b)) as [->|Hne].
    + rewrite lookup_insert_eq, Ht. done.
    + by rewrite lookup_insert_ne.
Qed.

Lemma deque_rep_inv h d l : deque_rep h d l → deque_inv d.
Proof.
  intros (_ & Hh & Ht & _). unfold deque_inv. rewrite Hh, Ht.
  destruct l as [|a l]; [done|]. simpl. split; [done|].
  intros E. by apply last_None in E.
Qed.

Lemma deque_rep_nil h : deque_rep h (mkDeque NULL NULL) [].
Proof. repeat split; simpl; try done. constructor. Qed.
Lemma last_cons_Some {A} (a : A) l : ∃ z, last (a :: l) = Some z.
Proof. destruct (last (a :: l)) eqn:E; [eauto|]. by apply last_None in E. Qed.

Lemma task_deque_push_spec h d l x tx :
  deque_rep h d l → h !! x = Some tx → x ∉ l →
  prev tx = NULL → next tx = NULL →
  ∃ d' h', task_deque_push d (Some x) h = Some (d', h')
           ∧ deque_rep h' d' (x :: l) ∧ relink (x :: l) h h'.
Proof.
  intros (Hnd & Hh & Ht & Hd) Hx Hxl Hp Hn.
  unfold task_deque_push. rewrite Hh.
  destruct l as [|a l]; simpl in *.
  - eexists _, _. split; [reflexivity|]. split; [|apply relink_refl].
    repeat split; simpl; eauto. apply NoDup_singleton.
  - destruct Hd as [(ta & Hta & Hpa & Hna) Hd].
    assert (x ≠ a) by set_solver.
    destruct (last_cons_Some a l) as [z Hz].
    mrun. rewrite Hx. simpl. rewrite lookup_insert_ne, Hta by done. simpl.
    rewrite Ht, Hz. simpl.
    eexists _, _. split; [reflexivity|]. split.
    + split; [by constructor|]. split; [done|]. split; [by rewrite last_cons_cons|].
      simpl. split.
      * eexists. rewrite lookup_insert_ne, lookup_insert_eq by done. done.
      * split.
        -- eexists. rewrite lookup_insert_eq. done.
        -- apply NoDup_cons in Hnd as [Hal _].
           apply dseg_insert_notin; [done|]. apply dseg_insert_notin; [set_solver|]. done.
    + eapply relink_trans.
      * apply (relink_set_next _ h x tx (Some a)); [set_solver|done].
      * apply relink_set_prev; [set_solver|]. by rewrite lookup_insert_ne.
Qed.
Lemma hd_error_snoc {A} (l : list A) z :
  ∃ a, hd_error (l ++ [z]) = Some a.
Proof. destruct l; simpl; eauto. Qed.

Lemma task_deque_pushback_spec h d l x tx :
  deque_rep h d l → h !! x = Some tx → x ∉ l →
  prev tx = NULL → next tx = NULL →
  ∃ d' h', task_deque_pushback d (Some x) h = Some (d', h')
           ∧ deque_rep h' d' (l ++ [x]) ∧ relink (x :: l) h h'.
Proof.
  intros (Hnd & Hh & Ht & Hd) Hx Hxl Hp Hn.
  unfold task_deque_pushback. rewrite Hh.
  destruct l as [|z l _] using rev_ind; simpl in *.
  - eexists _, _. split; [reflexivity|]. split; [|apply relink_refl].
    repeat split; simpl; eauto. apply NoDup_singleton.
  - destruct (hd_error_snoc l z) as [a Ha]. rewrite Ha in *. simpl.
    rewrite last_snoc in Ht.
    assert (x ≠ z) by set_solver.
    apply NoDup_app in Hnd as (Hnd1 & Hnd2 & _).
    assert (z ∉ l) by set_solver.
    pose proof Hd as Hd0.
    apply dseg_app in Hd as [Hd1 [(tz & Htz & Hpz & Hnz) _]].
    mrun. rewrite Hx. simpl. rewrite Ht. rewrite lookup_insert_ne, Htz by done. simpl.
    eexists _, _. split; [reflexivity|]. split.
    + split.
      { apply NoDup_app. split; [|split; [|apply NoDup_singleton]].
        - apply NoDup_app. split; [done|]. split; [set_solver|apply NoDup_singleton].
        - intros y Hy. apply not_elem_of_cons. split; [|apply not_elem_of_nil].
          intros ->. done. }
      split; [simpl; rewrite <- Ha; by destruct l|].
      split; [simpl; by rewrite last_snoc|].
      apply dseg_app. split.
      * simpl. apply (dseg_set_next _ _ _ _ NULL); [done| |].
        -- by rewrite lookup_insert_ne.
        -- apply dseg_insert_notin; [set_solver|done].
      * rewrite link_prev_snoc. simpl. split; [|done].
        eexists. rewrite lookup_insert_ne, lookup_insert_eq by done. done.
    + eapply relink_trans.
      * apply (relink_set_prev _ h x tx (Some z)); [set_solver|done].
      * apply relink_set_next; [set_solver|]. by rewrite lookup_insert_ne.
Qed.

Lemma task_deque_pop_nil h d :
  deque_rep h d [] → task_deque_pop d h = Some ((NULL, d), h).
Proof.
  intros (_ & Hh & Ht & _). unfold task_deque_pop, deque_ok. rewrite Hh.
  mrun. rewrite Hh, Ht. done.
Qed.

Lemma task_deque_pop_cons h d a l :
  deque_rep h d (a :: l) →
  ∃ d' h', task_deque_pop d h = Some ((Some a, d'), h')
           ∧ deque_rep h' d' l ∧ relink (a :: l) h h'
           ∧ ∃ t, h' !! a = Some t ∧ next t = NULL ∧ prev t = NULL.
Proof.
  intros (Hnd & Hh & Ht & Hd).
  destruct Hd as [(ta & Hta & Hpa & Hna) Hd].
  apply NoDup_cons in Hnd as [Hal Hnd].
  unfold task_deque_pop, deque_ok. rewrite Hh. simpl in *.
  destruct l as [|b l].
  - simpl in Ht. rewrite Ht. unfold ptr_eqb. rewrite bool_decide_eq_true_2 by done.
    mrun. rewrite Hta. simpl. rewrite lookup_insert_eq. simpl.
    eexists _, _. split; [reflexivity|]. split; [apply deque_rep_nil|]. split.
    + eapply relink_trans.
      * apply (relink_set_prev _ h a ta NULL); [set_solver|done].
      * apply relink_set_next; [set_solver|]. by rewrite lookup_insert_eq.
    + eexists. rewrite lookup_insert_eq. done.
  - destruct (last_cons_Some b l) as [z Hz].
    rewrite last_cons_cons in Ht. rewrite Ht, Hz.
    assert (z ∈ b :: l) by (apply last_Some_elem_of; done).
    assert (a ≠ z) by set_solver.
    assert (a ≠ b) by set_solver.
    unfold ptr_eqb. rewrite bool_decide_eq_false_2 by congruence.
    destruct Hd as [(tb & Htb & Hpb & Hnb) Hd].
    mrun. rewrite Hta. simpl in Hna. rewrite Hna. simpl. rewrite Htb. simpl.
    rewrite lookup_insert_ne, Hta by done. simpl.
    rewrite lookup_insert_eq. simpl.
    eexists _, _. split; [reflexivity|]. split; [|split].
    + split; [done|]. split; [done|]. split; [done|].
      apply dseg_insert_notin; [done|]. apply dseg_insert_notin; [done|].
      apply (dseg_set_prev h (Some a)); [by apply NoDup_cons in Hnd as []|done|].
      simpl. split; [eauto|done].
    + eapply relink_trans; [|eapply relink_trans].
      * apply (relink_set_prev _ h b tb NULL); [set_solver|done].
      * apply (relink_set_prev _ _ a ta NULL); [set_solver|]. by rewrite lookup_insert_ne.
      * apply relink_set_next; [set_solver|]. by rewrite lookup_insert_eq.
    + eexists. rewrite lookup_insert_eq. done.
Qed.
Lemma task_deque_popback_nil h d :
  deque_rep h d [] → task_deque_popback d h = Some ((NULL, d), h).
Proof.
  intros (_ & Hh & Ht & _). unfold task_deque_popback. rewrite Ht. done.
Qed.

Lemma task_deque_popback_snoc h d l z :
  deque_rep h d (l ++ [z]) →
  ∃ d' h', task_deque_popback d h = Some ((Some z, d'), h')
           ∧ deque_rep h' d' l ∧ relink (l ++ [z]) h h'
           ∧ ∃ t, h' !! z = Some t ∧ next t = NULL ∧ prev t = NULL.
Proof.
  intros (Hnd & Hh & Ht & Hd).
  rewrite last_snoc in Ht.
  apply NoDup_app in Hnd as (Hnd & Hzl & _).
  assert (z ∉ l) as Hz by (intros Hin; apply (Hzl _ Hin); set_solver).
  destruct (hd_error_snoc l z) as [a Ha]. rewrite Ha in Hh.
  apply dseg_app in Hd as [Hd1 [(tz & Htz & Hpz & Hnz) _]].
  unfold task_deque_popback. rewrite Ht, Hh. simpl.
  mrun. rewrite Htz. simpl.
  destruct l as [|y l _] using rev_ind.
  - unfold link_prev in Hpz. simpl in Hpz. rewrite Hpz. simpl.
    rewrite Htz. simpl. rewrite lookup_insert_eq. simpl.
    eexists _, _. split; [reflexivity|]. split; [apply deque_rep_nil|]. split.
    + eapply relink_trans.
      * apply (relink_set_prev _ h z tz NULL); [set_solver|done].
      * apply relink_set_next; [set_solver|]. by rewrite lookup_insert_eq.
    + eexists. rewrite lookup_insert_eq. done.
  - rewrite link_prev_snoc in Hpz. rewrite Hpz. simpl.
    assert (y ≠ z) by set_solver.
    apply NoDup_app in Hnd as (Hnd' & Hyl & _).
    assert (y ∉ l) as Hy by (intros Hin; apply (Hyl _ Hin); set_solver).
    pose proof Hd1 as Hd1'.
    apply dseg_app in Hd1 as [_ [(ty & Hty & _) _]].
    rewrite Hty. simpl. rewrite lookup_insert_ne, Htz by done. simpl.
    rewrite lookup_insert_eq. simpl.
    eexists _, _. split; [reflexivity|]. split; [|split].
    + split.
      { apply NoDup_app. split; [done|]. split; [|apply NoDup_singleton].
        intros w Hw. apply not_elem_of_cons. split; [|apply not_elem_of_nil].
        intros ->. done. }
      split; [simpl; rewrite <- Ha; by destruct l|].
      split; [simpl; by rewrite last_snoc|].
      apply dseg_insert_notin; [done|]. apply dseg_insert_notin; [done|].
      apply (dseg_set_next _ _ _ _ (Some z)); done.
    + eapply relink_trans; [|eapply relink_trans].
      * apply (relink_set_next _ h y ty NULL); [set_solver|done].
      * apply (relink_set_prev _ _ z tz NULL); [set_solver|]. by rewrite lookup_insert_ne.
      * apply relink_set_next; [set_solver|]. by rewrite lookup_insert_eq.
    + eexists. rewrite lookup_insert_eq. done.
Qed.

Lemma task_deque_move_spec h dst src ld ls :
  deque_rep h dst ld → deque_rep h src ls → NoDup (ls ++ ld) →
  ∃ dst' src' h', task_deque_move dst src h = Some ((dst', src'), h')
     ∧ deque_rep h' dst' (ls ++ ld) ∧ deque_rep h' src' []
     ∧ relink (ls ++ ld) h h'.
Proof.
  intros (Hndd & Hhd & Htd & Hdd) (Hnds & Hhs & Hts & Hds) Hnd.
  unfold task_deque_move. rewrite Hhs, Hts.
  destruct ls as [|z ls _] using rev_ind.
  - simpl. eexists _, _, _. split; [reflexivity|]. split; [done|].
    split; [|apply relink_refl]. done.
  - destruct (hd_error_snoc ls z) as [a Ha]. rewrite Ha, last_snoc. simpl.
    rewrite Hhd. destruct ld as [|b ld].
    + simpl. mrun.
      eexists _, _, _. split; [reflexivity|]. rewrite app_nil_r.
      split; [|split; [apply deque_rep_nil|apply relink_refl]].
      split; [done|]. split; [done|]. split; [simpl; by rewrite last_snoc|done].
    + simpl. rewrite last_snoc in Hts.
      apply NoDup_app in Hnd as (_ & Hdisj & _).
      assert (z ≠ b) as Hzb by (intros ->; apply (Hdisj b); set_solver).
      pose proof Hds as Hds'.
      apply dseg_app in Hds as [_ [(tz & Htz & _) _]].
      pose proof Hdd as Hdd'.
      destruct Hdd as [(tb & Htb & _) _].
      mrun. rewrite Htz. simpl.
      rewrite lookup_insert_ne, Htb by done. simpl.
      eexists _, _, _. split; [reflexivity|].
      split; [|split; [apply deque_rep_nil|]].
      * split.
        { apply NoDup_app. split; [done|]. split; [done|done]. }
        split; [simpl; rewrite <- Ha; by destruct ls|].
        split; [simpl; by rewrite last_app_cons | ].
        apply dseg_app. rewrite link_prev_snoc. simpl link_next. split.
        -- apply dseg_insert_notin.
           { intros Hin. apply (Hdisj b Hin). set_solver. }
           apply (dseg_set_next _ _ _ _ NULL); [|done|done].
           apply NoDup_app in Hnds as (_ & Hzl & _).
           intros Hin; apply (Hzl _ Hin); set_solver.
        -- apply (dseg_set_prev _ NULL).
           ++ by apply NoDup_cons in Hndd as [].
           ++ by rewrite lookup_insert_ne.
           ++ apply dseg_insert_notin; [|done].
              intros Hin. apply (Hdisj z); set_solver.
      * eapply relink_trans.
        -- apply (relink_set_next _ h z tz (Some b)); [set_solver|done].
        -- apply relink_set_prev; [set_solver|]. by rewrite lookup_insert_ne.
Qed.
Lemma insert_seek_spec h pv l n :
  dseg h pv l NULL → insert_seek n (hd_error l) h = Some (l !! n, h).
Proof.
  revert pv l. induction n as [|n IH]; intros pv l Hd.
  - simpl. by destruct l.
  - destruct l as [|a l]; [done|]. simpl.
    destruct Hd as [(ta & Hta & _ & Hna) Hd].
    mrun. rewrite Hta. rewrite Hna.
    replace (link_next l NULL) with (hd_error l) by (by destruct l).
    by apply (IH (Some a)).
Qed.

Lemma inserted_ge pos x l :
  (length l ≤ S pos)%nat → (0 < pos)%nat → inserted pos x l = l ++ [x].
Proof.
  intros Hl Hp. unfold inserted. destruct pos; [lia|].
  rewrite take_ge, drop_ge by lia. done.
Qed.

Lemma task_deque_insert_spec h d l x tx pos :
  deque_rep h d l → h !! x = Some tx → x ∉ l →
  prev tx = NULL → next tx = NULL →
  ∃ d' h', task_deque_insert d (Some x) pos h = Some (d', h')
           ∧ deque_rep h' d' (inserted pos x l) ∧ relink (x :: l) h h'.
Proof.
  intros Hrep Hx Hxl Hp Hn.
  unfold task_deque_insert.
  destruct pos as [|pos].
  { simpl. by apply task_deque_push_spec with tx. }
  pose proof Hrep as (Hnd & Hh & Ht & Hd).
  rewrite Hh. destruct l as [|a l].
  { simpl. destruct (task_deque_push_spec h d [] x tx) as (d' & h' & E & R & L); try done.
    eexists _, _. split; [done|]. split; [|done]. done. }
  change ((S pos =? 0)%nat || is_null (hd_error (a :: l))) with false. cbv iota.
  erewrite bind_Some by (by apply (insert_seek_spec h NULL)).
  destruct ((a :: l) !! S pos) as [c|] eqn:Hc.
  2:{ apply lookup_ge_None in Hc. simpl is_null.
      rewrite inserted_ge by lia.
      mrun. by apply (task_deque_pushback_spec h d (a :: l) x tx). }
  apply list_elem_of_split_length in Hc as (l1 & l2 & Hl & Hlen).
  rewrite Hl in *.
  pose proof Hd as Hd0.
  apply dseg_app in Hd as [Hd1 [(tc & Htc & Hpc & Hnc) Hd2]].
  simpl is_null. cbv iota.
  erewrite bind_Some; cycle 1.
  { erewrite bind_Some by (by apply deref_Some). reflexivity. }
  rewrite Hnc.
  destruct l2 as [|e l2].
  { change (false || is_null (link_next [] NULL)) with true. cbv iota.
    rewrite inserted_ge by (try rewrite length_app; simpl; lia).
    by apply (task_deque_pushback_spec h d (l1 ++ [c]) x tx). }
  change (false || is_null (link_next (e :: l2) NULL)) with false. cbv iota.
  assert (x ≠ c) by set_solver.
  assert (x ≠ e) by set_solver.
  assert ((c ∉ l1) ∧ (c ≠ e) ∧ (c ∉ l2) ∧ (e ∉ l1) ∧ (e ∉ l2)) as (Hc1 & Hce & Hc2 & He1 & He2).
  { apply NoDup_app in Hnd as (_ & Hdisj & Hnd2).
    apply NoDup_cons in Hnd2 as [Hcn Hnd2]. apply NoDup_cons in Hnd2 as [Hen _].
    split; [intros Hin; apply (Hdisj _ Hin); set_solver|].
    split; [set_solver|]. split; [set_solver|].
    split; [intros Hin; apply (Hdisj _ Hin); set_solver|done]. }
  destruct Hd2 as [(te & Hte & Hpe & Hne) Hd2].
  mrun. rewrite Hx. simpl. rewrite lookup_insert_eq. simpl.
  rewrite lookup_insert_ne, lookup_insert_ne, Htc by done. simpl.
  rewrite lookup_insert_eq. simpl. rewrite lookup_insert_eq. simpl.
  rewrite Hnc. simpl.
  rewrite !lookup_insert_ne, Hte by done. simpl.
  rewrite lookup_insert_ne, lookup_insert_eq by done. simpl.
  rewrite !(lookup_insert_ne _ _ c), Htc by done. simpl.
  assert (is_null (hd_error (l1 ++ c :: e :: l2)) = false) as -> by (by destruct l1).
  rewrite Ht.
  destruct (last_cons_Some c (e :: l2)) as [z Hz].
  rewrite last_app_cons, Hz. simpl.
  eexists _, _. split; [reflexivity|]. split.
  - unfold inserted. rewrite Hlen.
    replace (take (S (length l1)) (l1 ++ c :: e :: l2)) with (l1 ++ [c]).
    2:{ change (l1 ++ c :: e :: l2) with (l1 ++ [c] ++ e :: l2).
        rewrite (app_assoc l1 [c] (e :: l2)).
        by rewrite take_app_length' by (rewrite length_app; simpl; lia). }
    replace (drop (S (length l1)) (l1 ++ c :: e :: l2)) with (e :: l2).
    2:{ change (l1 ++ c :: e :: l2) with (l1 ++ [c] ++ e :: l2).
        rewrite (app_assoc l1 [c] (e :: l2)).
        by rewrite drop_app_length' by (rewrite length_app; simpl; lia). }
    split.
    { rewrite <- app_assoc. simpl.
      apply NoDup_app in Hnd as (Hnd1 & Hdisj & Hnd2).
      apply NoDup_app. split; [done|]. split.
      - intros y Hy. specialize (Hdisj y Hy). set_solver.
      - apply NoDup_cons in Hnd2 as [Hcn Hnd2].
        constructor; [set_solver|]. constructor; [set_solver|done]. }
    split; [rewrite Hh; by destruct l1|].
    split; [rewrite Ht, <- app_assoc; simpl; by rewrite !last_app_cons, !last_cons_cons|].
    rewrite <- app_assoc. simpl.
    apply dseg_app. simpl. split; [|split; [|split; [|split]]].
    + apply dseg_frame with h; [|done].
      intros y Hy. lk. done.
    + eexists. lk. done.
    + eexists. lk. done.
    + eexists. lk. done.
    + apply dseg_frame with h; [|done].
      intros y Hy. lk. done.
  - split.
    + intros b Hb.
      apply not_elem_of_cons in Hb as [? Hb]. apply not_elem_of_app in Hb as [? Hb].
      apply not_elem_of_cons in Hb as [? Hb]. apply not_elem_of_cons in Hb as [? Hb].
      rewrite !lookup_insert_ne by done. done.
    + intros b.
      destruct (decide (b = c)) as [->|]; [lk; rewrite Htc; done|].
      rewrite lookup_insert_ne by done.
      destruct (decide (b = x)) as [->|]; [lk; rewrite Hx; done|].
      rewrite lookup_insert_ne by done.
      destruct (decide (b = e)) as [->|]; [lk; rewrite Hte; done|].
      lk. done.
Qed.

(** * Proofs: task queues *)

Lemma relink_lookup_Some A h h' a t :
  relink A h h' → h !! a = Some t →
  ∃ t', h' !! a = Some t' ∧ erase_links t' = erase_links t.
Proof.
  intros [_ E] Ht. specialize (E a). rewrite Ht in E.
  destruct (h' !! a) as [t'|]; [|done]. exists t'. split; [done|].
  simpl in E. congruence.
Qed.

Lemma erase_links_prio t t' : erase_links t' = erase_links t → prio t' = prio t.
Proof. intros E. by apply (f_equal prio) in E. Qed.

Lemma deque_rep_relink A h h' d l :
  relink A h h' → (∀ a, a ∈ l → a ∉ A) → deque_rep h d l → deque_rep h' d l.
Proof.
  intros [F _] Hdisj (Hnd & Hh & Ht & Hd). repeat split; try done.
  apply dseg_frame with h; [|done]. intros a Ha. apply F. by apply Hdisj.
Qed.

Section TaskQueueProofs.
Context `{dart_constants}.

Lemma relink_is_high A h h' a : relink A h h' → is_high h' a ↔ is_high h a.
Proof.
  intros [_ E]. unfold is_high. specialize (E a).
  destruct (h !! a) as [t|], (h' !! a) as [t'|]; simpl in *; try done.
  assert (erase_links t' = erase_links t) as E' by congruence.
  by rewrite (erase_links_prio _ _ E').
Qed.

Lemma tq_rep_inv h tq lh ll : tq_rep h tq lh ll → taskqueue_inv tq.
Proof. intros (Hh & Hl & _). split; by eapply deque_rep_inv. Qed.

Lemma tq_rep_init h : tq_rep h dart_tasking_taskqueue_init [] [].
Proof.
  split; [apply deque_rep_nil|]. split; [apply deque_rep_nil|].
  split; [constructor|]. split; constructor.
Qed.

Lemma enqueue_with_spec f g :
  (∀ h d l x tx, deque_rep h d l → h !! x = Some tx → x ∉ l →
     prev tx = NULL → next tx = NULL →
     ∃ d' h', f d (Some x) h = Some (d', h')
              ∧ deque_rep h' d' (g x l) ∧ relink (x :: l) h h') →
  (∀ x l y, y ∈ g x l ↔ y = x ∨ y ∈ l) →
  ∀ h tq lh ll x tx,
    tq_rep h tq lh ll → h !! x = Some tx → x ∉ lh ++ ll →
    ∃ tq' h', enqueue_with f tq (Some x) h = Some (tq', h')
      ∧ tq_rep h' tq' (enqueued_high g (prio tx) x lh)
                      (enqueued_low g (prio tx) x ll)
      ∧ relink (x :: lh ++ ll) h h'.
Proof.
  intros Hf Hg h tq lh ll x tx (Hrh & Hrl & Hnd & Hfh & Hfl) Hx Hxl.
  apply not_elem_of_app in Hxl as [Hxh Hxl].
  set (tx1 := set_prev NULL (set_next NULL tx)).
  set (h1 := <[x := tx1]> (<[x := set_next NULL tx]> h)).
  assert (relink [x] h h1) as R1.
  { eapply relink_trans.
    - apply (relink_set_next _ h x tx NULL); [set_solver|done].
    - apply relink_set_prev; [set_solver|]. by rewrite lookup_insert_eq. }
  assert (h1 !! x = Some tx1) as Hx1 by (unfold h1; by rewrite lookup_insert_eq).
  assert (deque_rep h1 (highprio tq) lh) as Hrh1.
  { eapply deque_rep_relink; [exact R1| |done]. intros a Ha. set_solver. }
  assert (deque_rep h1 (lowprio tq) ll) as Hrl1.
  { eapply deque_rep_relink; [exact R1| |done]. intros a Ha. set_solver. }
  apply NoDup_app in Hnd as (Hndh & Hdisj & Hndl).
  unfold enqueue_with, enqueued_high, enqueued_low.
  erewrite bind_Some by (by apply assign_Some).
  erewrite bind_Some by (apply assign_Some; by rewrite lookup_insert_eq).
  fold tx1. fold h1.
  erewrite bind_Some by (by apply deref_Some).
  change (prio tx1) with (prio tx).
  destruct (prio tx =? DART_PRIO_HIGH) eqn:Hprio.
  - destruct (Hf h1 (highprio tq) lh x tx1) as (d' & h' & E & Hrep & R2); try done.
    erewrite bind_Some by exact E.
    eexists _, _. split; [reflexivity|].
    assert (relink (x :: lh ++ ll) h h') as R.
    { eapply relink_trans; (eapply relink_mono; [|eassumption]); set_solver. }
    split; [|done].
    split; [done|]. split.
    { eapply deque_rep_relink; [exact R2| |done]. intros a Ha.
      apply not_elem_of_cons. split; [by intros ->|].
      intros Hin. by apply (Hdisj a). }
    split.
    { apply NoDup_app. split; [by destruct Hrep|]. split; [|done].
      intros y [->|Hy]%Hg; [done|by apply Hdisj]. }
    split.
    + apply Forall_forall. intros y [->|Hy]%Hg.
      * apply (relink_is_high _ _ _ _ R). unfold is_high. rewrite Hx. simpl.
        f_equal. by apply Z.eqb_eq.
      * apply (relink_is_high _ _ _ _ R). by eapply Forall_forall in Hfh.
    + apply Forall_forall. intros y Hy.
      rewrite (relink_is_high _ _ _ _ R). by eapply Forall_forall in Hfl.
  - destruct (Hf h1 (lowprio tq) ll x tx1) as (d' & h' & E & Hrep & R2); try done.
    erewrite bind_Some by exact E.
    eexists _, _. split; [reflexivity|].
    assert (relink (x :: lh ++ ll) h h') as R.
    { eapply relink_trans; (eapply relink_mono; [|eassumption]); set_solver. }
    split; [|done].
    split.
    { eapply deque_rep_relink; [exact R2| |done]. intros a Ha.
      apply not_elem_of_cons. split; [by intros ->|].
      intros Hin. by apply (Hdisj a). }
    split; [done|]. split.
    { apply NoDup_app. split; [done|]. split; [|by destruct Hrep].
      intros y Hy [->|Hy']%Hg; [done|by apply (Hdisj y)]. }
    split.
    + apply Forall_forall. intros y Hy.
      rewrite (relink_is_high _ _ _ _ R). by eapply Forall_forall in Hfh.
    + apply Forall_forall. intros y [->|Hy]%Hg.
      * rewrite (relink_is_high _ _ _ _ R). unfold is_high. rewrite Hx. simpl.
        intros E'. injection E' as E'. apply Z.eqb_neq in Hprio. done.
      * rewrite (relink_is_high _ _ _ _ R). by eapply Forall_forall in Hfl.
Qed.
End TaskQueueProofs.
Lemma unlink_spec h l1 x l2 :
  NoDup (l1 ++ x :: l2) → dseg h NULL (l1 ++ x :: l2) NULL →
  ∃ h', unlink (Some x) h = Some ((last l1, hd_error l2), h')
        ∧ dseg h' NULL (l1 ++ l2) NULL
        ∧ relink (l1 ++ x :: l2) h h'
        ∧ ∃ t, h' !! x = Some t ∧ next t = NULL ∧ prev t = NULL.
Proof.
  intros Hnd Hd.
  pose proof Hd as Hd0.
  apply dseg_app in Hd as [Hd1 [(tx & Htx & Hpx & Hnx) Hd2]].
  apply NoDup_app in Hnd as (Hnd1 & Hdisj & Hnd2).
  apply NoDup_cons in Hnd2 as [Hx2 Hnd2].
  assert (x ∉ l1) as Hx1 by (intros Hin; apply (Hdisj _ Hin); set_solver).
  unfold unlink. erewrite bind_Some by (by apply deref_Some).
  rewrite Hpx, Hnx. cbv zeta.
  destruct l1 as [|p l1 _] using rev_ind; destruct l2 as [|n l2].
  - unfold link_prev. simpl. mrun. rewrite Htx. simpl. rewrite lookup_insert_eq. simpl.
    eexists. split; [reflexivity|]. split; [done|]. split.
    + eapply relink_trans.
      * apply (relink_set_prev _ h x tx NULL); [set_solver|done].
      * apply relink_set_next; [set_solver|]. by rewrite lookup_insert_eq.
    + eexists. by rewrite lookup_insert_eq.
  - unfold link_prev. simpl.
    destruct Hd2 as [(tn & Htn & Hpn & Hnn) Hd2].
    assert (n ≠ x) by set_solver.
    apply NoDup_cons in Hnd2 as [Hn2 Hnd2].
    mrun. rewrite Htn. simpl. rewrite lookup_insert_ne, Htx by done. simpl.
    rewrite lookup_insert_eq. simpl.
    eexists. split; [reflexivity|]. split; [|split].
    + split.
      * eexists. rewrite !lookup_insert_ne, lookup_insert_eq by done. done.
      * apply dseg_frame with h; [|done]. intros y Hy.
        rewrite !lookup_insert_ne; [done|set_solver..].
    + eapply relink_trans; [|eapply relink_trans].
      * apply (relink_set_prev _ h n tn NULL); [set_solver|done].
      * apply (relink_set_prev _ _ x tx NULL); [set_solver|]. by rewrite lookup_insert_ne.
      * apply relink_set_next; [set_solver|]. by rewrite lookup_insert_eq.
    + eexists. by rewrite lookup_insert_eq.
  - rewrite link_prev_snoc, last_snoc. simpl.
    assert (p ≠ x) by set_solver.
    pose proof Hd1 as Hd1'.
    apply dseg_app in Hd1 as [_ [(tp & Htp & _) _]].
    apply NoDup_app in Hnd1 as (_ & Hp1 & _).
    assert (p ∉ l1) by (intros Hin; apply (Hp1 _ Hin); set_solver).
    mrun. rewrite Htp. simpl. rewrite lookup_insert_ne, Htx by done. simpl.
    rewrite lookup_insert_eq. simpl.
    eexists. split; [reflexivity|]. split; [|split].
    + rewrite app_nil_r.
      apply dseg_insert_notin; [set_solver|]. apply dseg_insert_notin; [set_solver|].
      by apply (dseg_set_next _ _ _ _ (Some x)).
    + eapply relink_trans; [|eapply relink_trans].
      * apply (relink_set_next _ h p tp NULL); [set_solver|done].
      * apply (relink_set_prev _ _ x tx NULL); [set_solver|]. by rewrite lookup_insert_ne.
      * apply relink_set_next; [set_solver|]. by rewrite lookup_insert_eq.
    + eexists. by rewrite lookup_insert_eq.
  - rewrite link_prev_snoc, last_snoc. simpl.
    assert (p ≠ x) by set_solver.
    assert (n ≠ x) by set_solver.
    assert (p ≠ n) as Hpn.
    { intros ->. apply (Hdisj n); set_solver. }
    pose proof Hd1 as Hd1'.
    apply dseg_app in Hd1 as [_ [(tp & Htp & _) _]].
    destruct Hd2 as [(tn & Htn & Hpn' & Hnn) Hd2].
    apply NoDup_app in Hnd1 as (_ & Hp1 & _).
    assert (p ∉ l1) by (intros Hin; apply (Hp1 _ Hin); set_solver).
    apply NoDup_cons in Hnd2 as [Hn2 Hnd2].
    mrun. rewrite Htp. simpl. rewrite lookup_insert_ne, Htn by done. simpl.
    rewrite !lookup_insert_ne, Htx by done. simpl.
    rewrite lookup_insert_eq. simpl.
    eexists. split; [reflexivity|]. split; [|split].
    + apply dseg_app. rewrite link_prev_snoc. simpl link_next. split.
      * apply dseg_insert_notin; [set_solver|]. apply dseg_insert_notin; [set_solver|].
        apply dseg_insert_notin.
        { intros Hin. apply (Hdisj n Hin). set_solver. }
        by apply (dseg_set_next _ _ _ _ (Some x)).
      * split.
        -- eexists. rewrite !lookup_insert_ne, lookup_insert_eq by done. done.
        -- apply dseg_frame with h; [|done]. intros y Hy.
           rewrite !lookup_insert_ne; [done|try set_solver..].
    + eapply relink_trans; [|eapply relink_trans; [|eapply relink_trans]].
      * apply (relink_set_next _ h p tp (Some n)); [set_solver|done].
      * apply (relink_set_prev _ _ n tn (Some p)); [set_solver|]. by rewrite lookup_insert_ne.
      * apply (relink_set_prev _ _ x tx NULL); [set_solver|]. by rewrite !lookup_insert_ne.
      * apply relink_set_next; [set_solver|]. by rewrite lookup_insert_eq.
    + eexists. by rewrite lookup_insert_eq.
Qed.

Lemma elem_of_inserted pos x l y : y ∈ inserted pos x l ↔ y = x ∨ y ∈ l.
Proof.
  unfold inserted. destruct pos as [|pos]; [apply elem_of_cons|].
  rewrite <- (take_drop (S (S pos)) l) at 3.
  rewrite !elem_of_app, elem_of_cons. tauto.
Qed.

Section TaskQueueOps.
Context `{dart_constants}.

Lemma tq_rep_update_high h h' tq d' lh lh' ll :
  tq_rep h tq lh ll → deque_rep h' d' lh' → relink lh h h' → lh' ⊆ lh →
  tq_rep h' (mkQueue (lowprio tq) d') lh' ll.
Proof.
  intros (Hrh & Hrl & Hnd & Hfh & Hfl) Hrep R Hsub.
  apply NoDup_app in Hnd as (Hndh & Hdisj & Hndl).
  split; [done|]. split.
  { eapply deque_rep_relink; [exact R| |done]. intros a Ha Hin. by apply (Hdisj a). }
  split.
  { apply NoDup_app. split; [by destruct Hrep|]. split; [|done].
    intros y Hy. apply Hdisj. by apply Hsub. }
  split; apply Forall_forall; intros y Hy; rewrite (relink_is_high _ _ _ _ R).
  - eapply Forall_forall in Hfh; [done|]. by apply Hsub.
  - by eapply Forall_forall in Hfl.
Qed.

Lemma tq_rep_update_low h h' tq d' lh ll ll' :
  tq_rep h tq lh ll → deque_rep h' d' ll' → relink ll h h' → ll' ⊆ ll →
  tq_rep h' (mkQueue d' (highprio tq)) lh ll'.
Proof.
  intros (Hrh & Hrl & Hnd & Hfh & Hfl) Hrep R Hsub.
  apply NoDup_app in Hnd as (Hndh & Hdisj & Hndl).
  split.
  { eapply deque_rep_relink; [exact R| |done]. intros a Ha Hin. by apply (Hdisj a). }
  split; [done|]. split.
  { apply NoDup_app. split; [done|]. split; [|by destruct Hrep].
    intros y Hy Hy'. apply (Hdisj y Hy). by apply Hsub. }
  split; apply Forall_forall; intros y Hy; rewrite (relink_is_high _ _ _ _ R).
  - by eapply Forall_forall in Hfh.
  - eapply Forall_forall in Hfl; [done|]. by apply Hsub.
Qed.

Lemma tq_rep_heads h tq lh ll x :
  tq_rep h tq lh ll → x ∉ lh ++ ll →
  head (highprio tq) ≠ Some x ∧ head (lowprio tq) ≠ Some x
  ∧ tail (highprio tq) ≠ Some x ∧ tail (lowprio tq) ≠ Some x.
Proof.
  intros ((_ & Hhh & Hth & _) & (_ & Hhl & Htl & _) & _) Hx.
  apply not_elem_of_app in Hx as [Hxh Hxl].
  rewrite Hhh, Hhl, Hth, Htl. repeat split; intros E.
  - apply Hxh. destruct lh; simplify_eq/=. set_solver.
  - apply Hxl. destruct ll; simplify_eq/=. set_solver.
  - apply Hxh. by apply last_Some_elem_of.
  - apply Hxl. by apply last_Some_elem_of.
Qed.

Lemma push_unsafe_spec h tq lh ll x tx :
  tq_rep h tq lh ll → h !! x = Some tx → x ∉ lh ++ ll →
  ∃ tq' h', dart_tasking_taskqueue_push_unsafe tq (Some x) h = Some (tq', h')
    ∧ tq_rep h' tq' (enqueued_high (λ x l, x :: l) (prio tx) x lh)
                    (enqueued_low (λ x l, x :: l) (prio tx) x ll)
    ∧ relink (x :: lh ++ ll) h h'.
Proof.
  intros Hrep Hx Hxl.
  destruct (tq_rep_heads _ _ _ _ _ Hrep Hxl) as (Hh1 & Hh2 & _).
  destruct (enqueue_with_spec task_deque_push (λ x l, x :: l)
              task_deque_push_spec (λ x l y, elem_of_cons l y x)
              h tq lh ll x tx Hrep Hx Hxl) as (tq' & h' & E & R).
  exists tq', h'. split; [|done]. rewrite <- E.
  unfold dart_tasking_taskqueue_push_unsafe, ptr_eqb.
  rewrite !bool_decide_eq_false_2 by congruence. done.
Qed.

Lemma pushback_unsafe_spec h tq lh ll x tx :
  tq_rep h tq lh ll → h !! x = Some tx → x ∉ lh ++ ll →
  ∃ tq' h', dart_tasking_taskqueue_pushback_unsafe tq (Some x) h = Some (tq', h')
    ∧ tq_rep h' tq' (enqueued_high (λ x l, l ++ [x]) (prio tx) x lh)
                    (enqueued_low (λ x l, l ++ [x]) (prio tx) x ll)
    ∧ relink (x :: lh ++ ll) h h'.
Proof.
  intros Hrep Hx Hxl.
  apply (enqueue_with_spec task_deque_pushback (λ x l, l ++ [x])
           task_deque_pushback_spec); [|done..].
  intros x' l y. rewrite elem_of_app, list_elem_of_singleton. tauto.
Qed.

Lemma insert_unsafe_spec h tq lh ll x tx pos :
  tq_rep h tq lh ll → h !! x = Some tx → x ∉ lh ++ ll →
  ∃ tq' h', dart_tasking_taskqueue_insert_unsafe tq (Some x) pos h = Some (tq', h')
    ∧ tq_rep h' tq' (enqueued_high (inserted pos) (prio tx) x lh)
                    (enqueued_low (inserted pos) (prio tx) x ll)
    ∧ relink (x :: lh ++ ll) h h'.
Proof.
  intros Hrep Hx Hxl.
  apply (enqueue_with_spec (λ d t, task_deque_insert d t pos) (inserted pos));
    [|intros; apply elem_of_inserted|done..].
  intros. by apply task_deque_insert_spec with tx0.
Qed.

Lemma pop_unsafe_high h tq a lh ll :
  tq_rep h tq (a :: lh) ll →
  ∃ tq' h', dart_tasking_taskqueue_pop_unsafe tq h = Some ((Some a, tq'), h')
    ∧ tq_rep h' tq' lh ll ∧ relink (a :: lh) h h'
    ∧ ∃ t, h' !! a = Some t ∧ next t = NULL ∧ prev t = NULL.
Proof.
  intros Hrep. pose proof Hrep as (Hrh & _).
  destruct (task_deque_pop_cons _ _ _ _ Hrh) as (d' & h' & E & Hrep' & R & U).
  unfold dart_tasking_taskqueue_pop_unsafe.
  erewrite bind_Some by exact E. simpl.
  eexists _, _. split; [reflexivity|]. split; [|done].
  eapply tq_rep_update_high; [done..|set_solver].
Qed.

Lemma pop_unsafe_low h tq b ll :
  tq_rep h tq [] (b :: ll) →
  ∃ tq' h', dart_tasking_taskqueue_pop_unsafe tq h = Some ((Some b, tq'), h')
    ∧ tq_rep h' tq' [] ll ∧ relink (b :: ll) h h'
    ∧ ∃ t, h' !! b = Some t ∧ next t = NULL ∧ prev t = NULL.
Proof.
  intros Hrep. pose proof Hrep as (Hrh & Hrl & _).
  destruct (task_deque_pop_cons _ _ _ _ Hrl) as (d' & h' & E & Hrep' & R & U).
  unfold dart_tasking_taskqueue_pop_unsafe.
  erewrite bind_Some by (by apply task_deque_pop_nil). simpl.
  erewrite bind_Some by exact E. simpl.
  eexists _, _. split; [reflexivity|]. split; [|done].
  eapply (tq_rep_update_low h h' (mkQueue (lowprio tq) (highprio tq)));
    [|done..|set_solver].
  by destruct tq.
Qed.

Lemma pop_unsafe_empty h tq :
  tq_rep h tq [] [] →
  ∃ tq', dart_tasking_taskqueue_pop_unsafe tq h = Some ((NULL, tq'), h)
    ∧ tq_rep h tq' [] [].
Proof.
  intros Hrep. pose proof Hrep as (Hrh & Hrl & _).
  unfold dart_tasking_taskqueue_pop_unsafe.
  erewrite bind_Some by (by apply task_deque_pop_nil). simpl.
  erewrite bind_Some by (by apply task_deque_pop_nil). simpl.
  eexists. split; [reflexivity|]. by destruct tq.
Qed.

Lemma popback_unsafe_high h tq lh z ll :
  tq_rep h tq (lh ++ [z]) ll →
  ∃ tq' h', dart_tasking_taskqueue_popback_unsafe tq h = Some ((Some z, tq'), h')
    ∧ tq_rep h' tq' lh ll ∧ relink (lh ++ [z]) h h'
    ∧ ∃ t, h' !! z = Some t ∧ next t = NULL ∧ prev t = NULL.
Proof.
  intros Hrep. pose proof Hrep as (Hrh & _).
  destruct (task_deque_popback_snoc _ _ _ _ Hrh) as (d' & h' & E & Hrep' & R & U).
  unfold dart_tasking_taskqueue_popback_unsafe.
  erewrite bind_Some by exact E. simpl.
  eexists _, _. split; [reflexivity|]. split; [|done].
  eapply tq_rep_update_high; [done..|set_solver].
Qed.

Lemma popback_unsafe_low h tq ll z :
  tq_rep h tq [] (ll ++ [z]) →
  ∃ tq' h', dart_tasking_taskqueue_popback_unsafe tq h = Some ((Some z, tq'), h')
    ∧ tq_rep h' tq' [] ll ∧ relink (ll ++ [z]) h h'
    ∧ ∃ t, h' !! z = Some t ∧ next t = NULL ∧ prev t = NULL.
Proof.
  intros Hrep. pose proof Hrep as (Hrh & Hrl & _).
  destruct (task_deque_popback_snoc _ _ _ _ Hrl) as (d' & h' & E & Hrep' & R & U).
  unfold dart_tasking_taskqueue_popback_unsafe.
  erewrite bind_Some by (by apply task_deque_popback_nil). simpl.
  erewrite bind_Some by exact E. simpl.
  eexists _, _. split; [reflexivity|]. split; [|done].
  eapply (tq_rep_update_low h h' (mkQueue (lowprio tq) (highprio tq)));
    [|done..|set_solver].
  by destruct tq.
Qed.

Lemma popback_unsafe_empty h tq :
  tq_rep h tq [] [] →
  ∃ tq', dart_tasking_taskqueue_popback_unsafe tq h = Some ((NULL, tq'), h)
    ∧ tq_rep h tq' [] [].
Proof.
  intros Hrep. pose proof Hrep as (Hrh & Hrl & _).
  unfold dart_tasking_taskqueue_popback_unsafe.
  erewrite bind_Some by (by apply task_deque_popback_nil). simpl.
  erewrite bind_Some by (by apply task_deque_popback_nil). simpl.
  eexists. split; [reflexivity|]. by destruct tq.
Qed.
End TaskQueueOps.
Section TaskQueueRemove.
Context `{dart_constants}.

Lemma remove_unsafe_unlink tq x h :
  dart_tasking_taskqueue_remove_unsafe tq (Some x) h
  = ('(p, n) ← unlink (Some x); mret (remove_fix_ends tq (Some x) p n)) h.
Proof.
  unfold dart_tasking_taskqueue_remove_unsafe, unlink, remove_fix_ends.
  mrun. destruct (h !! x) as [t|]; [|done].
  repeat (case_match; simplify_eq/=; try done).
Qed.

Lemma hd_error_app_cons_ne (l1 l2 : list addr) x :
  l1 ≠ [] → x ∉ l1 → hd_error (l1 ++ x :: l2) ≠ Some x
  ∧ hd_error (l1 ++ x :: l2) = hd_error (l1 ++ l2).
Proof.
  intros Hne Hx. destruct l1 as [|a l1]; [done|]. simpl. split; [|done].
  intros E. simplify_eq. set_solver.
Qed.

Lemma last_app_cons_ne (l1 l2 : list addr) x :
  l2 ≠ [] → x ∉ l2 → last (l1 ++ x :: l2) ≠ Some x
  ∧ last (l1 ++ x :: l2) = last (l1 ++ l2).
Proof.
  intros Hne Hx. destruct l2 as [|b l2]; [done|].
  rewrite !last_app_cons, last_cons_cons. split; [|done].
  intros E. apply last_Some_elem_of in E. done.
Qed.

Lemma remove_fix_ends_high tq l1 x l2 :
  NoDup (l1 ++ x :: l2) →
  head (highprio tq) = hd_error (l1 ++ x :: l2) →
  tail (highprio tq) = last (l1 ++ x :: l2) →
  head (lowprio tq) ≠ Some x → tail (lowprio tq) ≠ Some x →
  ∃ d', remove_fix_ends tq (Some x) (last l1) (hd_error l2)
        = mkQueue (lowprio tq) d'
     ∧ head d' = hd_error (l1 ++ l2) ∧ tail d' = last (l1 ++ l2).
Proof.
  intros Hnd Hh Ht Hlh Hlt.
  apply NoDup_app in Hnd as (_ & Hdisj & Hnd2).
  apply NoDup_cons in Hnd2 as [Hx2 _].
  assert (x ∉ l1) as Hx1 by (intros Hin; apply (Hdisj _ Hin); set_solver).
  unfold remove_fix_ends, ptr_eqb.
  destruct (decide (l1 = [])) as [->|Hn1]; destruct (decide (l2 = [])) as [->|Hn2].
  - simpl in Hh, Ht. bd. eauto.
  - destruct (last_app_cons_ne [] l2 x Hn2 Hx2) as [Hne Heq].
    simpl in *. bd. eexists. split; [reflexivity|]. split; [done|]. simpl.
    by rewrite Ht.
  - destruct (hd_error_app_cons_ne l1 [] x Hn1 Hx1) as [Hne Heq].
    rewrite last_snoc in Ht. bd.
    eexists. split; [reflexivity|]. simpl. rewrite app_nil_r in *.
    split; [|done]. by rewrite Hh.
  - destruct (hd_error_app_cons_ne l1 l2 x Hn1 Hx1) as [Hne Heq].
    destruct (last_app_cons_ne l1 l2 x Hn2 Hx2) as [Hne' Heq'].
    bd. exists (highprio tq). split; [by destruct tq|]. by rewrite Hh, Ht.
Qed.

Lemma remove_fix_ends_low tq l1 x l2 :
  NoDup (l1 ++ x :: l2) →
  head (lowprio tq) = hd_error (l1 ++ x :: l2) →
  tail (lowprio tq) = last (l1 ++ x :: l2) →
  head (highprio tq) ≠ Some x → tail (highprio tq) ≠ Some x →
  ∃ d', remove_fix_ends tq (Some x) (last l1) (hd_error l2)
        = mkQueue d' (highprio tq)
     ∧ head d' = hd_error (l1 ++ l2) ∧ tail d' = last (l1 ++ l2).
Proof.
  intros Hnd Hh Ht Hlh Hlt.
  apply NoDup_app in Hnd as (_ & Hdisj & Hnd2).
  apply NoDup_cons in Hnd2 as [Hx2 _].
  assert (x ∉ l1) as Hx1 by (intros Hin; apply (Hdisj _ Hin); set_solver).
  unfold remove_fix_ends, ptr_eqb.
  destruct (decide (l1 = [])) as [->|Hn1]; destruct (decide (l2 = [])) as [->|Hn2].
  - simpl in Hh, Ht. bd. eauto.
  - destruct (last_app_cons_ne [] l2 x Hn2 Hx2) as [Hne Heq].
    simpl in *. bd. eexists. split; [reflexivity|]. split; [done|]. simpl.
    by rewrite Ht.
  - destruct (hd_error_app_cons_ne l1 [] x Hn1 Hx1) as [Hne Heq].
    rewrite last_snoc in Ht. bd.
    eexists. split; [reflexivity|]. simpl. rewrite app_nil_r in *.
    split; [|done]. by rewrite Hh.
  - destruct (hd_error_app_cons_ne l1 l2 x Hn1 Hx1) as [Hne Heq].
    destruct (last_app_cons_ne l1 l2 x Hn2 Hx2) as [Hne' Heq'].
    bd. exists (lowprio tq). split; [by destruct tq|]. by rewrite Hh, Ht.
Qed.

Lemma remove_unsafe_high h tq l1 x l2 ll :
  tq_rep h tq (l1 ++ x :: l2) ll →
  ∃ tq' h', dart_tasking_taskqueue_remove_unsafe tq (Some x) h = Some (tq', h')
    ∧ tq_rep h' tq' (l1 ++ l2) ll ∧ relink (l1 ++ x :: l2) h h'
    ∧ ∃ t, h' !! x = Some t ∧ next t = NULL ∧ prev t = NULL.
Proof.
  intros Hrep. pose proof Hrep as ((Hnd & Hh & Ht & Hd) & Hrl & Hnd' & _).
  destruct (unlink_spec _ _ _ _ Hnd Hd) as (h' & E & Hd' & R & U).
  assert (x ∉ ll) as Hxl.
  { apply NoDup_app in Hnd' as (_ & Hdisj & _). apply Hdisj. set_solver. }
  destruct Hrl as (_ & Hhl & Htl & _).
  destruct (remove_fix_ends_high tq l1 x l2 Hnd Hh Ht) as (d' & Efix & Hh' & Ht').
  { rewrite Hhl. intros E'. apply Hxl. destruct ll; simplify_eq/=. set_solver. }
  { rewrite Htl. intros E'. apply Hxl. by apply last_Some_elem_of. }
  rewrite remove_unsafe_unlink. erewrite bind_Some by exact E. simpl.
  rewrite Efix. eexists _, _. split; [reflexivity|]. split; [|done].
  eapply tq_rep_update_high; [done| |done|set_solver].
  split; [|done]. apply NoDup_app in Hnd as (? & Hdisj & Hnd2).
  apply NoDup_cons in Hnd2 as [_ ?]. apply NoDup_app. split; [done|].
  split; [|done]. intros y Hy. specialize (Hdisj y Hy). set_solver.
Qed.

Lemma remove_unsafe_low h tq lh l1 x l2 :
  tq_rep h tq lh (l1 ++ x :: l2) →
  ∃ tq' h', dart_tasking_taskqueue_remove_unsafe tq (Some x) h = Some (tq', h')
    ∧ tq_rep h' tq' lh (l1 ++ l2) ∧ relink (l1 ++ x :: l2) h h'
    ∧ ∃ t, h' !! x = Some t ∧ next t = NULL ∧ prev t = NULL.
Proof.
  intros Hrep. pose proof Hrep as (Hrh & (Hnd & Hh & Ht & Hd) & Hnd' & _).
  destruct (unlink_spec _ _ _ _ Hnd Hd) as (h' & E & Hd' & R & U).
  assert (x ∉ lh) as Hxl.
  { apply NoDup_app in Hnd' as (_ & Hdisj & _). intros Hin.
    apply (Hdisj _ Hin). set_solver. }
  destruct Hrh as (_ & Hhl & Htl & _).
  destruct (remove_fix_ends_low tq l1 x l2 Hnd Hh Ht) as (d' & Efix & Hh' & Ht').
  { rewrite Hhl. intros E'. apply Hxl. destruct lh; simplify_eq/=. set_solver. }
  { rewrite Htl. intros E'. apply Hxl. by apply last_Some_elem_of. }
  rewrite remove_unsafe_unlink. erewrite bind_Some by exact E. simpl.
  rewrite Efix. eexists _, _. split; [reflexivity|]. split; [|done].
  eapply tq_rep_update_low; [done| |done|set_solver].
  split; [|done]. apply NoDup_app in Hnd as (? & Hdisj & Hnd2).
  apply NoDup_cons in Hnd2 as [_ ?]. apply NoDup_app. split; [done|].
  split; [|done]. intros y Hy. specialize (Hdisj y Hy). set_solver.
Qed.
End TaskQueueRemove.

(** * Proofs: sequences of queue operations *)

Lemma filter_ne_notin (x : addr) (l : list addr) :
  x ∉ l → filter (λ y, y ≠ x) l = l.
Proof.
  induction l as [|a l IH]; [done|]. intros Hx.
  apply not_elem_of_cons in Hx as [Hne Hx].
  rewrite filter_cons_True by done. by rewrite IH.
Qed.

Lemma filter_ne_split (x : addr) (l1 l2 : list addr) :
  NoDup (l1 ++ x :: l2) → filter (λ y, y ≠ x) (l1 ++ x :: l2) = l1 ++ l2.
Proof.
  intros Hnd. apply NoDup_app in Hnd as (_ & Hdisj & Hnd2).
  apply NoDup_cons in Hnd2 as [Hx2 _].
  assert (x ∉ l1) as Hx1 by (intros Hin; apply (Hdisj _ Hin); set_solver).
  rewrite filter_app, filter_cons_False by (intros E; by apply E).
  by rewrite !filter_ne_notin.
Qed.

Lemma abs_popback_high q lh z :
  ahigh q = lh ++ [z] → abs_popback q = mkAbs lh (alow q).
Proof.
  intros E. unfold abs_popback. rewrite E, removelast_last. by destruct lh.
Qed.

Lemma abs_popback_low q ll z :
  ahigh q = [] → alow q = ll ++ [z] → abs_popback q = mkAbs [] ll.
Proof. intros E1 E2. unfold abs_popback. by rewrite E1, E2, removelast_last. Qed.

Lemma abs_popback_empty q :
  ahigh q = [] → alow q = [] → abs_popback q = mkAbs [] [].
Proof. intros E1 E2. unfold abs_popback. by rewrite E1, E2. Qed.

Section WorldProofs.
Context `{dart_constants}.

Lemma tq_rep_relink A h h' tq lh ll :
  relink A h h' → (∀ y, y ∈ lh ++ ll → y ∉ A) →
  tq_rep h tq lh ll → tq_rep h' tq lh ll.
Proof.
  intros R Hdisj (Hrh & Hrl & Hnd & Hfh & Hfl).
  split; [|split; [|split; [done|split]]].
  - eapply deque_rep_relink; [exact R| |done]. intros y Hy. apply Hdisj. set_solver.
  - eapply deque_rep_relink; [exact R| |done]. intros y Hy. apply Hdisj. set_solver.
  - apply Forall_forall. intros y Hy. rewrite (relink_is_high _ _ _ _ R).
    by eapply Forall_forall in Hfh.
  - apply Forall_forall. intros y Hy. rewrite (relink_is_high _ _ _ _ R).
    by eapply Forall_forall in Hfl.
Qed.

Lemma move_unsafe_spec h dst src dh dl sh sl :
  tq_rep h dst dh dl → tq_rep h src sh sl →
  (∀ y, y ∈ dh ++ dl → y ∉ sh ++ sl) →
  ∃ dst' src' h',
    dart_tasking_taskqueue_move_unsafe dst src h = Some ((dst', src'), h')
    ∧ tq_rep h' dst' (sh ++ dh) (sl ++ dl) ∧ tq_rep h' src' [] []
    ∧ relink ((dh ++ dl) ++ (sh ++ sl)) h h'.
Proof.
  intros (Hdh & Hdl & Hdnd & Hdfh & Hdfl) (Hsh & Hsl & Hsnd & Hsfh & Hsfl) Hdisj.
  apply NoDup_app in Hdnd as (Hnd_dh & Hd_disj & Hnd_dl).
  apply NoDup_app in Hsnd as (Hnd_sh & Hs_disj & Hnd_sl).
  assert (NoDup (sh ++ dh)) as Hnd_h.
  { apply NoDup_app. split; [done|]. split; [|done].
    intros y Hy Hy'. apply (Hdisj y); set_solver. }
  assert (NoDup (sl ++ dl)) as Hnd_l.
  { apply NoDup_app. split; [done|]. split; [|done].
    intros y Hy Hy'. apply (Hdisj y); set_solver. }
  destruct (task_deque_move_spec h _ _ dh sh Hdh Hsh Hnd_h)
    as (dh' & sh' & h1 & E1 & Hrh & Hrsh & R1).
  assert (deque_rep h1 (lowprio dst) dl) as Hdl1.
  { eapply deque_rep_relink; [exact R1| |done]. intros y Hy Hin.
    apply elem_of_app in Hin as [Hin|Hin].
    - apply (Hdisj y); set_solver.
    - by apply (Hd_disj y). }
  assert (deque_rep h1 (lowprio src) sl) as Hsl1.
  { eapply deque_rep_relink; [exact R1| |done]. intros y Hy Hin.
    apply elem_of_app in Hin as [Hin|Hin].
    - by apply (Hs_disj y).
    - apply (Hdisj y); set_solver. }
  destruct (task_deque_move_spec h1 _ _ dl sl Hdl1 Hsl1 Hnd_l)
    as (dl' & sl' & h2 & E2 & Hrl & Hrsl & R2).
  assert (relink ((dh ++ dl) ++ (sh ++ sl)) h h2) as R.
  { eapply relink_trans; (eapply relink_mono; [|eassumption]); set_solver. }
  unfold dart_tasking_taskqueue_move_unsafe.
  erewrite bind_Some by exact E1. simpl.
  erewrite bind_Some by exact E2. simpl.
  eexists _, _, _. split; [reflexivity|]. split; [|split; [|done]].
  - split.
    { eapply deque_rep_relink; [exact R2| |done]. intros y Hy Hin.
      apply elem_of_app in Hin as [Hin|Hin]; apply elem_of_app in Hy as [Hy|Hy].
      - by apply (Hs_disj y).
      - apply (Hdisj y); set_solver.
      - apply (Hdisj y); set_solver.
      - by apply (Hd_disj y). }
    split; [done|]. split.
    { apply NoDup_app. split; [done|]. split; [|done].
      intros y Hy Hin.
      apply elem_of_app in Hin as [Hin|Hin]; apply elem_of_app in Hy as [Hy|Hy].
      - by apply (Hs_disj y).
      - apply (Hdisj y); set_solver.
      - apply (Hdisj y); set_solver.
      - by apply (Hd_disj y). }
    split; apply Forall_forall; intros y Hy; rewrite (relink_is_high _ _ _ _ R);
      apply elem_of_app in Hy as [Hy|Hy].
    + by eapply Forall_forall in Hsfh.
    + by eapply Forall_forall in Hdfh.
    + by eapply Forall_forall in Hsfl.
    + by eapply Forall_forall in Hdfl.
  - split.
    { eapply deque_rep_relink; [exact R2|set_solver|done]. }
    split; [done|]. split; [constructor|]. split; constructor.
Qed.

Lemma world_rep_get h0 w a q :
  world_rep h0 w a →
  tq_rep (mem w) (getq q w) (ahigh (aget q a)) (alow (aget q a)).
Proof. intros (Ha & Hb & _). by destruct q. Qed.

Lemma world_rep_disj h0 w a q y :
  world_rep h0 w a →
  y ∈ tasks_of (aget q a) → y ∉ tasks_of (aget (other q) a).
Proof.
  intros (_ & _ & Hd & _). destruct q; simpl; [apply Hd|].
  intros Hy Hy'. by apply (Hd y).
Qed.

Lemma tasks_of_cases q a y :
  y ∈ tasks_of a.1 ++ tasks_of a.2
  ↔ y ∈ tasks_of (aget q a) ∨ y ∈ tasks_of (aget (other q) a).
Proof. rewrite elem_of_app. destruct q; simpl; tauto. Qed.

Lemma world_rep_set h0 w a q h' tq' x' A :
  world_rep h0 w a →
  tq_rep h' tq' (ahigh x') (alow x') →
  relink A (mem w) h' →
  (∀ y, y ∈ A → y ∉ tasks_of (aget (other q) a)) →
  (∀ y, y ∈ tasks_of x' → y ∈ A) →
  world_rep h0 (set_world q h' tq' w) (aset q x' a).
Proof.
  intros (Ha & Hb & Hd & Hs) Hrep R Hfr Hsub.
  assert (same_tasks h0 h') as Hs'.
  { intros b. destruct R as [_ E]. by rewrite E. }
  destruct q; simpl in *.
  - split; [done|]. split; [|split; [|done]].
    + eapply tq_rep_relink; [exact R| |done]. intros y Hy Hin. by apply (Hfr y).
    + intros y Hy. apply Hfr. by apply Hsub.
  - split; [|split; [done|split; [|done]]].
    + eapply tq_rep_relink; [exact R| |done]. intros y Hy Hin. by apply (Hfr y).
    + intros y Hy Hy'. apply (Hfr y); [by apply Hsub|done].
Qed.

Lemma enqueue_step h0 w a q x t g tq' h' :
  world_rep h0 w a → h0 !! x = Some t →
  x ∉ tasks_of a.1 ++ tasks_of a.2 →
  (∀ x l y, y ∈ g x l ↔ y = x ∨ y ∈ l) →
  (∀ tx, mem w !! x = Some tx → prio tx = prio t →
     tq_rep h' tq' (enqueued_high g (prio tx) x (ahigh (aget q a)))
                   (enqueued_low g (prio tx) x (alow (aget q a)))
     ∧ relink (x :: tasks_of (aget q a)) (mem w) h') →
  world_rep h0 (set_world q h' tq' w) (aset q (abs_enqueue g (prio t) x (aget q a)) a).
Proof.
  intros Hw Ht Hx Hg Hop.
  pose proof Hw as (_ & _ & _ & Hs).
  specialize (Hs x). rewrite Ht in Hs.
  destruct (mem w !! x) as [tx|] eqn:Htx; [|done].
  assert (prio tx = prio t) as Hp.
  { simpl in Hs. apply erase_links_prio. congruence. }
  destruct (Hop tx eq_refl Hp) as [Hrep R]. rewrite Hp in Hrep.
  apply (world_rep_set h0 w a q h' tq' _ (x :: tasks_of (aget q a))); try done.
  - intros y [->|Hy]%elem_of_cons.
    + intros Hin. apply Hx. apply (tasks_of_cases q). by right.
    + by eapply world_rep_disj.
  - intros y. unfold tasks_of, abs_enqueue, enqueued_high, enqueued_low. simpl.
    destruct (prio t =? DART_PRIO_HIGH); rewrite !elem_of_app, ?Hg, elem_of_cons, elem_of_app; tauto.
Qed.

Lemma abs_enqueue_op_Some h0 g q task a a' :
  abs_enqueue_op h0 g q task a = Some a' →
  ∃ x t, task = Some x ∧ h0 !! x = Some t
         ∧ (x ∉ tasks_of a.1 ++ tasks_of a.2)
         ∧ a' = aset q (abs_enqueue g (prio t) x (aget q a)) a.
Proof.
  unfold abs_enqueue_op. destruct task as [x|]; [|done]. simpl.
  destruct (h0 !! x) as [t|] eqn:Ht; [|done]. simpl.
  case_bool_decide; [done|]. intros [= <-]. exists x, t. done.
Qed.

Lemma world_mem_lookup h0 w a x t :
  world_rep h0 w a → h0 !! x = Some t →
  ∃ tx, mem w !! x = Some tx ∧ prio tx = prio t.
Proof.
  intros (_ & _ & _ & Hs) Ht. specialize (Hs x). rewrite Ht in Hs.
  destruct (mem w !! x) as [tx|]; [|done]. exists tx. split; [done|].
  simpl in Hs. apply erase_links_prio. congruence.
Qed.

Lemma world_step h0 op w a a' :
  world_rep h0 w a → abs_step h0 op a = Some a' →
  ∃ w', run_op op w = Some w' ∧ world_rep h0 w' a'.
Proof.
  intros Hw Hstep. destruct op as [q task|q task|q task pos|q|q|q task|dst]; simpl in Hstep.
  - apply abs_enqueue_op_Some in Hstep as (x & t & -> & Ht & Hx & ->).
    destruct (world_mem_lookup _ _ _ _ _ Hw Ht) as (tx & Htx & Hp).
    assert (x ∉ ahigh (aget q a) ++ alow (aget q a)) as Hxq.
    { intros Hin. apply Hx. apply (tasks_of_cases q). by left. }
    destruct (push_unsafe_spec _ _ _ _ _ _ (world_rep_get _ _ _ q Hw) Htx Hxq)
      as (tq' & h' & E & Hrep & R).
    simpl. unfold dart_tasking_taskqueue_push. rewrite E. simpl.
    eexists. split; [reflexivity|].
    eapply enqueue_step; try done.
    + intros; apply elem_of_cons.
    + intros tx' Htx' _. by simplify_eq.
  - apply abs_enqueue_op_Some in Hstep as (x & t & -> & Ht & Hx & ->).
    destruct (world_mem_lookup _ _ _ _ _ Hw Ht) as (tx & Htx & Hp).
    assert (x ∉ ahigh (aget q a) ++ alow (aget q a)) as Hxq.
    { intros Hin. apply Hx. apply (tasks_of_cases q). by left. }
    destruct (pushback_unsafe_spec _ _ _ _ _ _ (world_rep_get _ _ _ q Hw) Htx Hxq)
      as (tq' & h' & E & Hrep & R).
    simpl. unfold dart_tasking_taskqueue_pushback. rewrite E. simpl.
    eexists. split; [reflexivity|].
    eapply enqueue_step; try done.
    + intros x' l y. rewrite elem_of_app, list_elem_of_singleton. tauto.
    + intros tx' Htx' _. by simplify_eq.
  - apply abs_enqueue_op_Some in Hstep as (x & t & -> & Ht & Hx & ->).
    destruct (world_mem_lookup _ _ _ _ _ Hw Ht) as (tx & Htx & Hp).
    assert (x ∉ ahigh (aget q a) ++ alow (aget q a)) as Hxq.
    { intros Hin. apply Hx. apply (tasks_of_cases q). by left. }
    destruct (insert_unsafe_spec _ _ _ _ _ _ pos (world_rep_get _ _ _ q Hw) Htx Hxq)
      as (tq' & h' & E & Hrep & R).
    simpl. unfold dart_tasking_taskqueue_insert. rewrite E. simpl.
    eexists. split; [reflexivity|].
    eapply enqueue_step; try done.
    + intros; apply elem_of_inserted.
    + intros tx' Htx' _. by simplify_eq.
  - injection Hstep as <-. pose proof (world_rep_get _ _ _ q Hw) as Hq.
    simpl. unfold dart_tasking_taskqueue_pop, abs_pop.
    destruct (ahigh (aget q a)) as [|x lh] eqn:Eh.
    + destruct (alow (aget q a)) as [|y ll] eqn:El.
      * destruct (pop_unsafe_empty _ _ Hq) as (tq' & E & Hrep). rewrite E. simpl.
        eexists. split; [reflexivity|].
        apply (world_rep_set h0 w a q (mem w) tq' (mkAbs [] []) []);
          [done|done|apply relink_refl|set_solver|set_solver].
      * destruct (pop_unsafe_low _ _ _ _ Hq) as (tq' & h' & E & Hrep & R & _).
        rewrite E. simpl. eexists. split; [reflexivity|].
        apply (world_rep_set h0 w a q h' tq' (mkAbs [] ll) (y :: ll)); try done.
        -- intros z Hz. eapply world_rep_disj; [done|].
           unfold tasks_of. rewrite Eh, El. done.
        -- unfold tasks_of. simpl. set_solver.
    + destruct (pop_unsafe_high _ _ _ _ _ Hq) as (tq' & h' & E & Hrep & R & _).
      rewrite E. simpl. eexists. split; [reflexivity|].
      apply (world_rep_set h0 w a q h' tq' (mkAbs lh _) (x :: lh ++ alow (aget q a)));
        try done.
      * eapply relink_mono; [|done]. set_solver.
      * intros z Hz. eapply world_rep_disj; [done|].
        unfold tasks_of. rewrite Eh. done.
      * unfold tasks_of. simpl. set_solver.
  - injection Hstep as <-. pose proof (world_rep_get _ _ _ q Hw) as Hq.
    simpl. unfold dart_tasking_taskqueue_popback.
    destruct (ahigh (aget q a)) as [|z lh _] eqn:Eh using rev_ind.
    + destruct (alow (aget q a)) as [|y ll _] eqn:El using rev_ind.
      * destruct (popback_unsafe_empty _ _ Hq) as (tq' & E & Hrep). rewrite E. simpl.
        eexists. split; [reflexivity|].
        rewrite (abs_popback_empty _ Eh El).
        apply (world_rep_set h0 w a q (mem w) tq' (mkAbs [] []) []);
          [done|done|apply relink_refl|set_solver|set_solver].
      * destruct (popback_unsafe_low _ _ _ _ Hq) as (tq' & h' & E & Hrep & R & _).
        rewrite E. simpl. eexists. split; [reflexivity|].
        rewrite (abs_popback_low _ _ _ Eh El).
        apply (world_rep_set h0 w a q h' tq' (mkAbs [] ll) (ll ++ [y])); try done.
        -- intros z Hz. eapply world_rep_disj; [done|].
           unfold tasks_of. rewrite Eh, El. done.
        -- unfold tasks_of. simpl. set_solver.
    + destruct (popback_unsafe_high _ _ _ _ _ Hq) as (tq' & h' & E & Hrep & R & _).
      rewrite E. simpl. eexists. split; [reflexivity|].
      rewrite (abs_popback_high _ _ _ Eh).
      apply (world_rep_set h0 w a q h' tq' (mkAbs lh _) ((lh ++ [z]) ++ alow (aget q a)));
        try done.
      * eapply relink_mono; [|done]. set_solver.
      * intros y Hy. eapply world_rep_disj; [done|].
        unfold tasks_of. rewrite Eh. done.
      * unfold tasks_of. simpl. set_solver.
  - destruct task as [x|]; simpl.
    2:{ injection Hstep as <-. unfold dart_tasking_taskqueue_remove. simpl.
        eexists. split; [reflexivity|].
        destruct Hw as (Ha & Hb & Hd & Hs). destruct q, w; simpl; done. }
    case_bool_decide as Hin; [|done]. injection Hstep as <-.
    pose proof (world_rep_get _ _ _ q Hw) as Hq.
    pose proof Hq as (_ & _ & Hnd & _).
    unfold dart_tasking_taskqueue_remove. simpl. unfold abs_remove.
    apply NoDup_app in Hnd as (Hndh & Hdisj & Hndl).
    apply elem_of_app in Hin as [Hin|Hin].
    + apply list_elem_of_split in Hin as (l1 & l2 & Eh). rewrite Eh in *.
      destruct (remove_unsafe_high _ _ _ _ _ _ Hq) as (tq' & h' & E & Hrep & R & _).
      rewrite E. simpl. eexists. split; [reflexivity|].
      rewrite filter_ne_split by done.
      rewrite (filter_ne_notin x (alow (aget q a))) by (apply Hdisj; set_solver).
      apply (world_rep_set h0 w a q h' tq' (mkAbs _ _)
               ((l1 ++ x :: l2) ++ alow (aget q a))); try done.
      * eapply relink_mono; [|done]. set_solver.
      * intros y Hy. eapply world_rep_disj; [done|].
        unfold tasks_of. rewrite Eh. done.
      * unfold tasks_of. simpl. set_solver.
    + apply list_elem_of_split in Hin as (l1 & l2 & El). rewrite El in *.
      destruct (remove_unsafe_low _ _ _ _ _ _ Hq) as (tq' & h' & E & Hrep & R & _).
      rewrite E. simpl. eexists. split; [reflexivity|].
      rewrite filter_ne_split by done.
      rewrite (filter_ne_notin x (ahigh (aget q a))).
      2:{ intros Hin. apply (Hdisj x Hin). set_solver. }
      apply (world_rep_set h0 w a q h' tq' (mkAbs _ _)
               (ahigh (aget q a) ++ (l1 ++ x :: l2))); try done.
      * eapply relink_mono; [|done]. set_solver.
      * intros y Hy. eapply world_rep_disj; [done|].
        unfold tasks_of. rewrite El. done.
      * unfold tasks_of. simpl. set_solver.
  - injection Hstep as <-.
    pose proof (world_rep_get _ _ _ dst Hw) as Hd.
    pose proof (world_rep_get _ _ _ (other dst) Hw) as Hs.
    destruct (move_unsafe_spec _ _ _ _ _ _ _ Hd Hs) as (d' & s' & h' & E & Hrd & Hrs & R).
    { intros y Hy. by eapply world_rep_disj. }
    simpl. unfold dart_tasking_taskqueue_move. rewrite E. simpl.
    eexists. split; [reflexivity|].
    destruct Hw as (_ & _ & _ & Hsame).
    assert (same_tasks h0 h') as Hs'.
    { intros b. destruct R as [_ E']. by rewrite E'. }
    destruct dst; simpl in *.
    + split; [done|]. split; [done|]. split; [|done]. unfold tasks_of. simpl. set_solver.
    + split; [done|]. split; [done|]. split; [|done]. unfold tasks_of. simpl. set_solver.
Qed.
End WorldProofs.

(** * The head/tail invariant over sequences of operations (C3) *)

Section WorldInvariant.
Context `{dart_constants}.

Lemma world_rep_init h0 : world_rep h0 (world_init h0) abs_init.
Proof.
  split; [apply tq_rep_init|]. split; [apply tq_rep_init|].
  split; [|done]. intros y Hy. unfold tasks_of in Hy. simpl in Hy. set_solver.
Qed.

Lemma world_rep_inv h0 w a : world_rep h0 w a → world_inv w.
Proof. intros (Ha & Hb & _). split; by eapply tq_rep_inv. Qed.

Lemma run_ops_refines h0 ops w a a' :
  world_rep h0 w a → abs_run h0 ops a = Some a' →
  ∃ w', run_ops ops w = Some w' ∧ world_rep h0 w' a'.
Proof.
  revert w a. induction ops as [|op ops IH]; intros w a Hw Hrun; simpl in *.
  - injection Hrun as <-. eauto.
  - destruct (abs_step h0 op a) as [a1|] eqn:E1; [|done]. simpl in Hrun.
    destruct (world_step _ _ _ _ _ Hw E1) as (w1 & E & Hw1).
    rewrite E. simpl. by apply (IH w1 a1).
Qed.

Lemma abs_run_prefix h0 pre suf a :
  is_Some (abs_run h0 (pre ++ suf) a) → is_Some (abs_run h0 pre a).
Proof.
  revert a. induction pre as [|op pre IH]; intros a; simpl; [eauto|].
  destruct (abs_step h0 op a) as [a1|]; simpl; [apply IH|done].
Qed.

(** C3, amended: starting from empty queues, after every operation of a
    well-formed sequence of push, pushback, insert, pop, popback, remove
    and move operations (a task is enqueued only while it is in no queue,
    and removed only from the queue that holds it), each operation returns
    and every deque satisfies [head == NULL] iff [tail == NULL]. *)
Theorem deque_invariant_wf_ops (h0 : heap) (ops pre : list tq_op) :
  ops_wf h0 ops → pre `prefix_of` ops →
  ∃ w, run_ops pre (world_init h0) = Some w ∧ world_inv w.
Proof.
  intros Hwf [suf ->].
  destruct (abs_run_prefix _ _ _ _ Hwf) as [a' Ha'].
  destruct (run_ops_refines h0 pre _ _ _ (world_rep_init h0) Ha') as (w & E & Hw).
  exists w. split; [done|]. by eapply world_rep_inv.
Qed.

End WorldInvariant.

Lemma deque_invariant_wf_ops_witness :
  ∃ w, run_ops (H := example_constants) example_ops (world_init example_heap) = Some w
       ∧ world_inv w.
Proof.
  apply (deque_invariant_wf_ops (H := example_constants) example_heap
           example_ops example_ops).
  - vm_compute. eauto.
  - done.
Defined.

(** C3 as stated fails: pushing task 1, task 2 and task 1 again, then
    removing task 1, leaves the low-priority deque with [head] at task 2
    and [tail == NULL]. No assertion of the source fires on the way. *)
Lemma deque_invariant_counterexample :
  ∃ w, run_ops (H := example_constants) double_push_ops (world_init example_heap) = Some w
       ∧ head (lowprio (qa w)) = Some 2%positive
       ∧ tail (lowprio (qa w)) = NULL
       ∧ ¬ world_inv w.
Proof.
  eexists. split; [vm_compute; reflexivity|]. simpl.
  split; [done|]. split; [done|].
  intros [[_ [_ Hinv]] _]. simpl in Hinv. by specialize (Hinv eq_refl).
Qed.

(** * High priority first (C4) *)

Section PopPriority.
Context `{dart_constants}.

(** C4: in a task queue that holds a high-priority task, pop and popback
    return a high-priority task (the first, respectively the last, of the
    high-priority deque); they return a task that is not of high priority
    only when the high-priority deque is empty. *)
Theorem pop_prefers_high (h : heap) (tq : dart_taskqueue_t) (lh ll : list addr) :
  tq_rep h tq lh ll →
  ((∃ a, a ∈ lh ++ ll ∧ is_high h a) →
     (∃ r tq' h', dart_tasking_taskqueue_pop_unsafe tq h = Some ((Some r, tq'), h')
                  ∧ is_high h r ∧ hd_error lh = Some r)
     ∧ (∃ r tq' h', dart_tasking_taskqueue_popback_unsafe tq h = Some ((Some r, tq'), h')
                    ∧ is_high h r ∧ last lh = Some r))
  ∧ (∀ r tq' h', dart_tasking_taskqueue_pop_unsafe tq h = Some ((Some r, tq'), h') →
       ¬ is_high h r → lh = [] ∧ hd_error ll = Some r)
  ∧ (∀ r tq' h', dart_tasking_taskqueue_popback_unsafe tq h = Some ((Some r, tq'), h') →
       ¬ is_high h r → lh = [] ∧ last ll = Some r).
Proof.
  intros Hrep. pose proof Hrep as (_ & _ & _ & Hfh & Hfl).
  split; [|split].
  - intros (a & Ha & Hhigh).
    assert (a ∈ lh) as Hin.
    { apply elem_of_app in Ha as [?|Hl]; [done|].
      eapply Forall_forall in Hfl; [|exact Hl]. done. }
    split.
    + destruct lh as [|b lh]; [set_solver|].
      destruct (pop_unsafe_high _ _ _ _ _ Hrep) as (tq' & h' & E & _).
      exists b, tq', h'. split; [done|]. split; [|done].
      eapply Forall_forall in Hfh; [done|set_solver].
    + destruct lh as [|z lh _] using rev_ind; [set_solver|].
      destruct (popback_unsafe_high _ _ _ _ _ Hrep) as (tq' & h' & E & _).
      exists z, tq', h'. split; [done|]. split; [|by rewrite last_snoc].
      eapply Forall_forall in Hfh; [done|set_solver].
  - intros r tq' h' E Hnh. destruct lh as [|b lh].
    + split; [done|]. destruct ll as [|c ll].
      * destruct (pop_unsafe_empty _ _ Hrep) as (? & E' & _). congruence.
      * destruct (pop_unsafe_low _ _ _ _ Hrep) as (? & ? & E' & _).
        simpl. congruence.
    + destruct (pop_unsafe_high _ _ _ _ _ Hrep) as (? & ? & E' & _).
      assert (r = b) as -> by congruence.
      eapply Forall_forall in Hfh; [|apply elem_of_cons; by left]. done.
  - intros r tq' h' E Hnh. destruct lh as [|z lh _] using rev_ind.
    + split; [done|]. destruct ll as [|c ll _] using rev_ind.
      * destruct (popback_unsafe_empty _ _ Hrep) as (? & E' & _). congruence.
      * destruct (popback_unsafe_low _ _ _ _ Hrep) as (? & ? & E' & _).
        rewrite last_snoc. congruence.
    + destruct (popback_unsafe_high _ _ _ _ _ Hrep) as (? & ? & E' & _).
      assert (r = z) as -> by congruence.
      eapply Forall_forall in Hfh; [|apply elem_of_app; right; apply elem_of_cons; by left].
      done.
Qed.

End PopPriority.

Lemma example_world_mixed_rep :
  tq_rep (H := example_constants) (mem example_world_mixed)
    (qa example_world_mixed) [5%positive] [1%positive; 2%positive].
Proof.
  destruct (run_ops_refines (H := example_constants) example_heap
              example_mixed_ops (world_init example_heap) abs_init
              (mkAbs [5%positive] [1%positive; 2%positive], mkAbs [] []))
    as (w & E & Hw & _).
  - apply world_rep_init.
  - vm_compute. reflexivity.
  - unfold example_world_mixed. rewrite E. exact Hw.
Defined.

Lemma pop_prefers_high_witness :
  let h := mem example_world_mixed in
  let tq := qa example_world_mixed in
  ((∃ a, a ∈ [5%positive] ++ [1%positive; 2%positive]
         ∧ is_high (H := example_constants) h a) →
     (∃ r tq' h', dart_tasking_taskqueue_pop_unsafe tq h = Some ((Some r, tq'), h')
                  ∧ is_high (H := example_constants) h r
                  ∧ hd_error [5%positive] = Some r)
     ∧ (∃ r tq' h', dart_tasking_taskqueue_popback_unsafe tq h = Some ((Some r, tq'), h')
                    ∧ is_high (H := example_constants) h r
                    ∧ last [5%positive] = Some r))
  ∧ (∀ r tq' h', dart_tasking_taskqueue_pop_unsafe tq h = Some ((Some r, tq'), h') →
       ¬ is_high (H := example_constants) h r →
       [5%positive] = [] ∧ hd_error [1%positive; 2%positive] = Some r)
  ∧ (∀ r tq' h', dart_tasking_taskqueue_popback_unsafe tq h = Some ((Some r, tq'), h') →
       ¬ is_high (H := example_constants) h r →
       [5%positive] = [] ∧ last [1%positive; 2%positive] = Some r).
Proof.
  apply (pop_prefers_high (H := example_constants) (mem example_world_mixed)
           (qa example_world_mixed) [5%positive] [1%positive; 2%positive]).
  exact example_world_mixed_rep.
Defined.

(** * Proofs: yield *)

Section YieldProofs.
Context `{dart_constants} `{dart_externals}.

(** C10: a yield made while the worker threads are not running returns
    DART_OK at once and leaves the whole scheduler state as it was: the
    caller is not suspended, no queue or hot slot is touched, and the trace
    of outside calls gains no remote progress. This holds for the build
    with and for the build without context switching. *)
Theorem yield_threads_not_running (tid : nat) (delay : Z) (s : sched) :
  threads_running s = false →
  dart__tasking__yield tid delay s = YieldReturn DART_OK s
  ∧ dart__tasking__yield_no_ucontext tid delay s = YieldReturn DART_OK s.
Proof.
  intros Hrun. unfold dart__tasking__yield, dart__tasking__yield_no_ucontext.
  rewrite Hrun. done.
Qed.

(** C2, amended: while the worker threads are running and no cancellation
    has been requested, a yield from a task that carries the INLINE flag
    returns DART_ERR_INVAL and leaves the scheduler state unchanged. *)
Theorem yield_inline_task (tid : nat) (delay : Z) (s : sched)
    (thread : dart_thread_t) (a : addr) (ct : dart_task_t) :
  threads_running s = true →
  cancel_requested s = false →
  thread_pool s !! tid = Some (Some thread) →
  current_task thread = Some a →
  tasks s !! a = Some ct →
  DART_TASK_HAS_FLAG ct DART_TASK_INLINE = true →
  dart__tasking__yield tid delay s = YieldReturn DART_ERR_INVAL s.
Proof.
  intros Hrun Hc Hth Hcur Hct Hfl.
  unfold dart__tasking__yield, dart__tasking__cancellation_requested, get_thread.
  rewrite Hrun, Hth, Hc, Hcur. simpl. unfold deref. rewrite Hct, Hfl. done.
Qed.

End YieldProofs.

(** * Proofs: requeue after yield *)

Lemma inserted_position pos x l :
  (0 < pos)%nat →
  let k := Nat.min (S pos) (length l) in
  inserted pos x l = take k l ++ x :: drop k l
  ∧ (Nat.min pos (length l) ≤ k ≤ length l)%nat.
Proof.
  intros Hpos k. split; [|lia]. unfold inserted. destruct pos as [|p]; [lia|].
  destruct (decide (S (S p) ≤ length l)%nat) as [Hle|Hgt].
  - by replace k with (S (S p)) by lia.
  - replace k with (length l) by lia.
    rewrite (take_ge l (S (S p))), (drop_ge l (S (S p))) by lia.
    by rewrite firstn_all, drop_all.
Qed.

Section RequeueProofs.
Context `{dart_constants} `{dart_externals}.

Lemma on_queue_enqueue idx s q (f : dart_taskqueue_t → M dart_taskqueue_t) q' h' :
  task_queue s !! idx = Some q → f q (tasks s) = Some (q', h') →
  on_queue idx (λ q, tq ← f q; mret (tt, tq)) s
  = Some (tt, s_set_task_queue (<[idx := q']> (task_queue s)) (s_set_tasks h' s)).
Proof.
  intros Hq E. unfold on_queue. rewrite Hq.
  erewrite bind_Some by exact E. done.
Qed.

(** The list a requeue produces from the list of the deque. *)
Lemma requeue_task_spec tid s thread x tx q lh ll :
  thread_pool s !! tid = Some (Some thread) →
  tasks s !! x = Some tx →
  task_queue s !! numa_id thread = Some q →
  tq_rep (tasks s) q lh ll → x ∉ lh ++ ll →
  let g := if delay thread =? 0 then (λ x l, x :: l)
           else if 0 <? delay thread then inserted (Z.to_nat (delay thread))
           else (λ x l, l ++ [x]) in
  ∃ q' h', requeue_task tid (Some x) s
           = Some (tt, s_set_task_queue (<[numa_id thread := q']> (task_queue s))
                         (s_set_tasks h' s))
    ∧ tq_rep h' q' (enqueued_high g (prio tx) x lh) (enqueued_low g (prio tx) x ll).
Proof.
  intros Hth Hx Hq Hrep Hxl g. unfold requeue_task, get_thread.
  unfold mbind at 1, SchedM_bind. rewrite Hth. subst g.
  destruct (delay thread =? 0); [|destruct (0 <? delay thread)].
  - destruct (push_unsafe_spec _ _ _ _ _ _ Hrep Hx Hxl) as (q' & h' & E & Hrep' & _).
    exists q', h'. split; [|done].
    by apply (on_queue_enqueue _ _ q (λ q, dart_tasking_taskqueue_push q (Some x))).
  - destruct (insert_unsafe_spec _ _ _ _ _ _ (Z.to_nat (delay thread)) Hrep Hx Hxl)
      as (q' & h' & E & Hrep' & _).
    exists q', h'. split; [|done].
    by apply (on_queue_enqueue _ _ q
                (λ q, dart_tasking_taskqueue_insert q (Some x) (Z.to_nat (delay thread)))).
  - destruct (pushback_unsafe_spec _ _ _ _ _ _ Hrep Hx Hxl) as (q' & h' & E & Hrep' & _).
    exists q', h'. split; [|done].
    by apply (on_queue_enqueue _ _ q (λ q, dart_tasking_taskqueue_pushback q (Some x))).
Qed.

End RequeueProofs.
Section YieldSwap.
Context `{dart_constants} `{dart_externals}.

Lemma modify_thread_Some tid f s u s' :
  modify_thread tid f s = Some (u, s') →
  ∃ th, thread_pool s !! tid = Some (Some th)
        ∧ s' = s_set_thread_pool (<[tid := Some (f th)]> (thread_pool s)) s.
Proof.
  unfold modify_thread. destruct (thread_pool s !! tid) as [[th|]|]; [|done..].
  intros [= <- <-]. eauto.
Qed.

Lemma on_tasks_Some {A} (m : M A) s a s' :
  on_tasks m s = Some (a, s') →
  ∃ h, m (tasks s) = Some (a, h) ∧ s' = s_set_tasks h s.
Proof.
  unfold on_tasks. destruct (m (tasks s)) as [[a' h]|]; [|done].
  intros [= <- <-]. eauto.
Qed.

Lemma get_thread_Some tid s th s' :
  get_thread tid s = Some (th, s') →
  thread_pool s !! tid = Some (Some th) ∧ s' = s.
Proof.
  unfold get_thread. destruct (thread_pool s !! tid) as [[th'|]|]; [|done..].
  by intros [= <- <-].
Qed.

Lemma SchedM_bind_Some {A B} (m : SchedM A) (f : A → SchedM B) s b s' :
  (m ≫= f) s = Some (b, s') →
  ∃ a s1, m s = Some (a, s1) ∧ f a s1 = Some (b, s').
Proof.
  unfold mbind, SchedM_bind. destruct (m s) as [[a s1]|]; [|done]. eauto.
Qed.

Lemma abort_not_swap tid s s1 :
  dart__tasking__abort_current_task tid s ≠ YieldSwap s1.
Proof. unfold dart__tasking__abort_current_task. by case_match; [case_match|]. Qed.

(** A yield that leaves the task suspended has stored its argument in the
    [delay] field of the thread. *)
Lemma yield_swap_delay tid d s s1 th1 x tx :
  dart__tasking__yield tid d s = YieldSwap s1 →
  thread_pool s1 !! tid = Some (Some th1) →
  current_task th1 = Some x →
  tasks s1 !! x = Some tx →
  state tx = DART_TASK_SUSPENDED →
  delay th1 = d.
Proof.
  unfold dart__tasking__yield. intros Hy Hth1 Hcur Hx Hst.
  destruct (threads_running s); [|done]. simpl in Hy.
  destruct (get_thread tid s) as [[thread s0]|] eqn:Hth; [|done].
  apply get_thread_Some in Hth as [Hth ->].
  destruct (dart__tasking__cancellation_requested s).
  { by apply abort_not_swap in Hy. }
  destruct (deref (current_task thread) (tasks s)) as [[ct h0]|] eqn:Hct; [|done].
  destruct (DART_TASK_HAS_FLAG ct DART_TASK_INLINE); [done|].
  case_bool_decide as Hbl.
  { injection Hy as <-. simplify_eq. rewrite Hcur in Hct.
    unfold deref in Hct. rewrite Hx in Hct. simplify_eq. congruence. }
  match type of Hy with match ?c with _ => _ end = _ =>
    destruct c as [[nxt s']|] eqn:Hnext; [|done] end.
  destruct (is_null nxt); simpl in Hy; [done|].
  match type of Hy with match ?c with _ => _ end = _ =>
    destruct c as [[[] s2]|] eqn:Hrest; [done| |done] end.
  injection Hy as ->.
  apply SchedM_bind_Some in Hrest as ([] & sA & HA & Hrest).
  apply modify_thread_Some in HA as (thA & HthA & ->).
  destruct (ptr_eqb (current_task thread) (Some root_task)).
  { apply SchedM_bind_Some in Hrest as (? & ? & _ & Hrest).
    apply SchedM_bind_Some in Hrest as (? & ? & _ & Hrest). done. }
  apply SchedM_bind_Some in Hrest as ([] & sB & HB & Hrest).
  apply on_tasks_Some in HB as (hB & _ & ->).
  apply SchedM_bind_Some in Hrest as (thC & sC & HC & Hrest).
  apply get_thread_Some in HC as [HC ->].
  apply SchedM_bind_Some in Hrest as ([] & sD & HD & Hrest).
  apply SchedM_bind_Some in Hrest as ([] & sE & HE & Hrest).
  apply modify_thread_Some in HE as (thE & HthE & ->).
  unfold S_ASSERT in HD. destruct (is_null (thread_next_task thC)); [|done].
  injection HD as <-. injection Hrest as <-.
  simpl in *.
  assert (tid < length (thread_pool s'))%nat as Hlt by (by eapply lookup_lt_Some).
  rewrite list_lookup_insert_eq in HC by done.
  rewrite list_lookup_insert_eq in HthE by done.
  rewrite list_lookup_insert_eq in Hth1 by (by rewrite length_insert).
  simplify_eq. done.
Qed.

End YieldSwap.
Lemma s_set_tasks_id s : s_set_tasks (tasks s) s = s.
Proof. by destruct s. Qed.

Section RequeuePolicy.
Context `{dart_constants} `{dart_externals}.

(** C1, amended: when yield(delay) has suspended a task, the worker that
    comes back from the context swap puts the task into the deque of its
    priority in the task queue of the worker's NUMA node: at the head when
    delay == 0, at the tail when delay < 0, and when delay > 0 behind at
    least min(delay, n) of the n tasks of that deque, the other tasks
    keeping their order; at the tail whenever n <= delay. The other deque
    keeps its tasks. *)
Theorem requeue_after_yield (tid : nat) (d : Z) (s s1 : sched)
    (thread : dart_thread_t) (x : addr) (tx : dart_task_t)
    (q : dart_taskqueue_t) (lh ll : list addr) (saved : ptr) :
  dart__tasking__yield tid d s = YieldSwap s1 →
  thread_pool s1 !! tid = Some (Some thread) →
  current_task thread = Some x →
  tasks s1 !! x = Some tx →
  state tx = DART_TASK_SUSPENDED →
  task_queue s1 !! numa_id thread = Some q →
  tq_rep (tasks s1) q lh ll → x ∉ lh ++ ll →
  let high := prio tx =? DART_PRIO_HIGH in
  let l := if high then lh else ll in
  ∃ s2 q' l',
    handle_task_returned tid saved s1 = Some (BranchRequeued, s2)
    ∧ task_queue s2 !! numa_id thread = Some q'
    ∧ (if high then tq_rep (tasks s2) q' l' ll else tq_rep (tasks s2) q' lh l')
    ∧ (d = 0 → l' = x :: l)
    ∧ (d < 0 → l' = l ++ [x])
    ∧ (0 < d → ∃ k, (Nat.min (Z.to_nat d) (length l) ≤ k ≤ length l)%nat
                    ∧ l' = take k l ++ x :: drop k l)
    ∧ (0 < d → (length l ≤ Z.to_nat d)%nat → l' = l ++ [x]).
Proof.
  intros Hy Hth Hcur Hx Hst Hq Hrep Hxl high l.
  pose proof (yield_swap_delay _ _ _ _ _ _ _ Hy Hth Hcur Hx Hst) as Hd.
  destruct (requeue_task_spec tid s1 thread x tx q lh ll Hth Hx Hq Hrep Hxl)
    as (q' & h' & E & Hrep').
  rewrite Hd in Hrep'. cbv zeta in Hrep'.
  set (g := if d =? 0 then (λ x l, x :: l)
            else if 0 <? d then inserted (Z.to_nat d)
            else (λ x l, l ++ [x])) in Hrep'.
  assert (tid < length (thread_pool s1))%nat as Hlt by (by eapply lookup_lt_Some).
  assert (numa_id thread < length (task_queue s1))%nat as Hlq
    by (by eapply lookup_lt_Some).
  eexists _, q', (g x l). split; [|split; [|split]].
  - unfold handle_task_returned.
    unfold mbind at 1, SchedM_bind. unfold get_thread at 1. rewrite Hth.
    unfold mbind at 1, SchedM_bind. unfold on_tasks at 1, deref.
    rewrite Hcur, Hx. rewrite Hst. simpl. rewrite s_set_tasks_id.
    unfold mbind at 1, SchedM_bind. rewrite E.
    unfold mbind at 1, SchedM_bind, set_current_task, modify_thread. simpl.
    rewrite Hth. reflexivity.
  - simpl. by rewrite list_lookup_insert_eq.
  - simpl. unfold enqueued_high, enqueued_low in Hrep'. subst high l.
    by destruct (prio tx =? DART_PRIO_HIGH).
  - subst g. split; [|split; [|split]].
    + intros ->. done.
    + intros Hneg. destruct (d =? 0) eqn:E0; [lia|].
      destruct (0 <? d) eqn:E1; [lia|done].
    + intros Hpos. destruct (d =? 0) eqn:E0; [lia|].
      destruct (0 <? d) eqn:E1; [|lia].
      destruct (inserted_position (Z.to_nat d) x l) as [Ei Hk]; [lia|].
      eexists. split; [exact Hk|exact Ei].
    + intros Hpos Hlen. destruct (d =? 0) eqn:E0; [lia|].
      destruct (0 <? d) eqn:E1; [|lia].
      apply inserted_ge; lia.
Qed.

End RequeuePolicy.

(** The queue 3, 2, 1 of [example_sched_yield] as the worker finds it when
    it comes back from the context swap. *)
Lemma example_yielded_rep (d : Z) :
  d = 0 ∨ d = -1 ∨ d = 1 →
  tq_rep (H := example_constants) (tasks (example_yielded d))
    (qa example_world321) [] [3; 2; 1]%positive.
Proof.
  intros Hd.
  assert (tasks (example_yielded d) = tasks (example_yielded 0)) as ->.
  { destruct Hd as [->|[->| ->]]; vm_compute; reflexivity. }
  unfold tq_rep, deque_rep. split_and!.
  - constructor.
  - vm_compute. reflexivity.
  - vm_compute. reflexivity.
  - exact I.
  - repeat (apply NoDup_cons; split; [set_solver|]). constructor.
  - vm_compute. reflexivity.
  - vm_compute. reflexivity.
  - simpl. split_and!; try done; eexists; split_and!; vm_compute; reflexivity.
  - simpl. repeat (apply NoDup_cons; split; [set_solver|]). constructor.
  - constructor.
  - repeat constructor; unfold is_high; vm_compute; discriminate.
Defined.

Lemma requeue_after_yield_witness :
  (∃ s2 q',
     dart__tasking__yield (H := example_constants) (H0 := example_externals)
       1 0 example_sched_yield = YieldSwap (example_yielded 0)
     ∧ handle_task_returned (H := example_constants) 1 (Some 100%positive)
       (example_yielded 0) = Some (BranchRequeued, s2)
     ∧ task_queue s2 !! 0%nat = Some q'
     ∧ tq_rep (H := example_constants) (tasks s2) q' [] [4; 3; 2; 1]%positive)
  ∧ (∃ s2 q',
     dart__tasking__yield (H := example_constants) (H0 := example_externals)
       1 (-1) example_sched_yield = YieldSwap (example_yielded (-1))
     ∧ handle_task_returned (H := example_constants) 1 (Some 100%positive)
       (example_yielded (-1)) = Some (BranchRequeued, s2)
     ∧ task_queue s2 !! 0%nat = Some q'
     ∧ tq_rep (H := example_constants) (tasks s2) q' [] [3; 2; 1; 4]%positive)
  ∧ (∃ s2 q' l' k,
     dart__tasking__yield (H := example_constants) (H0 := example_externals)
       1 1 example_sched_yield = YieldSwap (example_yielded 1)
     ∧ handle_task_returned (H := example_constants) 1 (Some 100%positive)
       (example_yielded 1) = Some (BranchRequeued, s2)
     ∧ task_queue s2 !! 0%nat = Some q'
     ∧ tq_rep (H := example_constants) (tasks s2) q' [] l'
     ∧ (1 ≤ k ≤ 3)%nat
     ∧ l' = take k [3; 2; 1]%positive ++ 4%positive :: drop k [3; 2; 1]%positive)
  ∧ (∃ s2 q',
     handle_task_returned (H := example_constants) 1 (Some 100%positive)
       (s_set_thread_pool
          [Some (example_thread 0 (Some 100%positive) [NULL; NULL]);
           Some (mkThread 1 0 (Some 4%positive) (Some 5%positive) 3 [NULL; NULL]
                          0 false 0 0)]
          (s_set_tasks (<[4%positive := set_state DART_TASK_SUSPENDED
                                           (example_running 0 [])]> example_heap)
             example_sched_yield_empty))
     = Some (BranchRequeued, s2)
     ∧ task_queue s2 !! 0%nat = Some q'
     ∧ tq_rep (H := example_constants) (tasks s2) q' [] [4%positive]).
Proof.
  split_and!.
  - destruct (requeue_after_yield (H := example_constants)
                (H0 := example_externals) 1 0 example_sched_yield
                (example_yielded 0)
                (mkThread 1 0 (Some 4%positive) (Some 5%positive) 0 [NULL; NULL]
                          0 false 0 0)
                4%positive (set_state DART_TASK_SUSPENDED (example_running 0 []))
                (qa example_world321) [] [3; 2; 1]%positive (Some 100%positive))
      as (s2 & q' & l' & E & Hq & Hrep & Hzero & _).
    + vm_compute. reflexivity.
    + vm_compute. reflexivity.
    + reflexivity.
    + vm_compute. reflexivity.
    + reflexivity.
    + vm_compute. reflexivity.
    + apply example_yielded_rep. lia.
    + simpl. set_solver.
    + exists s2, q'. simpl in Hrep. rewrite (Hzero eq_refl) in Hrep.
      split; [vm_compute; reflexivity|done].
  - destruct (requeue_after_yield (H := example_constants)
                (H0 := example_externals) 1 (-1) example_sched_yield
                (example_yielded (-1))
                (mkThread 1 0 (Some 4%positive) (Some 5%positive) (-1) [NULL; NULL]
                          0 false 0 0)
                4%positive (set_state DART_TASK_SUSPENDED (example_running 0 []))
                (qa example_world321) [] [3; 2; 1]%positive (Some 100%positive))
      as (s2 & q' & l' & E & Hq & Hrep & _ & Hneg & _).
    + vm_compute. reflexivity.
    + vm_compute. reflexivity.
    + reflexivity.
    + vm_compute. reflexivity.
    + reflexivity.
    + vm_compute. reflexivity.
    + apply example_yielded_rep. lia.
    + simpl. set_solver.
    + exists s2, q'. simpl in Hrep. rewrite (Hneg ltac:(lia)) in Hrep.
      split; [vm_compute; reflexivity|done].
  - destruct (requeue_after_yield (H := example_constants)
                (H0 := example_externals) 1 1 example_sched_yield
                (example_yielded 1)
                (mkThread 1 0 (Some 4%positive) (Some 5%positive) 1 [NULL; NULL]
                          0 false 0 0)
                4%positive (set_state DART_TASK_SUSPENDED (example_running 0 []))
                (qa example_world321) [] [3; 2; 1]%positive (Some 100%positive))
      as (s2 & q' & l' & E & Hq & Hrep & _ & _ & Hpos & _).
    + vm_compute. reflexivity.
    + vm_compute. reflexivity.
    + reflexivity.
    + vm_compute. reflexivity.
    + reflexivity.
    + vm_compute. reflexivity.
    + apply example_yielded_rep. lia.
    + simpl. set_solver.
    + destruct (Hpos ltac:(lia)) as (k & Hk & El).
      exists s2, q', l', k. simpl in Hrep, Hk, El.
      split; [vm_compute; reflexivity|done].
  - destruct (requeue_after_yield (H := example_constants)
                (H0 := example_externals) 1 3 example_sched_yield_empty
                (s_set_thread_pool
                   [Some (example_thread 0 (Some 100%positive) [NULL; NULL]);
                    Some (mkThread 1 0 (Some 4%positive) (Some 5%positive) 3
                                   [NULL; NULL] 0 false 0 0)]
                   (s_set_tasks
                      (<[4%positive := set_state DART_TASK_SUSPENDED
                                         (example_running 0 [])]> example_heap)
                      example_sched_yield_empty))
                (mkThread 1 0 (Some 4%positive) (Some 5%positive) 3 [NULL; NULL]
                          0 false 0 0)
                4%positive (set_state DART_TASK_SUSPENDED (example_running 0 []))
                dart_tasking_taskqueue_init [] [] (Some 100%positive))
      as (s2 & q' & l' & E & Hq & Hrep & _ & _ & _ & Hge).
    + vm_compute. reflexivity.
    + reflexivity.
    + reflexivity.
    + reflexivity.
    + reflexivity.
    + reflexivity.
    + apply (tq_rep_init (H := example_constants)).
    + simpl. apply not_elem_of_nil.
    + exists s2, q'. simpl in Hrep. rewrite (Hge ltac:(lia) ltac:(simpl; lia)) in Hrep.
      done.
Defined.

(** C1 as stated fails for delay > 0. With an empty deque and delay 3 the
    task ends up at the head, position 0; with the deque 3, 2, 1 and delay
    1 it ends up behind two tasks, at position 2. *)
Lemma requeue_after_yield_counterexample :
  (∃ s1 s2,
     dart__tasking__yield (H := example_constants) (H0 := example_externals)
       1 3 example_sched_yield_empty = YieldSwap s1
     ∧ handle_task_returned (H := example_constants) 1 (Some 100%positive) s1
       = Some (BranchRequeued, s2)
     ∧ lowprio_tasks s2 = [4%positive]
     ∧ lowprio_tasks s2 !! 3%nat ≠ Some 4%positive)
  ∧ (∃ s1 s2,
     dart__tasking__yield (H := example_constants) (H0 := example_externals)
       1 1 example_sched_yield = YieldSwap s1
     ∧ lowprio_tasks s1 = [3; 2; 1]%positive
     ∧ handle_task_returned (H := example_constants) 1 (Some 100%positive) s1
       = Some (BranchRequeued, s2)
     ∧ lowprio_tasks s2 = [3; 2; 4; 1]%positive
     ∧ lowprio_tasks s2 !! 1%nat ≠ Some 4%positive).
Proof.
  split.
  - eexists _, _. split; [vm_compute; reflexivity|].
    split; [vm_compute; reflexivity|]. split; [vm_compute; reflexivity|].
    vm_compute. discriminate.
  - eexists _, _. split; [vm_compute; reflexivity|].
    split; [vm_compute; reflexivity|]. split; [vm_compute; reflexivity|].
    split; [vm_compute; reflexivity|]. vm_compute. discriminate.
Qed.

Lemma yield_threads_not_running_witness :
  dart__tasking__yield (H := example_constants) (H0 := example_externals)
    0 5 example_sched_stopped = YieldReturn DART_OK example_sched_stopped
  ∧ dart__tasking__yield_no_ucontext (H0 := example_externals)
      0 5 example_sched_stopped = YieldReturn DART_OK example_sched_stopped.
Proof.
  apply (yield_threads_not_running (H := example_constants)
           (H0 := example_externals) 0 5 example_sched_stopped).
  reflexivity.
Defined.

Lemma yield_inline_task_witness :
  dart__tasking__yield (H := example_constants) (H0 := example_externals)
    1 0 (example_sched_inline false)
  = YieldReturn DART_ERR_INVAL (example_sched_inline false).
Proof.
  apply (yield_inline_task (H := example_constants) (H0 := example_externals)
           1 0 (example_sched_inline false)
           (example_thread 1 (Some 6%positive) [NULL; NULL]) 6%positive
           (example_running 0 [DART_TASK_INLINE])); reflexivity.
Defined.

(** C2 as stated fails: when a cancellation has been requested, the yield
    of an inline task aborts the task instead of returning DART_ERR_INVAL,
    and the task is marked as cancelled; when the threads are not running,
    the yield returns DART_OK. *)
Lemma yield_inline_task_counterexample :
  ((λ t, DART_TASK_HAS_FLAG t DART_TASK_INLINE)
     <$> (tasks (example_sched_inline true) !! 6%positive) = Some true
   ∧ ∃ s', dart__tasking__yield (H := example_constants) (H0 := example_externals)
             1 0 (example_sched_inline true) = YieldAbort s'
           ∧ state <$> (tasks s' !! 6%positive) = Some DART_TASK_CANCELLED
           ∧ s' ≠ example_sched_inline true)
  ∧ dart__tasking__yield (H := example_constants) (H0 := example_externals)
      1 0 (s_set_threads_running false (example_sched_inline false))
    = YieldReturn DART_OK (s_set_threads_running false (example_sched_inline false)).
Proof.
  split; [split|].
  - vm_compute. reflexivity.
  - eexists. split; [vm_compute; reflexivity|]. split; [vm_compute; reflexivity|].
    intros E. apply (f_equal (λ s, state <$> (tasks s !! 6%positive))) in E.
    vm_compute in E. discriminate.
  - reflexivity.
Qed.

(** * Proofs: task creation *)

Lemma tq_rep_frame `{dart_constants} h h' tq lh ll :
  (∀ y, y ∈ lh ++ ll → h' !! y = h !! y) →
  tq_rep h tq lh ll → tq_rep h' tq lh ll.
Proof.
  intros Hf (Hrh & Hrl & Hnd & Hfh & Hfl).
  assert (Hd : ∀ d l, (∀ y, y ∈ l → y ∈ lh ++ ll) →
                deque_rep h d l → deque_rep h' d l).
  { intros d l Hl (Hn & Hh & Ht & Hs). split_and!; try done.
    eapply dseg_frame; [|exact Hs]. intros y Hy. apply Hf. by apply Hl. }
  split_and!; try done.
  - apply (Hd _ _); [set_solver|done].
  - apply (Hd _ _); [set_solver|done].
  - apply Forall_forall. intros y Hy. unfold is_high.
    rewrite Hf by set_solver. by eapply Forall_forall in Hfh.
  - apply Forall_forall. intros y Hy. unfold is_high.
    rewrite Hf by set_solver. by eapply Forall_forall in Hfl.
Qed.

Lemma on_tasks_assign a f s t :
  tasks s !! a = Some t →
  on_tasks (assign (Some a) f) s
  = Some (tt, s_set_tasks (<[a := f t]> (tasks s)) s).
Proof. intros E. unfold on_tasks, assign. by rewrite E. Qed.

Lemma on_tasks_deref a s t :
  tasks s !! a = Some t → on_tasks (deref (Some a)) s = Some (t, s).
Proof. intros E. unfold on_tasks, deref. rewrite E. by destruct s. Qed.

Lemma run_bind {A B} (m : SchedM A) (k : A → SchedM B) s a s1 :
  m s = Some (a, s1) → (m ≫= k) s = k a s1.
Proof. intros E. unfold mbind, SchedM_bind. by rewrite E. Qed.

Lemma run_assoc {A B C} (m : SchedM A) (f : A → SchedM B) (g : B → SchedM C) s :
  ((m ≫= f) ≫= g) s = (m ≫= λ x, f x ≫= g) s.
Proof. unfold mbind, SchedM_bind. by destruct (m s) as [[??]|]. Qed.

(** The first action of a scheduler computation, when it is an assignment
    to a task in memory, a read of it, or one of the actions that cannot
    fail. *)
Ltac prim :=
  first
    [ apply on_tasks_assign; simpl; lk; first [reflexivity | eassumption]
    | apply on_tasks_deref; simpl; lk; first [reflexivity | eassumption]
    | reflexivity ].

Ltac tstep :=
  first [ rewrite run_assoc | erewrite run_bind by prim ];
  unfold s_set_tasks, s_set_trace, s_set_task_free_lists, s_set_taskpool_next,
    s_set_threads_running, s_set_local_deferred_tasks;
  simpl.

Lemma on_deferred_Some (f : dart_taskqueue_t → M dart_taskqueue_t) s q h :
  f (local_deferred_tasks s) (tasks s) = Some (q, h) →
  on_deferred f s = Some (tt, s_set_local_deferred_tasks q (s_set_tasks h s)).
Proof. intros E. unfold on_deferred. by rewrite E. Qed.

Section CreateTask.
Context `{dart_constants} `{dart_externals}.

(** The task [create_task] sets up: its parent is the current task of the
    thread, and its phase is the current phase when that parent is the
    root task. *)
Lemma create_task_spec tid data_size prio_arg s th a rt :
  thread_pool s !! tid = Some (Some th) →
  current_task th = Some root_task →
  tasks s !! root_task = Some rt → state rt = DART_TASK_ROOT →
  a ≠ root_task →
  (∃ rest, task_free_lists s !! tid = Some (a :: rest) ∧ is_Some (tasks s !! a))
  ∨ (task_free_lists s !! tid = Some [] ∧ a = taskpool_next s) →
  ∃ t s1 s2,
    create_task tid data_size prio_arg s = Some (Some a, s1)
    ∧ tasks s1 !! a = Some t
    ∧ (∀ b, b ≠ a → tasks s1 !! b = tasks s !! b)
    ∧ parent t = Some root_task
    ∧ phase t = dart__tasking__phase_current s2
    ∧ cancel_requested s1 = cancel_requested s
    ∧ thread_pool s1 = thread_pool s
    ∧ local_deferred_tasks s1 = local_deferred_tasks s.
Proof.
  intros Hth Hcur Hrt Hrs Hne Hal.
  destruct s as [h run canc tp tqs ldt nu rn fl tpn trc]; simpl in *.
  unfold create_task, allocate_task.
  destruct ((0 <? data_size) && (DART_TASK_VAR_SPACE <? data_size)),
    (prio_arg =? DART_PRIO_PARENT), (prio_arg =? DART_PRIO_INLINE);
  (destruct Hal as [(rest & Hfl & [t0 Ht0])|[Hfl ->]]; simpl;
    unfold mbind at 1, SchedM_bind; simpl; rewrite Hfl; simpl;
    unfold mbind at 1, SchedM_bind, get_thread; simpl; rewrite Hth; simpl;
    rewrite Hcur;
    unfold s_set_tasks, s_set_trace, s_set_task_free_lists, s_set_taskpool_next;
    simpl);
  repeat first [rewrite (bool_decide_eq_true_2 _ Hrs) | tstep];
  unfold mret, SchedM_ret;
  (eexists _, _, _; split; [reflexivity|]; simpl; split_and!;
   [ by rewrite lookup_insert_eq
   | intros b Hb; by rewrite !lookup_insert_ne by done
   | done.. ]).
Qed.


(** A runnable task of the root task whose phase is not runnable yet goes
    to the back of the queue of deferred tasks. *)
Lemma enqueue_runnable_defers tid a s t lh ll :
  cancel_requested s = false →
  tasks s !! a = Some t →
  state t = DART_TASK_CREATED →
  unresolved_deps t = 0 → unresolved_remote_deps t = 0 →
  parent t = Some root_task →
  (∀ s2, dart__tasking__phase_is_runnable (phase t) s2 = false) →
  tq_rep (tasks s) (local_deferred_tasks s) lh ll →
  a ∉ lh ++ ll →
  ∃ t' s',
    dart__tasking__enqueue_runnable tid (Some a) s = Some (tt, s')
    ∧ tasks s' !! a = Some t'
    ∧ state t' = DART_TASK_DEFERRED
    ∧ prio t' = prio t
    ∧ tq_rep (tasks s') (local_deferred_tasks s')
        (enqueued_high (λ x l, l ++ [x]) (prio t) a lh)
        (enqueued_low (λ x l, l ++ [x]) (prio t) a ll).
Proof.
  intros Hc Ht Hst Hud Hur Hpar Hphase Hq Ha.
  destruct s as [h run canc tp tqs ldt nu rn fl tpn trc]; simpl in *.
  subst canc. unfold dart__tasking__enqueue_runnable.
  tstep. tstep. rewrite Hst. simpl.
  unfold dart_tasking_datadeps_is_runnable. rewrite Hud, Hur. simpl.
  do 5 tstep. rewrite Hpar, !Hphase. unfold ptr_eqb.
  rewrite bool_decide_eq_true_2 by done. simpl.
  repeat tstep.
  match goal with
  | |- context [mkSched ?h' _ _ _ _ _ _ _ _ _ _] =>
      destruct (pushback_unsafe_spec h' ldt lh ll a
                  (set_state DART_TASK_DEFERRED (set_state DART_TASK_QUEUED t)))
        as (q' & h'' & E & Hrep & Hrel);
        [ eapply tq_rep_frame; [|exact Hq];
          intros y Hy; rewrite !lookup_insert_ne by (intros ->; done); done
        | by rewrite lookup_insert_eq
        | done
        | ]
  end.
  erewrite run_bind by (apply on_deferred_Some; exact E).
  repeat tstep. unfold mret, SchedM_ret.
  destruct (relink_lookup_Some _ _ _ a _ Hrel (lookup_insert_eq _ _ _))
    as (t' & Ht' & Her).
  eexists t', _. split; [reflexivity|]. simpl. split_and!.
  - done.
  - apply (f_equal state) in Her. simpl in Her. done.
  - apply erase_links_prio in Her. done.
  - exact Hrep.
Qed.

(** C5: task creation returns DART_OK.  While a cancellation is in
    progress the call returns DART_OK and leaves the scheduler state as it
    is: no task is allocated and nothing is queued.  Whenever the call
    returns, it returns DART_OK.  And when the root task creates a task
    without unresolved dependencies while the current phase is not yet
    runnable, the call returns DART_OK with the new task in state DEFERRED
    at the back of its deque in the queue of deferred tasks. *)
Theorem create_task_returns_ok tid data_size prio_arg noyield want_ref s :
  (cancel_requested s = true →
   dart__tasking__create_task tid data_size prio_arg noyield want_ref s
   = Some (DART_OK, s))
  ∧ (∀ r s',
       dart__tasking__create_task tid data_size prio_arg noyield want_ref s
       = Some (r, s') → r = DART_OK)
  ∧ (∀ th rt a lh ll,
       cancel_requested s = false →
       thread_pool s !! tid = Some (Some th) →
       current_task th = Some root_task →
       tasks s !! root_task = Some rt → state rt = DART_TASK_ROOT →
       a ≠ root_task →
       (∃ rest, task_free_lists s !! tid = Some (a :: rest)
                ∧ is_Some (tasks s !! a))
       ∨ (task_free_lists s !! tid = Some [] ∧ a = taskpool_next s) →
       tq_rep (tasks s) (local_deferred_tasks s) lh ll →
       a ∉ lh ++ ll → root_task ∉ lh ++ ll →
       (∀ s1, datadeps_unresolved a s1 = (0, 0)) →
       (∀ s1 s2, dart__tasking__phase_is_runnable
                   (dart__tasking__phase_current s1) s2 = false) →
       ∃ t s',
         dart__tasking__create_task tid data_size prio_arg noyield want_ref s
         = Some (DART_OK, s')
         ∧ tasks s' !! a = Some t
         ∧ state t = DART_TASK_DEFERRED
         ∧ tq_rep (tasks s') (local_deferred_tasks s')
             (enqueued_high (λ x l, l ++ [x]) (prio t) a lh)
             (enqueued_low (λ x l, l ++ [x]) (prio t) a ll)).
Proof.
  split_and!.
  - intros Hc. unfold dart__tasking__create_task.
    rewrite (run_bind _ _ s s s) by reflexivity.
    unfold dart__tasking__cancellation_requested. rewrite Hc. reflexivity.
  - intros r s'. unfold dart__tasking__create_task.
    rewrite (run_bind _ _ s s s) by reflexivity.
    destruct (dart__tasking__cancellation_requested s); [by intros [= <- _]|].
    intros E.
    repeat (apply SchedM_bind_Some in E; destruct E as (? & ? & _ & E)).
    by injection E as <- _.
  - intros th rt a lh ll Hc Hth Hcur Hrt Hrs Hne Hal Hq Ha Hroot Hdeps Hphase.
    unfold dart__tasking__create_task.
    rewrite (run_bind _ _ s s s) by reflexivity.
    unfold dart__tasking__cancellation_requested. rewrite Hc.
    assert (∃ s0, (if negb (threads_running s) then start_threads else mret ()) s
                  = Some (tt, s0)
                  ∧ tasks s0 = tasks s ∧ cancel_requested s0 = false
                  ∧ thread_pool s0 = thread_pool s
                  ∧ local_deferred_tasks s0 = local_deferred_tasks s
                  ∧ task_free_lists s0 = task_free_lists s
                  ∧ taskpool_next s0 = taskpool_next s)
      as (s0 & E0 & Ht0 & Hc0 & Htp0 & Hld0 & Hfl0 & Hpn0).
    { destruct s as [h run canc tp tqs ldt nu rn fl tpn trc]; simpl in *.
      destruct run; simpl; eexists; (split; [reflexivity|done]). }
    rewrite (run_bind _ _ _ _ _ E0). clear E0.
    rewrite <- Ht0, <- Hld0 in Hq. rewrite <- Ht0 in Hrt.
    rewrite <- Htp0 in Hth. rewrite <- Ht0, <- Hfl0, <- Hpn0 in Hal.
    clear Ht0 Htp0 Hld0 Hfl0 Hpn0 Hc s.
    destruct (create_task_spec tid data_size prio_arg s0 th a rt
                Hth Hcur Hrt Hrs Hne Hal)
      as (t & s1 & s2 & E1 & Ht1 & Hoth & Hpar & Hph & Hc1 & Htp1 & Hld1).
    rewrite (run_bind _ _ _ _ _ E1). clear E1.
    assert (Hq1 : tq_rep (tasks s1) (local_deferred_tasks s1) lh ll).
    { rewrite Hld1. eapply tq_rep_frame; [|exact Hq].
      intros y Hy. apply Hoth. intros ->. done. }
    assert (Hrt1 : tasks s1 !! root_task = Some rt).
    { rewrite Hoth by done. exact Hrt. }
    rewrite Hc0 in Hc1. rewrite <- Htp1 in Hth.
    clear Hq Hrt Hoth Hld1 Htp1 Hal Hc0 s0.
    destruct s1 as [h run canc tp tqs ldt nu rn fl tpn trc]; simpl in *.
    subst canc.
    destruct want_ref, noyield; cbv iota;
      repeat first [rewrite Hpar | rewrite Hdeps | tstep];
      (match goal with
       | |- context [mbind _ (dart__tasking__enqueue_runnable tid (Some a))
                       (mkSched (<[a := ?T]> ?h0) ?f2 ?f3 ?f4 ?f5 ?f6 ?f7 ?f8 ?f9
                                ?f10 ?f11)] =>
           destruct (enqueue_runnable_defers tid a
                       (mkSched (<[a := T]> h0) f2 f3 f4 f5 f6 f7 f8 f9 f10 f11)
                       T lh ll)
             as (t' & s' & E & Ht' & Hst' & Hpr & Hrep);
             [ reflexivity
             | simpl; rewrite lookup_insert_eq; reflexivity
             | reflexivity
             | reflexivity
             | reflexivity
             | exact Hpar
             | intros s3; simpl; rewrite Hph; apply Hphase
             | simpl; eapply tq_rep_frame; [|exact Hq1];
               intros y Hy; rewrite !lookup_insert_ne by set_solver; done
             | exact Ha
             | ]
       end);
      rewrite (run_bind _ _ _ _ _ E);
      exists t', s'; (split; [reflexivity|]);
      (split_and!; [done | done | rewrite Hpr; exact Hrep]).
Qed.

End CreateTask.

Lemma create_task_returns_ok_witness :
  dart__tasking__create_task (H := example_constants) (H0 := example_externals)
    1 0 0 false false (example_sched_inline true)
  = Some (DART_OK, example_sched_inline true)
  ∧ ∃ t s',
      dart__tasking__create_task (H := example_constants)
        (H0 := example_externals) 0 0 0 false false example_sched_stopped
      = Some (DART_OK, s')
      ∧ tasks s' !! 200%positive = Some t
      ∧ state t = DART_TASK_DEFERRED.
Proof.
  split.
  - apply (proj1 (create_task_returns_ok (H := example_constants)
                    (H0 := example_externals) 1 0 0 false false
                    (example_sched_inline true))).
    reflexivity.
  - destruct (proj2 (proj2 (create_task_returns_ok (H := example_constants)
                    (H0 := example_externals) 0 0 0 false false
                    example_sched_stopped))
                (example_thread 0 (Some 100%positive) [NULL; NULL])
                example_root 200%positive [] [])
      as (t & s' & E & Ht & Hst & _).
    + reflexivity.
    + reflexivity.
    + reflexivity.
    + vm_compute. reflexivity.
    + reflexivity.
    + discriminate.
    + right. split; reflexivity.
    + apply tq_rep_init.
    + apply not_elem_of_nil.
    + apply not_elem_of_nil.
    + intros s1. reflexivity.
    + intros s1 s2. reflexivity.
    + exists t, s'. split_and!; assumption.
Defined.


(** * Proofs: the context manager *)

Module ContextProofs.
Import Context.

Lemma to_size_t_small z : 0 ≤ z < size_max → to_size_t z = z.
Proof. intros Hz. unfold to_size_t. by apply Z.mod_small. Qed.

(** Masking with the 64-bit complement of [2^k - 1] clears the low [k]
    bits. *)
Lemma land_lnot_ones a k :
  0 ≤ k → 0 ≤ a < size_max →
  Z.land a (to_size_t (Z.lnot (Z.ones k))) = 2 ^ k * (a / 2 ^ k).
Proof.
  intros Hk Ha.
  assert (Z.land a (to_size_t (Z.lnot (Z.ones k))) = Z.ldiff a (Z.ones k)) as ->.
  { apply Z.bits_inj'. intros n Hn.
    rewrite Z.land_spec, Z.ldiff_spec.
    unfold to_size_t, size_max.
    destruct (decide (n < 64)) as [Hlt|Hge].
    - rewrite Z.mod_pow2_bits_low by lia. by rewrite Z.lnot_spec by lia.
    - rewrite Z.mod_pow2_bits_high by lia.
      assert (Z.testbit a n = false) as ->; [|done].
      destruct (decide (a = 0)) as [->|Hne]; [apply Z.bits_0|].
      apply Z.bits_above_log2; [lia|].
      assert (Z.log2 a < 64); [|lia].
      apply Z.log2_lt_pow2; unfold size_max in Ha; lia. }
  rewrite Z.ldiff_ones_r by done.
  rewrite Z.shiftl_mul_pow2, Z.shiftr_div_pow2 by lia. lia.
Qed.

Lemma adjust_size_spec g k size :
  0 ≤ k < 64 → page_size g = 2 ^ k →
  0 ≤ size → size + page_size g ≤ size_max →
  let r := dart__tasking__context_adjust_size g size in
  r mod page_size g = 0 ∧ size ≤ r < size + page_size g.
Proof.
  intros Hk Hp Hs Hmax r. subst r. unfold dart__tasking__context_adjust_size.
  assert (0 < 2 ^ k) as Hpos by (apply Z.pow_pos_nonneg; lia).
  assert (2 ^ k ≤ size_max) as Hle.
  { unfold size_max. apply Z.pow_le_mono_r; lia. }
  rewrite Hp in *.
  rewrite (to_size_t_small (2 ^ k - 1)) by lia.
  rewrite (to_size_t_small (size + (2 ^ k - 1))) by lia.
  assert (Z.land (size + (2 ^ k - 1)) (to_size_t (Z.lnot (2 ^ k - 1)))
          = 2 ^ k * ((size + (2 ^ k - 1)) / 2 ^ k)) as ->.
  { replace (Z.lnot (2 ^ k - 1)) with (Z.lnot (Z.ones k))
      by (rewrite Z.ones_equiv; f_equal; lia).
    apply land_lnot_ones; lia. }
  split.
  - rewrite Z.mul_comm. apply Z.mod_mul. lia.
  - pose proof (Z.div_mod (size + (2 ^ k - 1)) (2 ^ k) ltac:(lia)) as Hdm.
    pose proof (Z.mod_pos_bound (size + (2 ^ k - 1)) (2 ^ k) Hpos) as Hb.
    remember (2 ^ k * ((size + (2 ^ k - 1)) / 2 ^ k)) as m.
    remember ((size + (2 ^ k - 1)) mod 2 ^ k) as r.
    lia.
Qed.

(** C6, amended: after initialization the stack size is 2 MiB when
    TASKSTACKSIZE is unset and the page size is at most 2 MiB; when the
    variable holds a byte count, the stack size is that count, raised to
    the page size if it is smaller. The stack size is not rounded to a
    multiple of the page size; it is the number of bytes reserved for a
    stack by the allocation that is the stack size rounded up to the next
    multiple of the page size. *)
Theorem context_init_stack_size (pagesize : Z) (k : Z) (env : option Z) :
  0 ≤ k < 63 → pagesize = 2 ^ k →
  let g := dart__tasking__context_init pagesize env initial_globals in
  page_size g = pagesize
  ∧ (env = None → pagesize ≤ 2 ^ 21 → task_stack_size g = 2 ^ 21)
  ∧ (∀ v, env = Some v → 0 ≤ v < 2 ^ 63 → task_stack_size g = Z.max v pagesize)
  ∧ ((env = None ∨ ∃ v, env = Some v ∧ 0 ≤ v < 2 ^ 63) →
       allocated_stack_bytes g mod pagesize = 0
       ∧ task_stack_size g ≤ allocated_stack_bytes g < task_stack_size g + pagesize).
Proof.
  intros Hk Hp g.
  assert (0 < 2 ^ k) as Hpos by (apply Z.pow_pos_nonneg; lia).
  assert (2 ^ k ≤ 2 ^ 62) as Hle by (apply Z.pow_le_mono_r; lia).
  assert (page_size g = pagesize) as Hpg.
  { subst g. unfold dart__tasking__context_init. simpl.
    apply to_size_t_small. unfold size_max. lia. }
  assert (env = None → task_stack_size g = Z.max (2 ^ 21) pagesize) as Hnone.
  { intros ->. subst g. unfold dart__tasking__context_init. simpl.
    rewrite (to_size_t_small pagesize) by (unfold size_max; lia).
    change DEFAULT_TASK_STACK_SIZE with (2 ^ 21).
    destruct (2 ^ 21 <? pagesize) eqn:E; [apply Z.ltb_lt in E|apply Z.ltb_ge in E]; lia. }
  assert (∀ v, env = Some v → 0 ≤ v < 2 ^ 63 →
               task_stack_size g = Z.max v pagesize) as Hsome.
  { intros v -> Hv. subst g. unfold dart__tasking__context_init. simpl.
    rewrite (to_size_t_small pagesize) by (unfold size_max; lia).
    rewrite (to_size_t_small v) by (unfold size_max; lia).
    destruct (-1 <? v) eqn:E1; [|apply Z.ltb_ge in E1; lia].
    destruct (v <? pagesize) eqn:E; [apply Z.ltb_lt in E|apply Z.ltb_ge in E]; lia. }
  split; [done|]. split; [|split; [done|]].
  - intros He Hsmall. rewrite Hnone by done. lia.
  - intros Hcase.
    assert (0 ≤ task_stack_size g < 2 ^ 63) as Hrange.
    { destruct Hcase as [He|(v & He & Hv)].
      - rewrite Hnone by done. lia.
      - rewrite (Hsome v) by done. lia. }
    unfold allocated_stack_bytes, dart__tasking__context_stack_size.
    rewrite <- Hpg.
    apply (adjust_size_spec g k); [lia|congruence|lia|].
    rewrite Hpg. unfold size_max. lia.
Qed.

Lemma context_init_stack_size_witness :
  let g := dart__tasking__context_init 4096 (Some 5000) initial_globals in
  page_size g = 4096
  ∧ (Some 5000 = None → 4096 ≤ 2 ^ 21 → task_stack_size g = 2 ^ 21)
  ∧ (∀ v, Some 5000 = Some v → 0 ≤ v < 2 ^ 63 → task_stack_size g = Z.max v 4096)
  ∧ ((Some 5000 = None ∨ ∃ v, Some 5000 = Some v ∧ 0 ≤ v < 2 ^ 63) →
       allocated_stack_bytes g mod 4096 = 0
       ∧ task_stack_size g ≤ allocated_stack_bytes g < task_stack_size g + 4096).
Proof.
  apply (context_init_stack_size 4096 12 (Some 5000)); [lia|reflexivity].
Defined.

(** C6 as stated fails: with a page size of 4096 and TASKSTACKSIZE=5000
    the stack size is 5000, neither 8192 nor any other multiple of the page
    size. *)
Lemma context_init_stack_size_counterexample :
  let g := dart__tasking__context_init 4096 (Some 5000) initial_globals in
  task_stack_size g = 5000
  ∧ task_stack_size g mod page_size g ≠ 0
  ∧ task_stack_size g ≠ 8192.
Proof. vm_compute. repeat split; discriminate. Qed.

End ContextProofs.

Module ContextListProofs.
Import Context.

Lemma create_spec tid st fl :
  inv st → ctxlist st !! tid = Some fl →
  ∃ c st1, dart__tasking__context_create tid st = Some (c, st1)
    ∧ inv st1 ∧ in_use st1 c ∧ owner_of st1 c = Some tid.
Proof.
  intros [Hfl Hfresh] Htid. unfold dart__tasking__context_create.
  rewrite Htid. simpl.
  assert (tid < length (ctxlist st))%nat as Hlt by (by eapply lookup_lt_Some).
  destruct fl as [|c rest]; simpl.
  - (* a new entry *)
    rewrite lookup_insert_eq. simpl.
    eexists _, _. split; [reflexivity|].
    assert (ctxs st !! next_ctx st = None) as Hnone.
    { destruct (ctxs st !! next_ctx st) eqn:E; [|done].
      specialize (Hfresh (next_ctx st) ltac:(eauto)). lia. }
    split; [split|split]; simpl.
    + intros t fl' Hl.
      destruct (decide (t = tid)) as [->|Hne].
      * rewrite list_lookup_insert_eq in Hl; [|done]. simplify_eq.
        split; [constructor|]. intros c Hc. by apply elem_of_nil in Hc.
      * rewrite list_lookup_insert_ne in Hl; [|done].
        destruct (Hfl t fl' Hl) as [Hnd Hown]. split; [done|].
        intros c Hc. destruct (Hown c Hc) as (cl & Hcl & Ho).
        exists cl. split; [|done].
        rewrite !lookup_insert_ne; [done|congruence..].
    + intros c [cl Hc].
      destruct (decide (c = next_ctx st)) as [->|Hne]; [lia|].
      rewrite !lookup_insert_ne in Hc by done.
      specialize (Hfresh c ltac:(eauto)). lia.
    + intros t fl' Hl Hin. simpl in Hl.
      destruct (decide (t = tid)) as [->|Hne].
      * rewrite list_lookup_insert_eq in Hl; [|done]. simplify_eq.
        by apply elem_of_nil in Hin.
      * rewrite list_lookup_insert_ne in Hl; [|done].
        destruct (Hfl t fl' Hl) as [_ Hown].
        destruct (Hown _ Hin) as (cl & Hcl & _). congruence.
    + unfold owner_of. simpl. by rewrite lookup_insert_eq.
  - (* reuse of the entry on top of the free list *)
    destruct (Hfl tid _ Htid) as [Hnd Hown].
    destruct (Hown c ltac:(set_solver)) as (cl & Hcl & Ho).
    rewrite Hcl. simpl.
    apply NoDup_cons in Hnd as [Hc Hnd].
    eexists _, _. split; [reflexivity|].
    split; [split|split]; simpl.
    + intros t fl' Hl.
      assert (∀ fl0, ctxlist st !! t = Some fl0 →
                (∀ c0, c0 ∈ fl0 → ∃ cl0, <[c := mkCtx (ctx_owner cl) true]> (ctxs st) !! c0
                                         = Some cl0 ∧ ctx_owner cl0 = t)) as Hkeep.
      { intros fl0 Hl0 c0 Hc0. destruct (Hfl t fl0 Hl0) as [_ Hown0].
        destruct (Hown0 c0 Hc0) as (cl0 & Hcl0 & Ho0).
        destruct (decide (c0 = c)) as [->|Hne].
        - rewrite lookup_insert_eq. eexists. split; [done|]. simpl. congruence.
        - rewrite lookup_insert_ne by done. eauto. }
      destruct (decide (t = tid)) as [->|Hne].
      * rewrite list_lookup_insert_eq in Hl; [|done]. simplify_eq.
        split; [done|]. intros c0 Hc0. apply (Hkeep _ Htid). set_solver.
      * rewrite list_lookup_insert_ne in Hl; [|done].
        split; [by apply (Hfl t)|]. by apply Hkeep.
    + intros c0 [cl0 Hc0]. apply Hfresh.
      destruct (decide (c0 = c)) as [->|Hne]; [eauto|].
      rewrite lookup_insert_ne in Hc0 by done. eauto.
    + intros t fl' Hl Hin. simpl in Hl.
      destruct (decide (t = tid)) as [->|Hne].
      * rewrite list_lookup_insert_eq in Hl; [|done]. by simplify_eq.
      * rewrite list_lookup_insert_ne in Hl; [|done].
        destruct (Hfl t fl' Hl) as [_ Hown'].
        destruct (Hown' _ Hin) as (cl' & Hcl' & Ho'). congruence.
    + unfold owner_of. simpl. rewrite lookup_insert_eq. simpl. by rewrite Ho.
Qed.

Lemma release_spec caller c cl fl st :
  inv st → ctxs st !! c = Some cl → in_use st c →
  ctxlist st !! ctx_owner cl = Some fl →
  ∃ st2, dart__tasking__context_release caller c st = Some st2
    ∧ ctxlist st2 !! ctx_owner cl = Some (c :: fl)
    ∧ (∀ t, t ≠ ctx_owner cl → ctxlist st2 !! t = ctxlist st !! t)
    ∧ count_occ Pos.eq_dec (c :: fl) c = 1%nat
    ∧ inv st2.
Proof.
  intros [Hfl Hfresh] Hc Huse Hl. unfold dart__tasking__context_release.
  rewrite Hc. simpl. rewrite Hl. simpl.
  assert (ctx_owner cl < length (ctxlist st))%nat as Hlt by (by eapply lookup_lt_Some).
  eexists. split; [reflexivity|]. simpl.
  split; [by rewrite list_lookup_insert_eq|].
  split; [intros t Hne; by rewrite list_lookup_insert_ne|].
  split.
  - simpl. destruct (Pos.eq_dec c c); [|done]. f_equal.
    apply count_occ_not_In. rewrite <- list_elem_of_In. by apply (Huse _ _ Hl).
  - split; [|done]. intros t fl' Hl'. simpl in Hl'.
    destruct (decide (t = ctx_owner cl)) as [->|Hne].
    + rewrite list_lookup_insert_eq in Hl'; [|done]. simplify_eq.
      destruct (Hfl _ _ Hl) as [Hnd Hown]. split.
      * apply NoDup_cons. split; [by apply (Huse _ _ Hl)|done].
      * intros c0 [->|Hin]%elem_of_cons; [eauto|by apply Hown].
    + rewrite list_lookup_insert_ne in Hl'; [|done]. by apply Hfl.
Qed.

(** C7: a context obtained from context_create is owned by the thread
    that called it and is on no free list; releasing a context that is in
    use pushes it onto the free list of its owner, whichever thread makes
    the call, leaves the free list of every other thread as it was, and
    puts it there exactly once. *)
Theorem context_release_to_owner (st : state) (tid : nat) (fl : list addr) :
  inv st → ctxlist st !! tid = Some fl →
  ∃ c st1,
    dart__tasking__context_create tid st = Some (c, st1)
    ∧ owner_of st1 c = Some tid ∧ in_use st1 c
    ∧ ∀ st' caller cl fl',
        inv st' → ctxs st' !! c = Some cl → in_use st' c →
        ctxlist st' !! ctx_owner cl = Some fl' →
        ∃ st2, dart__tasking__context_release caller c st' = Some st2
          ∧ ctxlist st2 !! ctx_owner cl = Some (c :: fl')
          ∧ (∀ t, t ≠ ctx_owner cl → ctxlist st2 !! t = ctxlist st' !! t)
          ∧ count_occ Pos.eq_dec (c :: fl') c = 1%nat.
Proof.
  intros Hinv Htid.
  destruct (create_spec tid st fl Hinv Htid) as (c & st1 & E & Hinv1 & Huse & Hown).
  exists c, st1. split; [done|]. split; [done|]. split; [done|].
  intros st' caller cl fl' Hinv' Hc Huse' Hl.
  destruct (release_spec caller c cl fl' st' Hinv' Hc Huse' Hl)
    as (st2 & E2 & H1 & H2 & H3 & _).
  eauto.
Qed.

Lemma example_state_inv : inv example_state.
Proof.
  split.
  - intros t fl Hl. destruct t as [|[|t]]; simpl in Hl; simplify_eq.
    + split; [apply NoDup_singleton|]. intros c ->%list_elem_of_singleton.
      eexists. split; [reflexivity|done].
    + split; [constructor|]. intros c Hc. by apply elem_of_nil in Hc.
  - intros c [cl Hc]. unfold example_state in *. simpl in *.
    destruct (decide (c = 1%positive)) as [->|]; [done|].
    rewrite lookup_insert_ne in Hc by done.
    destruct (decide (c = 2%positive)) as [->|]; [done|].
    rewrite lookup_insert_ne in Hc by done. done.
Qed.

Lemma context_release_to_owner_witness :
  ∃ c st1,
    dart__tasking__context_create 1 example_state = Some (c, st1)
    ∧ owner_of st1 c = Some 1%nat ∧ in_use st1 c
    ∧ ∀ st' caller cl fl',
        inv st' → ctxs st' !! c = Some cl → in_use st' c →
        ctxlist st' !! ctx_owner cl = Some fl' →
        ∃ st2, dart__tasking__context_release caller c st' = Some st2
          ∧ ctxlist st2 !! ctx_owner cl = Some (c :: fl')
          ∧ (∀ t, t ≠ ctx_owner cl → ctxlist st2 !! t = ctxlist st' !! t)
          ∧ count_occ Pos.eq_dec (c :: fl') c = 1%nat.
Proof.
  apply (context_release_to_owner example_state 1 []).
  - exact example_state_inv.
  - reflexivity.
Defined.

End ContextListProofs.

(** * Proofs: the copy-in memory pool *)

Module CopyinProofs.
Import Copyin.

Section PoolProofs.
Context `{sizes}.

Lemma find_from_spec l sz st :
  (∀ p, p ∈ l → is_Some (pools st !! p)) →
  ∃ r, find_mem_pool_from l sz st = Some r
       ∧ match r with
         | Some p => p ∈ l ∧ ∃ pool, pools st !! p = Some pool ∧ size pool = sz
         | None => ∀ p pool, p ∈ l → pools st !! p = Some pool → size pool ≠ sz
         end.
Proof.
  induction l as [|p l IH]; intros Hl; simpl.
  - eexists. split; [done|]. intros p pool Hp. by apply elem_of_nil in Hp.
  - destruct (Hl p ltac:(set_solver)) as [pool Hpool]. rewrite Hpool. simpl.
    destruct (sz =? size pool) eqn:E.
    + apply Z.eqb_eq in E. eexists. split; [done|]. split; [set_solver|eauto].
    + apply Z.eqb_neq in E.
      destruct IH as (r & Er & Hr); [intros q Hq; apply Hl; set_solver|].
      exists r. split; [done|]. destruct r as [q|].
      * destruct Hr as [Hq Hpq]. split; [set_solver|done].
      * intros q pool' [->|Hq]%elem_of_cons Hq'; [congruence|by eapply Hr].
Qed.

Lemma find_from_sizes l sz st st' :
  (∀ p, p ∈ l → size <$> (pools st' !! p) = size <$> (pools st !! p)) →
  find_mem_pool_from l sz st' = find_mem_pool_from l sz st.
Proof.
  induction l as [|p l IH]; intros Hl; simpl; [done|].
  pose proof (Hl p ltac:(set_solver)) as Hp.
  destruct (pools st !! p) as [pool|], (pools st' !! p) as [pool'|];
    simpl in *; try done.
  injection Hp as ->. rewrite IH; [done|]. intros q Hq. apply Hl. set_solver.
Qed.

Lemma return_spec e hd pool st :
  headers st !! e = Some hd → pools st !! mpool hd = Some pool →
  return_to_mempool (e + sizeof_mem_pool_elem) st
  = if magic hd =? MEMPOOL_MAGIC_NUM then
      Some (mkState (mem_pool st)
              (<[mpool hd := mkPool (size pool) (e :: elems pool)]> (pools st))
              (headers st) (brk st))
    else None.
Proof.
  intros Hhd Hpool. unfold return_to_mempool.
  replace (e + sizeof_mem_pool_elem - sizeof_mem_pool_elem) with e by lia.
  rewrite Hhd. simpl. destruct (magic hd =? MEMPOOL_MAGIC_NUM); [|done].
  simpl. by rewrite Hpool.
Qed.

Hypothesis sizeof_mem_pool_pos : 0 < sizeof_mem_pool.
Hypothesis sizeof_mem_pool_elem_pos : 0 < sizeof_mem_pool_elem.

Lemma allocate_unfold sz st :
  allocate_from_mempool sz st
  = found ← find_mem_pool sz st;
    '(p, st1) ← pool_for found sz st;
    take_elem p sz st1.
Proof. reflexivity. Qed.

Lemma take_elem_spec p pool sz st :
  wf st → pools st !! p = Some pool → size pool = sz → 0 <= sz →
  ∃ e pool' st',
    take_elem p sz st = Some (e + sizeof_mem_pool_elem, st')
    ∧ headers st' !! e
      = Some (mkElem (e + sizeof_mem_pool_elem) MEMPOOL_MAGIC_NUM p)
    ∧ pools st' !! p = Some pool' ∧ size pool' = size pool
    ∧ mem_pool st' = mem_pool st
    ∧ (∀ q, size <$> (pools st' !! q) = size <$> (pools st !! q))
    ∧ wf st'.
Proof.
  intros (Hlist & Helems & Hpb & Hhb) Hp Hps Hsz.
  unfold take_elem. rewrite Hp. simpl.
  destruct (elems pool) as [|e rest] eqn:Eel.
  - simpl. eexists (brk st), pool, _. split; [reflexivity|]. simpl.
    rewrite lookup_insert_eq. split_and!; try done.
    unfold wf; split_and!; try done.
    + intros q pool' e' Hq He'. simpl in *.
      destruct (Helems q pool' e' Hq He') as (hd & Hhd & Hrest).
      exists hd. split; [|done]. rewrite lookup_insert_ne; [done|].
      intros <-. specialize (Hhb (brk st) ltac:(eauto)). lia.
    + intros q Hq. simpl in *. specialize (Hpb q Hq). lia.
    + intros e'. simpl. destruct (decide (e' = brk st)) as [->|Hne]; [lia|].
      rewrite lookup_insert_ne by done. intros He'. specialize (Hhb e' He'). lia.
  - destruct (Helems p pool e Hp ltac:(rewrite Eel; set_solver))
      as ([m mg mp] & Hhd & Hmp & Hmg & Hm). simpl in *. subst.
    rewrite Hhd. simpl. eexists e, _, _. split; [reflexivity|]. simpl.
    rewrite lookup_insert_eq. split_and!; try done.
    2: unfold wf; split_and!; try done.
    + intros q. destruct (decide (q = p)) as [->|Hne].
      * by rewrite lookup_insert_eq, Hp.
      * by rewrite lookup_insert_ne.
    + intros q Hq. simpl. destruct (decide (q = p)) as [->|Hne].
      * rewrite lookup_insert_eq. eauto.
      * rewrite lookup_insert_ne by done. by apply Hlist.
    + intros q pool' e'. simpl. destruct (decide (q = p)) as [->|Hne].
      * rewrite lookup_insert_eq. intros [= <-]. simpl. intros He'.
        apply (Helems p pool e' Hp). rewrite Eel. set_solver.
      * rewrite lookup_insert_ne by done. apply Helems.
    + intros q. simpl. destruct (decide (q = p)) as [->|Hne].
      * intros _. apply Hpb. eauto.
      * rewrite lookup_insert_ne by done. apply Hpb.
Qed.

Lemma allocate_spec sz st :
  wf st → 0 <= sz →
  ∃ e p pool st',
    allocate_from_mempool sz st = Some (e + sizeof_mem_pool_elem, st')
    ∧ headers st' !! e
      = Some (mkElem (e + sizeof_mem_pool_elem) MEMPOOL_MAGIC_NUM p)
    ∧ pools st' !! p = Some pool ∧ size pool = sz
    ∧ find_mem_pool sz st' = Some (Some p)
    ∧ match find_mem_pool sz st with
      | Some (Some p0) => p = p0 ∧ mem_pool st' = mem_pool st
      | _ => mem_pool st' = p :: mem_pool st ∧ pools st !! p = None
      end
    ∧ wf st'.
Proof.
  intros Hwf Hsz. pose proof Hwf as (Hlist & Helems & Hpb & Hhb).
  rewrite allocate_unfold.
  destruct (find_from_spec (mem_pool st) sz st Hlist) as (r & Er & Hr).
  fold (find_mem_pool sz st) in Er. rewrite Er. simpl.
  destruct r as [p|].
  - destruct Hr as (Hin & pool & Hp & Hps). simpl.
    destruct (take_elem_spec p pool sz st Hwf Hp Hps Hsz)
      as (e & pool' & st' & E & Hhd & Hp' & Hps' & Hmp & Hsizes & Hwf').
    rewrite E. exists e, p, pool', st'.
    split_and!; try done; try congruence.
    unfold find_mem_pool. rewrite Hmp.
    rewrite (find_from_sizes _ sz st st') by (intros; apply Hsizes). exact Er.
  - unfold pool_for. rewrite Er. simpl.
    set (st1 := mkState (brk st :: mem_pool st)
                  (<[brk st := mkPool sz []]> (pools st)) (headers st)
                  (brk st + Z.max 1 sizeof_mem_pool)).
    assert (Hnone : pools st !! brk st = None).
    { destruct (pools st !! brk st) eqn:E; [|done].
      specialize (Hpb (brk st) ltac:(eauto)). lia. }
    assert (Hwf1 : wf st1).
    { unfold wf; split_and!; simpl.
      - intros q [->|Hq]%elem_of_cons.
        + rewrite lookup_insert_eq. eauto.
        + destruct (decide (q = brk st)) as [->|Hne].
          * rewrite lookup_insert_eq. eauto.
          * rewrite lookup_insert_ne by done. by apply Hlist.
      - intros q pool' e'. destruct (decide (q = brk st)) as [->|Hne].
        + rewrite lookup_insert_eq. intros [= <-]. simpl. set_solver.
        + rewrite lookup_insert_ne by done. apply Helems.
      - intros q. destruct (decide (q = brk st)) as [->|Hne]; [lia|].
        rewrite lookup_insert_ne by done. intros Hq. specialize (Hpb q Hq). lia.
      - intros e' He'. specialize (Hhb e' He'). lia. }
    assert (Hp1 : pools st1 !! brk st = Some (mkPool sz [])).
    { simpl. by rewrite lookup_insert_eq. }
    destruct (take_elem_spec (brk st) (mkPool sz []) sz st1 Hwf1 Hp1 eq_refl Hsz)
      as (e & pool' & st' & E & Hhd & Hp' & Hps' & Hmp & Hsizes & Hwf').
    rewrite E. exists e, (brk st), pool', st'.
    split_and!; try done.
    unfold find_mem_pool. rewrite Hmp. simpl. rewrite Hp'. simpl.
    rewrite Hps'. simpl. by rewrite Z.eqb_refl.
Qed.

(** C8: for a copy-in dependency whose destination is NULL,
    [dart_tasking_copyin_prepare_dep] takes the buffer from the memory pool
    whose [size] equals the size of the dependency (the pool is the one
    [find_mem_pool] finds, or a new one put in front of the list of pools
    when there is none), stores the buffer as the destination and installs
    [dart_tasking_copyin_release_mem] as the destructor of the dependency
    record.  The header in front of the buffer carries the magic word and
    points back to that pool.  When the destructor runs at retirement, in
    whatever later state [st2] that still has the header and the pool, it
    pushes the element back on the free list of that same pool and resets
    the destination to NULL; and it checks the magic word: with any other
    value in the header the assertion fails. *)
Theorem copyin_buffer_pool_roundtrip deps st i elem :
  wf st →
  find_copyin_out deps = Some i → deps !! i = Some elem →
  copyin_dest (dep elem) = None → 0 <= copyin_size (dep elem) →
  ∃ e p pool st' elem',
    dart_tasking_copyin_prepare_dep deps st = Some (i, <[i := elem']> deps, st')
    ∧ dep_type (dep elem') = dep_type (dep elem)
    ∧ copyin_size (dep elem') = copyin_size (dep elem)
    ∧ copyin_dest (dep elem') = Some (e + sizeof_mem_pool_elem)
    ∧ dtor elem' = Some dart_tasking_copyin_release_mem_fn
    ∧ headers st' !! e
      = Some (mkElem (e + sizeof_mem_pool_elem) MEMPOOL_MAGIC_NUM p)
    ∧ pools st' !! p = Some pool
    ∧ size pool = copyin_size (dep elem)
    ∧ find_mem_pool (copyin_size (dep elem)) st' = Some (Some p)
    ∧ match find_mem_pool (copyin_size (dep elem)) st with
      | Some (Some p0) => p = p0 ∧ mem_pool st' = mem_pool st
      | _ => mem_pool st' = p :: mem_pool st ∧ pools st !! p = None
      end
    ∧ wf st'
    ∧ (∀ st2 pool2,
         headers st2 !! e
         = Some (mkElem (e + sizeof_mem_pool_elem) MEMPOOL_MAGIC_NUM p) →
         pools st2 !! p = Some pool2 →
         run_dtor elem' st2
         = Some (mkDephash (mkDep (dep_type (dep elem)) None
                                  (copyin_size (dep elem)))
                           (Some dart_tasking_copyin_release_mem_fn),
                 mkState (mem_pool st2)
                         (<[p := mkPool (size pool2) (e :: elems pool2)]>
                            (pools st2))
                         (headers st2) (brk st2)))
    ∧ (∀ st2 hd,
         headers st2 !! e = Some hd → magic hd ≠ MEMPOOL_MAGIC_NUM →
         run_dtor elem' st2 = None).
Proof.
  intros Hwf Hfind Hi Hdest Hsz.
  destruct (allocate_spec (copyin_size (dep elem)) st Hwf Hsz)
    as (e & p & pool & st' & E & Hhd & Hp & Hps & Hf' & Hf & Hwf').
  exists e, p, pool, st',
    (mkDephash (mkDep (dep_type (dep elem)) (Some (e + sizeof_mem_pool_elem))
                      (copyin_size (dep elem)))
               (Some dart_tasking_copyin_release_mem_fn)).
  split.
  { unfold dart_tasking_copyin_prepare_dep. rewrite Hfind. simpl.
    rewrite Hi. simpl. rewrite Hdest, E. simpl. reflexivity. }
  simpl. split_and!; try done.
  - intros st2 pool2 Hhd2 Hp2. unfold run_dtor. simpl.
    unfold dart_tasking_copyin_release_mem. simpl.
    rewrite (return_spec e _ pool2 st2 Hhd2 Hp2). simpl.
    reflexivity.
  - intros st2 hd Hhd2 Hmagic. unfold run_dtor. simpl.
    unfold dart_tasking_copyin_release_mem. simpl.
    unfold return_to_mempool.
    replace (e + sizeof_mem_pool_elem - sizeof_mem_pool_elem) with e by lia.
    rewrite Hhd2. simpl.
    destruct (magic hd =? MEMPOOL_MAGIC_NUM) eqn:Em; [|done].
    apply Z.eqb_eq in Em. done.
Qed.

End PoolProofs.

Lemma example_state_wf : wf (H := example_sizes) example_state.
Proof.
  unfold wf, example_state; simpl. split_and!.
  - intros p Hp. by apply elem_of_nil in Hp.
  - intros p pool e Hp. by rewrite lookup_empty in Hp.
  - intros p [x Hp]. by rewrite lookup_empty in Hp.
  - intros p [x Hp]. by rewrite lookup_empty in Hp.
Defined.

Lemma copyin_buffer_pool_roundtrip_witness :
  ∃ e p pool st' elem',
    dart_tasking_copyin_prepare_dep (H := example_sizes)
      example_deps example_state
    = Some (1%nat, <[1%nat := elem']> example_deps, st')
    ∧ copyin_dest (dep elem') = Some (e + 32)
    ∧ dtor elem' = Some dart_tasking_copyin_release_mem_fn
    ∧ pools st' !! p = Some pool
    ∧ size pool = 1024.
Proof.
  destruct (copyin_buffer_pool_roundtrip (H := example_sizes)
              ltac:(reflexivity) ltac:(reflexivity)
              example_deps example_state 1%nat
              (mkDephash (mkDep DART_DEP_COPYIN_OUT None 1024) None)
              example_state_wf eq_refl eq_refl eq_refl ltac:(simpl; lia))
    as (e & p & pool & st' & elem' & E & _ & _ & Hd & Hdt & _ & Hp & Hs & _).
  exists e, p, pool, st', elem'. split_and!; assumption.
Defined.
End CopyinProofs.

(** * Proofs: the active message queue *)

Module AmsgqProofs.
Import Amsgq.

Lemma check_send_ret_again send_ret q :
  send_ret ≠ MPI_SUCCESS →
  check_send_ret send_ret q = Returns DART_ERR_AGAIN q.
Proof.
  intros Hret. unfold check_send_ret.
  destruct (send_ret =? MPI_SUCCESS) eqn:E; [|done].
  apply Z.eqb_eq in E. done.
Qed.

Lemma test_sendreqs_ret completed q ret q' :
  amsgq_test_sendreqs_unsafe completed q = Some (ret, q') →
  ret = DART_OK ∨ ret = DART_ERR_AGAIN.
Proof.
  unfold amsgq_test_sendreqs_unsafe.
  destruct (Z.of_nat (length completed) >? 0); [|intros [= <- _]; by right].
  destruct (Z.of_nat (length completed) =? _); [intros [= <- _]; by left|].
  destruct (move_back _ _ _); simpl; [intros [= <- _]; by left|done].
Qed.

(** C9: a send attempt that cannot go through comes back with
    DART_ERR_AGAIN and no failed assertion.  (1) With buffered sends, the
    ring of send requests full ([send_tailpos = msg_count]) and no
    outstanding send reported complete by [MPI_Testsome], trysend returns
    DART_ERR_AGAIN, the send mutex released and the queue as it was.
    (2) When the MPI send returns anything but MPI_SUCCESS, trysend returns
    DART_ERR_AGAIN: it does return when the send is direct or the ring has
    a free slot, and after a compaction of the ring whatever it returns is
    DART_ERR_AGAIN.  (3) Nonblocking processing returns DART_ERR_AGAIN, the
    queue untouched, when another thread holds the processing mutex. *)
Theorem amsgq_again completed send_ret target q data incoming :
  (direct_send q = false → send_mutex q = false →
   send_tailpos q = msg_count q → completed = [] →
   dart_amsg_sendrecv_trysend completed send_ret target q data
   = Returns DART_ERR_AGAIN q)
  ∧ (send_ret ≠ MPI_SUCCESS →
     (send_tailpos q <= msg_count q →
      sync_send q = true ∨ is_Some (zlookup (send_count q) target) →
      (direct_send q = false →
       send_mutex q = false ∧ send_tailpos q < msg_count q
       ∧ is_Some (zlookup (send_bufs q) (send_tailpos q))
       ∧ is_Some (zlookup (send_reqs q) (send_tailpos q))) →
      ∃ q', dart_amsg_sendrecv_trysend completed send_ret target q data
            = Returns DART_ERR_AGAIN q')
     ∧ (∀ ret q',
          dart_amsg_sendrecv_trysend completed send_ret target q data
          = Returns ret q' →
          ret = DART_ERR_AGAIN))
  ∧ (processing_mutex q = true →
     dart_amsg_sendrecv_process incoming q = Returns DART_ERR_AGAIN q).
Proof.
  split_and!.
  - intros Hd Hm Hfull ->. unfold dart_amsg_sendrecv_trysend.
    rewrite Hfull, Z.leb_refl, Hd, Hm. simpl.
    rewrite Hfull, Z.eqb_refl. destruct q; simpl in *. subst. reflexivity.
  - intros Hret. split.
    + intros Hle Hcnt Hbuf. unfold dart_amsg_sendrecv_trysend.
      apply Z.leb_le in Hle. rewrite Hle. simpl.
      destruct (direct_send q) eqn:Hd; simpl.
      * destruct Hcnt as [->|[c Hc]].
        -- rewrite check_send_ret_again by done. eauto.
        -- destruct (sync_send q).
           ++ rewrite check_send_ret_again by done. eauto.
           ++ unfold incr_at. rewrite Hc. simpl.
              rewrite check_send_ret_again by done. eauto.
      * destruct (Hbuf eq_refl) as (-> & Hlt & [b Hb] & [r Hr]).
        destruct (send_tailpos q =? msg_count q) eqn:E;
          [apply Z.eqb_eq in E; lia|].
        simpl. rewrite Hb, Hr.
        destruct Hcnt as [->|[c Hc]].
        -- rewrite check_send_ret_again by done. eauto.
        -- destruct (sync_send q).
           ++ rewrite check_send_ret_again by done. eauto.
           ++ unfold incr_at. rewrite Hc. simpl.
              rewrite check_send_ret_again by done. eauto.
    + intros ret q'. unfold dart_amsg_sendrecv_trysend.
      destruct (negb (send_tailpos q <=? msg_count q)); [done|].
      destruct (negb (direct_send q)).
      * destruct (send_mutex q); [done|].
        destruct (if send_tailpos (set_send_mutex true q)
                     =? msg_count (set_send_mutex true q)
                  then _ else _) as [[r q1]|] eqn:Et; [|done].
        assert (Hr : r = DART_OK ∨ r = DART_ERR_AGAIN).
        { destruct (send_tailpos _ =? msg_count _).
          - by eapply test_sendreqs_ret.
          - injection Et as <- _. by left. }
        destruct Hr as [->| ->]; simpl.
        -- destruct (zlookup _ _); [|done]. destruct (zlookup _ _); [|done].
           destruct (if sync_send _ then _ else _); [|done].
           rewrite check_send_ret_again by done. by intros [= <- _].
        -- by intros [= <- _].
      * destruct (if sync_send _ then _ else _); [|done].
        rewrite check_send_ret_again by done. by intros [= <- _].
  - intros Hm. unfold dart_amsg_sendrecv_process, amsg_sendrecv_process_internal.
    simpl. rewrite Hm. reflexivity.
Qed.

Lemma amsgq_again_witness :
  dart_amsg_sendrecv_trysend [] 0 1 (example_queue false false) [7]
  = Returns DART_ERR_AGAIN (example_queue false false)
  ∧ (∃ q', dart_amsg_sendrecv_trysend [] 1 1 (example_queue true false) [7]
           = Returns DART_ERR_AGAIN q')
  ∧ dart_amsg_sendrecv_process [] (example_queue false true)
    = Returns DART_ERR_AGAIN (example_queue false true).
Proof.
  split_and!.
  - apply (proj1 (amsgq_again [] 0 1 (example_queue false false) [7] []));
      reflexivity.
  - apply (proj1 (proj1 (proj2
             (amsgq_again [] 1 1 (example_queue true false) [7] []))
             ltac:(done))).
    + simpl. lia.
    + left. reflexivity.
    + simpl. discriminate.
  - apply (proj2 (proj2 (amsgq_again [] 0 1 (example_queue false true) [7] []))).
    reflexivity.
Defined.

End AmsgqProofs.

(** * Further properties of the task queue *)

Section QueueObserved.
Context `{dart_constants}.

Lemma snoc_cases {A} (l : list A) : l = [] ∨ ∃ l' z, l = l' ++ [z].
Proof. induction l as [|x l _] using rev_ind; eauto. Qed.

Lemma dseg_walk h pv l :
  dseg h pv l NULL → ∀ fuel, (length l ≤ fuel)%nat →
  walk fuel h (hd_error l) = l.
Proof.
  revert pv. induction l as [|a l IH]; intros pv Hd fuel Hf; simpl in *.
  - by destruct fuel.
  - destruct fuel as [|fuel]; [lia|]. simpl.
    destruct Hd as [(t & Ht & Hp & Hn) Hd]. rewrite Ht. f_equal.
    rewrite Hn. destruct l as [|b l]; simpl.
    + by destruct fuel.
    + apply (IH (Some a)); [done|simpl in *; lia].
Qed.

Lemma link_prev_NULL l : link_prev NULL l = last l.
Proof. unfold link_prev. by destruct (last l). Qed.

Lemma dseg_walk_back h l :
  ∀ nx, dseg h NULL l nx → ∀ fuel, (length l ≤ fuel)%nat →
  walk_back fuel h (last l) = rev l.
Proof.
  induction l as [|z l IH] using rev_ind; intros nx Hd fuel Hf.
  - by destruct fuel.
  - apply dseg_app in Hd as [Hd1 Hd2]. simpl in Hd2.
    destruct Hd2 as [(t & Ht & Hp & Hn) _].
    rewrite length_app in Hf. simpl in Hf.
    destruct fuel as [|fuel]; [lia|].
    rewrite last_snoc, rev_app_distr. simpl. rewrite Ht. f_equal.
    rewrite Hp, link_prev_NULL. apply (IH (Some z)); [done|lia].
Qed.

(** X1: after any well-formed sequence of push, pushback, insert, pop,
    popback, remove and move operations on two queues, starting from
    empty queues, pop returns the task the list model names as first
    (the first high-priority task, else the first low-priority task, else
    NULL) and popback the one it names as last; a task that comes out has
    both links cleared. *)
Theorem taskqueue_pop_follows_lists (h0 : heap) (ops : list tq_op)
    (a : absq * absq) (q : qid) :
  abs_run h0 ops abs_init = Some a →
  ∃ w, run_ops ops (world_init h0) = Some w
    ∧ (∃ tq' h',
         dart_tasking_taskqueue_pop (getq q w) (mem w)
         = Some ((abs_first (aget q a), tq'), h')
         ∧ ∀ x, abs_first (aget q a) = Some x →
             ∃ t, h' !! x = Some t ∧ next t = NULL ∧ prev t = NULL)
    ∧ (∃ tq' h',
         dart_tasking_taskqueue_popback (getq q w) (mem w)
         = Some ((abs_last (aget q a), tq'), h')
         ∧ ∀ x, abs_last (aget q a) = Some x →
             ∃ t, h' !! x = Some t ∧ next t = NULL ∧ prev t = NULL).
Proof.
  intros Hrun.
  destruct (run_ops_refines h0 ops _ _ _ (world_rep_init h0) Hrun)
    as (w & E & Hw).
  exists w. split; [done|].
  pose proof (world_rep_get _ _ _ q Hw) as Hrep.
  unfold abs_first, abs_last, dart_tasking_taskqueue_pop,
    dart_tasking_taskqueue_popback.
  destruct (aget q a) as [lh ll]. simpl in *. split.
  - destruct lh as [|x lh]; [destruct ll as [|x ll]|].
    + destruct (pop_unsafe_empty _ _ Hrep) as (tq' & E' & _).
      exists tq', (mem w). split; [done|]. intros x. done.
    + destruct (pop_unsafe_low _ _ _ _ Hrep) as (tq' & h' & E' & _ & _ & U).
      exists tq', h'. split; [done|]. by intros ? [= <-].
    + destruct (pop_unsafe_high _ _ _ _ _ Hrep) as (tq' & h' & E' & _ & _ & U).
      exists tq', h'. split; [done|]. by intros ? [= <-].
  - destruct lh as [|x lh]; [destruct (snoc_cases ll) as [->|(l' & z & ->)]|].
    + destruct (popback_unsafe_empty _ _ Hrep) as (tq' & E' & _).
      exists tq', (mem w). split; [done|]. intros x. done.
    + destruct (popback_unsafe_low _ _ _ _ Hrep) as (tq' & h' & E' & _ & _ & U).
      exists tq', h'. rewrite last_snoc. split; [done|]. by intros ? [= <-].
    + destruct (snoc_cases (x :: lh)) as [?|(l' & z & El)]; [done|].
      rewrite El in *.
      destruct (popback_unsafe_high _ _ _ _ _ Hrep) as (tq' & h' & E' & _ & _ & U).
      exists tq', h'. rewrite last_snoc. split; [done|]. by intros ? [= <-].
Qed.

(** X2: a well-formed sequence of queue operations changes nothing in the
    task descriptors but their [next] and [prev] fields, and it leaves
    every deque a consistent doubly linked list of the tasks of the list
    model: following [next] from [head] visits them front to back and ends
    in NULL, following [prev] from [tail] visits them back to front. *)
Theorem taskqueue_links_follow_lists (h0 : heap) (ops : list tq_op)
    (a : absq * absq) (q : qid) (fuel : nat) :
  abs_run h0 ops abs_init = Some a →
  (length (ahigh (aget q a)) ≤ fuel)%nat →
  (length (alow (aget q a)) ≤ fuel)%nat →
  ∃ w, run_ops ops (world_init h0) = Some w
    ∧ (∀ b, erase_links <$> (mem w !! b) = erase_links <$> (h0 !! b))
    ∧ walk fuel (mem w) (head (highprio (getq q w))) = ahigh (aget q a)
    ∧ walk fuel (mem w) (head (lowprio (getq q w))) = alow (aget q a)
    ∧ walk_back fuel (mem w) (tail (highprio (getq q w)))
      = rev (ahigh (aget q a))
    ∧ walk_back fuel (mem w) (tail (lowprio (getq q w)))
      = rev (alow (aget q a)).
Proof.
  intros Hrun Hfh Hfl.
  destruct (run_ops_refines h0 ops _ _ _ (world_rep_init h0) Hrun)
    as (w & E & Hw).
  exists w. split; [done|]. split; [apply Hw|].
  destruct (world_rep_get _ _ _ q Hw)
    as ((_ & Hhh & Hth & Hdh) & (_ & Hhl & Htl & Hdl) & _).
  rewrite Hhh, Hhl, Hth, Htl. split_and!.
  - by eapply dseg_walk.
  - by eapply dseg_walk.
  - by eapply dseg_walk_back.
  - by eapply dseg_walk_back.
Qed.

End QueueObserved.

Lemma taskqueue_pop_follows_lists_witness :
  ∃ w, run_ops (H := example_constants) example_mixed_ops (world_init example_heap)
       = Some w
    ∧ (∃ tq' h', dart_tasking_taskqueue_pop (getq QA w) (mem w)
                 = Some ((Some 5%positive, tq'), h'))
    ∧ (∃ tq' h', dart_tasking_taskqueue_popback (getq QA w) (mem w)
                 = Some ((Some 5%positive, tq'), h')).
Proof.
  destruct (taskqueue_pop_follows_lists (H := example_constants) example_heap
              example_mixed_ops
              (mkAbs [5%positive] [1%positive; 2%positive], mkAbs [] []) QA)
    as (w & E & (tq1 & h1 & E1 & _) & (tq2 & h2 & E2 & _)).
  - vm_compute. reflexivity.
  - exists w. split; [exact E|]. split; eauto.
Defined.

Lemma taskqueue_links_follow_lists_witness :
  ∃ w, run_ops (H := example_constants) example_mixed_ops (world_init example_heap)
       = Some w
    ∧ walk 3 (mem w) (head (lowprio (getq QA w))) = [1%positive; 2%positive]
    ∧ walk_back 3 (mem w) (tail (lowprio (getq QA w))) = [2%positive; 1%positive].
Proof.
  destruct (taskqueue_links_follow_lists (H := example_constants) example_heap
              example_mixed_ops
              (mkAbs [5%positive] [1%positive; 2%positive], mkAbs [] []) QA 3)
    as (w & E & _ & _ & Hl & _ & Hb).
  - vm_compute. reflexivity.
  - simpl. lia.
  - simpl. lia.
  - exists w. split; [exact E|]. split; [exact Hl|exact Hb].
Defined.

(** * Further properties of the context manager *)

Module ContextExtras.
Import Context ContextMore.

(** X3: a released context is the one the next [context_create] of its
    owner returns: nothing is allocated, and the free lists are as they
    were before the release. *)
Theorem context_release_create_reuses (st : state) (caller : nat) (c : addr)
    (cl : context_list_t) (fl : list addr) :
  ctxs st !! c = Some cl → ctxlist st !! ctx_owner cl = Some fl →
  ∃ st1 st2,
    dart__tasking__context_release caller c st = Some st1
    ∧ dart__tasking__context_create (ctx_owner cl) st1 = Some (c, st2)
    ∧ next_ctx st2 = next_ctx st
    ∧ ctxlist st2 = ctxlist st
    ∧ owner_of st2 c = Some (ctx_owner cl).
Proof.
  intros Hc Hl.
  unfold dart__tasking__context_release. rewrite Hc. simpl. rewrite Hl. simpl.
  eexists. eexists. split; [reflexivity|].
  assert (ctx_owner cl < length (ctxlist st))%nat as Hlt
    by (by eapply lookup_lt_Some).
  unfold dart__tasking__context_create. simpl.
  rewrite list_lookup_insert_eq by done. simpl. rewrite Hc. simpl.
  split; [reflexivity|]. simpl. split; [done|]. split.
  - rewrite list_insert_insert_eq. by apply list_insert_id.
  - unfold owner_of. simpl. by rewrite lookup_insert_eq.
Qed.

Lemma context_release_create_reuses_witness :
  ∃ st1 st2,
    dart__tasking__context_release 0 2%positive example_state = Some st1
    ∧ dart__tasking__context_create 1 st1 = Some (2%positive, st2)
    ∧ next_ctx st2 = 3%positive.
Proof.
  destruct (context_release_create_reuses example_state 0 2%positive
              (mkCtx 1 true) [] eq_refl eq_refl)
    as (st1 & st2 & E1 & E2 & Hn & _).
  exists st1, st2. split; [exact E1|]. split; [exact E2|exact Hn].
Defined.

Lemma seq_inv_create n st live tid :
  seq_inv n st live → (tid < n)%nat →
  ∃ c st1, dart__tasking__context_create tid st = Some (c, st1)
           ∧ seq_inv n st1 (c :: live).
Proof.
  intros (Hinv & Hnd & Hlive & Hlen & Hown) Htid.
  destruct (lookup_lt_is_Some_2 (ctxlist st) tid ltac:(lia)) as [fl Hfl].
  destruct (ContextListProofs.create_spec tid st fl Hinv Hfl)
    as (c & st1 & E & Hinv1 & Huse1 & Ho1).
  exists c, st1. split; [done|].
  unfold dart__tasking__context_create in E. rewrite Hfl in E. simpl in E.
  pose proof Hinv as [Hfls Hfresh].
  assert ((c ∉ live) ∧ (length (ctxlist st1) = n
          ∧ (∀ c', c' ≠ c → ctxs st1 !! c' = ctxs st !! c')
          ∧ (∀ t fl1, ctxlist st1 !! t = Some fl1 →
               ∃ fl0, ctxlist st !! t = Some fl0 ∧ fl1 ⊆ fl0)
          ∧ (∃ cl1, ctxs st1 !! c = Some cl1 ∧ (ctx_owner cl1 < n)%nat)))
    as (Hc & Hlen1 & Hfr & Hsub & (cl1 & Hcl1 & Ho)).
  { destruct fl as [|c0 rest]; simpl in E.
    - rewrite lookup_insert_eq in E. simpl in E. simplify_eq. simpl.
      split_and!.
      + intros Hin. destruct (Hlive _ Hin) as [_ Hs].
        specialize (Hfresh _ Hs). lia.
      + by rewrite length_insert.
      + intros c' Hne. by rewrite !lookup_insert_ne.
      + intros t fl1 Hl. destruct (decide (t = tid)) as [->|Hne].
        * rewrite list_lookup_insert_eq in Hl by lia. simplify_eq.
          exists []. split; [done|set_solver].
        * rewrite list_lookup_insert_ne in Hl by done. exists fl1. set_solver.
      + rewrite lookup_insert_eq. eexists. split; [done|]. simpl. lia.
    - destruct (Hfls tid _ Hfl) as [_ Hown0].
      destruct (Hown0 c0 ltac:(set_solver)) as (cl0 & Hcl0 & Ho0).
      rewrite Hcl0 in E. simpl in E. injection E as <- <-. simpl. split_and!.
      + intros Hin. destruct (Hlive _ Hin) as [Hu _].
        apply (Hu _ _ Hfl). set_solver.
      + by rewrite length_insert.
      + intros c' Hne. by rewrite lookup_insert_ne.
      + intros t fl1 Hl. destruct (decide (t = tid)) as [->|Hne].
        * rewrite list_lookup_insert_eq in Hl by lia. simplify_eq.
          eexists. split; [done|set_solver].
        * rewrite list_lookup_insert_ne in Hl by done. exists fl1. set_solver.
      + rewrite lookup_insert_eq. eexists. split; [done|]. simpl. lia. }
  split_and!; try done.
  - by apply NoDup_cons.
  - intros c' [->|Hin]%elem_of_cons; [eauto|].
    assert (c' ≠ c) as Hne by (intros ->; done).
    destruct (Hlive _ Hin) as [Hu Hs]. split.
    + intros t fl1 Hl Hc'. destruct (Hsub _ _ Hl) as (fl0 & Hl0 & Hs0).
      apply (Hu _ _ Hl0). set_solver.
    + by rewrite Hfr.
  - intros c' cl' Hc'. destruct (decide (c' = c)) as [->|Hne].
    + by simplify_eq.
    + rewrite Hfr in Hc' by done. by eapply Hown.
Qed.

Lemma seq_inv_release n st live caller c :
  seq_inv n st live → c ∈ live →
  ∃ st1, dart__tasking__context_release caller c st = Some st1
         ∧ seq_inv n st1 (filter (λ x, x ≠ c) live).
Proof.
  intros (Hinv & Hnd & Hlive & Hlen & Hown) Hc.
  destruct (Hlive _ Hc) as [Hu [cl Hcl]].
  pose proof (Hown _ _ Hcl) as Ho.
  destruct (lookup_lt_is_Some_2 (ctxlist st) (ctx_owner cl) ltac:(lia))
    as [fl Hfl].
  destruct (ContextListProofs.release_spec caller c cl fl st Hinv Hcl Hu Hfl)
    as (st1 & E & Hl1 & Hoth & _ & Hinv1).
  exists st1. split; [done|].
  unfold dart__tasking__context_release in E. rewrite Hcl in E. simpl in E.
  rewrite Hfl in E. simpl in E. simplify_eq. simpl in *.
  split_and!; try done.
  - by apply NoDup_filter.
  - intros c' [Hne Hin]%list_elem_of_filter. destruct (Hlive _ Hin) as [Hu' Hs'].
    split; [|done]. intros t fl1 Hl Hc'. simpl in Hl.
    destruct (decide (t = ctx_owner cl)) as [->|Hnt].
    + rewrite list_lookup_insert_eq in Hl by lia. simplify_eq.
      apply elem_of_cons in Hc' as [->|Hc']; [done|]. by apply (Hu' _ _ Hfl).
    + rewrite list_lookup_insert_ne in Hl by done. by apply (Hu' _ _ Hl).
  - simpl. by rewrite length_insert.
Qed.

Lemma seq_inv_init n : seq_inv n (ctx_init n) [].
Proof.
  split_and!.
  - split.
    + intros t fl Hl. apply lookup_replicate in Hl as [-> _].
      split; [constructor|]. intros c Hc. by apply elem_of_nil in Hc.
    + intros c [cl Hc]. simpl in Hc. by rewrite lookup_empty in Hc.
  - constructor.
  - intros c Hc. by apply elem_of_nil in Hc.
  - simpl. by rewrite length_replicate.
  - intros c cl Hc. simpl in Hc. by rewrite lookup_empty in Hc.
Qed.

Lemma ctx_run_inv n ops st live :
  seq_inv n st live → Forall (λ tid, (tid < n)%nat) (creating_threads ops) →
  match ctx_run ops st live with
  | CtxOk st' live' => seq_inv n st' live'
  | CtxMisuse => True
  | CtxFault => False
  end.
Proof.
  revert st live. induction ops as [|op ops IH]; intros st live Hi Hf; simpl.
  - done.
  - destruct op as [tid|caller c]; simpl in *.
    + apply Forall_cons in Hf as [Ht Hf].
      destruct (seq_inv_create n st live tid Hi Ht) as (c & st1 & E & Hi1).
      rewrite E. by apply IH.
    + case_bool_decide; [|done].
      destruct (seq_inv_release n st live caller c Hi) as (st1 & E & Hi1); [done|].
      rewrite E. by apply IH.
Qed.

(** X4: whatever the threads of the pool do with [context_create] and
    [context_release], as long as only contexts that are handed out are
    released: the code never faults, no context is handed out to two users
    at a time, every context handed out is on no free list, and no free
    list holds a context twice or a context of another thread. *)
Theorem context_never_handed_out_twice (n : nat) (ops : list ctx_op) :
  Forall (λ tid, (tid < n)%nat) (creating_threads ops) →
  match ctx_run ops (ctx_init n) [] with
  | CtxOk st live =>
      NoDup live ∧ (∀ c, c ∈ live → in_use st c) ∧ inv st
  | CtxMisuse => True
  | CtxFault => False
  end.
Proof.
  intros Hf. pose proof (ctx_run_inv n ops _ _ (seq_inv_init n) Hf) as Hr.
  destruct (ctx_run ops (ctx_init n) []) as [st live| |]; [|done..].
  destruct Hr as (Hinv & Hnd & Hlive & _). split_and!; [done| |done].
  intros c Hc. by apply Hlive.
Qed.

Lemma context_never_handed_out_twice_witness :
  match ctx_run [CtxCreate 0; CtxCreate 1; CtxRelease 0 2%positive; CtxCreate 1;
                 CtxCreate 1] (ctx_init 2) [] with
  | CtxOk st live =>
      NoDup live ∧ (∀ c, c ∈ live → in_use st c) ∧ inv st
  | CtxMisuse => True
  | CtxFault => False
  end.
Proof.
  apply (context_never_handed_out_twice 2
           [CtxCreate 0; CtxCreate 1; CtxRelease 0 2%positive; CtxCreate 1;
            CtxCreate 1]).
  simpl. repeat constructor; lia.
Defined.

Lemma cleanup_loop_spec tid fl : ∀ st,
  ctxlist st !! tid = Some fl →
  ∃ st', cleanup_loop (length fl) tid st = Some st'
    ∧ ctxlist st' = <[tid := []]> (ctxlist st)
    ∧ next_ctx st' = next_ctx st
    ∧ ∀ c, ctxs st' !! c = if bool_decide (c ∈ fl) then None else ctxs st !! c.
Proof.
  induction fl as [|c0 fl IH]; intros st Hl; simpl; rewrite Hl; simpl.
  - eexists. split; [reflexivity|]. simpl. split; [done|]. split; [done|].
    intros c. done.
  - assert (tid < length (ctxlist st))%nat as Hlt by (by eapply lookup_lt_Some).
    destruct (IH (dart__tasking__context_free c0
                    (mkState (ctxs st) (<[tid := fl]> (ctxlist st)) (next_ctx st))))
      as (st' & E & Hls & Hn & Hcs).
    { simpl. by rewrite list_lookup_insert_eq. }
    exists st'. split; [exact E|]. simpl in *.
    split; [by rewrite Hls, list_insert_insert_eq|]. split; [done|].
    intros c. rewrite Hcs. destruct (decide (c = c0)) as [->|Hne].
    + rewrite lookup_delete_eq. rewrite (bool_decide_eq_true_2 (c0 ∈ c0 :: fl));
        [|set_solver]. by case_bool_decide.
    + rewrite lookup_delete_ne by done.
      destruct (decide (c ∈ fl)) as [Hin|Hnin].
      * rewrite !bool_decide_eq_true_2; [done|set_solver|done].
      * rewrite !bool_decide_eq_false_2; [done|set_solver|done].
Qed.

(** X5: [context_cleanup] frees the contexts on the free list of the
    calling thread, each of them, and nothing else: the list is empty
    afterwards, the lists of the other threads are untouched, and the
    contexts that were not on the list stay allocated. A context of the
    thread that is still in use at that time is pushed onto the emptied
    list when it is released later. *)
Theorem context_cleanup_frees_own_list (st : state) (tid : nat) (fl : list addr) :
  ctxlist st !! tid = Some fl →
  ∃ st', dart__tasking__context_cleanup tid st = Some st'
    ∧ ctxlist st' !! tid = Some []
    ∧ (∀ t, t ≠ tid → ctxlist st' !! t = ctxlist st !! t)
    ∧ (∀ c, c ∈ fl → ctxs st' !! c = None)
    ∧ (∀ c, c ∉ fl → ctxs st' !! c = ctxs st !! c)
    ∧ (∀ c cl caller, c ∉ fl → ctxs st !! c = Some cl → ctx_owner cl = tid →
         ∃ st'', dart__tasking__context_release caller c st' = Some st''
                 ∧ ctxlist st'' !! tid = Some [c]).
Proof.
  intros Hl. unfold dart__tasking__context_cleanup. rewrite Hl. simpl.
  destruct (cleanup_loop_spec tid fl st Hl) as (st' & E & Hls & Hn & Hcs).
  assert (tid < length (ctxlist st))%nat as Hlt by (by eapply lookup_lt_Some).
  exists st'. split; [done|]. rewrite Hls. split_and!.
  - by rewrite list_lookup_insert_eq.
  - intros t Hne. by rewrite list_lookup_insert_ne.
  - intros c Hc. rewrite Hcs. by rewrite bool_decide_eq_true_2.
  - intros c Hc. rewrite Hcs. by rewrite bool_decide_eq_false_2.
  - intros c cl caller Hc Hcl Ho. unfold dart__tasking__context_release.
    rewrite Hcs, bool_decide_eq_false_2, Hcl by done. simpl.
    rewrite Ho, Hls, list_lookup_insert_eq by done. simpl.
    eexists. split; [reflexivity|]. simpl.
    rewrite list_lookup_insert_eq; [done|]. by rewrite length_insert.
Qed.

Lemma context_cleanup_frees_own_list_witness :
  ∃ st', dart__tasking__context_cleanup 0 example_state = Some st'
    ∧ ctxlist st' !! 0%nat = Some []
    ∧ ctxs st' !! 1%positive = None
    ∧ ctxs st' !! 2%positive = Some (mkCtx 1 true).
Proof.
  destruct (context_cleanup_frees_own_list example_state 0 [1%positive] eq_refl)
    as (st' & E & Hl & _ & Hfreed & Hkept & _).
  exists st'. split; [exact E|]. split; [exact Hl|]. split.
  - apply Hfreed. set_solver.
  - rewrite Hkept; [reflexivity|]. set_solver.
Defined.

(** X6: for a page size that is a power of two, [context_adjust_size]
    rounds up to the next multiple of the page size: the result is a
    multiple of the page size, at least the size and less than a page
    above it, a multiple is left as it is, and adjusting twice changes
    nothing. A size less than a page below [SIZE_MAX] wraps around: the
    result is 0. *)
Theorem context_adjust_size_rounds_up (g : globals) (k size : Z) :
  0 ≤ k < 64 → page_size g = 2 ^ k → 0 ≤ size < size_max →
  let r := dart__tasking__context_adjust_size g size in
  (size + page_size g ≤ size_max →
     r mod page_size g = 0 ∧ size ≤ r < size + page_size g
     ∧ (size mod page_size g = 0 → r = size)
     ∧ dart__tasking__context_adjust_size g r = r)
  ∧ (size_max < size + page_size g → r = 0).
Proof.
  intros Hk Hp Hs r.
  assert (0 < 2 ^ k) as Hpos by (apply Z.pow_pos_nonneg; lia).
  assert (2 ^ k ≤ 2 ^ 63) as Hle by (apply Z.pow_le_mono_r; lia).
  assert (size_max = 2 ^ 64) as Hmax by done.
  assert (∀ s, 0 ≤ s → s + page_size g ≤ size_max →
            s mod page_size g = 0 → dart__tasking__context_adjust_size g s = s)
    as Hfix.
  { intros s Hs0 Hs1 Hmod.
    destruct (ContextProofs.adjust_size_spec g k s ltac:(lia) Hp Hs0 Hs1)
      as [Hm Hb].
    rewrite Hp in *.
    apply Z.mod_divide in Hm as [q Hq]; [|lia].
    apply Z.mod_divide in Hmod as [q' Hq']; [|lia].
    remember (dart__tasking__context_adjust_size g s) as r'.
    assert (q' ≤ q) by (apply (Z.mul_le_mono_pos_r _ _ (2 ^ k)); lia).
    assert (q < q' + 1) by (apply (Z.mul_lt_mono_pos_r (2 ^ k)); lia).
    assert (q = q') by lia. congruence. }
  split.
  - intros Hfit.
    destruct (ContextProofs.adjust_size_spec g k size ltac:(lia) Hp ltac:(lia) Hfit)
      as [Hm Hb].
    subst r. split_and!; try done; try lia.
    + intros Hmod. apply Hfix; [lia|done|done].
    + apply Hfix; [lia| |done].
      remember (dart__tasking__context_adjust_size g size) as r.
      rewrite Hp in *. apply Z.mod_divide in Hm as [q Hq]; [|lia].
      assert (2 ^ 64 = 2 ^ (64 - k) * 2 ^ k) as E64
        by (rewrite <- Z.pow_add_r by lia; f_equal; lia).
      assert (q < 2 ^ (64 - k))
        by (apply (Z.mul_lt_mono_pos_r (2 ^ k)); lia).
      assert ((q + 1) * 2 ^ k ≤ 2 ^ (64 - k) * 2 ^ k)
        by (apply Z.mul_le_mono_nonneg_r; lia).
      lia.
  - intros Hover. subst r. unfold dart__tasking__context_adjust_size.
    rewrite Hp. rewrite (ContextProofs.to_size_t_small (2 ^ k - 1)) by lia.
    assert (to_size_t (size + (2 ^ k - 1)) = size + (2 ^ k - 1) - 2 ^ 64) as ->.
    { unfold to_size_t. rewrite Hmax. symmetry.
      apply (Z.mod_unique _ _ 1); lia. }
    replace (Z.lnot (2 ^ k - 1)) with (Z.lnot (Z.ones k))
      by (rewrite Z.ones_equiv; f_equal; lia).
    rewrite ContextProofs.land_lnot_ones by lia.
    rewrite Z.div_small by lia. lia.
Qed.

Lemma context_adjust_size_rounds_up_witness :
  let g := mkGlobals 5000 4096 in
  dart__tasking__context_adjust_size g 5000 = 8192
  ∧ dart__tasking__context_adjust_size g 8192 = 8192
  ∧ dart__tasking__context_adjust_size g (2 ^ 64 - 100) = 0.
Proof.
  intros g.
  destruct (context_adjust_size_rounds_up g 12 5000 ltac:(lia) eq_refl
              ltac:(unfold size_max; lia)) as [H1 _].
  destruct (context_adjust_size_rounds_up g 12 (2 ^ 64 - 100) ltac:(lia) eq_refl
              ltac:(unfold size_max; lia)) as [_ H2].
  split; [reflexivity|]. split; [reflexivity|].
  apply H2. unfold size_max, g. simpl. lia.
Defined.

(** X7: the block [context_allocate] lays out at a page-aligned address,
    in a build with guard pages: the lower guard page starts on a page
    boundary behind the meta data and ends where the stack starts, the
    upper guard page starts where the stack ends and lies inside the
    block; it starts on a page boundary exactly when the stack size is a
    multiple of the page size. Without guard pages the stack starts behind
    the meta data and fits into the block. *)
Theorem context_allocate_guard_pages (g : globals) (k sizeof_ctxlist ctxlist : Z) :
  0 ≤ k < 32 → page_size g = 2 ^ k →
  0 < sizeof_ctxlist < 2 ^ 32 → 0 ≤ task_stack_size g < 2 ^ 48 →
  0 ≤ ctxlist → ctxlist mod page_size g = 0 →
  let L := context_allocate_layout g sizeof_ctxlist true ctxlist in
  let L' := context_allocate_layout g sizeof_ctxlist false ctxlist in
  ctxlist + sizeof_ctxlist ≤ lb_guard L
  ∧ lb_guard L mod page_size g = 0
  ∧ lb_guard L + page_size g = stack L
  ∧ ub_guard L = stack L + task_stack_size g
  ∧ ub_guard L + page_size g ≤ ctxlist + size L
  ∧ (ub_guard L mod page_size g = 0 ↔ task_stack_size g mod page_size g = 0)
  ∧ ctxlist + sizeof_ctxlist ≤ stack L'
  ∧ stack L' + task_stack_size g ≤ ctxlist + size L'.
Proof.
  intros Hk Hp Hsz Hts Hc Hal L L'.
  assert (0 < 2 ^ k) as Hpos by (apply Z.pow_pos_nonneg; lia).
  assert (2 ^ k ≤ 2 ^ 31) as Hle by (apply Z.pow_le_mono_r; lia).
  assert (size_max = 2 ^ 64) as Hmax by done.
  destruct (ContextProofs.adjust_size_spec g k sizeof_ctxlist ltac:(lia) Hp
              ltac:(lia) ltac:(lia)) as [Hm1 Hb1].
  destruct (ContextProofs.adjust_size_spec g k (task_stack_size g) ltac:(lia) Hp
              ltac:(lia) ltac:(lia)) as [Hm2 Hb2].
  subst L L'. unfold context_allocate_layout, dart__tasking__context_stack_size.
  simpl.
  remember (dart__tasking__context_adjust_size g sizeof_ctxlist) as meta.
  remember (dart__tasking__context_adjust_size g (task_stack_size g)) as adj.
  rewrite Hp in *.
  rewrite (ContextProofs.to_size_t_small (meta + adj)) by lia.
  rewrite (ContextProofs.to_size_t_small (2 * 2 ^ k)) by lia.
  rewrite (ContextProofs.to_size_t_small (meta + adj + 2 * 2 ^ k)) by lia.
  assert ((2 ^ k | ctxlist + meta)) as Hdiv.
  { apply Z.divide_add_r; apply Z.mod_divide; lia. }
  split_and!; try lia.
  - replace (ctxlist + meta + 2 ^ k - 2 ^ k) with (ctxlist + meta) by lia.
    apply Z.mod_divide; [lia|done].
  - replace (ctxlist + meta + 2 ^ k + task_stack_size g)
      with (task_stack_size g + (ctxlist + meta + 2 ^ k)) by lia.
    assert ((2 ^ k | ctxlist + meta + 2 ^ k)) as Hdiv'
      by (apply Z.divide_add_r; [done|apply Z.divide_refl]).
    rewrite !Z.mod_divide by lia. split.
    + intros Hd. rewrite Z.add_comm in Hd.
      by apply (Z.divide_add_cancel_r _ _ _ Hdiv').
    + intros Hd. by apply Z.divide_add_r.
Qed.

Lemma context_allocate_guard_pages_witness :
  let g := mkGlobals 5000 4096 in
  let L := context_allocate_layout g 1000 true 40960 in
  lb_guard L = 45056 ∧ stack L = 49152 ∧ ub_guard L = 54152
  ∧ ub_guard L mod 4096 ≠ 0.
Proof.
  intros g L.
  destruct (context_allocate_guard_pages g 12 1000 40960 ltac:(lia) eq_refl
              ltac:(lia) ltac:(simpl; lia) ltac:(lia) eq_refl)
    as (_ & _ & _ & _ & _ & Hiff & _).
  split; [reflexivity|]. split; [reflexivity|]. split; [reflexivity|].
  intros Hm. apply Hiff in Hm. discriminate Hm.
Defined.

End ContextExtras.

(** * Further properties of the copy-in memory pool *)

Module CopyinExtras.
Import Copyin CopyinMore.

Section PoolExtras.
Context `{sizes}.

(** X8: a buffer that goes back to its pool is the buffer the next
    allocation of that size returns: the allocation takes it from the free
    list, calls no [malloc], and leaves the pool as it was before the
    buffer came back. *)
Theorem copyin_return_allocate_reuses (st : state) (e p : Z) (pool : mem_pool_t) :
  headers st !! e
  = Some (mkElem (e + sizeof_mem_pool_elem) MEMPOOL_MAGIC_NUM p) →
  pools st !! p = Some pool →
  find_mem_pool (size pool) st = Some (Some p) →
  ∃ st1 st2,
    return_to_mempool (e + sizeof_mem_pool_elem) st = Some st1
    ∧ allocate_from_mempool (size pool) st1
      = Some (e + sizeof_mem_pool_elem, st2)
    ∧ brk st2 = brk st ∧ mem_pool st2 = mem_pool st
    ∧ headers st2 = headers st
    ∧ pools st2 !! p = Some (mkPool (size pool) (elems pool))
    ∧ ∀ q, q ≠ p → pools st2 !! q = pools st !! q.
Proof.
  intros Hhd Hp Hfind.
  rewrite (CopyinProofs.return_spec e _ pool st Hhd Hp). simpl.
  eexists. eexists. split; [reflexivity|].
  rewrite CopyinProofs.allocate_unfold.
  set (st1 := mkState _ _ _ _).
  assert (find_mem_pool (size pool) st1 = Some (Some p)) as ->.
  { unfold find_mem_pool. subst st1. simpl.
    rewrite (CopyinProofs.find_from_sizes _ (size pool) st); [exact Hfind|].
    intros q _. simpl. destruct (decide (q = p)) as [->|Hne].
    - by rewrite lookup_insert_eq, Hp.
    - by rewrite lookup_insert_ne. }
  simpl. unfold take_elem. subst st1. simpl.
  rewrite lookup_insert_eq. simpl. rewrite Hhd. simpl.
  split; [reflexivity|]. simpl. split_and!; try done.
  - by rewrite lookup_insert_eq.
  - intros q Hne. by rewrite !lookup_insert_ne.
Qed.

Hypothesis sizeof_mem_pool_pos : 0 < sizeof_mem_pool.
Hypothesis sizeof_mem_pool_elem_pos : 0 < sizeof_mem_pool_elem.







End PoolExtras.

Lemma copyin_return_allocate_reuses_witness :
  ∃ st1 st2,
    return_to_mempool (H := example_sizes) 1056 example_pool_state = Some st1
    ∧ allocate_from_mempool (H := example_sizes) 1024 st1 = Some (1056, st2)
    ∧ brk st2 = 4096.
Proof.
  destruct (copyin_return_allocate_reuses (H := example_sizes)
              example_pool_state 1024 0 (mkPool 1024 [])
              ltac:(vm_compute; reflexivity)
              ltac:(vm_compute; reflexivity) ltac:(vm_compute; reflexivity))
    as (st1 & st2 & E1 & E2 & Hb & _).
  exists st1, st2. split; [exact E1|]. split; [exact E2|exact Hb].
Defined.

(** X10: the edge cases of the copy-in dependency. When the task owns no
    COPYIN_OUT dependency, [prepare_dep] fails its assertion. It works on
    the first COPYIN_OUT dependency of the list. When that dependency
    comes with a destination, nothing is allocated and no destructor is
    installed: the list of dependencies and the pool stay as they are. And
    the destructor resets the destination, so a second run of it on the
    same dependency fails its assertion. *)
Theorem copyin_prepare_dep_edge_cases `{sizes} (deps : list dart_dephash_elem_t)
    (st : state) :
  (Forall (λ el, dep_type (dep el) ≠ DART_DEP_COPYIN_OUT) deps →
   dart_tasking_copyin_prepare_dep deps st = None)
  ∧ (∀ i, find_copyin_out deps = Some i →
       (∃ el, deps !! i = Some el ∧ dep_type (dep el) = DART_DEP_COPYIN_OUT)
       ∧ ∀ j el, (j < i)%nat → deps !! j = Some el →
           dep_type (dep el) ≠ DART_DEP_COPYIN_OUT)
  ∧ (∀ i el d, find_copyin_out deps = Some i → deps !! i = Some el →
       copyin_dest (dep el) = Some d →
       dart_tasking_copyin_prepare_dep deps st = Some (i, deps, st))
  ∧ (∀ el el' st', dart_tasking_copyin_release_mem el st = Some (el', st') →
       dart_tasking_copyin_release_mem el' st' = None).
Proof.
  split_and!.
  - intros Hall. unfold dart_tasking_copyin_prepare_dep.
    assert (find_copyin_out deps = None) as ->; [|done].
    induction Hall as [|el l Hel Hall IH]; simpl; [done|].
    rewrite bool_decide_eq_false_2 by done. by rewrite IH.
  - induction deps as [|el0 l IH]; intros i; simpl; [done|].
    case_bool_decide as Hty.
    + intros [= <-]. split; [eauto|]. intros j el Hj. lia.
    + destruct (find_copyin_out l) as [i'|]; [|done]. simpl. intros [= <-].
      destruct (IH i' eq_refl) as [(el & Hel & Ht) Hlt]. split; [eauto|].
      intros [|j] el' Hj Hl; simpl in Hl; [by simplify_eq|].
      eapply Hlt; [|done]. lia.
  - intros i el d Hf Hi Hd. unfold dart_tasking_copyin_prepare_dep.
    rewrite Hf. simpl. rewrite Hi. simpl. by rewrite Hd.
  - intros el el' st'. unfold dart_tasking_copyin_release_mem.
    destruct (copyin_dest (dep el)) as [d|]; [|done]. simpl.
    destruct (return_to_mempool d st) as [st1|]; [|done]. simpl.
    by intros [= <- <-].
Qed.

Lemma copyin_prepare_dep_edge_cases_witness :
  dart_tasking_copyin_prepare_dep (H := example_sizes)
    [mkDephash (mkDep DART_DEP_IN None 0) None] example_state = None
  ∧ dart_tasking_copyin_prepare_dep (H := example_sizes)
      [mkDephash (mkDep DART_DEP_COPYIN_OUT (Some 77) 8) None] example_state
    = Some (0%nat, [mkDephash (mkDep DART_DEP_COPYIN_OUT (Some 77) 8) None],
            example_state).
Proof.
  split.
  - apply (proj1 (copyin_prepare_dep_edge_cases (H := example_sizes)
                    [mkDephash (mkDep DART_DEP_IN None 0) None] example_state)).
    repeat constructor. discriminate.
  - apply (proj1 (proj2 (proj2 (copyin_prepare_dep_edge_cases (H := example_sizes)
             [mkDephash (mkDep DART_DEP_COPYIN_OUT (Some 77) 8) None]
             example_state))) 0%nat
             (mkDephash (mkDep DART_DEP_COPYIN_OUT (Some 77) 8) None) 77);
      reflexivity.
Defined.

(** ** Copy-in information *)

Lemma copyin_info_loop_spec (deps_owned : list owned_elem_t) (i depnum : Z) :
  copyin_info_loop deps_owned i depnum
  = if depnum <? i then None
    else filter (λ e, is_copyin e) deps_owned !! Z.to_nat (depnum - i).
Proof.
  revert i. induction deps_owned as [|elem rest IH]; intros i; simpl.
  - by destruct (depnum <? i).
  - destruct (is_copyin elem) eqn:Hc.
    + rewrite filter_cons_True by (by rewrite Hc).
      destruct (Z.eqb_spec i depnum) as [->|Hne].
      * rewrite Z.ltb_irrefl, Z.sub_diag. done.
      * rewrite IH. destruct (Z.ltb_spec depnum i) as [Hlt|Hge].
        -- assert ((depnum <? i + 1) = true) as -> by (apply Z.ltb_lt; lia). done.
        -- assert ((depnum <? i + 1) = false) as -> by (apply Z.ltb_ge; lia).
           replace (Z.to_nat (depnum - i)) with (S (Z.to_nat (depnum - (i + 1))))
             by lia.
           done.
    + rewrite filter_cons_False by (simpl; rewrite Hc; intros []). apply IH.
Qed.

(** X11: [dart__tasking__copyin_info(task, depnum)] looks at the copy-in
    dependencies of the task only (types COPYIN and COPYIN_R), in the order
    of the list of owned dependencies, and takes the one with index
    [depnum], counting from 0. For that dependency it returns the copy-in
    destination of the output dependency it is attached to when that one is
    a COPYIN_OUT dependency, and the address of its global pointer
    otherwise. The assertion fails when [depnum] is negative or the task
    has no more than [depnum] copy-in dependencies; a dependency that is
    attached to nothing makes the function dereference NULL. *)
Theorem copyin_info_nth (deps_owned : list owned_elem_t) (depnum : Z) :
  dart__tasking__copyin_info deps_owned depnum
  = if depnum <? 0 then None
    else
      elem ← filter (λ e, is_copyin e) deps_owned !! Z.to_nat depnum;
      out_elem ← dep_list elem;
      Some (if bool_decide (out_type out_elem = DART_DEP_COPYIN_OUT)
            then out_copyin_dest out_elem else out_gptr_addr out_elem).
Proof.
  unfold dart__tasking__copyin_info. rewrite copyin_info_loop_spec.
  rewrite Z.sub_0_r. destruct (depnum <? 0); [done|].
  destruct (filter _ deps_owned !! Z.to_nat depnum) as [elem|]; [|done]. simpl.
  destruct (dep_list elem) as [out_elem|]; [|done]. simpl.
  by case_bool_decide.
Qed.

End CopyinExtras.

(** * Further properties of the active message queue *)

Module AmsgqExtras.
Import Amsgq AmsgqMore.

Lemma zlookup_is_Some {A} (l : list A) (i : Z) :
  0 ≤ i < Z.of_nat (length l) → is_Some (zlookup l i).
Proof.
  intros Hi. unfold zlookup.
  assert ((i <? 0) = false) as -> by (apply Z.ltb_ge; lia).
  apply lookup_lt_is_Some. lia.
Qed.

Lemma zlookup_zinsert_eq {A} (l : list A) (i : Z) (x : A) :
  0 ≤ i < Z.of_nat (length l) → zlookup (zinsert i x l) i = Some x.
Proof.
  intros Hi. unfold zlookup, zinsert.
  assert ((i <? 0) = false) as -> by (apply Z.ltb_ge; lia).
  apply list_lookup_insert_eq. lia.
Qed.

Lemma zlookup_zinsert_ne {A} (l : list A) (i j : Z) (x : A) :
  0 ≤ i → i ≠ j → zlookup (zinsert i x l) j = zlookup l j.
Proof.
  intros Hi Hne. unfold zlookup, zinsert.
  destruct (j <? 0) eqn:Hj; [done|]. apply Z.ltb_ge in Hj.
  apply list_lookup_insert_ne. lia.
Qed.

Lemma length_zinsert {A} (l : list A) (i : Z) (x : A) :
  length (zinsert i x l) = length l.
Proof. unfold zinsert. apply length_insert. Qed.

Lemma zlookup_Some {A} (l : list A) (i : Z) (x : A) :
  zlookup l i = Some x ↔ 0 ≤ i ∧ l !! Z.to_nat i = Some x.
Proof.
  unfold zlookup. destruct (i <? 0) eqn:E.
  - apply Z.ltb_lt in E. split; [done|]. intros [? _]. lia.
  - apply Z.ltb_ge in E. tauto.
Qed.

Lemma zlookup_lt {A} (l : list A) (i : Z) (x : A) :
  zlookup l i = Some x → 0 ≤ i < Z.of_nat (length l).
Proof.
  intros [? Hl]%zlookup_Some. apply lookup_lt_Some in Hl. lia.
Qed.

Lemma memcpy_length (data sendbuf : list Z) :
  (length data ≤ length sendbuf)%nat →
  length (data ++ drop (length data) sendbuf) = length sendbuf.
Proof. intros Hfit. rewrite length_app, length_drop. lia. Qed.

(** X12: a buffered send that finds a free slot in the ring, with a
    message that fits the buffer of the slot, takes the slot at
    [send_tailpos]: the message is copied to the front of the buffer of
    that slot, which keeps its size, [send_tailpos] advances by one, the
    send mutex is free again, and no other slot of the ring changes. When
    MPI accepts the send, the call returns DART_OK and the request of the
    slot is the active request of this send. The slot is taken whatever
    MPI answers: when the send returns an error, the call returns
    DART_ERR_AGAIN with [send_tailpos] advanced all the same. With regular
    (not synchronous) sends the message has been counted for its target in
    both cases. *)
Theorem amsgq_trysend_takes_slot (completed : list Z) (send_ret target : Z)
    (q : dart_amsgq_impl_data) (data sendbuf : list Z) (req : MPI_Request) :
  direct_send q = false → send_mutex q = false →
  0 ≤ send_tailpos q < msg_count q →
  zlookup (send_bufs q) (send_tailpos q) = Some sendbuf →
  zlookup (send_reqs q) (send_tailpos q) = Some req →
  (length data ≤ length sendbuf)%nat →
  (sync_send q = false → is_Some (zlookup (send_count q) target)) →
  ∃ q',
    dart_amsg_sendrecv_trysend completed send_ret target q data
    = Returns (if send_ret =? MPI_SUCCESS then DART_OK else DART_ERR_AGAIN) q'
    ∧ send_tailpos q' = send_tailpos q + 1
    ∧ length (send_reqs q') = length (send_reqs q)
    ∧ (∀ i, i ≠ send_tailpos q →
         zlookup (send_reqs q') i = zlookup (send_reqs q) i)
    ∧ (send_ret = MPI_SUCCESS →
       zlookup (send_reqs q') (send_tailpos q) = Some (MPI_REQUEST_ACTIVE target))
    ∧ send_bufs q'
      = zinsert (send_tailpos q) (data ++ drop (length data) sendbuf) (send_bufs q)
    ∧ take (length data) (data ++ drop (length data) sendbuf) = data
    ∧ length (data ++ drop (length data) sendbuf) = length sendbuf
    ∧ send_mutex q' = false
    ∧ (∀ c, zlookup (send_count q) target = Some c →
         zlookup (send_count q') target
         = Some (if sync_send q then c else c + 1))
    ∧ recv_bufs q' = recv_bufs q ∧ recv_count q' = recv_count q
    ∧ msg_count q' = msg_count q ∧ processed q' = processed q.
Proof.
  intros Hd Hm Ht Hb Hr Hfit Hc. unfold dart_amsg_sendrecv_trysend.
  assert ((send_tailpos q <=? msg_count q) = true) as -> by (apply Z.leb_le; lia).
  rewrite Hd, Hm. simpl.
  assert ((send_tailpos q =? msg_count q) = false) as -> by (apply Z.eqb_neq; lia).
  simpl. rewrite Hb, Hr.
  pose proof (zlookup_lt _ _ _ Hr) as Hidx.
  set (reqs' := zinsert (send_tailpos q) (MPI_REQUEST_ACTIVE target) (send_reqs q)).
  assert (length reqs' = length (send_reqs q)) as Hr1 by apply length_zinsert.
  assert (∀ i, i ≠ send_tailpos q → zlookup reqs' i = zlookup (send_reqs q) i)
    as Hr2.
  { intros i Hi. apply zlookup_zinsert_ne; [lia|done]. }
  assert (zlookup reqs' (send_tailpos q) = Some (MPI_REQUEST_ACTIVE target))
    as Hr3 by (by apply zlookup_zinsert_eq).
  assert (take (length data) (data ++ drop (length data) sendbuf) = data) as Htake.
  { by rewrite take_app_length. }
  pose proof (memcpy_length data sendbuf Hfit) as Hlen.
  destruct (sync_send q) eqn:Hs; simpl.
  - unfold check_send_ret. destruct (send_ret =? MPI_SUCCESS); simpl;
      (eexists; split; [reflexivity|]; simpl; split_and!; done).
  - destruct (Hc eq_refl) as [c Hcnt]. unfold incr_at. rewrite Hcnt. simpl.
    assert (zlookup (zinsert target (c + 1) (send_count q)) target = Some (c + 1))
      as Hnew.
    { clear -Hcnt. unfold zlookup, zinsert in *.
      destruct (target <? 0); [done|].
      apply list_lookup_insert_eq. by eapply lookup_lt_Some. }
    unfold check_send_ret. destruct (send_ret =? MPI_SUCCESS); simpl;
      (eexists; split; [reflexivity|]; simpl; split_and!; try done;
       intros c' Hc'; injection Hc' as <-; exact Hnew).
Qed.

Lemma amsgq_trysend_takes_slot_witness :
  ∃ q', dart_amsg_sendrecv_trysend [] 0 2
          (mkAmsgq [[0]] [MPI_REQUEST_NULL; MPI_REQUEST_NULL] [[0; 0]; [0; 0]]
                   [0; 0; 0] [0; 0; 0] 0 2 false false false false [])
          [7]
        = Returns DART_OK q'
    ∧ send_tailpos q' = 1
    ∧ zlookup (send_reqs q') 0 = Some (MPI_REQUEST_ACTIVE 2)
    ∧ zlookup (send_reqs q') 1 = Some MPI_REQUEST_NULL
    ∧ send_bufs q' = [[7; 0]; [0; 0]]
    ∧ zlookup (send_count q') 2 = Some 1.
Proof.
  destruct (amsgq_trysend_takes_slot [] 0 2
              (mkAmsgq [[0]] [MPI_REQUEST_NULL; MPI_REQUEST_NULL] [[0; 0]; [0; 0]]
                       [0; 0; 0] [0; 0; 0] 0 2 false false false false [])
              [7] [0; 0] MPI_REQUEST_NULL eq_refl eq_refl ltac:(simpl; lia)
              eq_refl eq_refl ltac:(simpl; lia) ltac:(intros _; simpl; eauto))
    as (q' & E & Ht & _ & Hr & Ha & Hb & _ & _ & _ & Hc & _).
  exists q'. split; [exact E|]. split; [exact Ht|].
  split; [apply Ha; reflexivity|].
  split; [rewrite (Hr 1) by (simpl; lia); reflexivity|].
  split; [exact Hb|]. apply (Hc 0). reflexivity.
Defined.

Lemma count_from_cons (src : Z) (m : recv_msg) (msgs : list recv_msg) :
  count_from src (m :: msgs)
  = (if bool_decide (recv_source m = src) then 1 else 0) + count_from src msgs.
Proof.
  unfold count_from. rewrite filter_cons.
  case_bool_decide; destruct (decide (recv_source m = src)); try done; simpl; lia.
Qed.

Lemma count_from_app (src : Z) (l1 l2 : list recv_msg) :
  count_from src (l1 ++ l2) = count_from src l1 + count_from src l2.
Proof. unfold count_from. rewrite filter_app, length_app. lia. Qed.

Lemma msg_valid_ext (q q' : dart_amsgq_impl_data) (m : recv_msg) :
  recv_bufs q' = recv_bufs q → sync_send q' = sync_send q →
  length (recv_count q') = length (recv_count q) →
  msg_valid q m → msg_valid q' m.
Proof. unfold msg_valid. intros -> -> ->. done. Qed.

(** The loop over one batch. *)
Lemma process_messages_spec (batch : list recv_msg) (q : dart_amsgq_impl_data) :
  Forall (msg_valid q) batch →
  ∃ q', process_messages batch q = Some q'
    ∧ processed q' = processed q ++ (delivery q <$> batch)
    ∧ length (recv_count q') = length (recv_count q)
    ∧ (∀ src c, zlookup (recv_count q) src = Some c →
         zlookup (recv_count q') src
         = Some (if sync_send q then c else c + count_from src batch))
    ∧ recv_bufs q' = recv_bufs q ∧ sync_send q' = sync_send q
    ∧ processing_mutex q' = processing_mutex q
    ∧ send_reqs q' = send_reqs q ∧ send_bufs q' = send_bufs q
    ∧ send_count q' = send_count q ∧ send_tailpos q' = send_tailpos q
    ∧ msg_count q' = msg_count q ∧ send_mutex q' = send_mutex q
    ∧ direct_send q' = direct_send q.
Proof.
  revert q. induction batch as [|m rest IH]; intros q Hv.
  - exists q. simpl. rewrite app_nil_r. split_and!; try done.
    intros src c ->. unfold count_from. simpl. destruct (sync_send q); [done|].
    f_equal. lia.
  - apply Forall_cons in Hv as [(Hi & Ht & Hs) Hv]. simpl.
    destruct (zlookup_is_Some (recv_bufs q) (recv_idx m) Hi) as [dbuf Hb].
    rewrite Hb. simpl.
    assert ((recv_tailpos m >? 0) = true) as -> by (apply Z.gtb_lt; lia). simpl.
    destruct (sync_send q) eqn:Hsync; simpl.
    + set (q1 := set_processed _ q).
      destruct (IH q1) as (q' & E & Hp & Hl & Hc & Hrb & Hsy & Hrest).
      { eapply Forall_impl; [exact Hv|]. intros m'. by apply msg_valid_ext. }
      exists q'. split; [exact E|]. rewrite Hp, Hl, Hrb, Hsy. subst q1. simpl.
      rewrite Hsync. split_and!; try done; try tauto.
      * rewrite <- app_assoc. simpl. unfold delivery at 2. rewrite Hb. simpl.
        done.
      * intros src c Hsrc. rewrite (Hc src c Hsrc). simpl. by rewrite Hsync.
    + destruct (zlookup_is_Some (recv_count q) (recv_source m) (Hs eq_refl))
        as [c0 Hc0].
      unfold incr_at. rewrite Hc0. simpl.
      set (q1 := set_processed _ _).
      destruct (IH q1) as (q' & E & Hp & Hl & Hc & Hrb & Hsy & Hrest).
      { eapply Forall_impl; [exact Hv|]. intros m'.
        apply msg_valid_ext; [done|done|]. subst q1. simpl.
        apply length_zinsert. }
      exists q'. split; [exact E|]. rewrite Hp, Hl, Hrb, Hsy. subst q1. simpl.
      rewrite length_zinsert. split_and!; try done; try tauto.
      * rewrite <- app_assoc. simpl. unfold delivery at 2. rewrite Hb. simpl.
        done.
      * intros src c Hsrc. rewrite count_from_cons.
        destruct (decide (recv_source m = src)) as [<-|Hne].
        -- rewrite Hc0 in Hsrc. injection Hsrc as <-.
           rewrite (Hc (recv_source m) (c0 + 1)).
           ++ simpl. rewrite Hsync. rewrite bool_decide_eq_true_2 by done.
              f_equal. lia.
           ++ simpl. apply zlookup_zinsert_eq. auto.
        -- rewrite (Hc src c).
           ++ simpl. rewrite Hsync. rewrite bool_decide_eq_false_2 by done.
              f_equal.
           ++ simpl. rewrite zlookup_zinsert_ne; [done| |done].
              destruct (Hs eq_refl). lia.
Qed.

Lemma delivery_ext (q q' : dart_amsgq_impl_data) (msgs : list recv_msg) :
  recv_bufs q' = recv_bufs q → delivery q' <$> msgs = delivery q <$> msgs.
Proof. intros E. apply list_fmap_ext. intros _ m _. unfold delivery. by rewrite E. Qed.

(** The [do ... while] loop. *)
Lemma process_loop_spec (blocking : bool) (incoming : list (list recv_msg))
    (q : dart_amsgq_impl_data) :
  Forall (msg_valid q) (taken blocking incoming) →
  ∃ q', process_loop blocking incoming q = Some q'
    ∧ processed q' = processed q ++ (delivery q <$> taken blocking incoming)
    ∧ length (recv_count q') = length (recv_count q)
    ∧ (∀ src c, zlookup (recv_count q) src = Some c →
         zlookup (recv_count q') src
         = Some (if sync_send q then c
                 else c + count_from src (taken blocking incoming)))
    ∧ recv_bufs q' = recv_bufs q ∧ sync_send q' = sync_send q
    ∧ processing_mutex q' = processing_mutex q
    ∧ send_reqs q' = send_reqs q ∧ send_bufs q' = send_bufs q
    ∧ send_count q' = send_count q ∧ send_tailpos q' = send_tailpos q
    ∧ msg_count q' = msg_count q ∧ send_mutex q' = send_mutex q
    ∧ direct_send q' = direct_send q.
Proof.
  revert q. induction incoming as [|batch later IH]; intros q Hv.
  - exists q. destruct blocking; simpl; rewrite app_nil_r; split_and!; try done;
      intros src c ->; unfold count_from; simpl; destruct (sync_send q);
      try done; f_equal; lia.
  - simpl. destruct blocking; simpl in *.
    + destruct batch as [|m rest].
      * simpl. exists q. rewrite app_nil_r. split_and!; try done.
        intros src c ->. unfold count_from. simpl. destruct (sync_send q);
          [done|]. f_equal. lia.
      * change (until_empty ((m :: rest) :: later))
          with ((m :: rest) ++ until_empty later) in *.
        apply Forall_app in Hv as [Hv1 Hv2].
        destruct (process_messages_spec (m :: rest) q Hv1)
          as (q1 & E1 & Hp1 & Hl1 & Hc1 & Hrb1 & Hsy1 & Hm1 & Hr1).
        rewrite E1. simpl.
        destruct (IH q1) as (q' & E & Hp & Hl & Hc & Hrb & Hsy & Hm & Hr).
        { unfold taken. eapply Forall_impl; [exact Hv2|]. intros m'.
          by apply msg_valid_ext. }
        exists q'. split; [exact E|]. unfold taken in *.
        rewrite Hp, Hp1, Hl, Hl1, Hrb, Hrb1, Hsy, Hsy1, Hm, Hm1.
        rewrite (delivery_ext q q1) by done.
        split_and!; try done; try (etrans; [apply Hr|apply Hr1]).
        -- rewrite fmap_app, <- app_assoc. done.
        -- intros src c Hsrc. rewrite (Hc src _ (Hc1 src c Hsrc)).
           rewrite Hsy1. destruct (sync_send q); [done|].
           f_equal. rewrite <- Z.add_assoc. f_equal. symmetry.
           apply (count_from_app src (m :: rest)).
    + destruct (process_messages_spec batch q Hv)
        as (q1 & E1 & Hp1 & Hl1 & Hc1 & Hr1).
      rewrite E1. simpl. exists q1. split_and!; try done; tauto.
Qed.

(** X13: when the processing mutex is free and every reported message is
    valid, [amsg_sendrecv_process_internal(amsgq, blocking, false)] returns
    DART_OK with the mutex free again. The non-blocking call, which is
    [dart_amsg_sendrecv_process], handles the first batch [MPI_Testsome]
    reports and no later one; the blocking call handles every batch up to
    the first empty one. The handled messages are passed to
    [dart__amsgq__process_buffer] in the order reported, each with the
    receive buffer of its index and its length; with regular sends the
    counter of every source grows by the number of its messages; the send
    side of the queue is not touched. *)
Theorem amsgq_process_handles_batches (blocking : bool)
    (incoming : list (list recv_msg)) (q : dart_amsgq_impl_data) :
  processing_mutex q = false →
  Forall (msg_valid q) (taken blocking incoming) →
  ∃ q',
    amsg_sendrecv_process_internal incoming q blocking false = Returns DART_OK q'
    ∧ processing_mutex q' = false
    ∧ processed q' = processed q ++ (delivery q <$> taken blocking incoming)
    ∧ (∀ src c, zlookup (recv_count q) src = Some c →
         zlookup (recv_count q') src
         = Some (if sync_send q then c
                 else c + count_from src (taken blocking incoming)))
    ∧ recv_bufs q' = recv_bufs q
    ∧ send_reqs q' = send_reqs q ∧ send_bufs q' = send_bufs q
    ∧ send_count q' = send_count q ∧ send_tailpos q' = send_tailpos q
    ∧ send_mutex q' = send_mutex q.
Proof.
  intros Hm Hv. unfold amsg_sendrecv_process_internal.
  unfold dart__base__mutex_trylock. rewrite Hm. simpl.
  assert (∃ q1, (if negb blocking
                 then inr (set_processing_mutex true q)
                 else inr (set_processing_mutex true q))
                = (inr q1 : outcome + dart_amsgq_impl_data)
                ∧ q1 = set_processing_mutex true q) as (q1 & -> & Hq1).
  { exists (set_processing_mutex true q). by destruct blocking. }
  destruct (process_loop_spec blocking incoming q1)
    as (q' & E & Hp & Hl & Hc & Hrb & Hsy & Hpm & Hsr & Hsb & Hsc & Hst & Hmc & Hsm & Hds).
  { eapply Forall_impl; [exact Hv|]. intros m. subst q1. by apply msg_valid_ext. }
  rewrite E. eexists. split; [reflexivity|]. simpl.
  rewrite Hp, Hrb, Hsr, Hsb, Hsc, Hst, Hsm. subst q1. simpl.
  split_and!; try done.
Qed.

Lemma amsgq_process_handles_batches_witness :
  ∃ q',
    dart_amsg_sendrecv_process
      [[mkRecv 1 3 2; mkRecv 0 5 2]; [mkRecv 1 1 0]]
      (mkAmsgq [[10]; [11]] [] [] [0; 0; 0] [0; 0; 0] 0 2 false false false false [])
    = Returns DART_OK q'
    ∧ processed q' = [([11], 3); ([10], 5)]
    ∧ zlookup (recv_count q') 2 = Some 2.
Proof.
  destruct (amsgq_process_handles_batches false
              [[mkRecv 1 3 2; mkRecv 0 5 2]; [mkRecv 1 1 0]]
              (mkAmsgq [[10]; [11]] [] [] [0; 0; 0] [0; 0; 0] 0 2
                       false false false false [])
              eq_refl)
    as (q' & E & _ & Hp & Hc & _).
  { repeat constructor; simpl; lia. }
  exists q'. split; [exact E|]. split; [exact Hp|]. apply (Hc 2 0). reflexivity.
Defined.


(** ** The compaction of the ring of send requests *)

Lemma zlookup_zinsert {A} (l : list A) (i j : Z) (x y : A) :
  0 ≤ i → zlookup l j = Some y →
  zlookup (zinsert i x l) j = Some (if bool_decide (j = i) then x else y).
Proof.
  intros Hi Hj. case_bool_decide as E.
  - subst j. apply zlookup_zinsert_eq. by eapply zlookup_lt.
  - rewrite zlookup_zinsert_ne; [done|done|]. intros ->. done.
Qed.

(** Exchanging two elements of a list permutes it. *)
Lemma insert_head_perm {A} (l : list A) (b : nat) (x v : A) :
  l !! b = Some v → v :: <[b := x]> l ≡ₚ x :: l.
Proof.
  revert b. induction l as [|y l IH]; intros [|b] Hb; simplify_eq/=.
  - apply perm_swap.
  - rewrite perm_swap. rewrite (IH b Hb). apply perm_swap.
Qed.

Lemma swap_perm {A} (l : list A) (d b : nat) (u v : A) :
  d ≠ b → l !! d = Some u → l !! b = Some v →
  <[b := u]> (<[d := v]> l) ≡ₚ l.
Proof.
  revert d b. induction l as [|x l IH]; intros [|d] [|b] Hne Hd Hb;
    simplify_eq/=.
  - by apply insert_head_perm.
  - by apply insert_head_perm.
  - f_equiv. apply IH; [lia|done|done].
Qed.

Lemma zip_insert {A B} (l : list A) (k : list B) (i : nat) (a : A) (b : B) :
  zip (<[i := a]> l) (<[i := b]> k) = <[i := (a, b)]> (zip l k).
Proof.
  revert k i. induction l as [|x l IH]; intros [|y k] [|i]; simpl; try done.
  by rewrite IH.
Qed.

Lemma lookup_zip {A B} (l : list A) (k : list B) (i : nat) (a : A) (b : B) :
  l !! i = Some a → k !! i = Some b → zip l k !! i = Some (a, b).
Proof.
  intros Ha Hb. apply lookup_zip_with_Some. eauto.
Qed.

Lemma filter_insert_length {A} (P : A → Prop) `{∀ x, Decision (P x)}
    (l : list A) (i : nat) (x y : A) :
  l !! i = Some x → P x → ¬ P y →
  (length (filter P (<[i := y]> l)) + 1 = length (filter P l))%nat.
Proof.
  revert i. induction l as [|z l IH]; intros [|i] Hi Hx Hy; simplify_eq/=.
  - rewrite (filter_cons_False _ y) by done. rewrite (filter_cons_True _ x) by done.
    simpl. lia.
  - rewrite !(filter_cons _ z). destruct (decide (P z)); simpl;
      rewrite <- (IH i Hi Hx Hy); lia.
Qed.


Lemma filter_prefix_length {A} (P : A → Prop) `{∀ x, Decision (P x)}
    (l : list A) (T : nat) :
  (∀ i x, l !! i = Some x → (P x ↔ (i < T)%nat)) →
  (T ≤ length l)%nat → length (filter P l) = T.
Proof.
  revert T. induction l as [|x l IH]; intros T HP HT; simpl in *.
  - lia.
  - destruct T as [|T].
    + rewrite filter_cons_False.
      * apply IH; [|lia]. intros i y Hy. rewrite (HP (S i) y Hy). lia.
      * rewrite (HP 0%nat x eq_refl). lia.
    + rewrite filter_cons_True.
      * simpl. f_equal. apply IH; [|lia]. intros i y Hy.
        rewrite (HP (S i) y Hy). lia.
      * rewrite (HP 0%nat x eq_refl). lia.
Qed.

Lemma ascending_ge (lo i : Z) (l : list Z) :
  ascending lo l → i ∈ l → lo ≤ i.
Proof.
  revert lo. induction l as [|j l IH]; intros lo Ha Hi.
  - by apply elem_of_nil in Hi.
  - destruct Ha as [Hj Ha]. apply elem_of_cons in Hi as [->|Hi]; [done|].
    specialize (IH _ Ha Hi). lia.
Qed.

Lemma in_flight_length (q : dart_amsgq_impl_data) :
  ring_wf q → Z.of_nat (length (in_flight q)) = send_tailpos q.
Proof.
  intros (Hr & Hb & Ht & Hact). unfold in_flight.
  rewrite (filter_prefix_length _ _ (Z.to_nat (send_tailpos q))); [lia| |].
  - intros i [r b] (r' & b' & E & Hri & Hbi)%lookup_zip_with_Some.
    simplify_eq. simpl.
    rewrite (Hact (Z.of_nat i) r'); [lia|].
    apply zlookup_Some. rewrite Nat2Z.id. split; [lia|done].
  - rewrite length_zip_with. lia.
Qed.


(** The inner [while] loop stops on the free spot or on the last active
    request behind it. *)
Lemma skip_null_spec (reqs : list MPI_Request) (d : Z) (m : nat) :
  0 ≤ d → d + Z.of_nat m < Z.of_nat (length reqs) →
  ∃ b, skip_null reqs d m = Some b
    ∧ d ≤ b ≤ d + Z.of_nat m
    ∧ (∀ i r, b < i ≤ d + Z.of_nat m → zlookup reqs i = Some r →
         r = MPI_REQUEST_NULL)
    ∧ (d < b → ∃ r, zlookup reqs b = Some r ∧ r ≠ MPI_REQUEST_NULL).
Proof.
  intros Hd. induction m as [|m IH]; intros Hm.
  - exists d. simpl. split_and!; try done; try lia.
  - cbn [skip_null].
    destruct (zlookup_is_Some reqs (d + Z.of_nat (S m)) ltac:(lia)) as [r Hr].
    rewrite Hr. simpl. case_bool_decide as Hnull.
    + destruct IH as (b & E & Hb & Hskip & Hact); [lia|].
      exists b. split; [exact E|]. split; [lia|]. split; [|exact Hact].
      intros i r' Hi Hr'.
      destruct (decide (i = d + Z.of_nat (S m))) as [->|Hne].
      * congruence.
      * apply (Hskip i r'); [lia|done].
    + exists (d + Z.of_nat (S m)). split; [done|]. split; [lia|].
      split; [intros i r' Hi; lia|]. intros _. eauto.
Qed.

(** Where the loop breaks, the active requests are in front. *)
Lemma met_in_middle (n t d b : Z) (rest : list Z) (q : dart_amsgq_impl_data) :
  msg_count q = n →
  Z.of_nat (length (send_reqs q)) = n → Z.of_nat (length (send_bufs q)) = n →
  0 ≤ t ≤ n → -1 ≤ b ≤ d → 0 ≤ d < t →
  (∀ i, i ∈ d :: rest → d ≤ i) →
  (∀ i r, b < i → zlookup (send_reqs q) i = Some r → r = MPI_REQUEST_NULL) →
  (∀ i r, i ≤ b → zlookup (send_reqs q) i = Some r →
     (r = MPI_REQUEST_NULL ↔ i ∈ d :: rest ∨ t ≤ i)) →
  ∃ T, ring_wf (set_send_tailpos T q).
Proof.
  intros Hn Hlr Hlb Ht Hb Hd Hge Hback Hfront.
  exists (if decide (b = d) then d else b + 1).
  unfold ring_wf. simpl. rewrite Hn. split_and!; try done.
  - destruct (decide (b = d)); lia.
  - destruct (decide (b = d)); lia.
  - intros i r Hr. destruct (decide (b < i)) as [Hi|Hi].
    + rewrite (Hback i r Hi Hr). split; [done|]. destruct (decide (b = d)); lia.
    + rewrite (Hfront i r ltac:(lia) Hr).
      destruct (decide (i = d)) as [->|Hne].
      * split; [intros []; left; apply list_elem_of_here|].
        destruct (decide (b = d)); lia.
      * split; [|intros _ [Hin|?]; [|lia]].
        -- intros _. destruct (decide (b = d)); lia.
        -- specialize (Hge i Hin). lia.
Qed.

(** The loop that moves requests from the back to the free spots. *)
Lemma move_back_spec (n t : Z) (rest : list Z) :
  ∀ (back : Z) (q : dart_amsgq_impl_data),
  compacting n t rest back q →
  ∃ q', move_back rest back q = Some q'
    ∧ (∃ T, ring_wf (set_send_tailpos T q'))
    ∧ in_flight q' ≡ₚ in_flight q
    ∧ send_bufs q' ≡ₚ send_bufs q
    ∧ q' = set_send_bufs (send_bufs q') (set_send_reqs (send_reqs q') q).
Proof.
  induction rest as [|d rest IH];
    intros back q (Hn & Hlr & Hlb & Hback & Ht & (lo & Hlo & Hasc) & Hlt & Hfree & Hfront).
  - exists q. split; [done|]. split; [|split_and!; try done; by destruct q].
    exists (Z.min (back + 1) t). unfold ring_wf. simpl. rewrite Hn.
    split_and!; try done; try lia.
    intros i r Hr. destruct (decide (back < i)) as [Hi|Hi].
    + rewrite (Hfree i r Hi Hr). split; [done|lia].
    + rewrite (Hfront i r ltac:(lia) Hr). split.
      * intros Hnt. destruct (decide (t ≤ i)); [|lia]. destruct Hnt. by right.
      * intros Hi' [Hin|?]; [by apply elem_of_nil in Hin|lia].
  - destruct Hasc as [Hd Hasc]. apply Forall_cons in Hlt as [Hdt Hlt].
    assert (∀ i, i ∈ d :: rest → d ≤ i) as Hge.
    { intros i [->|Hin]%elem_of_cons; [lia|].
      pose proof (ascending_ge _ _ _ Hasc Hin). lia. }
    cbn [move_back].
    assert (∃ b, (if back >? d
                  then skip_null (send_reqs q) d (Z.to_nat (back - d))
                  else Some back) = Some b
              ∧ -1 ≤ b ≤ back
              ∧ (∀ i r, b < i → zlookup (send_reqs q) i = Some r →
                   r = MPI_REQUEST_NULL)
              ∧ (d < b → ∃ r, zlookup (send_reqs q) b = Some r
                              ∧ r ≠ MPI_REQUEST_NULL))
      as (b & -> & Hb & Hfree' & Hact).
    { destruct (back >? d) eqn:Hgt.
      - apply Z.gtb_lt in Hgt.
        destruct (skip_null_spec (send_reqs q) d (Z.to_nat (back - d)))
          as (b & E & Hb & Hskip & Hact); [lia|lia|].
        exists b. split; [exact E|]. split; [lia|]. split; [|exact Hact].
        intros i r Hi Hr. destruct (decide (back < i)).
        + by apply (Hfree i r).
        + apply (Hskip i r); [lia|done].
      - exists back. split; [done|]. split; [lia|]. split; [exact Hfree|].
        intros Hdb. destruct (Z.gtb_spec back d); [done|lia]. }
    simpl. destruct (d >=? b) eqn:Hmeet.
    + (* we met in the middle *)
      apply Z.geb_le in Hmeet.
      exists q. split; [done|]. split; [|split_and!; try done; by destruct q].
      apply (met_in_middle n t d b rest); try done; try lia.
      intros i r Hi Hr. apply (Hfront i r); [lia|done].
    + assert (d < b) as Hdb by (destruct (Z.geb_spec d b); [done|lia]).
      destruct (Hact Hdb) as (rb & Hrb & Hrbact).
      assert (b < t ∧ (b ∉ rest) ∧ b ≠ d) as (Hbt & Hbrest & Hbd).
      { pose proof (Hfront b rb ltac:(lia) Hrb) as Hfb.
        split_and!; [|intros Hin|lia].
        - destruct (decide (t ≤ b)); [|lia]. destruct Hrbact. apply Hfb. by right.
        - destruct Hrbact. apply Hfb. left. by apply list_elem_of_further. }
      destruct (zlookup_is_Some (send_reqs q) d ltac:(lia)) as [rd Hrd].
      assert (rd = MPI_REQUEST_NULL) as ->.
      { apply (Hfront d rd ltac:(lia) Hrd). left. apply list_elem_of_here. }
      destruct (zlookup_is_Some (send_bufs q) d ltac:(lia)) as [tmp Htmp].
      destruct (zlookup_is_Some (send_bufs q) b ltac:(lia)) as [bb Hbb].
      rewrite Hrb, Hrd, Htmp, Hbb. simpl.
      set (q2 := set_send_bufs _ _).
      destruct (IH (b - 1) q2) as (q' & E & HT & Hperm & Hbufs & Hq').
      { unfold compacting. subst q2. simpl.
        rewrite !length_zinsert. split_and!; try done; try lia.
        - exists (d + 1). split; [lia|done].
        - intros i r Hi Hr.
          destruct (zlookup_lt _ _ _ Hr) as [Hi0 Hin].
          rewrite !length_zinsert in Hin.
          destruct (zlookup_is_Some (send_reqs q) i ltac:(lia)) as [r0 Hr0].
          rewrite (zlookup_zinsert _ b i MPI_REQUEST_NULL
                     (if bool_decide (i = d) then rb else r0)) in Hr; [|lia|].
          + case_bool_decide; [congruence|].
            rewrite bool_decide_eq_false_2 in Hr by lia.
            injection Hr as <-. apply (Hfree' i r0); [lia|done].
          + by apply zlookup_zinsert; [lia|].
        - intros i r Hi Hr.
          destruct (zlookup_lt _ _ _ Hr) as [Hi0 Hin].
          rewrite !length_zinsert in Hin.
          destruct (zlookup_is_Some (send_reqs q) i ltac:(lia)) as [r0 Hr0].
          rewrite (zlookup_zinsert _ b i MPI_REQUEST_NULL
                     (if bool_decide (i = d) then rb else r0)) in Hr; [|lia|].
          + rewrite bool_decide_eq_false_2 in Hr by lia.
            case_bool_decide as Hid; injection Hr as <-.
            * subst i. split; [done|]. intros [Hin'|?]; [|lia].
              pose proof (ascending_ge _ _ _ Hasc Hin'). lia.
            * rewrite (Hfront i r0 ltac:(lia) Hr0). split.
              -- intros [[->|Hin']%elem_of_cons|?]; [done|by left|by right].
              -- intros [Hin'|?]; [left; by apply list_elem_of_further|by right].
          + by apply zlookup_zinsert; [lia|]. }
      exists q'. split; [exact E|]. split; [exact HT|].
      apply zlookup_Some in Hrb as [_ Hrb]. apply zlookup_Some in Hrd as [_ Hrd].
      apply zlookup_Some in Htmp as [_ Htmp]. apply zlookup_Some in Hbb as [_ Hbb].
      assert (Z.to_nat d ≠ Z.to_nat b) as Hne by lia.
      split_and!.
      * rewrite Hperm. unfold in_flight. subst q2. simpl. unfold zinsert.
        rewrite !zip_insert. f_equiv.
        apply swap_perm; [done| |]; by apply lookup_zip.
      * rewrite Hbufs. subst q2. simpl. unfold zinsert.
        by apply swap_perm.
      * rewrite Hq'. subst q2. reflexivity.
Qed.

(** [MPI_Testsome] on the send requests. *)
Lemma testsome_spec (reqs : list MPI_Request) (bufs : list (list Z))
    (completed : list Z) (lo : Z) :
  length reqs = length bufs → 0 ≤ lo → ascending lo completed →
  Forall (λ i, ∃ r, zlookup reqs i = Some r ∧ r ≠ MPI_REQUEST_NULL) completed →
  let reqs1 := foldr (λ i reqs, zinsert i MPI_REQUEST_NULL reqs) reqs completed in
  length reqs1 = length reqs
  ∧ (∀ i r, zlookup reqs i = Some r →
       zlookup reqs1 i
       = Some (if bool_decide (i ∈ completed) then MPI_REQUEST_NULL else r))
  ∧ (length (filter (λ rb, rb.1 ≠ MPI_REQUEST_NULL) (zip reqs1 bufs))
     + length completed
     = length (filter (λ rb, rb.1 ≠ MPI_REQUEST_NULL) (zip reqs bufs)))%nat.
Proof.
  intros Hlen. revert lo.
  induction completed as [|d rest IH]; intros lo Hlo Hasc Hact; simpl.
  - split_and!; [done| |lia]. intros i r ->. done.
  - destruct Hasc as [Hd Hasc]. apply Forall_cons in Hact as [(rd & Hrd & Hrdact) Hact].
    destruct (IH (d + 1) ltac:(lia) Hasc Hact) as (Hl & Hlook & Hcount).
    rewrite length_zinsert. split_and!; [done| |].
    + intros i r Hr. rewrite (zlookup_zinsert _ d i MPI_REQUEST_NULL _ ltac:(lia)
                                (Hlook i r Hr)).
      repeat case_bool_decide; try done; set_solver.
    + rewrite <- Hcount.
      assert (d ∉ rest) as Hnin.
      { intros Hin. pose proof (ascending_ge _ _ _ Hasc Hin). lia. }
      pose proof (Hlook d rd Hrd) as Hd1.
      rewrite bool_decide_eq_false_2 in Hd1 by done.
      apply zlookup_Some in Hd1 as [_ Hd1].
      destruct (lookup_lt_is_Some_2 bufs (Z.to_nat d)) as [bd Hbd].
      { rewrite <- Hlen, <- Hl. by eapply lookup_lt_Some. }
      unfold zinsert at 1.
      rewrite <- (list_insert_id bufs (Z.to_nat d) bd Hbd) at 1.
      rewrite zip_insert.
      pose proof (filter_insert_length (λ rb, rb.1 ≠ MPI_REQUEST_NULL)
                    (zip (foldr (λ i reqs, zinsert i MPI_REQUEST_NULL reqs) reqs rest)
                         bufs)
                    (Z.to_nat d) (rd, bd) (MPI_REQUEST_NULL, bd)
                    (lookup_zip _ _ _ _ _ Hd1 Hbd) Hrdact
                    ltac:(simpl; intros Hn; by apply Hn)) as Hf.
      simpl in *. lia.
Qed.

(** The compaction as a whole. *)
Lemma test_sendreqs_spec (completed : list Z)
    (q : dart_amsgq_impl_data) :
  ring_wf q → completed ≠ [] → ascending 0 completed →
  Forall (λ i, i < send_tailpos q) completed →
  ∃ q',
    amsgq_test_sendreqs_unsafe completed q = Some (DART_OK, q')
    ∧ ring_wf q'
    ∧ send_tailpos q' = send_tailpos q - Z.of_nat (length completed)
    ∧ in_flight q' ≡ₚ in_flight (MPI_Testsome_send completed q)
    ∧ (∀ r b, (r, b) ∈ in_flight q' ↔
         ∃ i, (i ∉ completed) ∧ r ≠ MPI_REQUEST_NULL
              ∧ zlookup (send_reqs q) i = Some r
              ∧ zlookup (send_bufs q) i = Some b)
    ∧ send_bufs q' ≡ₚ send_bufs q
    ∧ msg_count q' = msg_count q ∧ send_count q' = send_count q
    ∧ send_mutex q' = send_mutex q ∧ processed q' = processed q
    ∧ direct_send q' = direct_send q ∧ sync_send q' = sync_send q.
Proof.
  intros Hwf Hne Hasc Hlt.
  pose proof Hwf as (Hlr & Hlb & Ht & Hact).
  assert (Forall (λ i, ∃ r, zlookup (send_reqs q) i = Some r
                            ∧ r ≠ MPI_REQUEST_NULL) completed) as Hcact.
  { apply Forall_forall. intros i Hi.
    pose proof (ascending_ge _ _ _ Hasc Hi).
    rewrite Forall_forall in Hlt. specialize (Hlt i Hi).
    destruct (zlookup_is_Some (send_reqs q) i ltac:(lia)) as [r Hr].
    exists r. split; [done|]. by apply (Hact i r). }
  destruct (testsome_spec (send_reqs q) (send_bufs q) completed 0)
    as (Hl1 & Hlook & Hcount); [lia|lia|done|done|].
  pose proof (in_flight_length q Hwf) as Hfl. unfold in_flight in Hfl.
  set (q1 := MPI_Testsome_send completed q).
  assert (∀ r b, (r, b) ∈ in_flight q1 ↔
            ∃ i, (i ∉ completed) ∧ r ≠ MPI_REQUEST_NULL
                 ∧ zlookup (send_reqs q) i = Some r
                 ∧ zlookup (send_bufs q) i = Some b) as Hmem.
  { intros r b. unfold in_flight. rewrite list_elem_of_filter. simpl. split.
    - intros [Hr (i & Hi)%list_elem_of_lookup_1].
      apply lookup_zip_with_Some in Hi as (r' & b' & E & Hri & Hbi).
      simplify_eq.
      destruct (lookup_lt_is_Some_2 (send_reqs q) i) as [r0 Hr0].
      { rewrite <- Hl1. by eapply lookup_lt_Some. }
      pose proof (Hlook (Z.of_nat i) r0) as Hl0.
      rewrite !zlookup_Some, Nat2Z.id in Hl0.
      destruct Hl0 as [_ Hl0]; [split; [lia|done]|].
      rewrite Hri in Hl0. injection Hl0 as ->.
      case_bool_decide; [done|].
      exists (Z.of_nat i). rewrite !zlookup_Some, Nat2Z.id.
      split_and!; try done; lia.
    - intros (i & Hi & Hr & Hri & Hbi). split; [done|].
      pose proof (Hlook i r Hri) as Hl0.
      rewrite bool_decide_eq_false_2 in Hl0 by done.
      apply zlookup_Some in Hl0 as [_ Hl0]. apply zlookup_Some in Hbi as [_ Hbi].
      apply (list_elem_of_lookup_2 _ (Z.to_nat i)). by apply lookup_zip. }
  unfold amsgq_test_sendreqs_unsafe. fold q1.
  assert ((Z.of_nat (length completed) >? 0) = true) as ->.
  { apply Z.gtb_lt. destruct completed; [done|simpl; lia]. }
  change (send_tailpos q1) with (send_tailpos q).
  change (msg_count q1) with (msg_count q).
  destruct (Z.eqb_spec (Z.of_nat (length completed)) (send_tailpos q)) as [Hall|Hsome].
  - (* all messages have finished *)
    eexists. split; [reflexivity|]. simpl.
    assert (filter (λ rb, rb.1 ≠ MPI_REQUEST_NULL)
              (zip (send_reqs q1) (send_bufs q)) = []) as Hnil.
    { apply length_zero_iff_nil. subst q1. simpl. lia. }
    split_and!; try done; try lia.
    + unfold ring_wf. simpl. rewrite Hl1. split_and!; try done; try lia.
      intros i r Hr. apply zlookup_Some in Hr as [Hi Hr].
      split; [|lia]. intros Hract. exfalso.
      destruct (lookup_lt_is_Some_2 (send_bufs q) (Z.to_nat i)) as [b Hb].
      { apply lookup_lt_Some in Hr. lia. }
      assert ((r, b) ∈ filter (λ rb, rb.1 ≠ MPI_REQUEST_NULL)
                         (zip (send_reqs q1) (send_bufs q))) as Hin.
      { apply list_elem_of_filter. split; [done|].
        apply (list_elem_of_lookup_2 _ (Z.to_nat i)). by apply lookup_zip. }
      rewrite Hnil in Hin. by apply elem_of_nil in Hin.
  - destruct (move_back_spec (msg_count q) (send_tailpos q) completed
                (msg_count q - 1) q1) as (q' & E & [T HT] & Hperm & Hbufs & Hq').
    { unfold compacting. subst q1. simpl. rewrite Hl1.
      split_and!; try done; try lia.
      - exists 0. split; [lia|done].
      - intros i r Hi Hr. apply zlookup_lt in Hr. rewrite Hl1 in Hr. lia.
      - intros i r Hi Hr.
        destruct (zlookup_lt _ _ _ Hr) as [Hi0 Hin]. rewrite Hl1 in Hin.
        destruct (zlookup_is_Some (send_reqs q) i ltac:(lia)) as [r0 Hr0].
        rewrite (Hlook i r0 Hr0) in Hr. injection Hr as <-.
        pose proof (Hact i r0 Hr0) as Hi'.
        case_bool_decide as Hc.
        + split; [by left|done].
        + split.
          * intros ->. right. destruct (decide (send_tailpos q ≤ i)); [done|].
            exfalso. apply Hi'; [lia|done].
          * intros [?|Hti]; [done|].
            destruct (decide (r0 = MPI_REQUEST_NULL)); [done|].
            apply Hi' in n. lia. }
    rewrite E. simpl. eexists. split; [reflexivity|].
    pose proof (in_flight_length _ HT) as HTlen. simpl in HTlen.
    assert (length (in_flight (set_send_tailpos T q')) = length (in_flight q1))
      as Hlen'.
    { change (in_flight (set_send_tailpos T q')) with (in_flight q'). by rewrite Hperm. }
    assert (T = send_tailpos q - Z.of_nat (length completed)) as HTeq.
    { rewrite <- HTlen, Hlen'. unfold in_flight. subst q1. simpl. lia. }
    assert (send_tailpos q' = send_tailpos q) as Htp by (rewrite Hq'; done).
    rewrite Htp, <- HTeq.
    split_and!; try done.
    + intros r b. change (in_flight (set_send_tailpos T q')) with (in_flight q').
      rewrite <- Hmem. split; intros Hin.
      * by rewrite <- Hperm.
      * by rewrite Hperm.
    + rewrite Hq'. done.
    + rewrite Hq'. done.
    + rewrite Hq'. done.
    + rewrite Hq'. done.
    + rewrite Hq'. done.
    + rewrite Hq'. done.
Qed.

(** X14: when [MPI_Testsome] reports at least one completed send request
    (by ascending index, among the slots in use), [amsgq_test_sendreqs_unsafe]
    returns DART_OK and leaves the ring compact: [send_tailpos] has gone
    down by the number of completed requests, the slots below it hold
    exactly the requests that are still in flight, each together with the
    buffer it was started on, and the slots from [send_tailpos] on are
    free. No send buffer is lost or duplicated. *)
Theorem amsgq_test_sendreqs_compacts (completed : list Z)
    (q : dart_amsgq_impl_data) :
  ring_wf q → completed ≠ [] → ascending 0 completed →
  Forall (λ i, i < send_tailpos q) completed →
  ∃ q',
    amsgq_test_sendreqs_unsafe completed q = Some (DART_OK, q')
    ∧ ring_wf q'
    ∧ send_tailpos q' = send_tailpos q - Z.of_nat (length completed)
    ∧ in_flight q' ≡ₚ in_flight (MPI_Testsome_send completed q)
    ∧ (∀ r b, (r, b) ∈ in_flight q' ↔
         ∃ i, (i ∉ completed) ∧ r ≠ MPI_REQUEST_NULL
              ∧ zlookup (send_reqs q) i = Some r
              ∧ zlookup (send_bufs q) i = Some b)
    ∧ send_bufs q' ≡ₚ send_bufs q
    ∧ msg_count q' = msg_count q ∧ send_count q' = send_count q
    ∧ send_mutex q' = send_mutex q ∧ processed q' = processed q
    ∧ direct_send q' = direct_send q ∧ sync_send q' = sync_send q.
Proof. apply test_sendreqs_spec. Qed.

Lemma amsgq_test_sendreqs_compacts_witness :
  ∃ q',
    amsgq_test_sendreqs_unsafe [0; 2]
      (mkAmsgq [] [MPI_REQUEST_ACTIVE 5; MPI_REQUEST_ACTIVE 6;
                   MPI_REQUEST_ACTIVE 7; MPI_REQUEST_ACTIVE 8]
               [[50]; [60]; [70]; [80]] [] [] 4 4 true false false true [])
    = Some (DART_OK, q')
    ∧ ring_wf q'
    ∧ send_tailpos q' = 2.
Proof.
  destruct (amsgq_test_sendreqs_compacts [0; 2]
              (mkAmsgq [] [MPI_REQUEST_ACTIVE 5; MPI_REQUEST_ACTIVE 6;
                           MPI_REQUEST_ACTIVE 7; MPI_REQUEST_ACTIVE 8]
                       [[50]; [60]; [70]; [80]] [] [] 4 4 true false false true []))
    as (q' & E & Hwf & Ht & _).
  - unfold ring_wf. simpl. split_and!; try lia.
    intros i r [Hi Hr]%zlookup_Some. simpl in Hr.
    destruct (Z.to_nat i) as [|[|[|[|k]]]] eqn:Ek; simplify_eq/=;
      (split; [lia|done]).
  - done.
  - simpl. lia.
  - repeat constructor; simpl; lia.
  - exists q'. split; [exact E|]. split; [exact Hwf|]. exact Ht.
Defined.


(** ** The ring over a sequence of sends *)

Lemma trysend_unfold (completed : list Z) (send_ret target : Z)
    (q : dart_amsgq_impl_data) (data : list Z) :
  direct_send q = false → send_mutex q = false →
  send_tailpos q ≤ msg_count q →
  dart_amsg_sendrecv_trysend completed send_ret target q data
  = match (if send_tailpos q =? msg_count q
           then amsgq_test_sendreqs_unsafe completed (set_send_mutex true q)
           else Some (DART_OK, set_send_mutex true q)) with
    | None => Fails
    | Some (ret, q1) =>
        if negb (bool_decide (ret = DART_OK))
        then Returns ret (set_send_mutex false q1)
        else store_message send_ret target q1 data
    end.
Proof.
  intros Hd Hm Ht. unfold dart_amsg_sendrecv_trysend.
  assert ((send_tailpos q <=? msg_count q) = true) as -> by (apply Z.leb_le; lia).
  rewrite Hd, Hm. reflexivity.
Qed.

Lemma ring_wf_mutex (b : bool) (q : dart_amsgq_impl_data) :
  ring_wf (set_send_mutex b q) ↔ ring_wf q.
Proof. done. Qed.

(** Storing a message in a ring that has a free slot. *)
Lemma store_message_wf (m send_ret target : Z) (q : dart_amsgq_impl_data)
    (data : list Z) :
  ring_wf q → bufs_sized m q → send_tailpos q < msg_count q →
  Z.of_nat (length data) ≤ m →
  (sync_send q = false → 0 ≤ target < Z.of_nat (length (send_count q))) →
  ∃ ret q', store_message send_ret target q data = Returns ret q'
    ∧ ring_wf q' ∧ bufs_sized m q' ∧ send_mutex q' = false
    ∧ send_tailpos q' = send_tailpos q + 1
    ∧ direct_send q' = direct_send q ∧ sync_send q' = sync_send q
    ∧ msg_count q' = msg_count q
    ∧ length (send_count q') = length (send_count q).
Proof.
  intros (Hlr & Hlb & Ht & Hact) Hsized Hfree Hfit Htarget.
  unfold store_message. simpl.
  destruct (zlookup_is_Some (send_bufs q) (send_tailpos q) ltac:(lia)) as [b Hb].
  destruct (zlookup_is_Some (send_reqs q) (send_tailpos q) ltac:(lia)) as [r Hr].
  rewrite Hb, Hr.
  assert (Z.of_nat (length b) = m) as Hbm.
  { apply zlookup_Some in Hb as [_ Hb]. unfold bufs_sized in Hsized.
    rewrite Forall_lookup in Hsized. by apply (Hsized _ _ Hb). }
  assert (∀ q1, send_reqs q1 = zinsert (send_tailpos q) (MPI_REQUEST_ACTIVE target)
                                 (send_reqs q) →
                send_bufs q1 = zinsert (send_tailpos q)
                                 (data ++ drop (length data) b) (send_bufs q) →
                send_tailpos q1 = send_tailpos q + 1 →
                msg_count q1 = msg_count q → ring_wf q1 ∧ bufs_sized m q1) as Hwf.
  { intros q1 Er Eb Et Em. split.
    - unfold ring_wf.
      rewrite Er, Eb, Et, Em, !length_zinsert. split_and!; try done; try lia.
      intros i r' Hr'.
      destruct (zlookup_lt _ _ _ Hr') as [Hi0 Hin]. rewrite length_zinsert in Hin.
      destruct (zlookup_is_Some (send_reqs q) i ltac:(lia)) as [r0 Hr0].
      rewrite (zlookup_zinsert (send_reqs q) (send_tailpos q) i
                 (MPI_REQUEST_ACTIVE target) r0 ltac:(lia) Hr0) in Hr'.
      injection Hr' as <-. case_bool_decide as Hi.
      + subst i. split; [lia|done].
      + rewrite (Hact i r0 Hr0). lia.
    - unfold bufs_sized. rewrite Eb. unfold zinsert.
      apply Forall_insert; [done|]. rewrite memcpy_length by lia. done. }
  destruct (sync_send q) eqn:Hs; simpl.
  - unfold check_send_ret. destruct (negb (send_ret =? MPI_SUCCESS));
      (eexists _, _; split; [reflexivity|];
       match goal with |- ring_wf ?x ∧ _ =>
         destruct (Hwf x eq_refl eq_refl eq_refl eq_refl) as [? ?] end;
       split_and!; done).
  - destruct (zlookup_is_Some (send_count q) target (Htarget eq_refl)) as [c Hc].
    unfold incr_at. rewrite Hc. simpl.
    unfold check_send_ret. destruct (negb (send_ret =? MPI_SUCCESS));
      (eexists _, _; split; [reflexivity|];
       match goal with |- ring_wf ?x ∧ _ =>
         destruct (Hwf x eq_refl eq_refl eq_refl eq_refl) as [? ?] end;
       split_and!; try done; simpl; rewrite ?length_zinsert; done).
Qed.

(** One send keeps the ring well formed. *)
Lemma trysend_wf (m : Z) (c : send_call) (q : dart_amsgq_impl_data) :
  ring_wf q → bufs_sized m q → direct_send q = false → send_mutex q = false →
  call_ok m q c →
  ∃ ret q',
    dart_amsg_sendrecv_trysend (sc_completed c) (sc_send_ret c) (sc_target c) q
      (sc_data c) = Returns ret q'
    ∧ ring_wf q' ∧ bufs_sized m q' ∧ direct_send q' = false ∧ send_mutex q' = false
    ∧ sync_send q' = sync_send q ∧ msg_count q' = msg_count q
    ∧ length (send_count q') = length (send_count q).
Proof.
  intros Hwf Hsized Hd Hm (Hasc & Hlt & _ & Hfit & Htarget).
  pose proof Hwf as (Hlr & Hlb & Ht & Hact).
  rewrite trysend_unfold by (done || lia).
  destruct (Z.eqb_spec (send_tailpos q) (msg_count q)) as [Hfull|Hfree].
  - destruct (sc_completed c) as [|i rest] eqn:Hcompl.
    + (* nothing has completed: come back later *)
      unfold amsgq_test_sendreqs_unsafe. simpl.
      eexists _, _. split; [reflexivity|]. simpl. split_and!; try done.
    + destruct (test_sendreqs_spec (i :: rest) (set_send_mutex true q))
        as (q1 & E & Hwf1 & Ht1 & _ & _ & Hperm & Hm1 & Hc1 & _ & _ & Hd1 & Hs1);
        try done.
      { simpl. rewrite Hfull. done. }
      rewrite E. simpl. simpl in *.
      assert (bufs_sized m q1) as Hsized1.
      { unfold bufs_sized. by rewrite Hperm. }
      destruct (store_message_wf m (sc_send_ret c) (sc_target c) q1 (sc_data c))
        as (ret & q' & Es & Hwf' & Hsz' & Hm' & _ & Hd' & Hs' & Hmc' & Hl');
        try done.
      { rewrite Ht1, Hm1. lia. }
      { rewrite Hs1, Hc1. done. }
      exists ret, q'. split; [exact Es|].
      rewrite Hd', Hs', Hmc', Hl', Hd1, Hs1, Hm1, Hc1. done.
  - destruct (store_message_wf m (sc_send_ret c) (sc_target c)
                (set_send_mutex true q) (sc_data c))
      as (ret & q' & Es & Hwf' & Hsz' & Hm' & _ & Hd' & Hs' & Hmc' & Hl');
      try done.
    { simpl. lia. }
    exists ret, q'. split; [exact Es|]. by rewrite Hd', Hs', Hmc', Hl'.
Qed.


Lemma send_run_wf (m : Z) (calls : list send_call) :
  ∀ q, ring_wf q → bufs_sized m q → direct_send q = false →
  send_mutex q = false → Forall (call_ok m q) calls →
  ∃ q', send_run calls q = Some q' ∧ ring_wf q' ∧ bufs_sized m q'
        ∧ send_mutex q' = false.
Proof.
  induction calls as [|c rest IH]; intros q Hwf Hsized Hd Hm Hok; simpl.
  - eauto.
  - apply Forall_cons in Hok as [Hc Hok].
    destruct (trysend_wf m c q Hwf Hsized Hd Hm Hc)
      as (ret & q1 & E & Hwf1 & Hsized1 & Hd1 & Hm1 & Hs1 & Hmc1 & Hl1).
    rewrite E. apply IH; try done.
    eapply Forall_impl; [exact Hok|]. intros c'. unfold call_ok.
    by rewrite Hs1, Hmc1, Hl1.
Qed.

Lemma openq_wf (comm_size msg_size count : Z) (env_sync env_direct : option bool)
    (fresh : list Z) (q0 : dart_amsgq_impl_data) :
  0 ≤ count → Z.of_nat (length fresh) = msg_size →
  dart_amsg_sendrecv_openq (Some comm_size) msg_size count env_sync
    env_direct fresh = (DART_OK, Some q0) →
  direct_send q0 = false →
  ring_wf q0 ∧ bufs_sized msg_size q0 ∧ send_mutex q0 = false
  ∧ send_tailpos q0 = 0 ∧ msg_count q0 = count.
Proof.
  intros Hn Hfresh. unfold dart_amsg_sendrecv_openq. intros [= <-]. simpl.
  intros ->. simpl. split; [|split; [|done]].
  - unfold ring_wf. simpl.
    rewrite !length_replicate. split_and!; try lia.
    intros i r [Hi Hr]%zlookup_Some. apply lookup_replicate in Hr as [-> _].
    split; [done|lia].
  - unfold bufs_sized. simpl. by apply Forall_replicate.
Qed.

(** X15: a queue opened for buffered sends starts with an empty, well-formed
    ring: [msg_count] slots, none in use, each with a send buffer of
    [msg_size] bytes. Every sequence of calls of
    [dart_amsg_sendrecv_trysend] by one thread keeps it so, as long as no
    message is longer than [msg_size], MPI accepts every send,
    [MPI_Testsome] reports requests of the ring by ascending index and the
    targets are units of the team: every call returns, no assertion fails,
    no index leaves its array and every send buffer keeps its [msg_size]
    bytes, the send mutex is free afterwards, the slots below
    [send_tailpos] are exactly the ones with an active request, and
    [send_tailpos] never exceeds [msg_count]. *)
Theorem amsgq_send_ring_invariant (comm_size msg_size count : Z)
    (env_sync env_direct : option bool) (fresh : list Z)
    (q0 : dart_amsgq_impl_data) (calls : list send_call) :
  0 ≤ count < 2 ^ 31 →
  Z.of_nat (length fresh) = msg_size →
  dart_amsg_sendrecv_openq (Some comm_size) msg_size count env_sync
    env_direct fresh = (DART_OK, Some q0) →
  direct_send q0 = false →
  Forall (call_ok msg_size q0) calls →
  ring_wf q0 ∧ bufs_sized msg_size q0 ∧ send_tailpos q0 = 0
  ∧ ∃ q', send_run calls q0 = Some q' ∧ ring_wf q' ∧ bufs_sized msg_size q'
          ∧ send_mutex q' = false
          ∧ 0 ≤ send_tailpos q' ≤ msg_count q'.
Proof.
  intros Hn Hfresh Hopen Hd Hok.
  destruct (openq_wf _ _ _ _ _ _ _ (proj1 Hn) Hfresh Hopen Hd)
    as (Hwf & Hsized & Hm & Ht & _).
  split; [done|]. split; [done|]. split; [done|].
  destruct (send_run_wf msg_size calls q0 Hwf Hsized Hd Hm Hok)
    as (q' & E & Hwf' & Hsized' & Hm').
  exists q'. split_and!; try done; apply Hwf'.
Qed.

Lemma amsgq_send_ring_invariant_witness :
  ∃ q',
    send_run [mkSend [] 0 1 [7]; mkSend [] 0 0 [8]; mkSend [] 0 1 [9];
              mkSend [0; 1] 0 1 [9]]
      (mkAmsgq [[0]; [0]] [MPI_REQUEST_NULL; MPI_REQUEST_NULL] [[0]; [0]]
               [] [] 0 2 false false false true [])
    = Some q'
    ∧ ring_wf q' ∧ bufs_sized 1 q' ∧ send_mutex q' = false.
Proof.
  destruct (amsgq_send_ring_invariant 3 1 2 None None [0]
              (mkAmsgq [[0]; [0]] [MPI_REQUEST_NULL; MPI_REQUEST_NULL] [[0]; [0]]
                       [] [] 0 2 false false false true [])
              [mkSend [] 0 1 [7]; mkSend [] 0 0 [8]; mkSend [] 0 1 [9];
               mkSend [0; 1] 0 1 [9]])
    as (_ & _ & _ & q' & E & Hwf & Hsz & Hm & _).
  - lia.
  - reflexivity.
  - reflexivity.
  - reflexivity.
  - repeat constructor; simpl; try lia; try done.
  - exists q'. split; [exact E|]. split; [exact Hwf|]. split; [exact Hsz|exact Hm].
Defined.

End AmsgqExtras.

(** * Further properties of the scheduler *)

Section NextTask.
Context `{dart_constants} `{dart_externals}.

Lemma take_first_slot_NULL (slots slots' : list ptr) :
  take_first_slot slots = (NULL, slots') ↔
  Forall (λ p, p = NULL) slots ∧ slots' = slots.
Proof.
  revert slots'. induction slots as [|[a|] slots IH]; intros slots'; simpl.
  - split; [by intros [= <-]|by intros [_ ->]].
  - split; [done|]. intros [Hf _]. by apply Forall_cons in Hf as [? _].
  - destruct (take_first_slot slots) as [t r] eqn:E. split.
    + intros [= -> <-]. destruct (IH r) as [IH1 _].
      destruct (IH1 eq_refl) as [Hf ->]. split; [by constructor|done].
    + intros [Hf ->]. apply Forall_cons in Hf as [_ Hf].
      destruct (IH slots) as [_ IH2]. specialize (IH2 (conj Hf eq_refl)).
      by simplify_eq.
Qed.

Lemma take_last_slot_NULL (slots slots' : list ptr) :
  take_last_slot slots = (NULL, slots') ↔
  Forall (λ p, p = NULL) slots ∧ slots' = slots.
Proof.
  unfold take_last_slot.
  destruct (take_first_slot (rev slots)) as [t r] eqn:E. split.
  - intros [= -> <-]. apply take_first_slot_NULL in E as [Hf ->].
    rewrite rev_involutive. split; [|done].
    apply Forall_rev in Hf. by rewrite rev_involutive in Hf.
  - intros [Hf ->].
    destruct (take_first_slot_NULL (rev slots) (rev slots)) as [_ Hr].
    rewrite Hr in E by (split; [by apply Forall_rev|done]).
    simplify_eq. by rewrite rev_involutive.
Qed.

Lemma th_set_queue_id (th : dart_thread_t) : th_set_queue (queue th) th = th.
Proof. by destruct th. Qed.

Lemma s_set_thread_pool_id (s : sched) : s_set_thread_pool (thread_pool s) s = s.
Proof. by destruct s. Qed.

Lemma modify_thread_id (tid : nat) (th : dart_thread_t) (s : sched) :
  thread_pool s !! tid = Some (Some th) →
  modify_thread tid (th_set_queue (queue th)) s = Some (tt, s).
Proof.
  intros Hth. unfold modify_thread. rewrite Hth, th_set_queue_id.
  by rewrite list_insert_id, s_set_thread_pool_id.
Qed.

(** Taking a task from the hot slots of a thread yields NULL exactly when
    the slots are empty, and changes nothing then. *)
Lemma next_task_thread_NULL (target : nat) (s s' : sched) :
  next_task_thread target s = Some (NULL, s') ↔
  ∃ th, thread_pool s !! target = Some (Some th) ∧ slots_empty th ∧ s' = s.
Proof.
  unfold next_task_thread, mbind, SchedM_bind, get_thread.
  destruct (thread_pool s !! target) as [[th|]|] eqn:Hth;
    [|split; [done|by intros (? & ? & _)]..].
  destruct (take_first_slot (queue th)) as [t r] eqn:E. split.
  - destruct (modify_thread target (th_set_queue r) s) as [[[] s1]|] eqn:Hm;
      [|done].
    intros [= -> <-]. apply take_first_slot_NULL in E as [Hf ->].
    rewrite (modify_thread_id _ _ _ Hth) in Hm. simplify_eq. eauto.
  - intros (th' & [= <-] & Hf & ->).
    destruct (take_first_slot_NULL (queue th) (queue th)) as [_ Hr].
    rewrite Hr in E by done. simplify_eq.
    by rewrite (modify_thread_id _ _ _ Hth).
Qed.

Lemma next_task_thread_back_NULL (target : nat) (s s' : sched) :
  next_task_thread_back target s = Some (NULL, s') ↔
  ∃ th, thread_pool s !! target = Some (Some th) ∧ slots_empty th ∧ s' = s.
Proof.
  unfold next_task_thread_back, mbind, SchedM_bind, get_thread.
  destruct (thread_pool s !! target) as [[th|]|] eqn:Hth;
    [|split; [done|by intros (? & ? & _)]..].
  destruct (take_last_slot (queue th)) as [t r] eqn:E. split.
  - destruct (modify_thread target (th_set_queue r) s) as [[[] s1]|] eqn:Hm;
      [|done].
    intros [= -> <-]. apply take_last_slot_NULL in E as [Hf ->].
    rewrite (modify_thread_id _ _ _ Hth) in Hm. simplify_eq. eauto.
  - intros (th' & [= <-] & Hf & ->).
    destruct (take_last_slot_NULL (queue th) (queue th)) as [_ Hr].
    rewrite Hr in E by done. simplify_eq.
    by rewrite (modify_thread_id _ _ _ Hth).
Qed.


Lemma stage_NULL (m k : SchedM ptr) (s s' : sched) (P : Prop) :
  (∀ s1, m s = Some (NULL, s1) ↔ P ∧ s1 = s) →
  (task ← m; if negb (is_null task) then mret task else k) s = Some (NULL, s')
  ↔ P ∧ k s = Some (NULL, s').
Proof.
  intros Hm. unfold mbind, SchedM_bind.
  destruct (m s) as [[[a|] s1]|] eqn:E; simpl.
  - split; [done|]. intros [HP _].
    destruct (Hm s) as [_ Hm2]. by specialize (Hm2 (conj HP eq_refl)).
  - destruct (Hm s1) as [Hm1 _]. destruct (Hm1 eq_refl) as [HP ->]. tauto.
  - split; [done|]. intros [HP _].
    destruct (Hm s) as [_ Hm2]. by specialize (Hm2 (conj HP eq_refl)).
Qed.

(** A stealing loop yields NULL exactly when none of its victims has a
    task in a hot slot, and changes nothing then. *)
Lemma steal_loop_NULL (tid : nat) (same : bool) (targets : list nat)
    (s s' : sched) (th : dart_thread_t) :
  thread_pool s !! tid = Some (Some th) →
  steal_loop tid same targets s = Some (NULL, s') ↔
  (∀ target tth, target ∈ targets →
     thread_pool s !! target = Some (Some tth) →
     bool_decide (numa_id tth = numa_id th) = same → slots_empty tth)
  ∧ s' = s.
Proof.
  intros Hth. induction targets as [|target rest IH]; simpl.
  - unfold mret, SchedM_ret. split.
    + intros [= <-]. split; [|done]. intros ? ? Hin. by apply elem_of_nil in Hin.
    + by intros [_ ->].
  - rewrite (run_bind _ _ s th s) by (unfold get_thread; by rewrite Hth).
    rewrite (run_bind _ _ s s s) by done.
    destruct (thread_pool s !! target) as [[tth|]|] eqn:Htt.
    + case_bool_decide as Hsame.
      * assert (∀ k : SchedM ptr,
                  (task ← next_task_thread_back target;
                   if negb (is_null task)
                   then modify_thread tid (th_set_last_steal_thread_id target);;
                        mret task
                   else k) s = Some (NULL, s')
                  ↔ slots_empty tth ∧ k s = Some (NULL, s')) as Hstage.
        { intros k. unfold mbind at 1, SchedM_bind at 1.
          destruct (next_task_thread_back target s) as [[[a|] s1]|] eqn:E; simpl.
          - split.
            + unfold mbind, SchedM_bind.
              destruct (modify_thread _ _ s1) as [[[] ?]|]; done.
            + intros [Hf _].
              destruct (next_task_thread_back_NULL target s s) as [_ Hn].
              rewrite Hn in E by eauto. done.
          - apply next_task_thread_back_NULL in E as (tth' & Htt' & Hf & ->).
            simplify_eq. tauto.
          - split; [done|]. intros [Hf _].
            destruct (next_task_thread_back_NULL target s s) as [_ Hn].
            rewrite Hn in E by eauto. done. }
        rewrite Hstage, IH. split.
        -- intros (Hf & Hrest & ->). split; [|done].
           intros target' tth' [->|Hin]%elem_of_cons Htt' Hs'.
           ++ by simplify_eq.
           ++ by eapply Hrest.
        -- intros [Hall ->]. split_and!; [|intros; eapply Hall; eauto|done].
           ++ eapply Hall; [apply list_elem_of_here|done|done].
           ++ by apply list_elem_of_further.
      * rewrite IH. split; intros [Hall ->]; (split; [|done]).
        -- intros target' tth' [->|Hin]%elem_of_cons Htt' Hs'.
           ++ by simplify_eq.
           ++ by eapply Hall.
        -- intros; eapply Hall; eauto. by apply list_elem_of_further.
    + rewrite IH. split; intros [Hall ->]; (split; [|done]).
      * intros target' tth' [->|Hin]%elem_of_cons Htt' Hs'.
        -- by simplify_eq.
        -- by eapply Hall.
      * intros; eapply Hall; eauto. by apply list_elem_of_further.
    + rewrite IH. split; intros [Hall ->]; (split; [|done]).
      * intros target' tth' [->|Hin]%elem_of_cons Htt' Hs'.
        -- by simplify_eq.
        -- by eapply Hall.
      * intros; eapply Hall; eauto. by apply list_elem_of_further.
Qed.


Lemma task_deque_pop_head (d d' : task_deque) (t : ptr) (h h' : heap) :
  task_deque_pop d h = Some ((t, d'), h') → t = head d.
Proof.
  unfold task_deque_pop. unfold mbind at 1, M_bind at 1.
  match goal with |- match ?c with _ => _ end = _ → _ =>
    destruct c as [[d1 h1]|]; [|done] end.
  unfold mbind, M_bind, DART_ASSERT, mret, M_ret.
  destruct (deque_ok d1); [|done]. by intros [= <- _ _].
Qed.

Lemma task_deque_pop_NULL (d d' : task_deque) (h h' : heap) :
  task_deque_pop d h = Some ((NULL, d'), h') ↔
  d = mkDeque NULL NULL ∧ d' = d ∧ h' = h.
Proof.
  split.
  - intros E. pose proof (task_deque_pop_head _ _ _ _ _ E) as Hh.
    destruct d as [hd tl]. simpl in Hh. subst hd.
    unfold task_deque_pop in E. simpl in E.
    unfold mbind, M_bind, mret, M_ret, DART_ASSERT, deque_ok in E. simpl in E.
    destruct tl; simpl in E; [done|]. by simplify_eq.
  - intros (-> & -> & ->). reflexivity.
Qed.

(** A pop on a task queue yields NULL exactly when the queue is empty, and
    changes nothing then. *)
Lemma taskqueue_pop_NULL (q q' : dart_taskqueue_t) (h h' : heap) :
  dart_tasking_taskqueue_pop q h = Some ((NULL, q'), h') ↔
  q = mkQueue (mkDeque NULL NULL) (mkDeque NULL NULL) ∧ q' = q ∧ h' = h.
Proof.
  unfold dart_tasking_taskqueue_pop, dart_tasking_taskqueue_pop_unsafe. split.
  - unfold mbind at 1, M_bind at 1.
    destruct (task_deque_pop (highprio q) h) as [[[t d] h1]|] eqn:E1; [|done].
    destruct t as [a|]; simpl; [by intros [= ]|].
    apply task_deque_pop_NULL in E1 as (Hh & -> & ->).
    unfold mbind, M_bind.
    destruct (task_deque_pop (lowprio q) h) as [[[t d] h2]|] eqn:E2; [|done].
    unfold mret, M_ret. intros [= -> <- <-].
    apply task_deque_pop_NULL in E2 as (Hl & -> & ->).
    destruct q as [l hi]. simpl in *. by subst.
  - intros (-> & -> & ->). reflexivity.
Qed.

Lemma on_queue_pop_NULL (node : nat) (s s' : sched) :
  on_queue node dart_tasking_taskqueue_pop s = Some (NULL, s') ↔
  task_queue s !! node = Some (mkQueue (mkDeque NULL NULL) (mkDeque NULL NULL))
  ∧ s' = s.
Proof.
  unfold on_queue. destruct (task_queue s !! node) as [q|] eqn:Hq.
  - split.
    + destruct (dart_tasking_taskqueue_pop q (tasks s)) as [[[t q'] h']|] eqn:E;
        [|done].
      intros [= -> <-]. apply taskqueue_pop_NULL in E as (-> & -> & ->).
      split; [done|]. rewrite list_insert_id by done. by destruct s.
    + intros [[= ->] ->].
      destruct (taskqueue_pop_NULL (mkQueue (mkDeque NULL NULL) (mkDeque NULL NULL))
                  (mkQueue (mkDeque NULL NULL) (mkDeque NULL NULL))
                  (tasks s) (tasks s)) as [_ Hn].
      rewrite Hn by done.
      rewrite list_insert_id by done. by destruct s.
  - split; [done|by intros [? _]].
Qed.

Lemma pop_loop_NULL (nodes : list nat) (s s' : sched) :
  pop_loop nodes s = Some (NULL, s') ↔
  (∀ node, node ∈ nodes →
     task_queue s !! node = Some (mkQueue (mkDeque NULL NULL) (mkDeque NULL NULL)))
  ∧ s' = s.
Proof.
  induction nodes as [|node rest IH]; simpl.
  - unfold mret, SchedM_ret. split.
    + intros [= <-]. split; [|done]. intros ? Hin. by apply elem_of_nil in Hin.
    + by intros [_ ->].
  - unfold mbind, SchedM_bind.
    destruct (on_queue node dart_tasking_taskqueue_pop s) as [[[a|] s1]|] eqn:E.
    + split.
      * destruct rest; simpl; unfold mret, SchedM_ret; done.
      * intros [Hall _].
        destruct (on_queue_pop_NULL node s s) as [_ Hn].
        rewrite Hn in E; [done|]. split; [|done]. apply Hall, list_elem_of_here.
    + apply on_queue_pop_NULL in E as [Hq ->].
      destruct rest as [|node' rest'].
      * unfold mret, SchedM_ret. split.
        -- intros [= <-]. split; [|done].
           intros ? [->|Hin]%elem_of_cons; [done|by apply elem_of_nil in Hin].
        -- by intros [_ ->].
      * simpl is_null. cbv iota. rewrite IH. split; intros [Hall ->]; (split; [|done]).
        -- intros ? [->|Hin]%elem_of_cons; [done|by apply Hall].
        -- intros ? Hin. by apply Hall, list_elem_of_further.
    + split; [done|]. intros [Hall _].
      destruct (on_queue_pop_NULL node s s) as [_ Hn].
      rewrite Hn in E; [done|]. split; [|done]. apply Hall, list_elem_of_here.
Qed.

(** The stealing loops visit every other thread, the loop over the task
    queues every NUMA node. *)
Lemma steal_targets_cover (tid n j : nat) :
  (tid < n)%nat → (j < n)%nat → j ≠ tid → j ∈ steal_targets tid n.
Proof.
  intros Ht Hj Hne. unfold steal_targets. apply list_elem_of_fmap.
  destruct (decide (tid < j)%nat).
  - exists (j - tid - 1)%nat. split.
    + replace (tid + 1 + (j - tid - 1))%nat with j by lia.
      by rewrite Nat.mod_small.
    + apply elem_of_seq. lia.
  - exists (j + n - tid - 1)%nat. split.
    + replace (tid + 1 + (j + n - tid - 1))%nat with (j + 1 * n)%nat by lia.
      rewrite Nat.Div0.mod_add. by rewrite Nat.mod_small.
    + apply elem_of_seq. lia.
Qed.

Lemma numa_nodes_cover (numa n j : nat) :
  (numa < n)%nat → (j < n)%nat →
  j ∈ (λ i, (numa + i) `mod` n)%nat <$> seq 0 (Nat.max 1 n).
Proof.
  intros Hn Hj. apply list_elem_of_fmap.
  destruct (decide (numa ≤ j)%nat).
  - exists (j - numa)%nat. split.
    + replace (numa + (j - numa))%nat with j by lia. by rewrite Nat.mod_small.
    + apply elem_of_seq. lia.
  - exists (j + n - numa)%nat. split.
    + replace (numa + (j + n - numa))%nat with (j + 1 * n)%nat by lia.
      rewrite Nat.Div0.mod_add. by rewrite Nat.mod_small.
    + apply elem_of_seq. lia.
Qed.


Lemma next_task_NULL (tid : nat) (s s' : sched) (th thl : dart_thread_t) :
  thread_pool s !! tid = Some (Some th) →
  thread_pool s !! last_steal_thread_id th = Some (Some thl) →
  (∀ i th', thread_pool s !! i = Some (Some th') →
     (numa_id th' < length (task_queue s))%nat) →
  next_task tid s = Some (NULL, s') ↔ no_task_for tid s ∧ s' = s.
Proof.
  intros Hth Hthl Hnuma.
  pose proof (Hnuma _ _ Hth) as Hn.
  assert (tid < length (thread_pool s))%nat as Htid by (by eapply lookup_lt_Some).
  unfold next_task.
  rewrite (run_bind _ _ s th s) by (unfold get_thread; by rewrite Hth).
  rewrite (stage_NULL _ _ s s' (thread_next_task th = NULL ∧ slots_empty th)).
  2:{ intros s1. destruct (thread_next_task th) as [a|] eqn:Hnt; simpl.
      - split; [|by intros [[? _] _]].
        unfold mbind, SchedM_bind.
        destruct (modify_thread _ _ s) as [[[] ?]|]; done.
      - rewrite next_task_thread_NULL. split.
        + intros (th' & Hth' & Hf & ->). by simplify_eq.
        + intros [[_ Hf] ->]. eauto. }
  rewrite (stage_NULL _ _ s s' (slots_empty thl)).
  2:{ intros s1. rewrite next_task_thread_back_NULL. split.
      - intros (th' & Hth' & Hf & ->). by simplify_eq.
      - intros [Hf ->]. eauto. }
  rewrite (run_bind _ _ s s s) by done.
  rewrite (stage_NULL _ _ s s'
             (∀ target tth, target ∈ steal_targets tid (length (thread_pool s)) →
                thread_pool s !! target = Some (Some tth) →
                bool_decide (numa_id tth = numa_id th) = true → slots_empty tth)).
  2:{ intros s1. by apply steal_loop_NULL. }
  rewrite (stage_NULL _ _ s s'
             (∀ node,
                node ∈ (λ i, (numa_id th + i) `mod` length (task_queue s))%nat
                         <$> seq 0 (Nat.max 1 (length (task_queue s))) →
                task_queue s !! node
                = Some (mkQueue (mkDeque NULL NULL) (mkDeque NULL NULL)))).
  2:{ intros s1. by apply pop_loop_NULL. }
  split.
  - intros ([Hnt Hown] & Hlast & Hsame & Hqueues & Hother).
    assert (s' = s ∧
            ((1 < length (task_queue s))%nat →
             ∀ target tth,
               target ∈ steal_targets tid (length (thread_pool s)) →
               thread_pool s !! target = Some (Some tth) →
               bool_decide (numa_id tth = numa_id th) = false → slots_empty tth))
      as [-> Hdiff].
    { destruct (1 <? length (task_queue s))%nat eqn:Hmany.
      - apply (steal_loop_NULL _ _ _ _ _ _ Hth) in Hother as [Hall ->]. done.
      - unfold mret, SchedM_ret in Hother. injection Hother as <-.
        split; [done|]. apply Nat.ltb_ge in Hmany. lia. }
    split; [|done]. unfold no_task_for. split_and!.
    + intros th0 Hth0. by simplify_eq.
    + intros i thi Hi. destruct (decide (i = tid)) as [->|Hne]; [by simplify_eq|].
      assert (i ∈ steal_targets tid (length (thread_pool s))) as Hin.
      { apply steal_targets_cover; [done| |done]. by eapply lookup_lt_Some. }
      destruct (decide (numa_id thi = numa_id th)) as [Heq|Hneq].
      * apply (Hsame i thi Hin Hi). by apply bool_decide_eq_true_2.
      * apply (Hdiff ltac:(pose proof (Hnuma _ _ Hi); lia) i thi Hin Hi).
        by apply bool_decide_eq_false_2.
    + apply Forall_lookup. intros j q Hq.
      rewrite (Hqueues j) in Hq; [by simplify_eq|].
      apply numa_nodes_cover; [done|]. by eapply lookup_lt_Some.
  - intros [(Hnt & Hslots & Hqueues) ->]. split_and!.
    + by apply Hnt.
    + by eapply Hslots.
    + by eapply Hslots.
    + intros target tth _ Htt _. by eapply Hslots.
    + intros node (i & -> & _)%list_elem_of_fmap.
      destruct (lookup_lt_is_Some_2 (task_queue s)
                  ((numa_id th + i) `mod` length (task_queue s))%nat) as [q Hq].
      { apply Nat.mod_upper_bound. lia. }
      rewrite Hq. f_equal. by eapply Forall_lookup in Hqueues.
    + destruct (1 <? length (task_queue s))%nat; [|done].
      apply (steal_loop_NULL _ _ _ _ _ _ Hth). split; [|done].
      intros target tth _ Htt _. by eapply Hslots.
Qed.

(** X16: [next_task] returns NULL exactly when there is no task the thread
    could run: no task was handed to it by a yield, the hot slots of all
    threads are empty, and the task queues of all NUMA nodes are empty. In
    that case it leaves the scheduler state as it was. So a worker never
    idles while a runnable task sits in a queue or in a hot slot of any
    thread. *)
Theorem next_task_null_iff_no_task (tid : nat) (s s' : sched)
    (th thl : dart_thread_t) :
  thread_pool s !! tid = Some (Some th) →
  thread_pool s !! last_steal_thread_id th = Some (Some thl) →
  (∀ i th', thread_pool s !! i = Some (Some th') →
     (numa_id th' < length (task_queue s))%nat) →
  next_task tid s = Some (NULL, s') ↔ no_task_for tid s ∧ s' = s.
Proof. apply next_task_NULL. Qed.

End NextTask.

(** * Further properties: making a task runnable *)

Section Enqueue.
Context `{dart_constants} `{dart_externals}.

(** X17: a runnable task (created, no unresolved dependency, not to be
    deferred, neither a communication nor an immediate task) that a worker
    enqueues while its first hot slot is free is stored in that slot and
    marked QUEUED; no task queue is touched and no thread woken. The next
    call of [next_task] on this worker returns exactly this task and
    empties the slot again, so that the two calls together change nothing
    but the state of the task. *)
Theorem enqueue_runnable_then_next_task (tid : nat) (a : addr) (s : sched)
    (t : dart_task_t) (th : dart_thread_t) (rest : list ptr) :
  cancel_requested s = false →
  tasks s !! a = Some t →
  state t = DART_TASK_CREATED →
  unresolved_deps t = 0 → unresolved_remote_deps t = 0 →
  (parent t ≠ Some root_task
   ∨ ∀ s2, dart__tasking__phase_is_runnable (phase t) s2 = true) →
  DART_TASK_HAS_FLAG t DART_TASK_IS_COMMTASK = false →
  DART_TASK_HAS_FLAG t DART_TASK_IMMEDIATE = false →
  thread_pool s !! tid = Some (Some th) →
  is_utility_thread th = false →
  task_numa_node t s = numa_id th →
  thread_next_task th = NULL →
  queue th = NULL :: rest →
  ∃ s1,
    dart__tasking__enqueue_runnable tid (Some a) s = Some (tt, s1)
    ∧ thread_pool s1
      = <[tid := Some (th_set_queue (Some a :: rest) th)]> (thread_pool s)
    ∧ task_queue s1 = task_queue s
    ∧ next_task tid s1
      = Some (Some a,
              s_set_tasks (<[a := set_state DART_TASK_QUEUED t]> (tasks s)) s).
Proof.
  intros Hc Ht Hst Hud Hur Hdef Hcomm Himm Hth Hut Hnuma Hnt Hq.
  destruct s as [h run canc tp tqs ldt nu rn fl tpn trc]; simpl in *.
  subst canc. unfold dart__tasking__enqueue_runnable.
  tstep. tstep. rewrite Hst. simpl.
  unfold dart_tasking_datadeps_is_runnable. rewrite Hud, Hur. simpl.
  do 5 tstep.
  match goal with |- context [ptr_eqb ?x ?y && negb ?b] =>
    assert (ptr_eqb x y && negb b = false) as -> end.
  { destruct Hdef as [Hp|Hp].
    - unfold ptr_eqb. by rewrite bool_decide_eq_false_2.
    - rewrite Hp. simpl. apply andb_false_r. }
  tstep.
  change (DART_TASK_HAS_FLAG (set_state DART_TASK_QUEUED t) DART_TASK_IS_COMMTASK)
    with (DART_TASK_HAS_FLAG t DART_TASK_IS_COMMTASK).
  change (DART_TASK_HAS_FLAG (set_state DART_TASK_QUEUED t) DART_TASK_IMMEDIATE)
    with (DART_TASK_HAS_FLAG t DART_TASK_IMMEDIATE).
  rewrite Hcomm, Himm. simpl. tstep.
  rewrite (run_bind _ _ _ th _) by (unfold get_thread; simpl; by rewrite Hth).
  tstep. rewrite Hut. simpl.
  unfold task_numa_node in Hnuma. simpl in Hnuma. rewrite Hnuma.
  rewrite bool_decide_eq_true_2 by done. rewrite Hq. simpl.
  assert (tid < length tp)%nat as Hlt by (by eapply lookup_lt_Some).
  unfold modify_thread. simpl. rewrite Hth.
  eexists. split; [reflexivity|]. simpl. split; [done|]. split; [done|].
  unfold next_task.
  erewrite run_bind
    by (unfold get_thread; simpl; by rewrite list_lookup_insert_eq).
  simpl. rewrite Hnt. simpl.
  unfold next_task_thread. rewrite run_assoc.
  erewrite run_bind
    by (unfold get_thread; simpl; by rewrite list_lookup_insert_eq).
  simpl. unfold mbind, SchedM_bind, modify_thread. simpl.
  rewrite list_lookup_insert_eq by done. simpl.
  rewrite list_insert_insert_eq.
  unfold mret, SchedM_ret. do 3 f_equal. unfold s_set_thread_pool. simpl.
  f_equal. apply list_insert_id. rewrite Hth. do 2 f_equal.
  destruct th. simpl in *. by subst.
Qed.


Lemma put_first_slot_full (task : ptr) (slots : list ptr) :
  Forall (λ p, p ≠ NULL) slots → put_first_slot task slots = None.
Proof.
  induction slots as [|[b|] slots IH]; intros Hf; simpl.
  - done.
  - apply Forall_cons in Hf as [_ Hf]. by rewrite IH.
  - by apply Forall_cons in Hf as [? _].
Qed.

(** X18: when the worker cannot keep a runnable task in a hot slot (it is a
    utility thread, the task belongs to another NUMA node, or all its hot
    slots are taken), [dart__tasking__enqueue_runnable] marks the task
    QUEUED, pushes it to the front of its priority class in the task queue
    of the task's NUMA node and wakes up one thread; the hot slots stay as
    they were. *)
Theorem enqueue_runnable_overflows_to_queue (tid : nat) (a : addr) (s : sched)
    (t : dart_task_t) (th : dart_thread_t) (q : dart_taskqueue_t)
    (lh ll : list addr) :
  cancel_requested s = false →
  tasks s !! a = Some t →
  state t = DART_TASK_CREATED →
  unresolved_deps t = 0 → unresolved_remote_deps t = 0 →
  (parent t ≠ Some root_task
   ∨ ∀ s2, dart__tasking__phase_is_runnable (phase t) s2 = true) →
  DART_TASK_HAS_FLAG t DART_TASK_IS_COMMTASK = false →
  DART_TASK_HAS_FLAG t DART_TASK_IMMEDIATE = false →
  thread_pool s !! tid = Some (Some th) →
  (is_utility_thread th = true
   ∨ task_numa_node t s ≠ numa_id th
   ∨ Forall (λ p, p ≠ NULL) (queue th)) →
  task_queue s !! task_numa_node t s = Some q →
  tq_rep (tasks s) q lh ll → a ∉ lh ++ ll →
  ∃ s1 q' t',
    dart__tasking__enqueue_runnable tid (Some a) s = Some (tt, s1)
    ∧ task_queue s1 = <[task_numa_node t s := q']> (task_queue s)
    ∧ tq_rep (tasks s1) q'
        (enqueued_high (λ x l, x :: l) (prio t) a lh)
        (enqueued_low (λ x l, x :: l) (prio t) a ll)
    ∧ tasks s1 !! a = Some t' ∧ state t' = DART_TASK_QUEUED
    ∧ thread_pool s1 = thread_pool s
    ∧ trace s1 = EvWakeupThread :: trace s.
Proof.
  intros Hc Ht Hst Hud Hur Hdef Hcomm Himm Hth Hno Hq Hrep Ha.
  destruct s as [h run canc tp tqs ldt nu rn fl tpn trc]; simpl in *.
  subst canc. unfold dart__tasking__enqueue_runnable.
  tstep. tstep. rewrite Hst. simpl.
  unfold dart_tasking_datadeps_is_runnable. rewrite Hud, Hur. simpl.
  do 5 tstep.
  match goal with |- context [ptr_eqb ?x ?y && negb ?b] =>
    assert (ptr_eqb x y && negb b = false) as -> end.
  { destruct Hdef as [Hp|Hp].
    - unfold ptr_eqb. by rewrite bool_decide_eq_false_2.
    - rewrite Hp. simpl. apply andb_false_r. }
  tstep.
  change (DART_TASK_HAS_FLAG (set_state DART_TASK_QUEUED t) DART_TASK_IS_COMMTASK)
    with (DART_TASK_HAS_FLAG t DART_TASK_IS_COMMTASK).
  change (DART_TASK_HAS_FLAG (set_state DART_TASK_QUEUED t) DART_TASK_IMMEDIATE)
    with (DART_TASK_HAS_FLAG t DART_TASK_IMMEDIATE).
  rewrite Hcomm, Himm. simpl. tstep.
  rewrite (run_bind _ _ _ th _) by (unfold get_thread; simpl; by rewrite Hth).
  tstep. unfold task_numa_node in *. simpl in *.
  set (node := match numaptr t with
               | Some p => if rn then dart__tasking__affinity_ptr_numa_node p
                           else 0%nat
               | None => 0%nat
               end) in *.
  assert ((if negb (is_utility_thread th) && bool_decide (node = numa_id th)
           then put_first_slot (Some a) (queue th) else None) = None) as ->.
  { destruct Hno as [->|[Hn|Hf]]; [done| |].
    - rewrite (bool_decide_eq_false_2 _ Hn). by rewrite andb_false_r.
    - rewrite put_first_slot_full by done. by destruct (_ && _). }
  destruct (push_unsafe_spec (<[a := set_state DART_TASK_QUEUED t]> h) q lh ll a
              (set_state DART_TASK_QUEUED t))
    as (q' & h' & E & Hrep' & Hrel).
  { eapply tq_rep_frame; [|exact Hrep]. intros y Hy.
    rewrite lookup_insert_ne; [done|]. intros ->. done. }
  { by rewrite lookup_insert_eq. }
  { done. }
  erewrite run_bind.
  2:{ apply (on_queue_enqueue _ _ q
               (λ q, dart_tasking_taskqueue_push q (Some a)) q' h');
        [exact Hq|exact E]. }
  unfold log, s_set_trace, s_set_task_queue, s_set_tasks. simpl.
  destruct Hrel as [_ Hrel]. specialize (Hrel a).
  rewrite lookup_insert_eq in Hrel.
  destruct (h' !! a) as [t'|] eqn:Ht'; [|done].
  eexists _, q', t'. split; [reflexivity|]. simpl. split_and!; try done.
  apply (f_equal (fmap state)) in Hrel. simpl in Hrel. by injection Hrel.
Qed.

(** X19: outside a cancellation, [dart__tasking__enqueue_runnable] refuses
    every task that is neither SUSPENDED nor CREATED with all its
    dependencies resolved. For a task in any other state (QUEUED, DEFERRED,
    RUNNING, BLOCKED, FINISHED, ...) and for a CREATED task that still has
    an unresolved local or remote dependency, the call returns with the
    scheduler state unchanged; so a second call for a task that is already
    QUEUED or DEFERRED does nothing. SUSPENDED tasks are outside this
    statement. *)
Theorem enqueue_runnable_refuses (tid : nat) (a : addr) (s : sched)
    (t : dart_task_t) :
  cancel_requested s = false →
  tasks s !! a = Some t →
  state t ≠ DART_TASK_SUSPENDED →
  (state t ≠ DART_TASK_CREATED
   ∨ unresolved_deps t ≠ 0 ∨ unresolved_remote_deps t ≠ 0) →
  dart__tasking__enqueue_runnable tid (Some a) s = Some (tt, s).
Proof.
  intros Hc Ht Hsus Hno.
  destruct s as [h run canc tp tqs ldt nu rn fl tpn trc]; simpl in *.
  subst canc. unfold dart__tasking__enqueue_runnable.
  tstep. tstep.
  destruct (decide (state t = DART_TASK_DEFERRED)) as [Hd|Hd].
  { rewrite (bool_decide_eq_true_2 _ Hd). done. }
  rewrite (bool_decide_eq_false_2 _ Hd).
  rewrite (bool_decide_eq_false_2 _ Hsus).
  destruct (decide (state t = DART_TASK_CREATED)) as [Hcr|Hcr].
  - rewrite (bool_decide_eq_true_2 _ Hcr).
    unfold dart_tasking_datadeps_is_runnable.
    assert ((unresolved_deps t =? 0) && (unresolved_remote_deps t =? 0) = false)
      as ->.
    { destruct Hno as [?|[Hu|Hu]]; [done| |].
      - apply Z.eqb_neq in Hu. by rewrite Hu.
      - apply Z.eqb_neq in Hu. rewrite Hu. apply andb_false_r. }
    tstep. done.
  - rewrite (bool_decide_eq_false_2 _ Hcr). tstep. done.
Qed.

End Enqueue.

(** * Further properties: yield *)

Section YieldHandOver.
Context `{dart_constants} `{dart_externals}.

Lemma next_task_own_slot (tid : nat) (s : sched) (th : dart_thread_t)
    (b : addr) (slots' : list ptr) :
  thread_pool s !! tid = Some (Some th) →
  thread_next_task th = NULL →
  take_first_slot (queue th) = (Some b, slots') →
  next_task tid s
  = Some (Some b,
          s_set_thread_pool (<[tid := Some (th_set_queue slots' th)]> (thread_pool s)) s).
Proof.
  intros Hth Hnt Hslot. unfold next_task.
  rewrite (run_bind _ _ s th s) by (unfold get_thread; by rewrite Hth).
  rewrite Hnt. simpl. unfold next_task_thread. rewrite run_assoc.
  rewrite (run_bind _ _ s th s) by (unfold get_thread; by rewrite Hth).
  rewrite Hslot. unfold mbind, SchedM_bind, modify_thread. rewrite Hth. done.
Qed.

Lemma next_task_handed_over (tid : nat) (s : sched) (th : dart_thread_t)
    (b : addr) :
  thread_pool s !! tid = Some (Some th) →
  thread_next_task th = Some b →
  next_task tid s
  = Some (Some b,
          s_set_thread_pool
            (<[tid := Some (th_set_thread_next_task NULL th)]> (thread_pool s)) s).
Proof.
  intros Hth Hnt. unfold next_task.
  rewrite (run_bind _ _ s th s) by (unfold get_thread; by rewrite Hth).
  rewrite Hnt. simpl. unfold mbind, SchedM_bind, modify_thread. rewrite Hth. done.
Qed.

(** X20: a task (not the root task, not inline, not blocked, without a wait
    handle) that yields while a task waits in a hot slot of its worker is
    marked SUSPENDED and the worker is handed the waiting task in
    [thread->next_task]. Back in [handle_task] the worker requeues the
    yielding task in the queue of its NUMA node as the delay says (front
    for 0, back for a negative delay, [task_deque_insert] for a positive
    one) and restores its previous current task; the following
    [next_task] returns the task the yield has picked, whatever the queue
    holds, and clears [thread->next_task]. *)
Theorem yield_hands_over (tid : nat) (d : Z) (s : sched) (th : dart_thread_t)
    (c b : addr) (ct : dart_task_t) (slots' : list ptr) (saved : ptr)
    (q : dart_taskqueue_t) (lh ll : list addr) :
  threads_running s = true → cancel_requested s = false →
  thread_pool s !! tid = Some (Some th) →
  current_task th = Some c → c ≠ root_task →
  tasks s !! c = Some ct →
  DART_TASK_HAS_FLAG ct DART_TASK_INLINE = false →
  state ct ≠ DART_TASK_BLOCKED → wait_handle ct = false →
  thread_next_task th = NULL →
  take_first_slot (queue th) = (Some b, slots') →
  task_queue s !! numa_id th = Some q →
  tq_rep (tasks s) q lh ll → c ∉ lh ++ ll →
  let g := if d =? 0 then (λ x l, x :: l)
           else if 0 <? d then inserted (Z.to_nat d)
           else (λ x l, l ++ [x]) in
  ∃ s2 s3 s4 q' th4,
    dart__tasking__yield tid d s = YieldSwap s2
    ∧ handle_task_returned tid saved s2 = Some (BranchRequeued, s3)
    ∧ task_queue s3 = <[numa_id th := q']> (task_queue s)
    ∧ tq_rep (tasks s3) q' (enqueued_high g (prio ct) c lh)
                           (enqueued_low g (prio ct) c ll)
    ∧ next_task tid s3 = Some (Some b, s4)
    ∧ tasks s4 = tasks s3 ∧ task_queue s4 = task_queue s3
    ∧ thread_pool s4 = <[tid := Some th4]> (thread_pool s)
    ∧ current_task th4 = saved ∧ thread_next_task th4 = NULL
    ∧ queue th4 = slots'.
Proof.
  intros Hrun Hc Hth Hcur Hroot Hct Hinl Hbl Hwh Hnt Hslot Hq Hrep Hcl g.
  assert (tid < length (thread_pool s))%nat as Hlt by (by eapply lookup_lt_Some).
  unfold dart__tasking__yield.
  rewrite Hrun. simpl. unfold get_thread at 1. rewrite Hth.
  unfold dart__tasking__cancellation_requested. rewrite Hc, Hcur.
  unfold deref at 1. rewrite Hct, Hinl.
  rewrite (bool_decide_eq_false_2 _ Hbl).
  rewrite (run_bind _ _ s (Some b) _ (next_task_own_slot _ _ _ _ _ Hth Hnt Hslot)).
  simpl.
  unfold ptr_eqb. rewrite bool_decide_eq_false_2 by congruence. rewrite Hwh.
  set (th1 := th_set_queue slots' th).
  set (th2 := th_set_thread_next_task (Some b) (th_set_delay d th1)).
  set (ct2 := set_state DART_TASK_SUSPENDED ct).
  destruct s as [h run canc tp tqs ldt nu rn fl tpn trc]; simpl in *.
  set (s2 := mkSched (<[c := ct2]> h) run canc (<[tid := Some th2]> tp) tqs ldt
                     nu rn fl tpn trc).
  assert (∀ X, match X with
               | Some (true, s0) => YieldRunDirect (Some b) s0
               | Some (false, s0) => YieldSwap s0
               | None => YieldFault
               end = YieldSwap s2 ↔ X = Some (false, s2)) as Hm.
  { intros [[[] ?]|]; split; intros E; by simplify_eq. }
  match goal with |- ∃ _ _ _ _ _, match ?X with _ => _ end = _ ∧ _ =>
    assert (X = Some (false, s2)) as -> end.
  { unfold mbind, SchedM_bind, modify_thread, s_set_thread_pool. simpl.
    rewrite list_lookup_insert_eq by done. simpl.
    unfold on_tasks, assign. simpl. rewrite Hct. simpl.
    unfold get_thread. simpl.
    rewrite list_lookup_insert_eq by (by rewrite length_insert). simpl.
    rewrite Hnt. simpl.
    rewrite list_lookup_insert_eq by (by rewrite length_insert). simpl.
    rewrite !list_insert_insert_eq. reflexivity. }
  assert (thread_pool s2 !! tid = Some (Some th2)) as Hth2.
  { subst s2. simpl. by rewrite list_lookup_insert_eq. }
  destruct (requeue_task_spec tid s2 th2 c ct2 q lh ll) as (q' & h' & Erq & Hrep').
  { exact Hth2. }
  { subst s2. simpl. by rewrite lookup_insert_eq. }
  { subst s2 th2 th1. simpl. done. }
  { subst s2. simpl. eapply tq_rep_frame; [|exact Hrep]. intros y Hy.
    rewrite lookup_insert_ne; [done|]. intros ->. done. }
  { done. }
  set (th3 := th_set_current_task saved th2).
  set (s3 := s_set_thread_pool (<[tid := Some th3]> (thread_pool s2))
               (s_set_task_queue (<[numa_id th2 := q']> (task_queue s2))
                  (s_set_tasks h' s2))).
  exists s2, s3, (s_set_thread_pool
                    (<[tid := Some (th_set_thread_next_task NULL th3)]>
                       (thread_pool s3)) s3), q',
         (th_set_thread_next_task NULL th3).
  split; [done|]. split.
  { unfold handle_task_returned.
    rewrite (run_bind _ _ s2 th2 s2) by (unfold get_thread; by rewrite Hth2).
    change (current_task th2) with (current_task th). rewrite Hcur.
    rewrite (run_bind _ _ s2 ct2 s2).
    2:{ apply on_tasks_deref. subst s2. simpl. by rewrite lookup_insert_eq. }
    simpl. rewrite (run_bind _ _ _ _ _ Erq).
    unfold set_current_task, mbind, SchedM_bind, modify_thread. simpl.
    rewrite list_lookup_insert_eq by done. reflexivity. }
  split; [done|]. split.
  { subst s3. simpl. subst g. exact Hrep'. }
  split.
  { apply next_task_handed_over; [|done].
    subst s3. simpl. apply list_lookup_insert_eq. by rewrite length_insert. }
  subst s3. simpl. rewrite !list_insert_insert_eq. done.
Qed.

(** X21: a yield that finds no task to run forces one round of remote
    progress and looks again; when there is still no task it returns
    DART_OK and the task simply goes on: it is not suspended, nothing is
    queued, and the only changes are those of the remote progress. On a
    single unit there is no remote progress and the state stays as it
    was. *)
Theorem yield_without_task (tid : nat) (d : Z) (s s1 : sched)
    (th thl th1 thl1 : dart_thread_t) (c : addr) (ct : dart_task_t) :
  threads_running s = true → cancel_requested s = false →
  thread_pool s !! tid = Some (Some th) →
  current_task th = Some c →
  tasks s !! c = Some ct →
  DART_TASK_HAS_FLAG ct DART_TASK_INLINE = false →
  state ct ≠ DART_TASK_BLOCKED →
  thread_pool s !! last_steal_thread_id th = Some (Some thl) →
  (∀ i th', thread_pool s !! i = Some (Some th') →
     (numa_id th' < length (task_queue s))%nat) →
  no_task_for tid s →
  remote_progress tid true s = Some (tt, s1) →
  thread_pool s1 !! tid = Some (Some th1) →
  thread_pool s1 !! last_steal_thread_id th1 = Some (Some thl1) →
  (∀ i th', thread_pool s1 !! i = Some (Some th') →
     (numa_id th' < length (task_queue s1))%nat) →
  no_task_for tid s1 →
  dart__tasking__yield tid d s = YieldReturn DART_OK s1
  ∧ (num_units s = 1 → s1 = s).
Proof.
  intros Hrun Hc Hth Hcur Hct Hinl Hbl Hthl Hnuma Hidle Hrp Hth1 Hthl1 Hnuma1 Hidle1.
  split.
  - unfold dart__tasking__yield.
    rewrite Hrun. simpl. unfold get_thread at 1. rewrite Hth.
    unfold dart__tasking__cancellation_requested. rewrite Hc, Hcur.
    unfold deref at 1. rewrite Hct, Hinl.
    rewrite (bool_decide_eq_false_2 _ Hbl).
    rewrite (run_bind _ _ s NULL s).
    2:{ by apply (next_task_NULL tid s s th thl). }
    simpl. rewrite (run_bind _ _ s tt s1 Hrp).
    assert (next_task tid s1 = Some (NULL, s1)) as ->.
    { by apply (next_task_NULL tid s1 s1 th1 thl1). }
    done.
  - intros Hone. unfold remote_progress in Hrp.
    rewrite (run_bind _ _ s s s) in Hrp by done.
    rewrite Hone in Hrp. simpl in Hrp. by injection Hrp.
Qed.

End YieldHandOver.

Lemma next_task_null_iff_no_task_witness :
  next_task 1 (example_sched_inline false)
  = Some (NULL, example_sched_inline false)
  ↔ no_task_for 1 (example_sched_inline false)
    ∧ example_sched_inline false = example_sched_inline false.
Proof.
  apply (next_task_null_iff_no_task 1 (example_sched_inline false)
           (example_sched_inline false)
           (example_thread 1 (Some 6%positive) [NULL; NULL])
           (example_thread 0 (Some 100%positive) [NULL; NULL])).
  - reflexivity.
  - reflexivity.
  - intros [|[|i]] th'; simpl; intros [= <-]; simpl; lia.
Defined.

Lemma enqueue_runnable_then_next_task_witness :
  ∃ s1,
    dart__tasking__enqueue_runnable (H := example_constants)
      (H0 := example_externals) 1 (Some 1%positive)
      (example_sched true false example_heap dart_tasking_taskqueue_init
         (Some 4%positive) [NULL; NULL])
    = Some (tt, s1)
    ∧ next_task 1 s1
      = Some (Some 1%positive,
              example_sched true false
                (<[1%positive := set_state DART_TASK_QUEUED (example_task 0)]>
                   example_heap)
                dart_tasking_taskqueue_init (Some 4%positive) [NULL; NULL]).
Proof.
  destruct (enqueue_runnable_then_next_task (H := example_constants)
              (H0 := example_externals) 1 1%positive
              (example_sched true false example_heap dart_tasking_taskqueue_init
                 (Some 4%positive) [NULL; NULL])
              (example_task 0) (example_thread 1 (Some 4%positive) [NULL; NULL])
              [NULL])
    as (s1 & E & _ & _ & Hn); try reflexivity.
  - left. done.
  - exists s1. split; [exact E|exact Hn].
Defined.

Lemma enqueue_runnable_overflows_to_queue_witness :
  ∃ s1 q',
    dart__tasking__enqueue_runnable (H := example_constants)
      (H0 := example_externals) 1 (Some 1%positive)
      (example_sched true false example_heap dart_tasking_taskqueue_init
         (Some 4%positive) [Some 5%positive; Some 2%positive])
    = Some (tt, s1)
    ∧ task_queue s1 = [q']
    ∧ tq_rep (H := example_constants) (tasks s1) q' [] [1%positive]
    ∧ trace s1 = [EvWakeupThread].
Proof.
  destruct (enqueue_runnable_overflows_to_queue (H := example_constants)
              (H0 := example_externals) 1 1%positive
              (example_sched true false example_heap dart_tasking_taskqueue_init
                 (Some 4%positive) [Some 5%positive; Some 2%positive])
              (example_task 0)
              (example_thread 1 (Some 4%positive) [Some 5%positive; Some 2%positive])
              dart_tasking_taskqueue_init [] [])
    as (s1 & q' & t' & E & Hq & Hrep & _ & _ & _ & Htr); try reflexivity.
  - left. done.
  - right. right. repeat constructor; done.
  - apply (tq_rep_init (H := example_constants)).
  - apply not_elem_of_nil.
  - exists s1, q'. split; [exact E|]. split; [exact Hq|]. split; [exact Hrep|].
    exact Htr.
Defined.

Lemma enqueue_runnable_refuses_witness :
  dart__tasking__enqueue_runnable (H := example_constants)
    (H0 := example_externals) 1 (Some 4%positive)
    (example_sched true false example_heap dart_tasking_taskqueue_init
       (Some 4%positive) [NULL; NULL])
  = Some (tt, example_sched true false example_heap dart_tasking_taskqueue_init
                (Some 4%positive) [NULL; NULL]).
Proof.
  apply (enqueue_runnable_refuses (H := example_constants)
           (H0 := example_externals) 1 4%positive _ (example_running 0 [])).
  - reflexivity.
  - reflexivity.
  - done.
  - left. done.
Defined.

Lemma yield_hands_over_witness :
  ∃ s2 s3 s4 q',
    dart__tasking__yield (H := example_constants) (H0 := example_externals)
      1 0 example_sched_yield_empty = YieldSwap s2
    ∧ handle_task_returned (H := example_constants) 1 (Some 100%positive) s2
      = Some (BranchRequeued, s3)
    ∧ tq_rep (H := example_constants) (tasks s3) q' [] [4%positive]
    ∧ next_task 1 s3 = Some (Some 5%positive, s4).
Proof.
  destruct (yield_hands_over (H := example_constants) (H0 := example_externals)
              1 0 example_sched_yield_empty
              (example_thread 1 (Some 4%positive) [Some 5%positive; NULL])
              4%positive 5%positive (example_running 0 []) [NULL; NULL]
              (Some 100%positive) dart_tasking_taskqueue_init [] [])
    as (s2 & s3 & s4 & q' & th4 & Ey & Eh & _ & Hrep & En & _);
    try reflexivity; try done.
  - apply (tq_rep_init (H := example_constants)).
  - apply not_elem_of_nil.
  - exists s2, s3, s4, q'. split; [exact Ey|]. split; [exact Eh|].
    split; [exact Hrep|exact En].
Defined.

Lemma yield_without_task_witness :
  dart__tasking__yield (H := example_constants) (H0 := example_externals) 1 0
    (example_sched true false example_heap dart_tasking_taskqueue_init
       (Some 4%positive) [NULL; NULL])
  = YieldReturn DART_OK
      (s_set_trace [EvRemoteProgress]
         (example_sched true false example_heap dart_tasking_taskqueue_init
            (Some 4%positive) [NULL; NULL])).
Proof.
  apply (yield_without_task (H := example_constants) (H0 := example_externals)
           1 0 _ _
           (example_thread 1 (Some 4%positive) [NULL; NULL])
           (example_thread 0 (Some 100%positive) [NULL; NULL])
           (example_thread 1 (Some 4%positive) [NULL; NULL])
           (example_thread 0 (Some 100%positive) [NULL; NULL])
           4%positive (example_running 0 [])); try reflexivity; try done.
  - intros [|[|i]] th'; simpl; intros [= <-]; simpl; lia.
  - unfold no_task_for. simpl. split_and!.
    + by intros th' [= <-].
    + intros [|[|i]] th'; simpl; intros [= <-]; repeat constructor.
    + repeat constructor.
  - intros [|[|i]] th'; simpl; intros [= <-]; simpl; lia.
  - unfold no_task_for. simpl. split_and!.
    + by intros th' [= <-].
    + intros [|[|i]] th'; simpl; intros [= <-]; repeat constructor.
    + repeat constructor.
Defined.

(** * Further properties: remote progress *)

Section RemoteProgress.
Context `{dart_constants} `{dart_externals}.

Lemma round_double_exact (z : Z) : z < 2 ^ 53 → round_double z = z.
Proof.
  intros Hz. unfold round_double.
  by assert ((z <? 2 ^ 53) = true) as -> by (by apply Z.ltb_lt).
Qed.

(** X22: [remote_progress] compares the time stamps as doubles. While the
    time stamps are exact as doubles (the last progress plus the interval
    and the current time are below 2^53 microseconds), an unforced call
    makes progress only while the last progress is at most
    [REMOTE_PROGRESS_INTERVAL_USEC] (10 ms) old: once more than that has
    passed it returns with the state unchanged, and within the interval it
    does what a forced call does. A forced call on more than one unit
    makes remote progress and stores the current time as the time of the
    last progress. On a single unit no call makes remote progress, forced
    or not. *)
Theorem remote_progress_interval (tid : nat) (s : sched) (th : dart_thread_t) :
  thread_pool s !! tid = Some (Some th) →
  0 ≤ last_progress_ts th →
  last_progress_ts th + REMOTE_PROGRESS_INTERVAL_USEC < 2 ^ 53 →
  0 ≤ current_time_us s < 2 ^ 53 →
  (num_units s = 1
   ∨ last_progress_ts th + REMOTE_PROGRESS_INTERVAL_USEC < current_time_us s →
   remote_progress tid false s = Some (tt, s))
  ∧ (num_units s = 1 → remote_progress tid true s = Some (tt, s))
  ∧ (current_time_us s ≤ last_progress_ts th + REMOTE_PROGRESS_INTERVAL_USEC →
     remote_progress tid false s = remote_progress tid true s)
  ∧ (num_units s ≠ 1 →
     ∀ thp,
       let sp := remote_progress_effect
                   (s_set_trace (EvRemoteProgress :: trace s) s) in
       thread_pool sp !! tid = Some (Some thp) →
       remote_progress tid true s
       = Some (tt, s_set_thread_pool
                     (<[tid := Some (th_set_last_progress_ts (current_time_us sp)
                                       thp)]> (thread_pool sp)) sp)).
Proof.
  intros Hth Hlast Hsum Hnow.
  assert (∀ force, remote_progress tid force s
                   = if num_units s =? 1 then Some (tt, s)
                     else if force || (current_time_us s <=?
                                       last_progress_ts th
                                       + REMOTE_PROGRESS_INTERVAL_USEC)
                          then (log EvRemoteProgress;;
                                update_state remote_progress_effect;;
                                s' ← get_state;
                                modify_thread tid
                                  (th_set_last_progress_ts (current_time_us s'))) s
                          else Some (tt, s)) as Hrp.
  { intros force. unfold remote_progress.
    rewrite (run_bind _ _ s s s) by done.
    destruct (num_units s =? 1); [done|].
    rewrite (run_bind _ _ s th s) by (unfold get_thread; by rewrite Hth).
    rewrite (round_double_exact (current_time_us s)) by lia.
    rewrite (round_double_exact (last_progress_ts th))
      by (unfold REMOTE_PROGRESS_INTERVAL_USEC in Hsum; lia).
    rewrite (round_double_exact _ Hsum).
    by destruct (force || _). }
  split_and!.
  - intros Hskip.
    rewrite Hrp. destruct (Z.eqb_spec (num_units s) 1) as [|Hne]; [done|].
    destruct Hskip as [?|Hlate]; [done|]. simpl.
    assert ((current_time_us s <=? last_progress_ts th
                                   + REMOTE_PROGRESS_INTERVAL_USEC) = false)
      as -> by (apply Z.leb_gt; lia).
    done.
  - intros Hone. rewrite Hrp, Hone. done.
  - intros Hsoon. rewrite !Hrp. destruct (num_units s =? 1); [done|]. simpl.
    assert ((current_time_us s <=? last_progress_ts th
                                   + REMOTE_PROGRESS_INTERVAL_USEC) = true)
      as -> by (apply Z.leb_le; lia).
    done.
  - intros Hmany thp sp Hthp. rewrite Hrp.
    destruct (Z.eqb_spec (num_units s) 1) as [|_]; [done|]. simpl.
    unfold mbind, SchedM_bind, log, update_state, get_state, modify_thread.
    fold sp. by rewrite Hthp.
Qed.

End RemoteProgress.

Lemma remote_progress_interval_witness :
  remote_progress (H0 := example_externals_late) 1 false example_sched_stale
  = Some (tt, example_sched_stale).
Proof.
  destruct (remote_progress_interval (H0 := example_externals_late) 1
              example_sched_stale
              (mkThread 1 0 (Some 4%positive) NULL 0 [NULL; NULL] 0 false
                        5000 0) eq_refl)
    as (Hskip & _).
  - simpl. lia.
  - unfold REMOTE_PROGRESS_INTERVAL_USEC. simpl. lia.
  - simpl. lia.
  - apply Hskip. right. unfold REMOTE_PROGRESS_INTERVAL_USEC. simpl. lia.
Defined.

(** * Further properties: the end of a task *)

Section DestroyProofs.
Context `{dart_constants} `{dart_externals} `{dart_datadeps}.

Lemma tasklist_push_Some (o : nat) (a : addr) (s : sched) (l : list addr) :
  task_free_lists s !! o = Some l →
  tasklist_push (Z.of_nat o) a s
  = Some (tt, s_set_task_free_lists (<[o := a :: l]> (task_free_lists s)) s).
Proof.
  intros Hl. unfold tasklist_push.
  assert ((Z.of_nat o <? 0) = false) as -> by (apply Z.ltb_ge; lia).
  by rewrite Nat2Z.id, Hl.
Qed.

(** What [dart__tasking__destroy_task] does to a task in memory. *)
Lemma destroy_task_spec (a : addr) (s : sched) (t : dart_task_t) (o : nat)
    (l : list addr) :
  tasks s !! a = Some t →
  owner (dart_tasking_datadeps_reset t) = Z.of_nat o →
  task_free_lists s !! o = Some l →
  dart__tasking__destroy_task (Some a) s
  = Some (if dart__tasking__is_root_task (parent t) then [phase t] else [],
          s_set_task_free_lists (<[o := a :: l]> (task_free_lists s))
            (s_set_tasks
               (<[a := set_state DART_TASK_DESTROYED
                         (dart_tasking_datadeps_reset t)]> (tasks s)) s)).
Proof.
  intros Ht Ho Hl.
  destruct s as [h run canc tp tqs ldt nu rn fl tpn trc]; simpl in *.
  unfold dart__tasking__destroy_task.
  do 4 tstep. rewrite Ho.
  erewrite run_bind.
  2:{ apply (tasklist_push_Some o a _ l). exact Hl. }
  unfold mret, SchedM_ret, s_set_task_free_lists. simpl.
  by rewrite insert_insert_eq.
Qed.


(** [create_task] on a thread whose free list holds a descriptor. *)
Lemma create_task_recycles (tid : nat) (data_size prio_arg : Z) (s : sched)
    (a c : addr) (rest : list addr) (t pt : dart_task_t) (th : dart_thread_t) :
  task_free_lists s !! tid = Some (a :: rest) →
  tasks s !! a = Some t →
  thread_pool s !! tid = Some (Some th) →
  current_task th = Some c → c ≠ a →
  tasks s !! c = Some pt →
  ∃ s2 t2,
    create_task tid data_size prio_arg s = Some (Some a, s2)
    ∧ tasks s2 !! a = Some t2
    ∧ instance t2 = instance t + 1 ∧ owner t2 = owner t
    ∧ state t2 = DART_TASK_NASCENT ∧ parent t2 = Some c
    ∧ num_children t2 = 0
    ∧ DART_TASK_HAS_FLAG t2 DART_TASK_HAS_REF = false
    ∧ task_free_lists s2 = <[tid := rest]> (task_free_lists s)
    ∧ (∀ b, b ≠ a → tasks s2 !! b = tasks s !! b)
    ∧ thread_pool s2 = thread_pool s ∧ task_queue s2 = task_queue s.
Proof.
  intros Hfl Ht Hth Hcur Hne Hpt.
  destruct s as [h run canc tp tqs ldt nu rn fl tpn trc]; simpl in *.
  unfold create_task, allocate_task.
  destruct ((0 <? data_size) && (DART_TASK_VAR_SPACE <? data_size)),
    (prio_arg =? DART_PRIO_PARENT), (prio_arg =? DART_PRIO_INLINE),
    (decide (state pt = DART_TASK_ROOT)) as [Hrs|Hrs];
  (simpl;
    unfold mbind at 1, SchedM_bind; simpl; rewrite Hfl; simpl;
    unfold mbind at 1, SchedM_bind, get_thread; simpl; rewrite Hth; simpl;
    rewrite Hcur;
    unfold s_set_tasks, s_set_trace, s_set_task_free_lists, s_set_taskpool_next;
    simpl);
  repeat first [ rewrite (bool_decide_eq_true_2 _ Hrs)
               | rewrite (bool_decide_eq_false_2 _ Hrs)
               | tstep ];
  unfold mret, SchedM_ret;
  (eexists _, _; split; [reflexivity|]; simpl; split_and!;
   [ by rewrite lookup_insert_eq
   | done | done | done | done | done
   | first [ done | reflexivity
           | unfold DART_TASK_HAS_FLAG; simpl; apply bool_decide_eq_false_2;
             set_solver ]
   | done
   | intros b Hb; by rewrite !lookup_insert_ne by done
   | done.. ]).
Qed.


(** X23: [dart__tasking__taskref_free] on the reference of a finished task
    destroys the task and clears the reference: the descriptor is marked
    DESTROYED and pushed on the free list of the thread that owns it
    (whatever thread makes the call), and it is taken out of its phase when
    its parent is the root task. The next [create_task] of the owning
    thread reuses this descriptor: same owner, instance counter one higher
    than before, no HAS_REF flag, and the free list is as it was. This
    relies on [dart_tasking_datadeps_reset] leaving the owner and the
    instance counter alone. *)
Theorem taskref_free_finished_recycles (a c : addr) (s : sched)
    (t pt : dart_task_t) (o : nat) (l : list addr) (th : dart_thread_t)
    (data_size prio_arg : Z) :
  (∀ t', owner (dart_tasking_datadeps_reset t') = owner t'
         ∧ instance (dart_tasking_datadeps_reset t') = instance t') →
  tasks s !! a = Some t →
  state t = DART_TASK_FINISHED →
  owner t = Z.of_nat o →
  task_free_lists s !! o = Some l →
  thread_pool s !! o = Some (Some th) →
  current_task th = Some c → c ≠ a →
  tasks s !! c = Some pt →
  ∃ s1 s2 t1 t2,
    dart__tasking__taskref_free (Some (Some a)) s
    = Some ((DART_OK, Some NULL,
             if dart__tasking__is_root_task (parent t) then [phase t] else []),
            s1)
    ∧ tasks s1 !! a = Some t1 ∧ state t1 = DART_TASK_DESTROYED
    ∧ task_free_lists s1 = <[o := a :: l]> (task_free_lists s)
    ∧ create_task o data_size prio_arg s1 = Some (Some a, s2)
    ∧ tasks s2 !! a = Some t2
    ∧ instance t2 = instance t + 1 ∧ owner t2 = owner t
    ∧ state t2 = DART_TASK_NASCENT
    ∧ DART_TASK_HAS_FLAG t2 DART_TASK_HAS_REF = false
    ∧ task_free_lists s2 = task_free_lists s.
Proof.
  intros Hreset Ht Hfin Ho Hl Hth Hcur Hne Hpt.
  set (t0 := DART_TASK_UNSET_FLAG DART_TASK_HAS_REF t).
  set (s0 := s_set_tasks (<[a := t0]> (tasks s)) s).
  destruct (Hreset t0) as [Hro Hri].
  pose proof (destroy_task_spec a s0 t0 o l) as Hd.
  rewrite Hro in Hd. simpl in Hd. rewrite lookup_insert_eq in Hd.
  specialize (Hd eq_refl Ho Hl).
  set (s1 := s_set_task_free_lists (<[o := a :: l]> (task_free_lists s0))
               (s_set_tasks
                  (<[a := set_state DART_TASK_DESTROYED
                            (dart_tasking_datadeps_reset t0)]> (tasks s0)) s0))
    in *.
  assert (o < length (task_free_lists s))%nat as Hlt by (by eapply lookup_lt_Some).
  destruct (create_task_recycles o data_size prio_arg s1 a c l
              (set_state DART_TASK_DESTROYED (dart_tasking_datadeps_reset t0))
              pt th)
    as (s2 & t2 & Ec & Ht2 & Hi2 & Ho2 & Hs2 & _ & _ & Hf2 & Hfl2 & _).
  { subst s1 s0. simpl. by apply list_lookup_insert_eq. }
  { subst s1 s0. simpl. by rewrite lookup_insert_eq. }
  { subst s1 s0. by destruct s. }
  { done. }
  { done. }
  { subst s1 s0. destruct s. simpl in *. by rewrite !lookup_insert_ne. }
  exists s1, s2, (set_state DART_TASK_DESTROYED (dart_tasking_datadeps_reset t0)), t2.
  split_and!; try done.
  - unfold dart__tasking__taskref_free.
    erewrite run_bind by (apply on_tasks_assign; exact Ht).
    fold t0. fold s0.
    erewrite run_bind.
    2:{ apply on_tasks_deref. subst s0. simpl. by rewrite lookup_insert_eq. }
    change (state t0) with (state t). rewrite (bool_decide_eq_true_2 _ Hfin).
    erewrite run_bind by exact Hd. done.
  - subst s1 s0. simpl. by rewrite lookup_insert_eq.
  - rewrite Hi2. simpl. by rewrite Hri.
  - rewrite Ho2. simpl. by rewrite Hro.
  - rewrite Hfl2. subst s1 s0. destruct s. simpl in *.
    rewrite list_insert_insert_eq. by apply list_insert_id.
Qed.

(** X24: [dart__tasking__taskref_free] returns DART_ERR_INVAL for a NULL
    pointer and for a NULL reference and changes nothing. On the reference
    of a task that has not finished yet it returns DART_OK, removes the
    HAS_REF flag of the task and nothing else; the caller's reference is
    not cleared, and the task is not put on a free list: it is left to the
    worker that completes it. *)
Theorem taskref_free_unfinished (a : addr) (s : sched) (t : dart_task_t) :
  tasks s !! a = Some t →
  state t ≠ DART_TASK_FINISHED →
  dart__tasking__taskref_free None s = Some ((DART_ERR_INVAL, None, []), s)
  ∧ dart__tasking__taskref_free (Some NULL) s
    = Some ((DART_ERR_INVAL, Some NULL, []), s)
  ∧ dart__tasking__taskref_free (Some (Some a)) s
    = Some ((DART_OK, Some (Some a), []),
            s_set_tasks
              (<[a := DART_TASK_UNSET_FLAG DART_TASK_HAS_REF t]> (tasks s)) s)
  ∧ DART_TASK_HAS_FLAG (DART_TASK_UNSET_FLAG DART_TASK_HAS_REF t)
      DART_TASK_HAS_REF = false
  ∧ ∀ f, f ≠ DART_TASK_HAS_REF →
         DART_TASK_HAS_FLAG (DART_TASK_UNSET_FLAG DART_TASK_HAS_REF t) f
         = DART_TASK_HAS_FLAG t f.
Proof.
  intros Ht Hst. split_and!; try done.
  - unfold dart__tasking__taskref_free.
    erewrite run_bind by (apply on_tasks_assign; exact Ht).
    erewrite run_bind.
    2:{ apply on_tasks_deref. simpl. by rewrite lookup_insert_eq. }
    change (state (DART_TASK_UNSET_FLAG DART_TASK_HAS_REF t)) with (state t).
    by rewrite (bool_decide_eq_false_2 _ Hst).
  - unfold DART_TASK_HAS_FLAG, DART_TASK_UNSET_FLAG. simpl.
    apply bool_decide_eq_false_2. rewrite list_elem_of_filter. tauto.
  - intros f Hf. unfold DART_TASK_HAS_FLAG, DART_TASK_UNSET_FLAG. simpl.
    apply bool_decide_ext. rewrite list_elem_of_filter. tauto.
Qed.

(** X25: [dart__tasking__allocate_dummytask] clears the whole descriptor it
    gets from [allocate_task]: the dummy task has owner 0 and instance
    counter 0, whatever thread allocates it and whatever the descriptor held
    before. When such a task is destroyed it therefore goes to the free
    list of thread 0, not to the list of the thread that allocated it. *)
Theorem dummytask_owner_is_reset (tid : nat) (s : sched) (a c : addr)
    (th : dart_thread_t) (pt : dart_task_t) (l0 : list addr) :
  (∀ t', owner (dart_tasking_datadeps_reset t') = owner t') →
  thread_pool s !! tid = Some (Some th) →
  current_task th = Some c → c ≠ a →
  tasks s !! c = Some pt →
  (∃ rest, task_free_lists s !! tid = Some (a :: rest) ∧ is_Some (tasks s !! a))
  ∨ (task_free_lists s !! tid = Some [] ∧ a = taskpool_next s) →
  ∃ s1 t1,
    dart__tasking__allocate_dummytask tid s = Some (Some a, s1)
    ∧ tasks s1 !! a = Some t1
    ∧ state t1 = DART_TASK_DUMMY ∧ parent t1 = Some c
    ∧ owner t1 = 0 ∧ instance t1 = 0
    ∧ (task_free_lists s1 !! 0%nat = Some l0 →
       ∃ taken s2,
         dart__tasking__destroy_task (Some a) s1 = Some (taken, s2)
         ∧ task_free_lists s2 = <[0%nat := a :: l0]> (task_free_lists s1)).
Proof.
  intros Hreset Hth Hcur Hne Hpt Hal.
  assert (∃ s1 t1,
            dart__tasking__allocate_dummytask tid s = Some (Some a, s1)
            ∧ tasks s1 !! a = Some t1
            ∧ state t1 = DART_TASK_DUMMY ∧ parent t1 = Some c
            ∧ owner t1 = 0 ∧ instance t1 = 0) as (s1 & t1 & E & Ht1 & Hrest).
  { destruct s as [h run canc tp tqs ldt nu rn fl tpn trc]; simpl in *.
    unfold dart__tasking__allocate_dummytask, allocate_task.
    destruct (decide (state pt = DART_TASK_ROOT)) as [Hrs|Hrs];
    (destruct Hal as [(rest & Hfl & [t0 Ht0])|[Hfl ->]]; simpl;
      unfold mbind at 1, SchedM_bind; simpl; rewrite Hfl; simpl;
      unfold mbind at 1, SchedM_bind, get_thread; simpl; rewrite Hth; simpl;
      rewrite Hcur;
      unfold s_set_tasks, s_set_trace, s_set_task_free_lists, s_set_taskpool_next;
      simpl);
    repeat first [ rewrite (bool_decide_eq_true_2 _ Hrs)
                 | rewrite (bool_decide_eq_false_2 _ Hrs)
                 | tstep ];
    unfold mret, SchedM_ret;
    (eexists _, _; split; [reflexivity|]; simpl; split_and!;
     [ by rewrite lookup_insert_eq | done.. ]). }
  exists s1, t1. split_and!; try tauto.
  intros Hl0. destruct Hrest as (_ & _ & Hown & _).
  pose proof (destroy_task_spec a s1 t1 0 l0 Ht1) as Hd.
  rewrite Hreset, Hown in Hd. specialize (Hd eq_refl Hl0).
  eexists _, _. split; [exact Hd|]. done.
Qed.

End DestroyProofs.

Lemma taskref_free_finished_recycles_witness :
  ∃ s1 s2 t2,
    dart__tasking__taskref_free (H := example_constants)
      (H1 := example_datadeps) (Some (Some 3%positive)) example_sched_finished
    = Some ((DART_OK, Some NULL, [7]), s1)
    ∧ task_free_lists s1 = [[]; [3%positive]]
    ∧ create_task (H := example_constants) (H0 := example_externals) 1 0 0 s1
      = Some (Some 3%positive, s2)
    ∧ tasks s2 !! 3%positive = Some t2
    ∧ instance t2 = 6.
Proof.
  destruct (taskref_free_finished_recycles (H := example_constants)
              (H0 := example_externals) (H1 := example_datadeps)
              3%positive 4%positive example_sched_finished
              (mkTask NULL NULL 0 [DART_TASK_HAS_REF] DART_TASK_FINISHED
                      (Some 100%positive) false NULL 0 7 0 0 5 1 None)
              (example_running 0 []) 1 []
              (example_thread 1 (Some 4%positive) [NULL; NULL]) 0 0)
    as (s1 & s2 & t1 & t2 & E & _ & _ & Hfl & Ec & Ht2 & Hi & _);
    try reflexivity; try done.
  exists s1, s2, t2. split; [exact E|]. split; [exact Hfl|]. split; [exact Ec|].
  split; [exact Ht2|exact Hi].
Defined.

Lemma taskref_free_unfinished_witness :
  dart__tasking__taskref_free (H := example_constants) (H1 := example_datadeps)
    (Some (Some 4%positive)) example_sched_finished
  = Some ((DART_OK, Some (Some 4%positive), []),
          s_set_tasks
            (<[4%positive := DART_TASK_UNSET_FLAG DART_TASK_HAS_REF
                                (example_running 0 [])]>
               (tasks example_sched_finished)) example_sched_finished).
Proof.
  apply (taskref_free_unfinished (H := example_constants)
           (H1 := example_datadeps) 4%positive example_sched_finished
           (example_running 0 [])).
  - reflexivity.
  - done.
Defined.

Lemma dummytask_owner_is_reset_witness :
  ∃ s1 t1,
    dart__tasking__allocate_dummytask (H := example_constants)
      (H0 := example_externals) 1
      (s_set_task_free_lists [[]; [3%positive]] example_sched_finished)
    = Some (Some 3%positive, s1)
    ∧ tasks s1 !! 3%positive = Some t1
    ∧ owner t1 = 0 ∧ instance t1 = 0.
Proof.
  destruct (dummytask_owner_is_reset (H := example_constants)
              (H0 := example_externals) (H1 := example_datadeps) 1
              (s_set_task_free_lists [[]; [3%positive]] example_sched_finished)
              3%positive 4%positive
              (example_thread 1 (Some 4%positive) [NULL; NULL])
              (example_running 0 []) [])
    as (s1 & t1 & E & Ht1 & _ & _ & Ho & Hi & _); try reflexivity; try done.
  - left. exists []. split; [reflexivity|]. eexists. reflexivity.
  - exists s1, t1. split; [exact E|]. split; [exact Ht1|]. split; [exact Ho|exact Hi].
Defined.

(** * Further properties: the tool interface *)

Module InstrumentExtras.
Import Instrument.

Lemma register_Some (h : hook) (cb_ userdata_ : option Z) (st st1 : state)
    (r : Z) :
  register h cb_ userdata_ st = Some (r, st1) →
  r = 0
  ∧ cb_data_of st1 h = mkCb cb_ userdata_
  ∧ (∀ h', h' ≠ h → cb_data_of st1 h' = cb_data_of st h')
  ∧ calls st1 = calls st
  ∧ ∃ p, userdata_ = Some p ∧ is_Some (ints st !! p).
Proof.
  unfold register. destruct userdata_ as [p|]; [|done]. simpl.
  destruct (ints st !! p) as [v|] eqn:Hp; [|done]. simpl.
  intros [= <- <-]. simpl. unfold set_cb_data. split_and!; try done.
  - by rewrite decide_True.
  - intros h' Hne. by rewrite decide_False.
  - eauto.
Qed.

Lemma calls_call_cb (data : cb_data) (args : list arg) (u : option Z)
    (st : state) :
  calls (call_cb data args u st)
  = match cb data with
    | Some f => (f, args, u) :: calls st
    | None => calls st
    end.
Proof. unfold call_cb. by destruct (cb data). Qed.

(** What an instrumentation function calls. *)
Lemma calls_instrument (c : instrument_call) (st : state) :
  calls (instrument c st)
  = match hook_of c with
    | Some h =>
        match cb (cb_data_of st h) with
        | Some f =>
            (f, args_of c,
             userdata (cb_data_of st (if decide (h = dummy_dep_capture)
                                      then dummy_dep_create else h)))
            :: calls st
        | None => calls st
        end
    | None => calls st
    end.
Proof. destruct c; simpl; try done; apply calls_call_cb. Qed.

(** X26: a callback registered with one of the eleven register functions is
    what the matching instrumentation function calls afterwards: once per
    call, with the arguments of the call in their order (a NULL task name
    replaced by the empty string) and, except for the dummy-dependency
    capture callback, with the user data pointer given at registration.
    Registration does not touch the other ten callbacks, and it does not
    change what their instrumentation functions call (the capture of dummy
    dependencies apart). While no callback is registered, and for the
    cancel and yield hooks always, an instrumentation function calls
    nothing. Registration itself reads an
    int through the user data pointer and faults on a NULL pointer. *)
Theorem instrument_calls_registered (c : instrument_call) (h : hook) (f : Z)
    (userdata_ : option Z) (st st1 : state) (r : Z) :
  hook_of c = Some h → h ≠ dummy_dep_capture →
  register h (Some f) userdata_ st = Some (r, st1) →
  r = 0
  ∧ calls (instrument c st1) = (f, args_of c, userdata_) :: calls st
  ∧ (∀ h', h' ≠ h → cb_data_of st1 h' = cb_data_of st h')
  ∧ (∀ c' h', hook_of c' = Some h' → h' ≠ h → h' ≠ dummy_dep_capture →
       calls (instrument c' st1) = calls (instrument c' st))
  ∧ (∀ c', hook_of c' = None → instrument c' st1 = st1)
  ∧ (∀ c' m, calls (instrument c' (init m)) = [])
  ∧ (∀ cb_, register h cb_ None st = None).
Proof.
  intros Hc Hh Hreg.
  apply register_Some in Hreg as (-> & Hd & Hother & Hcalls & _).
  split_and!.
  - done.
  - rewrite calls_instrument, Hc. rewrite decide_False by done.
    by rewrite Hd, Hcalls.
  - exact Hother.
  - intros c' h' Hc' Hne Hcap. rewrite !calls_instrument, Hc'.
    rewrite decide_False by done. by rewrite (Hother h' Hne), Hcalls.
  - intros c' Hc'. by destruct c'.
  - intros c' m. rewrite calls_instrument. by destruct (hook_of c').
  - done.
Qed.

Lemma instrument_calls_registered_witness :
  ∃ st1,
    dart_tool_register_task_begin (Some 4096) (Some 8) (init example_tool_memory)
    = Some (0, st1)
    ∧ calls (dart__tasking__instrument_task_begin 1 2 3 st1)
      = [(4096, [AInt 1; AInt 2; AInt 3], Some 8)].
Proof.
  destruct (instrument_calls_registered (I_task_begin 1 2 3) task_begin 4096
              (Some 8) (init example_tool_memory)
              (mkState (set_cb_data task_begin (mkCb (Some 4096) (Some 8))
                          (λ _, mkCb None None))
                       example_tool_memory [Printf task_begin (Some 4096) 42])
              0 eq_refl ltac:(done) eq_refl) as (_ & Hcall & _).
  eexists. split; [reflexivity|exact Hcall].
Defined.

(** X27: the callback registered for the capture of a dummy dependency is
    not called with the user data it was registered with, but with the user
    data pointer of the dummy-dependency creation callback: the pointer
    given to the last [dart_tool_register_dummy_dep_create], and NULL when
    that function was never called. *)
Theorem dummy_dep_capture_userdata (f : Z) (userdata_ : option Z)
    (st st1 : state) (r : Z) (task dummy_dep remote_dep task_unitid : Z) :
  dart_tool_register_dummy_dep_capture (Some f) userdata_ st = Some (r, st1) →
  calls (dart__tasking__instrument_dummy_dep_capture task dummy_dep remote_dep
           task_unitid st1)
  = (f, [AInt task; AInt dummy_dep; AInt remote_dep; AInt task_unitid],
     userdata (cb_data_of st dummy_dep_create)) :: calls st
  ∧ (∀ m, st = init m →
       calls (dart__tasking__instrument_dummy_dep_capture task dummy_dep
                remote_dep task_unitid st1)
       = [(f, [AInt task; AInt dummy_dep; AInt remote_dep; AInt task_unitid],
           None)])
  ∧ (∀ g u2 st2 r2,
       dart_tool_register_dummy_dep_create g u2 st1 = Some (r2, st2) →
       calls (dart__tasking__instrument_dummy_dep_capture task dummy_dep
                remote_dep task_unitid st2)
       = (f, [AInt task; AInt dummy_dep; AInt remote_dep; AInt task_unitid], u2)
         :: calls st).
Proof.
  intros Hreg. unfold dart_tool_register_dummy_dep_capture in Hreg.
  apply register_Some in Hreg as (-> & Hd & Hother & Hcalls & _).
  assert (calls (dart__tasking__instrument_dummy_dep_capture task dummy_dep
                   remote_dep task_unitid st1)
          = (f, [AInt task; AInt dummy_dep; AInt remote_dep; AInt task_unitid],
             userdata (cb_data_of st dummy_dep_create)) :: calls st) as Hmain.
  { unfold dart__tasking__instrument_dummy_dep_capture.
    rewrite calls_call_cb, Hd. simpl. rewrite Hother by done. by rewrite Hcalls. }
  split_and!.
  - exact Hmain.
  - intros m ->. exact Hmain.
  - intros g u2 st2 r2 Hreg2. unfold dart_tool_register_dummy_dep_create in Hreg2.
    apply register_Some in Hreg2 as (-> & Hd2 & Hother2 & Hcalls2 & _).
    unfold dart__tasking__instrument_dummy_dep_capture.
    rewrite calls_call_cb, Hother2 by done. rewrite Hd. simpl.
    by rewrite Hd2, Hcalls2, Hcalls.
Qed.

Lemma dummy_dep_capture_userdata_witness :
  ∃ st1,
    dart_tool_register_dummy_dep_capture (Some 4096) (Some 8)
      (init example_tool_memory)
    = Some (0, st1)
    ∧ calls (dart__tasking__instrument_dummy_dep_capture 1 2 3 4 st1)
      = [(4096, [AInt 1; AInt 2; AInt 3; AInt 4], None)].
Proof.
  destruct (dummy_dep_capture_userdata 4096 (Some 8) (init example_tool_memory)
              (mkState (set_cb_data dummy_dep_capture (mkCb (Some 4096) (Some 8))
                          (λ _, mkCb None None))
                       example_tool_memory [Printf dummy_dep_capture (Some 4096) 42])
              0 1 2 3 4 eq_refl) as (Hcall & _).
  eexists. split; [reflexivity|exact Hcall].
Defined.

End InstrumentExtras.
